(* ===== verification/_CoqProject ===== *)
-Q . S2P
Prelude.v
Interfaces.v
Crypto.v
Rfc8439.v
CryptoAead.v
Poly1305.v
Capability.v
Meal.v
Text.v
Persist.v
Json.v
Collector.v
CapDemo.v
Eipc.v
Lattice.v
Ztdf.v
Machine.v
Task.v
Scheduler.v
Net.v
LogBuffer.v
Vmz.v
Frames.v
Paging.v
Elf.v
ElfTotal.v
User.v
Gdt.v
Syscall.v
Ring3.v
Interrupts.v
Locks.v
Cores.v
Framebuffer.v
Smp.v
Trampoline.v
ApBoot.v
StartUp.v
Boot.v
BootLog.v
Launcher.v
