(* ===== verification/Prelude.v ===== *)
(** * Verification of the AXIOM OS kernel

    A shallow embedding of the kernel under [kernel/src/], its build and launch
    programs and the scripts that read its serial log in Rocq, with the
    theorems that make them correct.

    ** The program

    AXIOM OS is a single-image x86-64 kernel.  [kernel_main] ([main.rs])
    initialises the machine and then runs the security subsystems one after
    the other: temporal capabilities ([axiom/capability.rs]), the scheduler
    with side-channel budgets ([scheduler.rs], [task.rs], driven by the timer
    in [interrupts.rs]), encrypted IPC ([eipc.rs]), the audit log
    ([meal.rs]), memory zeroing ([vmz.rs]), the security lattice
    ([lattice.rs]), the driver framework ([ztdf.rs]), the network layer
    ([net.rs]), multi-core start-up ([smp.rs]) and a ring-3 process loaded
    from an ELF file ([elf_loader.rs], [user.rs], [syscall.rs]).  All of them
    report to the audit log; capabilities, the log and IPC are built on
    SHA-256 and HMAC ([crypto.rs]), IPC also on ChaCha20, HKDF
    ([crypto_aead.rs]) and ChaCha20-Poly1305 ([poly1305.rs]).

    ** The files

    - [Prelude]: outcomes (a value, a panic, or fuel used up), the two build
      profiles, machine integers, byte encodings, slices, loops, ring
      buffers; tactics and the hint database [axiom_os].
    - [Interfaces]: what the clients of [crypto.rs] rely on ([HashOps],
      [HashLaws]).  Capabilities, the audit log, key derivation and the
      encrypt-then-HMAC AEAD are proved against these classes.
    - [Crypto]: [crypto.rs], and the instance of [HashLaws].
    - [Rfc8439]: the ChaCha20 and AEAD algorithms of the RFC, transcribed from
      its text, which the next two files are proved against.
    - [CryptoAead]: [crypto_aead.rs].
    - [Poly1305]: [poly1305.rs].
    - [Capability]: [axiom/capability.rs].
    - [Meal]: [meal.rs].  Other components return the audit calls they make
      as a list of [Audit] records; [log_all] makes them.
    - [Text]: the parts of core::fmt the kernel's messages use, and
      [_print] of [serial.rs], against an interface for the UART ([Uart]).
    - [Persist]: the printed form of the log ([print_all] of [meal.rs]) and
      the part of [scripts/meal_persist.py] that reads it back and
      accumulates it over boots; [Json]: the JSON texts, and [Collector]: the
      file and the commands of that script.
    - [CapDemo]: the demonstration of [axiom/capability.rs] and the keyed hash
      of [axiom/demo_crypto.rs].
    - [Eipc]: [eipc.rs].
    - [Lattice]: [lattice.rs].
    - [Ztdf]: [ztdf.rs].
    - [Machine]: memory as a map of cells, with the raw-pointer operations,
      and what the two instruction-level models share.
    - [Task]: [task.rs] and [context_switch.s].
    - [Scheduler]: [scheduler.rs] and the timer handler of [interrupts.rs],
      with sequences of timer interrupts.
    - [Net]: [net.rs].
    - [LogBuffer]: [log_buffer.rs].
    - [Vmz]: [vmz.rs].
    - [Frames]: the frame allocator of [memory.rs].
    - [Paging]: the page-mapper interface ([Paging], [PagingLaws]) the kernel
      uses from the x86_64 crate, an instance over [Frames], and
      [allocator.rs].
    - [Elf]: [elf_loader.rs], against [Paging]; [ElfTotal]: the files on
      which it cannot panic.
    - [User]: [user.rs], and the executable [userspace/hello.elf].
    - [Gdt]: [gdt.rs], with an interface for the x86_64 crate's tables
      ([GdtOps], [GdtLaws]).
    - [Syscall]: [syscall.rs] and [syscall_entry.s].
    - [Ring3]: the installed user program, executed instruction by
      instruction through the page tables and the dispatcher.
    - [Interrupts]: the descriptor table and handlers of [interrupts.rs] and
      the processor's delivery and return ([IdtOps], [IdtLaws]).
    - [Locks]: which locks [serial.rs], [meal.rs], the handlers and
      [kernel_main] take, as a step relation with a typing judgement;
      [Cores]: the same locks between several processors.
    - [Framebuffer]: [framebuffer.rs].
    - [Smp]: [smp.rs]; [Trampoline]: its page-table edit, summary and CPU
      count and the page-table handle of [memory.rs], with the processor's
      page walk as reference.
    - [ApBoot]: the bytes of [AP_TRAMPOLINE_BIN], executed instruction by
      instruction from real mode to [ap_main].
    - [StartUp]: the boot processor and the processors it starts, interleaved
      around the control block of the trampoline page.
    - [Boot]: [kernel_main] of [main.rs], all of the above composed.
    - [BootLog]: the lines [kernel_main] announces its results with, and
      [scripts/verify_boot.py], which reads them; the way of the audit log
      from [kernel_main] to the file of the collecting script.
    - [Launcher]: the build scripts [kernel/build.rs] and [boot/build.rs] and
      the launcher [boot/src/main.rs].

    ** Conventions

    A Rust integer of width [w] is a [Z]; plain arithmetic that can leave its
    range goes through [add], [sub], [mul], which panic or wrap according to
    the [Profile]; [wrapping_*] and [overflowing_*] are [wadd], [oadd] and so
    on.  Lengths and array indices are [nat].  Byte arrays are lists of [Z];
    indexing and slicing return [Panic] out of bounds.  A function that can
    panic returns an [outcome]; a theorem that states [= Ret v] therefore
    says that the code returns, and returns [v], in both profiles unless it
    names one.  Loops without a static bound take fuel: the number of
    remaining bytes in [update] and [poly1305], one more than the capacity of
    the channel in [receive_all], the number of tasks in [find_next], the
    pages of a segment in [load_pages], the length of a table or region in
    [madt_entries] and [scan], the timeout in [lapic_poll], the number of
    digits of a number being printed, twice the length of a JSON text; the
    theorems show that it is never used up.  The executed programs of [Ring3] and [ApBoot] take a number of
    instructions, which their theorems give.  Global state behind a lock is an argument and
    a result; [try_lock] is a boolean argument that says whether the lock is
    held.  The tick counter and heap addresses are arguments.

    ** What is shown

    - Cryptography: SHA-256 and HMAC are FIPS 180-4 and RFC 2104 for every
      message, in any chunking; ChaCha20's block function is RFC 8439's and
      its double round is injective; the limb arithmetic of Poly1305 computes
      the polynomial modulo 2^130 - 5 for every key and message; sealing and
      opening round-trip, and opening accepts exactly the RFC's tag.
    - Capabilities: what [verify] and [derive] answer on every input; chains
      of derivations only attenuate; expiry is permanent and inherited; a MAC
      moved to other fields is an HMAC collision.
    - Audit log: [append] refines appending to a history; [verify_chain]
      accepts every such log and, on tampered memory, only contiguous pieces
      of the history, up to HMAC forgery and SHA-256 collisions; removing the
      newest entries is not detected.
    - IPC: the ring refines a bounded FIFO; sending and receiving round-trip
      end to end.
    - Lattice: [verify] accepts every lattice and rejects what is not a
      bounded partial order; on a lattice [meet] and, for labels numbered
      upwards, [join] are the bounds they are documented to be; no downward
      flow; the accepted orders that are not lattices.
    - Drivers: confinement to the specification, for drivers without an
      operation budget: the code never looks at a budget.
    - Scheduling: the search ends with the first ready task, or with none
      exactly when none is ready; round robin, no starvation, the
      exact budget accounting; the context switch restores what it saved.
    - Interrupts: breakpoints and timer ticks that switch no task are
      invisible to the code they interrupt, given that the compiled handlers
      balance their stack and write only the kernel's variables; every other vector halts, with the audit entry it
      leaves; frames stay inside their stacks; descriptors and selectors are
      those the rest of the kernel assumes.
    - Locks: the discipline is type-sound for any number of processors, and
      under it the boot, the timer and the started processors never deadlock
      and no audit entry of the boot is dropped; exceptions are outside it.
    - Network: parsers never panic; headers and frames round-trip.
    - Log ring and memory zeroing: no loss below capacity; zeroing erases.
    - Memory: every usable frame is handed out, once, in order; the heap is backed by fresh
      writable frames; on success the ELF loader has every byte of every
      segment in user pages with the right permissions and touched nothing
      else, and on well-formed files it never panics.
    - User space: the stack and the program are in place when [setup]
      returns; a system call preserves the user's context; the program makes
      its three calls and spins.
    - Multi-core: the table walks end and return the enabled processors;
      exactly those are started, and the total counts those that have reported
      by the time it is read; the trampoline page ends up
      identity-mapped and its neighbours untouched; the trampoline takes a
      processor from real mode to [ap_main] with the stack the kernel
      reserved, and shuts it down when the page is not executable or not
      mapped.  Interleaved with the boot processor, every processor gets its
      own stack, disjoint from the others, and its number as long as the boot
      processor waits for it; when a wait times out, two can share a stack.
      The steps of that interleaving are the stores of [install_trampoline].
    - Boot: [kernel_main] reaches ring 3, every demonstration succeeding, with
      exactly the expected audit history; the history of boot and user
      program together verifies.  The screen fill and when it panics.
    - Tools: the printed log is parsed back into exactly the entries that were
      printed, and the JSON file filled over several boots holds their
      concatenation and is always loaded back; the collector recovers the history of a whole boot; the
      boot announces success in every line that depends on a result, which the
      boot verifier accepts, as it does the lines of
      some unsuccessful ones; the launcher starts the image that the build
      made from the kernel.

    ** Not modelled

    Messages other than the audit log and the announcements of the boot
    (their values are, where code computes them); the UART driver, the heap
    allocator, the bootloader's structures and the tables of the x86_64 crate
    (third-party code, behind interfaces); delays; [smp_trampoline.s], which
    nothing references (the kernel installs [AP_TRAMPOLINE_BIN]); running the
    emulator from the scripts; the host tests, which copy parts of the
    kernel.  The mappings [ApBoot] assumes of the page tables are hypotheses:
    the kernel makes the one for the trampoline page through the mapper of
    the crate; [Trampoline] treats the routine [smp.rs] keeps for it.  Memory
    in [StartUp] is sequentially consistent: the block has one writer, whose
    stores stay in order.  [Boot] keeps the timer out of the boot code:
    [Interrupts] shows that it is transparent there and [Locks] that it
    cannot block it. *)


From Stdlib Require Import ZArith Lia Bool.
From stdpp Require Import base numbers list strings.

#[local] Open Scope Z_scope.

(** ** Outcomes of Rust code

    A call returns a value, panics (a failed bounds check, [expect], an
    arithmetic overflow under overflow checks, a failed [debug_assert!]), or
    is still inside a loop when the fuel the model gives that loop is used
    up.  Theorems state [= Ret _], which excludes both other constructors. *)

Inductive outcome (A : Type) : Type :=
  | Ret (a : A)
  | Panic
  | NoFuel.
Arguments Ret {A} _.
Arguments Panic {A}.
Arguments NoFuel {A}.

#[global] Instance outcome_ret : MRet outcome := λ A a, Ret a.
#[global] Instance outcome_bind : MBind outcome := λ A B f m,
  match m with Ret a => f a | Panic => Panic | NoFuel => NoFuel end.
#[global] Instance outcome_fmap : FMap outcome := λ A B f m,
  match m with Ret a => Ret (f a) | Panic => Panic | NoFuel => NoFuel end.

#[global] Instance outcome_eq_dec `{EqDecision A} : EqDecision (outcome A).
Proof. solve_decision. Defined.

Lemma bind_Ret {A B} (a : A) (f : A → outcome B) : (Ret a ≫= f) = f a.
Proof. reflexivity. Qed.

Lemma bind_Ret_inv {A B} (m : outcome A) (f : A → outcome B) b :
  (m ≫= f) = Ret b → ∃ a, m = Ret a ∧ f a = Ret b.
Proof. destruct m; simpl; intros H; [eauto|done|done]. Qed.

Lemma bind_bind {A B C} (m : outcome A) (f : A → outcome B) (g : B → outcome C) :
  ((m ≫= f) ≫= g) = (m ≫= λ a, f a ≫= g).
Proof. by destruct m. Qed.

(** ** Build profile

    The kernel is built both with the dev profile (overflow checks and debug
    assertions on) and with the release profile (both off, arithmetic
    wraps).  Everything that depends on it takes the profile as an argument,
    and theorems hold for every profile unless they name one. *)

Class Profile := { overflow_checks : bool; debug_assertions : bool }.

Definition dev_profile : Profile :=
  {| overflow_checks := true; debug_assertions := true |}.
Definition release_profile : Profile :=
  {| overflow_checks := false; debug_assertions := false |}.

Definition debug_assert `{Profile} (b : bool) : outcome () :=
  if debug_assertions && negb b then Panic else Ret ().

(** ** Machine integers

    A [w]-bit unsigned integer is a [Z] in [[0, 2^w)]. *)

Definition wrap (w z : Z) : Z := z mod 2 ^ w.
Definition uint (w z : Z) : Prop := 0 <= z < 2 ^ w.
Abbreviation u8 := (uint 8).
Abbreviation u16 := (uint 16).
Abbreviation u32 := (uint 32).
Abbreviation u64 := (uint 64).
Abbreviation u128 := (uint 128).

(** Rust's [wrapping_add], [wrapping_sub], [wrapping_mul]. *)
Definition wadd (w a b : Z) : Z := wrap w (a + b).
Definition wsub (w a b : Z) : Z := wrap w (a - b).
Definition wmul (w a b : Z) : Z := wrap w (a * b).

(** Rust's [overflowing_add], [overflowing_sub]: the wrapped value and the flag. *)
Definition oadd (w a b : Z) : Z * bool := (wrap w (a + b), 2 ^ w <=? a + b).
Definition osub (w a b : Z) : Z * bool := (wrap w (a - b), a <? b).

(** Rust's plain [+], [-], [*]: out of range they panic under overflow checks
    and wrap otherwise. *)
Definition checked `{Profile} (w z : Z) : outcome Z :=
  if (0 <=? z) && (z <? 2 ^ w) then Ret z
  else if overflow_checks then Panic else Ret (wrap w z).
Definition add `{Profile} (w a b : Z) : outcome Z := checked w (a + b).
Definition sub `{Profile} (w a b : Z) : outcome Z := checked w (a - b).
Definition mul `{Profile} (w a b : Z) : outcome Z := checked w (a * b).

(** [saturating_sub], [checked_add]. *)
Definition saturating_sub (a b : Z) : Z := Z.max 0 (a - b).
Definition checked_add (w a b : Z) : option Z :=
  if a + b <? 2 ^ w then Some (a + b) else None.

(** [rotate_left], [rotate_right], [!] on [w]-bit words. *)
Definition rotl (w x n : Z) : Z :=
  Z.lor (wrap w (Z.shiftl x n)) (Z.shiftr x (w - n)).
Definition rotr (w x n : Z) : Z :=
  Z.lor (Z.shiftr x n) (wrap w (Z.shiftl x (w - n))).
Definition bnot (w x : Z) : Z := Z.lxor x (Z.ones w).

Definition b2z (b : bool) : Z := if b then 1 else 0.

(** ** Bytes

    [to_le_bytes], [from_le_bytes], [to_be_bytes], [from_be_bytes] on
    [n]-byte integers, and byte slices as lists of 8-bit [Z]. *)

Fixpoint le_bytes (n : nat) (x : Z) : list Z :=
  match n with
  | O => []
  | S n => x mod 256 :: le_bytes n (x / 256)
  end.
Fixpoint of_le (l : list Z) : Z :=
  match l with
  | [] => 0
  | b :: l => b + 256 * of_le l
  end.
Definition be_bytes (n : nat) (x : Z) : list Z := reverse (le_bytes n x).
Definition of_be (l : list Z) : Z := of_le (reverse l).

Abbreviation bytes := (Forall (uint 8)).

(** A byte string literal [b"..."]. *)
Definition bstr (s : string) : list Z :=
  (λ a, Z.of_N (Ascii.N_of_ascii a)) <$> String.list_ascii_of_string s.

(** ** Arrays and slices

    [splice] writes [src] at [off]: the model of
    [buf[off..off+N].copy_from_slice(&src)] where both lengths are fixed by
    their array types, so that the copy cannot panic.  [slice], [copy_into],
    [index] and [store] are the bounds-checked operations. *)

Definition splice {A} (off : nat) (src buf : list A) : list A :=
  take off buf ++ src ++ drop (off + length src) buf.

Definition slice {A} (a b : nat) (l : list A) : outcome (list A) :=
  if (a <=? b)%nat && (b <=? length l)%nat then Ret (take (b - a) (drop a l)) else Panic.

(** The same with 64-bit bounds. *)
Definition sliceZ {A} (a b : Z) (l : list A) : outcome (list A) :=
  if (0 <=? a) && (a <=? b) && (b <=? Z.of_nat (length l))
  then Ret (take (Z.to_nat (b - a)) (drop (Z.to_nat a) l)) else Panic.

Definition copy_into {A} (a b : nat) (src buf : list A) : outcome (list A) :=
  if (a <=? b)%nat && (b <=? length buf)%nat && (length src =? b - a)%nat
  then Ret (take a buf ++ src ++ drop b buf) else Panic.

Definition index {A} (l : list A) (i : nat) : outcome A :=
  match l !! i with Some x => Ret x | None => Panic end.

Definition store {A} (l : list A) (i : nat) (x : A) : outcome (list A) :=
  if (i <? length l)%nat then Ret (<[i := x]> l) else Panic.

(** ** Loops

    [for_ lo hi body s] is [for i in lo..hi { s = body(i, s) }];
    [for_out] lets the body panic; [for_first] runs a loop whose body may
    return early; [while_] is a [while] loop with fuel. *)

Definition for_ {St} (lo hi : nat) (body : nat → St → St) (s : St) : St :=
  foldl (λ s i, body i s) s (seq lo (hi - lo)).

Fixpoint for_list {St} (idx : list nat) (body : nat → St → outcome St) (s : St) : outcome St :=
  match idx with
  | [] => Ret s
  | i :: idx => s' ← body i s; for_list idx body s'
  end.
Definition for_out {St} (lo hi : nat) (body : nat → St → outcome St) (s : St) : outcome St :=
  for_list (seq lo (hi - lo)) body s.

Fixpoint first_some {A R} (l : list A) (body : A → outcome (option R)) : outcome (option R) :=
  match l with
  | [] => Ret None
  | a :: l => r ← body a; match r with Some x => Ret (Some x) | None => first_some l body end
  end.
Definition for_first {R} (lo hi : nat) (body : nat → outcome (option R)) : outcome (option R) :=
  first_some (seq lo (hi - lo)) body.

(** A [for] loop that carries state and may [return] ([inr]) from inside. *)
Fixpoint loop_ret {A St R} (l : list A) (body : A → St → outcome (St + R)) (s : St)
    : outcome (St + R) :=
  match l with
  | [] => Ret (inl s)
  | a :: l =>
    r ← body a s;
    match r with inl s' => loop_ret l body s' | inr x => Ret (inr x) end
  end.

Fixpoint while_ {St} (fuel : nat) (cond : St → bool) (body : St → outcome St) (s : St) : outcome St :=
  if cond s then
    match fuel with
    | O => NoFuel
    | S fuel => s' ← body s; while_ fuel cond body s'
    end
  else Ret s.

(** The constant-time comparisons accumulate [diff |= a[i] ^ b[i]]. *)
Definition ct_diff (n : nat) (a b : list Z) : Z :=
  for_ 0 n (λ i d, Z.lor d (Z.lxor (a !!! i) (b !!! i))) 0.

(** ** Automation

    [simplify_out] inverts the equations between outcomes a hypothesis or
    goal holds; [bool_cases] turns the boolean comparisons of a goal into
    arithmetic facts; the database [axiom_os] holds the length and range
    lemmas, which [auto with axiom_os] chains. *)

Create HintDb axiom_os.
Create Rewrite HintDb axiom_os.

Ltac simplify_out :=
  repeat match goal with
  | H : Ret _ = Ret _ |- _ => injection H as H; subst
  | H : Ret _ = Panic |- _ => discriminate H
  | H : Ret _ = NoFuel |- _ => discriminate H
  | H : Panic = Ret _ |- _ => discriminate H
  | H : NoFuel = Ret _ |- _ => discriminate H
  | H : (_ ≫= _) = Ret _ |- _ =>
      apply bind_Ret_inv in H; destruct H as (? & ? & H); cbv beta in H
  end.

Ltac bool_cases :=
  repeat match goal with
  | |- context [(?a <=? ?b)%nat] => destruct (Nat.leb_spec a b)
  | |- context [(?a <? ?b)%nat] => destruct (Nat.ltb_spec a b)
  | |- context [(?a =? ?b)%nat] => destruct (Nat.eqb_spec a b)
  | |- context [?a <=? ?b] => destruct (Z.leb_spec a b)
  | |- context [?a <? ?b] => destruct (Z.ltb_spec a b)
  | |- context [?a =? ?b] => destruct (Z.eqb_spec a b)
  end; try (exfalso; lia); simpl.

(** [solve_len] closes length goals over take, drop, app, splice. *)
Ltac solve_len :=
  autorewrite with axiom_os in *;
  rewrite ?length_app, ?length_take, ?length_drop, ?length_replicate, ?length_reverse,
    ?length_insert, ?length_fmap, ?length_seq in *; simpl in *; lia.

(** ** Facts about machine integers *)

Lemma uint_wrap w z : 0 <= w → uint w (wrap w z).
Proof. intros. unfold uint, wrap. apply Z.mod_pos_bound. by apply Z.pow_pos_nonneg. Qed.

Lemma wrap_small w z : uint w z → wrap w z = z.
Proof. intros. by apply Z.mod_small. Qed.

Lemma checked_small `{Profile} w z : uint w z → checked w z = Ret z.
Proof. intros [??]. unfold checked. bool_cases. done. Qed.

Lemma add_small `{Profile} w a b : uint w (a + b) → add w a b = Ret (a + b).
Proof. apply checked_small. Qed.

Lemma mul_small `{Profile} w a b : uint w (a * b) → mul w a b = Ret (a * b).
Proof. apply checked_small. Qed.

Lemma sub_small `{Profile} w a b : uint w (a - b) → sub w a b = Ret (a - b).
Proof. apply checked_small. Qed.

Lemma uint_bits w z :
  0 <= w → 0 <= z → (∀ i, w <= i → Z.testbit z i = false) → uint w z.
Proof.
  intros Hw Hz Hb. split; [done|].
  destruct (Z.eq_dec z 0) as [->|Hne]; [by apply Z.pow_pos_nonneg|].
  apply Z.log2_lt_pow2; [lia|].
  destruct (Z.lt_ge_cases (Z.log2 z) w) as [|Hge]; [done|].
  specialize (Hb _ Hge). rewrite Z.bit_log2 in Hb; [done|lia].
Qed.

Lemma uint_testbit w z i : uint w z → w <= i → Z.testbit z i = false.
Proof.
  intros [H0 H1] Hi. destruct (Z.eq_dec z 0) as [->|Hne]; [by rewrite Z.bits_0|].
  apply Z.bits_above_log2; [lia|].
  apply Z.lt_le_trans with w; [|done]. apply Z.log2_lt_pow2; lia.
Qed.

Lemma uint_lxor w a b : 0 <= w → uint w a → uint w b → uint w (Z.lxor a b).
Proof.
  intros Hw Ha Hb. apply uint_bits; [done|apply Z.lxor_nonneg; unfold uint in *; lia|].
  intros i Hi. by rewrite Z.lxor_spec, !(uint_testbit w) by done.
Qed.

Lemma uint_lor w a b : 0 <= w → uint w a → uint w b → uint w (Z.lor a b).
Proof.
  intros Hw Ha Hb. apply uint_bits; [done|apply Z.lor_nonneg; unfold uint in *; lia|].
  intros i Hi. by rewrite Z.lor_spec, !(uint_testbit w) by done.
Qed.

Lemma uint_land w a b : 0 <= w → uint w a → 0 <= b → uint w (Z.land a b).
Proof.
  intros Hw Ha Hb. apply uint_bits; [done|apply Z.land_nonneg; unfold uint in *; lia|].
  intros i Hi. by rewrite Z.land_spec, (uint_testbit w a) by done.
Qed.

Lemma uint_shiftr w a n : 0 <= n → uint w a → uint w (Z.shiftr a n).
Proof.
  intros Hn [Ha1 Ha2]. rewrite Z.shiftr_div_pow2 by done. split.
  - apply Z.div_pos; [done|by apply Z.pow_pos_nonneg].
  - apply Z.le_lt_trans with a; [|done]. apply Z.div_le_upper_bound; [by apply Z.pow_pos_nonneg|].
    assert (0 < 2 ^ n) by (by apply Z.pow_pos_nonneg). nia.
Qed.

Lemma uint_rotl w x n : 0 <= n <= w → uint w x → uint w (rotl w x n).
Proof.
  intros. unfold rotl. apply uint_lor; [lia|apply uint_wrap; lia|apply uint_shiftr; [lia|done]].
Qed.

Lemma uint_rotr w x n : 0 <= n <= w → uint w x → uint w (rotr w x n).
Proof.
  intros. unfold rotr. apply uint_lor; [lia|apply uint_shiftr; [lia|done]|apply uint_wrap; lia].
Qed.

Lemma uint_mono w w' z : w <= w' → uint w z → uint w' z.
Proof.
  intros Hw [??]. split; [done|]. apply Z.lt_le_trans with (2 ^ w); [done|].
  apply Z.pow_le_mono_r; lia.
Qed.

Lemma lxor_cancel a b : Z.lxor (Z.lxor a b) b = a.
Proof. by rewrite Z.lxor_assoc, Z.lxor_nilpotent, Z.lxor_0_r. Qed.

#[export] Hint Resolve uint_wrap uint_lxor uint_lor uint_shiftr uint_rotl uint_rotr : axiom_os.

(** ** Facts about byte encodings *)

Lemma length_le_bytes n x : length (le_bytes n x) = n.
Proof. revert x. induction n; simpl; auto. Qed.

Lemma length_be_bytes n x : length (be_bytes n x) = n.
Proof. unfold be_bytes. by rewrite length_reverse, length_le_bytes. Qed.

Lemma length_splice {A} off (src buf : list A) :
  (off + length src <= length buf)%nat → length (splice off src buf) = length buf.
Proof. intros. unfold splice. rewrite !length_app, length_take, length_drop. lia. Qed.

Lemma lookup_splice {A} off (src buf : list A) k :
  (off + length src <= length buf)%nat →
  splice off src buf !! k
  = if decide (off <= k < off + length src)%nat then src !! (k - off)%nat else buf !! k.
Proof.
  intros Hl. unfold splice. destruct (decide (k < off)%nat).
  - rewrite decide_False, lookup_app_l, lookup_take_lt by (rewrite ?length_take; lia). done.
  - rewrite lookup_app_r by (rewrite length_take; lia). rewrite length_take, Nat.min_l by lia.
    case_decide.
    + by rewrite lookup_app_l by lia.
    + rewrite lookup_app_r, lookup_drop by lia. f_equal. lia.
Qed.

Lemma bytes_le_bytes n x : bytes (le_bytes n x).
Proof.
  revert x. induction n; intros x; simpl; constructor; [|done].
  unfold uint. apply Z.mod_pos_bound. lia.
Qed.

Lemma bytes_be_bytes n x : bytes (be_bytes n x).
Proof. unfold be_bytes. apply Forall_reverse, bytes_le_bytes. Qed.

Lemma bytes_replicate n x : u8 x → bytes (replicate n x).
Proof. intros. by apply Forall_replicate. Qed.

Lemma bytes_splice off src buf : bytes src → bytes buf → bytes (splice off src buf).
Proof.
  intros Hs Hb. unfold splice. rewrite !Forall_app. repeat split; [|done|].
  - by apply Forall_take.
  - by apply Forall_drop.
Qed.

#[export] Hint Rewrite length_le_bytes length_be_bytes : axiom_os.
#[export] Hint Resolve bytes_le_bytes bytes_be_bytes bytes_replicate bytes_splice : axiom_os.

Lemma of_le_bytes n x : of_le (le_bytes n x) = x mod 256 ^ Z.of_nat n.
Proof.
  revert x. induction n as [|n IH]; intros x; [by rewrite Z.mod_1_r|].
  cbn [le_bytes of_le]. rewrite IH, Nat2Z.inj_succ, Z.pow_succ_r by lia.
  rewrite Z.rem_mul_r by (try apply Z.pow_nonzero; lia). lia.
Qed.

Lemma of_le_small n x : 0 <= x < 256 ^ Z.of_nat n → of_le (le_bytes n x) = x.
Proof. intros. rewrite of_le_bytes. by apply Z.mod_small. Qed.

Lemma of_le_range l : bytes l → 0 <= of_le l < 256 ^ Z.of_nat (length l).
Proof.
  induction 1 as [|b l Hb _ IH]; [done|]. cbn [of_le length].
  rewrite Nat2Z.inj_succ, Z.pow_succ_r by lia. unfold uint in Hb. lia.
Qed.

Lemma le_bytes_of_le l : bytes l → le_bytes (length l) (of_le l) = l.
Proof.
  induction 1 as [|b l Hb _ IH]; [done|]. cbn [of_le length le_bytes].
  unfold uint in Hb.
  replace (b + 256 * of_le l) with (b + of_le l * 256) by lia.
  rewrite Z.mod_add, Z.div_add, Z.mod_small, Z.div_small by lia. by rewrite Z.add_0_l, IH.
Qed.

Lemma le_bytes_inj n x y :
  0 <= x < 256 ^ Z.of_nat n → 0 <= y < 256 ^ Z.of_nat n →
  le_bytes n x = le_bytes n y → x = y.
Proof. intros Hx Hy E. by rewrite <-(of_le_small n x), <-(of_le_small n y), E by done. Qed.

Lemma of_be_bytes n x : 0 <= x < 256 ^ Z.of_nat n → of_be (be_bytes n x) = x.
Proof. intros. unfold of_be, be_bytes. by rewrite reverse_involutive, of_le_small. Qed.

Lemma of_le_app a b : of_le (a ++ b) = of_le a + 256 ^ Z.of_nat (length a) * of_le b.
Proof.
  induction a as [|x a IH]; [simpl; lia|].
  cbn [app of_le length]. rewrite IH, Nat2Z.inj_succ, Z.pow_succ_r by lia. lia.
Qed.

Lemma of_le_zeros n : of_le (replicate n 0) = 0.
Proof. induction n as [|n IH]; [done|]. cbn. by rewrite IH. Qed.

Lemma byte_testbit u X i :
  u8 u → 0 <= i → Z.testbit (u + 256 * X) i = if i <? 8 then Z.testbit u i else Z.testbit X (i - 8).
Proof.
  intros Hu Hi. unfold uint in Hu. destruct (Z.ltb_spec i 8).
  - rewrite <-(Z.mod_pow2_bits_low _ 8) by lia. f_equal. change (2 ^ 8) with 256.
    rewrite Z.mul_comm, Z.mod_add, Z.mod_small; lia.
  - replace i with ((i - 8) + 8) at 1 by lia. rewrite <-Z.div_pow2_bits by lia. f_equal.
    change (2 ^ 8) with 256. rewrite Z.mul_comm, Z.div_add, Z.div_small; lia.
Qed.

Lemma land_of_le a b :
  length a = length b → bytes a → bytes b →
  Z.land (of_le a) (of_le b) = of_le (zip_with Z.land a b).
Proof.
  intros Hl Ha. revert b Hl. induction Ha as [|x a Hx Ha IH]; intros [|y b] Hl Hb; try done.
  inversion Hb as [|?? Hy Hb']; subst. cbn [of_le zip_with]. rewrite <-IH by (simpl in Hl; auto).
  assert (u8 (Z.land x y)) by (apply uint_land; [lia|done|unfold uint in Hy; lia]).
  apply Z.bits_inj'. intros i Hi. rewrite Z.land_spec, !byte_testbit by done.
  destruct (i <? 8); by rewrite Z.land_spec.
Qed.

(** ** Facts about slices *)

Lemma slice_ok {A} a b (l : list A) :
  (a <= b <= length l)%nat → slice a b l = Ret (take (b - a) (drop a l)).
Proof. intros. unfold slice. bool_cases. done. Qed.

Lemma slice_full {A} n (l : list A) : n = length l → slice 0 n l = Ret l.
Proof. intros ->. rewrite slice_ok by lia. by rewrite drop_0, Nat.sub_0_r, firstn_all. Qed.

Lemma copy_into_ok {A} a b (src buf : list A) :
  (a <= b <= length buf)%nat → (length src = b - a)%nat →
  copy_into a b src buf = Ret (splice a src buf).
Proof.
  intros. unfold copy_into, splice. bool_cases. replace b with (a + length src)%nat by lia. done.
Qed.

Lemma index_ok {A} (l : list A) i x : l !! i = Some x → index l i = Ret x.
Proof. unfold index. by intros ->. Qed.

Lemma store_ok {A} (l : list A) i x : (i < length l)%nat → store l i x = Ret (<[i := x]> l).
Proof. intros. unfold store. bool_cases. done. Qed.

(** A splice on a buffer written as its three parts. *)
Lemma splice_app {A} (a b c src : list A) off :
  off = length a → length src = length b → splice off src (a ++ b ++ c) = a ++ src ++ c.
Proof.
  intros -> Hs. unfold splice. rewrite take_app_length, Hs, drop_app_add, drop_app_length. done.
Qed.

Lemma splice_zeros (src : list Z) off n :
  (off + length src <= n)%nat →
  splice off src (replicate n 0)
  = replicate off 0 ++ src ++ replicate (n - off - length src) 0.
Proof.
  intros. unfold splice. rewrite take_replicate, drop_replicate. f_equal; [f_equal; lia|].
  f_equal. f_equal. lia.
Qed.

(** ** Facts about loops *)

Lemma for_nil {St} lo hi (f : nat → St → St) s : (hi <= lo)%nat → for_ lo hi f s = s.
Proof. intros. unfold for_. by replace (hi - lo)%nat with 0%nat by lia. Qed.

Lemma for_S {St} lo hi (f : nat → St → St) s :
  (lo <= hi)%nat → for_ lo (S hi) f s = f hi (for_ lo hi f s).
Proof.
  intros. unfold for_. rewrite Nat.sub_succ_l, seq_S, foldl_app by done. simpl.
  do 2 f_equal. lia.
Qed.

(** The invariant rule for counted loops. *)
Lemma for_ind {St} (P : nat → St → Prop) lo hi (f : nat → St → St) s :
  (lo <= hi)%nat → P lo s →
  (∀ i s, (lo <= i < hi)%nat → P i s → P (S i) (f i s)) →
  P hi (for_ lo hi f s).
Proof.
  intros Hle H0 Hstep. revert Hle Hstep. induction hi as [|hi IH]; intros Hle Hstep.
  - rewrite for_nil by lia. by replace 0%nat with lo by lia.
  - destruct (decide (lo = S hi)) as [->|Hne]; [by rewrite for_nil by lia|].
    rewrite for_S by lia. apply Hstep; [lia|]. apply IH; [lia|]. intros; apply Hstep; [lia|done].
Qed.

Lemma for_list_app {St} l1 l2 (f : nat → St → outcome St) s :
  for_list (l1 ++ l2) f s = (s' ← for_list l1 f s; for_list l2 f s').
Proof.
  revert s. induction l1 as [|i l1 IH]; intros s; [done|]. simpl.
  destruct (f i s); simpl; auto.
Qed.

(** The invariant rule for counted loops whose body may panic. *)
Lemma for_out_ind {St} (P : nat → St → Prop) lo hi (f : nat → St → outcome St) s :
  (lo <= hi)%nat → P lo s →
  (∀ i s, (lo <= i < hi)%nat → P i s → ∃ s', f i s = Ret s' ∧ P (S i) s') →
  ∃ s', for_out lo hi f s = Ret s' ∧ P hi s'.
Proof.
  intros Hle H0 Hstep. unfold for_out. revert Hle Hstep.
  induction hi as [|hi IH]; intros Hle Hstep.
  - exists s. assert (lo = 0%nat) as -> by lia. done.
  - destruct (decide (lo = S hi)) as [->|Hne]; [exists s; by rewrite Nat.sub_diag|].
    rewrite Nat.sub_succ_l, seq_S, for_list_app by lia.
    destruct IH as (s1 & -> & Hs1); [lia|intros; apply Hstep; [lia|done]|]. simpl.
    replace (lo + (hi - lo))%nat with hi by lia.
    destruct (Hstep hi s1) as (s2 & -> & Hs2); [lia|done|]. simpl. eauto.
Qed.

(** A [while] loop returns, with an invariant established, when a measure
    bounded by the fuel decreases at every iteration. *)
Lemma while_ind {St} (P : St → Prop) (m : St → nat) cond (body : St → outcome St) fuel s :
  P s → (m s <= fuel)%nat →
  (∀ s, P s → cond s = true → ∃ s', body s = Ret s' ∧ P s' ∧ (m s' < m s)%nat) →
  ∃ s', while_ fuel cond body s = Ret s' ∧ P s' ∧ cond s' = false.
Proof.
  intros HP Hm Hb. revert s HP Hm. induction fuel as [|fuel IH]; intros s HP Hm; simpl.
  - destruct (cond s) eqn:Hc; [|by eauto].
    destruct (Hb s) as (s' & _ & _ & ?); [done|done|lia].
  - destruct (cond s) eqn:Hc; [|by eauto].
    destruct (Hb s) as (s' & -> & HP' & ?); [done|done|]. simpl. apply IH; [done|lia].
Qed.

Lemma first_some_None {A R} (l : list A) (f : A → outcome (option R)) :
  first_some l f = Ret None ↔ ∀ a, a ∈ l → f a = Ret None.
Proof.
  induction l as [|a l IH]; simpl.
  - split; [intros _ a Ha; by apply not_elem_of_nil in Ha|done].
  - split.
    + intros H a' Ha'. simplify_out. case_match; simplify_out; [done|].
      apply elem_of_cons in Ha' as [->|Ha']; [done|]. by apply IH.
    + intros Hall. rewrite (Hall a) by left. simpl. apply IH. intros; apply Hall; by right.
Qed.

Lemma for_first_None {R} lo hi (f : nat → outcome (option R)) :
  for_first lo hi f = Ret None ↔ ∀ i, (lo <= i < hi)%nat → f i = Ret None.
Proof.
  unfold for_first. rewrite first_some_None.
  split; intros H i Hi; apply H; [apply elem_of_seq|apply elem_of_seq in Hi]; lia.
Qed.

(** [ct_diff] is zero exactly when the first [n] bytes agree. *)
Lemma ct_diff_zero n a b :
  ct_diff n a b = 0 ↔ ∀ i, (i < n)%nat → a !!! i = b !!! i.
Proof.
  unfold ct_diff. induction n as [|n IH]; [split; [lia|done]|].
  rewrite for_S, Z.lor_eq_0_iff, Z.lxor_eq_0_iff, IH by lia. split.
  - intros [H1 H2] i Hi. destruct (decide (i = n)) as [->|]; [done|apply H1; lia].
  - intros H. split; [intros i Hi; apply H; lia|apply H; lia].
Qed.

Lemma ct_diff_eq n a b :
  length a = n → length b = n → (ct_diff n a b =? 0) = true ↔ a = b.
Proof.
  intros Ha Hb. rewrite Z.eqb_eq, ct_diff_zero. split; [|by intros ->].
  intros H. apply list_eq_same_length with n; [done|done|].
  intros i x y Hi Hx Hy. specialize (H i Hi).
  apply list_lookup_total_correct in Hx, Hy. congruence.
Qed.

(** ** 64-byte blocks *)

Fixpoint chunks {A} (w n : nat) (m : list A) : list (list A) :=
  match n with
  | O => []
  | S n => take w m :: chunks w n (drop w m)
  end.

Lemma chunks_app {A} w n k (a b : list A) :
  length a = (w * n)%nat → chunks w (n + k) (a ++ b) = chunks w n a ++ chunks w k b.
Proof.
  revert a. induction n as [|n IH]; intros a Ha; simpl.
  - by rewrite (nil_length_inv a) by lia.
  - rewrite take_app_le, drop_app_le by lia. f_equal. apply IH. rewrite length_drop. lia.
Qed.

Lemma chunks_S_r {A} w n (m : list A) :
  chunks w (S n) m = chunks w n m ++ [take w (drop (w * n) m)].
Proof.
  revert m. induction n as [|n IH]; intros m.
  - by rewrite Nat.mul_0_r.
  - cbn [chunks]. cbn [chunks] in IH. rewrite IH. rewrite drop_drop.
    replace (w + w * n)%nat with (w * S n)%nat by lia. done.
Qed.

Lemma Forall_chunk {A} (P : A → Prop) a n (l : list A) :
  Forall P l → Forall P (take n (drop a l)).
Proof. intros. by apply Forall_take, Forall_drop. Qed.

(** ** Ring buffers

    [unroll h l] reads an array in the order a ring buffer with head [h]
    visits it; writing at the head and advancing it drops the first element
    of that order and appends the new one. *)

Definition unroll {A} (h : nat) (l : list A) : list A := drop h l ++ take h l.

Lemma length_unroll {A} h (l : list A) : length (unroll h l) = length l.
Proof. unfold unroll. rewrite length_app, length_drop, length_take. lia. Qed.

Lemma unroll_lookup {A} h (l : list A) i :
  (h < length l)%nat → (i < length l)%nat → unroll h l !! i = l !! ((h + i) mod length l)%nat.
Proof.
  intros Hh Hi. unfold unroll. destruct (decide (h + i < length l)%nat) as [Hlt|Hge].
  - rewrite lookup_app_l, lookup_drop, Nat.mod_small by (rewrite ?length_drop; lia). done.
  - rewrite lookup_app_r, length_drop, lookup_take_lt by (rewrite ?length_drop; lia).
    f_equal. replace (h + i)%nat with ((h + i - length l) + 1 * length l)%nat by lia.
    rewrite Nat.Div0.mod_add, Nat.mod_small by lia. lia.
Qed.

Lemma unroll_push {A} h (l : list A) x :
  (h < length l)%nat →
  unroll (S h mod length l) (<[h := x]> l) = tail (unroll h l) ++ [x].
Proof.
  intros Hh. destruct (lookup_lt_is_Some_2 l h Hh) as [y Hy].
  assert (unroll h l = y :: drop (S h) l ++ take h l) as -> by (unfold unroll; by rewrite (drop_S l y)).
  simpl tail. unfold unroll. destruct (decide (S h = length l)) as [E|Hne].
  - rewrite E, Nat.Div0.mod_same, drop_0, take_0, app_nil_r, drop_ge by lia. simpl.
    rewrite insert_take_drop, (drop_ge l (S h)) by lia. done.
  - rewrite Nat.mod_small by lia. rewrite drop_insert_lt by lia.
    rewrite (take_S_r _ _ x) by (by apply list_lookup_insert_eq).
    rewrite take_insert_ge by lia. by rewrite (assoc_L (++)).
Qed.

Lemma ring_slot_inj n h i j :
  (i < n)%nat → (j < n)%nat → ((h + i) mod n = (h + j) mod n)%nat → i = j.
Proof.
  intros Hi Hj E.
  pose proof (Nat.div_mod_eq (h + i) n). pose proof (Nat.div_mod_eq (h + j) n).
  destruct (Nat.lt_trichotomy ((h + i) / n) ((h + j) / n)) as [?|[?|?]]; nia.
Qed.

Lemma unroll_insert {A} h i (l : list A) x :
  (h < length l)%nat → (i < length l)%nat →
  unroll h (<[((h + i) mod length l)%nat := x]> l) = <[i := x]> (unroll h l).
Proof.
  intros Hh Hi. apply list_eq. intros j.
  destruct (decide (j < length l)%nat) as [Hj|Hj].
  2: { rewrite !lookup_ge_None_2; rewrite ?length_insert, ?length_unroll, ?length_insert; lia || done. }
  rewrite unroll_lookup by (rewrite length_insert; done). rewrite length_insert.
  destruct (decide (i = j)) as [->|Hne].
  - rewrite !list_lookup_insert_eq; [done|by rewrite length_unroll|apply Nat.mod_upper_bound; lia].
  - rewrite !list_lookup_insert_ne, unroll_lookup; try done.
    intros E. apply ring_slot_inj in E; done.
Qed.

(** A loop over indices that reads one element per index is a loop over the
    elements. *)
Lemma loop_ret_lookup {A St R} (rot : list A) (body : nat → St → outcome (St + R)) body' s :
  (∀ i x s, rot !! i = Some x → body i s = body' x s) →
  loop_ret (seq 0 (length rot)) body s = loop_ret rot body' s.
Proof.
  intros Hb. assert (∀ pre post s, rot = pre ++ post →
    loop_ret (seq (length pre) (length post)) body s = loop_ret post body' s) as Hgen.
  { intros pre post. revert pre. induction post as [|x post IH]; intros pre s' E; [done|].
    cbn [length seq loop_ret]. rewrite (Hb _ x).
    - destruct (body' x s') as [[s''|r]| |]; simpl; try done.
      replace (S (length pre)) with (length (pre ++ [x])) by (rewrite length_app; simpl; lia).
      apply IH. by rewrite <-(assoc_L (++)).
    - by rewrite E, list_lookup_middle. }
  by apply (Hgen [] rot).
Qed.

(** The same, skipping empty slots. *)
Lemma loop_ret_omap {A St R} (slots : list (option A)) (body : option A → St → outcome (St + R)) body' s :
  (∀ s, body None s = Ret (inl s)) → (∀ x s, body (Some x) s = body' x s) →
  loop_ret slots body s = loop_ret (omap id slots) body' s.
Proof.
  intros HN HS. revert s. induction slots as [|[x|] slots IH]; intros s; [done| |].
  - simpl. rewrite HS. destruct (body' x s) as [[]| |]; simpl; auto.
  - simpl. rewrite HN. apply IH.
Qed.

Lemma omap_replicate_None {A} n : omap id (replicate n (@None A)) = [].
Proof. by induction n. Qed.

Lemma omap_fmap_Some {A} (l : list A) : omap id (Some <$> l) = l.
Proof. induction l as [|x l IH]; [done|]. simpl. f_equal. apply IH. Qed.

(** ** Boolean tests that may panic *)

(** Rust's [&&]. *)
Definition and_also (m k : outcome bool) : outcome bool :=
  m ≫= λ b : bool, if b then k else Ret false.

(** A loop that returns [e] at the first element satisfying a test. *)
Lemma first_some_if {A R} (l : list A) (bad : A → bool) (e : R) f :
  (∀ a, a ∈ l → f a = Ret (if bad a then Some e else None)) →
  first_some l f = Ret (if List.existsb bad l then Some e else None).
Proof.
  induction l as [|a l IH]; intros Hf; [done|]. cbn [first_some List.existsb].
  rewrite (Hf a), bind_Ret by left. destruct (bad a); [done|]. apply IH. intros; apply Hf; by right.
Qed.

Definition any_below (n : nat) (bad : nat → bool) : bool := List.existsb bad (seq 0 n).

Lemma for_first_if {R} n (bad : nat → bool) (e : R) f :
  (∀ i, (i < n)%nat → f i = Ret (if bad i then Some e else None)) →
  for_first 0 n f = Ret (if any_below n bad then Some e else None).
Proof.
  intros Hf. unfold for_first, any_below. rewrite Nat.sub_0_r. apply first_some_if.
  intros i Hi. apply elem_of_seq in Hi. apply Hf. lia.
Qed.

Lemma any_below_false n bad :
  any_below n bad = false ↔ ∀ i, (i < n)%nat → bad i = false.
Proof.
  unfold any_below. split.
  - intros E i Hi. destruct (bad i) eqn:Hb; [|done]. rewrite <-E. symmetry.
    apply List.existsb_exists. exists i. split; [|done]. apply List.in_seq. lia.
  - intros Hall. destruct (List.existsb bad (seq 0 n)) eqn:E; [|done].
    apply List.existsb_exists in E as (i & Hi & Hb). apply List.in_seq in Hi. rewrite Hall in Hb by lia.
    done.
Qed.

(** ** Postconditions

    [post Q o]: [o] does not run out of fuel, and if it returns, the value
    satisfies [Q]. *)

Definition post {A} (Q : A → Prop) (o : outcome A) : Prop :=
  match o with Ret a => Q a | Panic => True | NoFuel => False end.

Lemma post_bind {A B} (R : A → Prop) (Q : B → Prop) m (f : A → outcome B) :
  post R m → (∀ a, R a → post Q (f a)) → post Q (m ≫= f).
Proof. destruct m; simpl; auto. Qed.

Lemma post_ret {A} (Q : A → Prop) m a : post Q m → m = Ret a → Q a.
Proof. by intros H ->. Qed.

Lemma post_fuel {A} (Q : A → Prop) m : post Q m → m ≠ NoFuel.
Proof. by intros H ->. Qed.

Lemma post_mono {A} (Q R : A → Prop) m : post Q m → (∀ a, Q a → R a) → post R m.
Proof. destruct m; simpl; auto. Qed.

(** Under overflow checks a sum that returns is the sum. *)
Lemma post_checked `{Profile} w z :
  overflow_checks = true → post (λ c, c = z ∧ 0 <= c < 2 ^ w) (checked w z).
Proof.
  intros Ho. unfold checked. destruct ((0 <=? z) && (z <? 2 ^ w)) eqn:E; simpl.
  - apply andb_true_iff in E as [?%Z.leb_le ?%Z.ltb_lt]. done.
  - by rewrite Ho.
Qed.

Lemma post_sliceZ {A} a b (l : list A) :
  post (λ r, 0 <= a <= b ∧ b <= Z.of_nat (length l) ∧ r = take (Z.to_nat (b - a)) (drop (Z.to_nat a) l))
    (sliceZ a b l).
Proof.
  unfold sliceZ. destruct (_ && _) eqn:E; simpl; [|done].
  apply andb_true_iff in E as [[?%Z.leb_le ?%Z.leb_le]%andb_true_iff ?%Z.leb_le]. done.
Qed.

Lemma post_index {A} (l : list A) i : post (λ x, l !! i = Some x) (index l i).
Proof. unfold index. by destruct (l !! i). Qed.

Lemma index_ret {A} `{Inhabited A} (l : list A) i : (i < length l)%nat → index l i = Ret (l !!! i).
Proof. intros Hi. unfold index. by rewrite list_lookup_lookup_total_lt. Qed.

(** The loop rule: an invariant that may mention what was done so far. *)
Lemma post_loop_ret {A St R} (I : list A → St → Prop) (Q : R → Prop) l body (s : St) :
  I [] s →
  (∀ pre a suf s, l = pre ++ a :: suf → I pre s →
     post (λ r, match r with inl s' => I (pre ++ [a]) s' | inr x => Q x end) (body a s)) →
  post (λ r, match r with inl s' => I l s' | inr x => Q x end) (loop_ret l body s).
Proof.
  intros H0 Hstep.
  assert (∀ pre suf s, l = pre ++ suf → I pre s →
    post (λ r, match r with inl s' => I l s' | inr x => Q x end) (loop_ret suf body s)) as Hgen;
    [|by apply (Hgen [])].
  intros pre suf. revert pre. induction suf as [|a suf IH]; intros pre s' E Hpre; cbn [loop_ret].
  - simpl. by rewrite E, app_nil_r.
  - eapply post_bind; [by eapply Hstep|]. intros [s2|x] Hr; [|done].
    apply (IH (pre ++ [a])); [|done]. by rewrite <-(assoc_L (++)).
Qed.

(** Deciding that a list holds bytes. *)
Lemma bytes_forallb l : forallb (λ b, (0 <=? b) && (b <? 256)) l = true → bytes l.
Proof.
  intros E. apply Forall_forall. intros b Hb%list_elem_of_In.
  pose proof (proj1 (List.forallb_forall _ _) E b Hb) as Hr.
  by apply andb_true_iff in Hr as [?%Z.leb_le ?%Z.ltb_lt].
Qed.

(** ** Bits *)

Lemma lxor_inj x x' y : Z.lxor x y = Z.lxor x' y → x = x'.
Proof. intros E. by rewrite <-(lxor_cancel x y), E, lxor_cancel. Qed.

(** A rotation keeps every bit. *)
Lemma rotl_testbit w x n i :
  uint w x → 0 < n < w → 0 <= i < w →
  Z.testbit (rotl w x n) i = Z.testbit x (if n <=? i then i - n else i + w - n).
Proof.
  intros Hx Hn Hi. unfold rotl, wrap.
  rewrite Z.lor_spec, Z.mod_pow2_bits_low, Z.shiftl_spec, Z.shiftr_spec by lia.
  destruct (Z.leb_spec n i).
  - rewrite (uint_testbit w x (i + (w - n))), orb_false_r by (done || lia). done.
  - rewrite Z.testbit_neg_r by lia. simpl. f_equal. lia.
Qed.

(** [& !mask] rounds down. *)
Lemma land_down k x : 0 <= k <= 64 → u64 x → Z.land x (bnot 64 (Z.ones k)) = x - x mod 2 ^ k.
Proof.
  intros Hk Hx. replace (x - x mod 2 ^ k) with (Z.shiftl (Z.shiftr x k) k).
  2: { rewrite Z.shiftl_mul_pow2, Z.shiftr_div_pow2 by lia.
       pose proof (Z.div_mod x (2 ^ k) ltac:(apply Z.pow_nonzero; lia)). lia. }
  apply Z.bits_inj'. intros i Hi. unfold bnot. rewrite Z.land_spec, Z.lxor_spec, Z.shiftl_spec by lia.
  destruct (Z.lt_ge_cases i k) as [?|?].
  - rewrite (Z.testbit_neg_r _ (i - k)), !Z.ones_spec_low by lia. apply andb_false_r.
  - rewrite Z.shiftr_spec, (Z.ones_spec_high k) by lia. replace (i - k + k) with i by lia.
    destruct (Z.lt_ge_cases i 64) as [?|?]; [by rewrite Z.ones_spec_low, andb_true_r by lia|].
    by rewrite (uint_testbit 64 x).
Qed.

(** ** Text

    [core::str::from_utf8] accepts exactly the well-formed sequences of the
    Unicode standard: no overlong form, no surrogate, nothing above U+10FFFF. *)

Definition between (lo x hi : Z) : bool := (lo <=? x) && (x <=? hi).

Definition continuation (x : Z) : bool := between 0x80 x 0xBF.

(** The second byte of a three- and of a four-byte sequence. *)
Definition second3 (x y : Z) : bool :=
  if x =? 0xE0 then between 0xA0 y 0xBF else if x =? 0xED then between 0x80 y 0x9F else continuation y.
Definition second4 (x y : Z) : bool :=
  if x =? 0xF0 then between 0x90 y 0xBF else if x =? 0xF4 then between 0x80 y 0x8F else continuation y.

Fixpoint utf8_ok (b : list Z) : bool :=
  match b with
  | [] => true
  | x :: b1 =>
    if x <? 0x80 then utf8_ok b1 else
    match b1 with
    | [] => false
    | y :: b2 =>
      if between 0xC2 x 0xDF then continuation y && utf8_ok b2 else
      match b2 with
      | [] => false
      | z :: b3 =>
        if between 0xE0 x 0xEF then second3 x y && continuation z && utf8_ok b3 else
        match b3 with
        | [] => false
        | w :: b4 =>
          between 0xF0 x 0xF4 && second4 x y && continuation z && continuation w && utf8_ok b4
        end
      end
    end
  end.

Definition from_utf8 (b : list Z) : option (list Z) := if utf8_ok b then Some b else None.

(** [iter().position(p)]. *)
Fixpoint position {A} (p : A → bool) (l : list A) : option nat :=
  match l with
  | [] => None
  | x :: l => if p x then Some O else S <$> position p l
  end.

(** The text before the first zero of a sixteen-byte field. *)
Definition field_str (name : list Z) : outcome (list Z) :=
  let e := default 16%nat (position (Z.eqb 0) name) in
  s ← slice 0 e name;
  Ret (default (bstr "?") (from_utf8 s)).

Definition name_chars (s : list Z) : Prop := Forall (λ x, 0 < x < 0x80) s.

Lemma utf8_ascii s : name_chars s → utf8_ok s = true.
Proof.
  induction 1 as [|x s Hx _ IH]; [done|]. cbv beta in Hx. cbn [utf8_ok].
  by rewrite (proj2 (Z.ltb_lt _ _)) by lia.
Qed.

Lemma position_zero s k : name_chars s → (0 < k)%nat →
  position (Z.eqb 0) (s ++ replicate k 0) = Some (length s).
Proof.
  intros Hs Hk. induction Hs as [|x s Hx _ IH]; [by destruct k; [lia|]|]. cbv beta in Hx.
  cbn [app position length].
  rewrite (proj2 (Z.eqb_neq _ _)) by lia. by rewrite IH.
Qed.

(** A text of at most fifteen ASCII characters is read back from its field. *)
Lemma field_str_padded s k :
  name_chars s → (length s + k = 16)%nat → (0 < k)%nat → field_str (s ++ replicate k 0) = Ret s.
Proof.
  intros Hs Hk H0. unfold field_str. rewrite position_zero by done. cbn [default from_option id].
  rewrite slice_ok by (rewrite length_app, length_replicate; lia).
  rewrite bind_Ret, drop_0, Nat.sub_0_r, take_app_length. unfold from_utf8.
  by rewrite utf8_ascii.
Qed.

(** So is one copied into a zeroed field, cut to fifteen. *)
Lemma field_str_name s :
  name_chars s →
  field_str (splice 0 (take (Nat.min (length s) 15) s) (replicate 16 0)) = Ret (take 15 s).
Proof.
  intros Hs. unfold splice. set (n := Nat.min (length s) 15).
  assert (length (take n s) = n) as Hl by (rewrite length_take; lia).
  rewrite take_0, app_nil_l, Hl, Nat.add_0_l, drop_replicate.
  rewrite field_str_padded; [|by apply Forall_take|lia..].
  f_equal. unfold n. destruct (decide (length s <= 15)%nat).
  - by rewrite Nat.min_l, !take_ge by lia.
  - by rewrite Nat.min_r by lia.
Qed.
