(* ===== verification/Interfaces.v ===== *)
(** * Interfaces between components

    [HashOps] is what the capability system, the audit log, the key
    derivation and the encrypted IPC call in [crypto.rs]; [HashLaws] is what
    they rely on: on every message that fits in memory the calls return, and
    return 32 bytes that depend on the arguments only.  The clients are
    modelled and proved against these classes; [Crypto] provides the
    instance. *)

From S2P Require Import Prelude.
From Stdlib Require Import ZArith Lia.
From stdpp Require Import base numbers list.
#[local] Open Scope Z_scope.

Class HashOps := {
  h_sha256 : list Z → outcome (list Z);
  h_hmac_sha256 : list Z → list Z → outcome (list Z);
}.

(** The longest message the laws speak about, in bytes. *)
Definition max_message : Z := 2 ^ 60.

Class HashLaws (ops : HashOps) := {
  sha256_fn : list Z → list Z;
  hmac_fn : list Z → list Z → list Z;
  sha256_ret m : Z.of_nat (length m) < max_message → h_sha256 m = Ret (sha256_fn m);
  hmac_ret k m : Z.of_nat (length k) < max_message → Z.of_nat (length m) < max_message →
    h_hmac_sha256 k m = Ret (hmac_fn k m);
  length_sha256_fn m : length (sha256_fn m) = 32%nat;
  bytes_sha256_fn m : bytes (sha256_fn m);
  length_hmac_fn k m : length (hmac_fn k m) = 32%nat;
  bytes_hmac_fn k m : bytes (hmac_fn k m);
}.

#[export] Hint Resolve length_sha256_fn bytes_sha256_fn length_hmac_fn bytes_hmac_fn : axiom_os.

Lemma max_message_value : max_message = 1152921504606846976.
Proof. reflexivity. Qed.

(** [fits] proves that a message of known small length is below the bound. *)
Ltac fits := rewrite max_message_value; lia.
