(* ===== verification/Crypto.v ===== *)
(** * SHA-256, HMAC-SHA-256 and the constant-time comparison

    Model of [kernel/src/crypto.rs].  [Sha256] is the streaming hasher with
    its 64-byte buffer; [update], [finalize], [sha256] and [hmac_sha256]
    follow the code statement by statement.  The reference side is
    [sha256_spec] and [hmac_spec]: FIPS 180-4 padding of the whole message
    followed by one fold of the compression function, and the RFC 2104
    equation.  The main results are that the streaming hasher computes the
    reference function for every way of splitting the input, never panics
    and never loops on messages shorter than 2^61 bytes, and that the
    components above may therefore rely on the [HashPromise] interface. *)

From S2P Require Import Prelude Interfaces.
From Stdlib Require Import ZArith Lia.
From stdpp Require Import base numbers list strings.
#[local] Open Scope Z_scope.

(** ** Constants *)

(** A row of the table, four 32-bit words written as one literal. *)
Definition row (z : Z) : list Z := (λ k, Z.shiftr z k mod 2 ^ 32) <$> [96; 64; 32; 0].

Definition K : list Z := Eval vm_compute in mjoin (row <$> [
  0x428a2f98_71374491_b5c0fbcf_e9b5dba5;
  0x3956c25b_59f111f1_923f82a4_ab1c5ed5;
  0xd807aa98_12835b01_243185be_550c7dc3;
  0x72be5d74_80deb1fe_9bdc06a7_c19bf174;
  0xe49b69c1_efbe4786_0fc19dc6_240ca1cc;
  0x2de92c6f_4a7484aa_5cb0a9dc_76f988da;
  0x983e5152_a831c66d_b00327c8_bf597fc7;
  0xc6e00bf3_d5a79147_06ca6351_14292967;
  0x27b70a85_2e1b2138_4d2c6dfc_53380d13;
  0x650a7354_766a0abb_81c2c92e_92722c85;
  0xa2bfe8a1_a81a664b_c24b8b70_c76c51a3;
  0xd192e819_d6990624_f40e3585_106aa070;
  0x19a4c116_1e376c08_2748774c_34b0bcb5;
  0x391c0cb3_4ed8aa4a_5b9cca4f_682e6ff3;
  0x748f82ee_78a5636f_84c87814_8cc70208;
  0x90befffa_a4506ceb_bef9a3f7_c67178f2]).

Definition H0 : list Z := Eval vm_compute in mjoin (row <$> [
  0x6a09e667_bb67ae85_3c6ef372_a54ff53a; 0x510e527f_9b05688c_1f83d9ab_5be0cd19]).

(** ** The compression function *)

(** Lines 42-58: the block as sixteen big-endian words, expanded to 64. *)
Definition schedule (block : list Z) : list Z :=
  let w := for_ 0 16 (λ i w,
    <[i := of_be [block !!! (i*4)%nat; block !!! (i*4+1)%nat;
                  block !!! (i*4+2)%nat; block !!! (i*4+3)%nat]]> w)
    (replicate 64 0) in
  for_ 16 64 (λ i w,
    let w15 := w !!! (i-15)%nat in
    let w2 := w !!! (i-2)%nat in
    let s0 := Z.lxor (Z.lxor (rotr 32 w15 7) (rotr 32 w15 18)) (Z.shiftr w15 3) in
    let s1 := Z.lxor (Z.lxor (rotr 32 w2 17) (rotr 32 w2 19)) (Z.shiftr w2 10) in
    <[i := wadd 32 (wadd 32 (wadd 32 (w !!! (i-16)%nat) s0) (w !!! (i-7)%nat)) s1]> w) w.

Record Working := mkWorking {
  wa : Z; wb : Z; wc : Z; wd : Z; we : Z; wf : Z; wg : Z; wh : Z }.

(** Lines 71-86: one of the 64 rounds. *)
Definition round (w : list Z) (i : nat) (v : Working) : Working :=
  let '(mkWorking a b c d e f g h) := v in
  let s1 := Z.lxor (Z.lxor (rotr 32 e 6) (rotr 32 e 11)) (rotr 32 e 25) in
  let ch := Z.lxor (Z.land e f) (Z.land (bnot 32 e) g) in
  let t1 := wadd 32 (wadd 32 (wadd 32 (wadd 32 h s1) ch) (K !!! i)) (w !!! i) in
  let s0 := Z.lxor (Z.lxor (rotr 32 a 2) (rotr 32 a 13)) (rotr 32 a 22) in
  let maj := Z.lxor (Z.lxor (Z.land a b) (Z.land a c)) (Z.land b c) in
  let t2 := wadd 32 s0 maj in
  mkWorking (wadd 32 t1 t2) a b c (wadd 32 d t1) e f g.

Definition compress (state block : list Z) : list Z :=
  let w := schedule block in
  let v0 := mkWorking (state !!! 0%nat) (state !!! 1%nat) (state !!! 2%nat) (state !!! 3%nat)
                      (state !!! 4%nat) (state !!! 5%nat) (state !!! 6%nat) (state !!! 7%nat) in
  let v := for_ 0 64 (round w) v0 in
  [wadd 32 (state !!! 0%nat) (wa v); wadd 32 (state !!! 1%nat) (wb v);
   wadd 32 (state !!! 2%nat) (wc v); wadd 32 (state !!! 3%nat) (wd v);
   wadd 32 (state !!! 4%nat) (we v); wadd 32 (state !!! 5%nat) (wf v);
   wadd 32 (state !!! 6%nat) (wg v); wadd 32 (state !!! 7%nat) (wh v)].

(** ** The streaming hasher *)

Record Sha256 := mkSha256 {
  state : list Z;
  buf : list Z;
  buf_len : nat;
  total_len : Z }.

Definition new : Sha256 := mkSha256 H0 (replicate 64 0) 0 0.

Section WithProfile.
Context `{Profile}.

(** The body of the [while !data.is_empty()] loop. *)
Definition update_step (s : Sha256 * list Z) : outcome (Sha256 * list Z) :=
  let '(h, data) := s in
  let space := (64 - buf_len h)%nat in
  let take_ := Nat.min space (length data) in
  buf' ← copy_into (buf_len h) (buf_len h + take_) (take take_ data) (buf h);
  let buf_len' := (buf_len h + take_)%nat in
  let data' := drop take_ data in
  Ret (if (buf_len' =? 64)%nat
       then (mkSha256 (compress (state h) buf') buf' 0 (total_len h), data')
       else (mkSha256 (state h) buf' buf_len' (total_len h), data')).

Definition update (h : Sha256) (data : list Z) : outcome Sha256 :=
  total ← add 64 (total_len h) (Z.of_nat (length data));
  r ← while_ (length data) (λ s, negb (length s.2 =? 0)%nat) update_step
        (mkSha256 (state h) (buf h) (buf_len h) total, data);
  Ret r.1.

(** Lines 140-155: pad the buffer, [len] bytes of which are in use, and
    compress its last one or two blocks. *)
Definition finish (st buf : list Z) (len : nat) (bits : list Z) : list Z :=
  let '(st2, buf2, len2) :=
    if (56 <? len)%nat then
      let b := for_ len 64 (λ i b, <[i := 0]> b) buf in
      (compress st b, b, 0%nat)
    else (st, buf, len) in
  let buf3 := for_ len2 56 (λ i b, <[i := 0]> b) buf2 in
  compress st2 (splice 56 bits buf3).

Definition finalize (h : Sha256) : outcome (list Z) :=
  total_bits ← mul 64 (total_len h) 8;
  buf1 ← store (buf h) (buf_len h) 0x80;
  let st := finish (state h) buf1 (S (buf_len h)) (be_bytes 8 total_bits) in
  Ret (for_ 0 8 (λ i out, splice (i*4) (be_bytes 4 (st !!! i)) out) (replicate 32 0)).

Definition sha256 (data : list Z) : outcome (list Z) :=
  h ← update new data; finalize h.

Definition hmac_sha256 (key data : list Z) : outcome (list Z) :=
  k ← (if (64 <? length key)%nat
       then hk ← sha256 key; Ret (splice 0 hk (replicate 64 0))
       else Ret (splice 0 key (replicate 64 0)));
  let k_ipad := for_ 0 64 (λ i p, <[i := Z.lxor (p !!! i) (k !!! i)]> p) (replicate 64 0x36) in
  let k_opad := for_ 0 64 (λ i p, <[i := Z.lxor (p !!! i) (k !!! i)]> p) (replicate 64 0x5c) in
  inner ← update new k_ipad;
  inner ← update inner data;
  inner_hash ← finalize inner;
  outer ← update new k_opad;
  outer ← update outer inner_hash;
  finalize outer.

End WithProfile.

Definition ct_eq_32 (a b : list Z) : bool := ct_diff 32 a b =? 0.

(** ** Reference functions (FIPS 180-4, RFC 2104) *)

(** FIPS 180-4 section 5.1.1: one bit, zeros up to 56 modulo 64, the length
    in bits as a 64-bit big-endian integer. *)
Definition pad (m : list Z) : list Z :=
  m ++ 0x80 :: replicate ((119 - length m mod 64) mod 64) 0
    ++ be_bytes 8 (8 * Z.of_nat (length m)).

(** Section 6.2.2: the hash of a sequence of whole blocks. *)
Definition absorb (st m : list Z) : list Z :=
  foldl compress st (chunks 64 (length m / 64) m).

Definition serialize (st : list Z) : list Z := mjoin (be_bytes 4 <$> st).

Definition sha256_spec (m : list Z) : list Z := serialize (absorb H0 (pad m)).

Definition xor_pad (k : list Z) (p : Z) : list Z := Z.lxor p <$> k.

Definition hmac_key (key : list Z) : list Z :=
  let k := if (64 <? length key)%nat then sha256_spec key else key in
  k ++ replicate (64 - length k) 0.

Definition hmac_spec (key data : list Z) : list Z :=
  let k := hmac_key key in
  sha256_spec (xor_pad k 0x5c ++ sha256_spec (xor_pad k 0x36 ++ data)).

(** ** Shapes *)

Lemma length_compress st b : length (compress st b) = 8%nat.
Proof. reflexivity. Qed.

Lemma uint_compress st b : Forall (uint 32) (compress st b).
Proof. unfold compress. repeat constructor; apply uint_wrap; lia. Qed.

Lemma serialize_cons x st : serialize (x :: st) = be_bytes 4 x ++ serialize st.
Proof. reflexivity. Qed.

Lemma length_serialize st : length (serialize st) = (4 * length st)%nat.
Proof.
  induction st as [|x st IH]; [done|].
  rewrite serialize_cons, length_app, length_be_bytes, IH. simpl. lia.
Qed.

Lemma bytes_serialize st : bytes (serialize st).
Proof.
  induction st as [|x st IH]; [constructor|].
  rewrite serialize_cons. apply Forall_app; split; [apply bytes_be_bytes|done].
Qed.

(** ** Absorbing blocks *)

Lemma absorb_nil st : absorb st [] = st.
Proof. reflexivity. Qed.

Lemma absorb_app st a b n :
  length a = (64 * n)%nat → absorb st (a ++ b) = absorb (absorb st a) b.
Proof.
  intros Ha. unfold absorb. rewrite length_app, Ha.
  rewrite (Nat.mul_comm 64 n), Nat.div_add_l, Nat.div_mul by lia.
  rewrite chunks_app by lia. apply foldl_app.
Qed.

Lemma absorb_block st b : length b = 64%nat → absorb st b = compress st b.
Proof.
  intros Hb. unfold absorb. rewrite Hb. simpl. rewrite take_ge by lia. done.
Qed.

Lemma length_absorb st m : length st = 8%nat → length (absorb st m) = 8%nat.
Proof.
  unfold absorb. generalize (chunks 64 (length m / 64) m) as bs. intros bs.
  revert st. induction bs as [|b bs IH]; intros st Hst; [done|]. simpl. by apply IH.
Qed.

Lemma length_sha256_spec m : length (sha256_spec m) = 32%nat.
Proof. unfold sha256_spec. by rewrite length_serialize, length_absorb. Qed.

Lemma bytes_sha256_spec m : bytes (sha256_spec m).
Proof. apply bytes_serialize. Qed.

Lemma length_hmac_key key : length (hmac_key key) = 64%nat.
Proof.
  unfold hmac_key. bool_cases; rewrite ?length_sha256_spec, length_app, length_replicate,
    ?length_sha256_spec; lia.
Qed.

#[export] Hint Rewrite length_sha256_spec : axiom_os.
#[export] Hint Resolve bytes_sha256_spec : axiom_os.

(** ** The streaming invariant

    [buffers h m]: the whole blocks of [m] are in the chaining state and the
    rest is in the buffer.  [absorbs h m] adds that the byte count is right:
    the hasher [h] has been fed the message [m]. *)

Definition buffers (h : Sha256) (m : list Z) : Prop :=
  length (buf h) = 64%nat ∧ (buf_len h < 64)%nat ∧
  ∃ full n, m = full ++ take (buf_len h) (buf h) ∧ length full = (64 * n)%nat ∧
    state h = absorb H0 full.

Definition absorbs (h : Sha256) (m : list Z) : Prop :=
  buffers h m ∧ total_len h = Z.of_nat (length m).

Lemma absorbs_new : absorbs new [].
Proof. split; [|done]. split; [done|]. split; [simpl; lia|]. exists [], 0%nat. done. Qed.

(** The two zero-filling loops of [finalize]. *)
Lemma zero_fill (pre mid post : list Z) a b :
  a = length pre → b = (length pre + length mid)%nat →
  for_ a b (λ i l, <[i := 0]> l) (pre ++ mid ++ post)
  = pre ++ replicate (length mid) 0 ++ post.
Proof.
  intros -> ->. revert post. induction mid as [|x mid IH] using rev_ind; intros post.
  - rewrite for_nil by (simpl; lia). done.
  - rewrite length_app, Nat.add_1_r, Nat.add_succ_r, for_S by lia.
    rewrite <-(assoc_L (++)), IH, replicate_S_end, <-!(assoc_L (++)). simpl.
    rewrite (assoc_L (++) pre), insert_app_r_alt by (rewrite length_app, length_replicate; lia).
    rewrite length_app, length_replicate, Nat.sub_diag. simpl. by rewrite <-(assoc_L (++)).
Qed.

(** The output loop of [finalize]. *)
Lemma output_loop st :
  length st = 8%nat →
  for_ 0 8 (λ i out, splice (i*4) (be_bytes 4 (st !!! i)) out) (replicate 32 0) = serialize st.
Proof.
  intros. do 9 (destruct st as [|? st]; try discriminate).
  unfold serialize. simpl. unfold be_bytes. reflexivity.
Qed.

Lemma pad_split m full tail n :
  m = full ++ tail → length full = (64 * n)%nat → (length tail < 64)%nat →
  pad m = full ++ (tail ++ 0x80 :: replicate ((119 - length tail) mod 64) 0
                        ++ be_bytes 8 (8 * Z.of_nat (length m))).
Proof.
  intros -> Hf Ht. unfold pad.
  replace (length (full ++ tail) mod 64)%nat with (length tail); [by rewrite <-(assoc_L (++))|].
  rewrite length_app, Hf, (Nat.mul_comm 64 n), Nat.add_comm, Nat.Div0.mod_add.
  rewrite Nat.mod_small; done.
Qed.

(** The final one or two blocks are the FIPS padding of the buffered tail. *)
Lemma finish_spec st tail rest bits :
  (length tail + length rest = 63)%nat → length bits = 8%nat →
  finish st (tail ++ 0x80 :: rest) (S (length tail)) bits
  = absorb st (tail ++ 0x80 :: replicate ((119 - length tail) mod 64) 0 ++ bits).
Proof.
  intros Hlen Hbits. unfold finish. rewrite (cons_middle 0x80), (assoc_L (++)).
  assert (length (tail ++ [0x80]) = S (length tail)) as Hpre
    by (rewrite length_app; simpl; lia).
  destruct (Nat.ltb_spec 56 (S (length tail))) as [Hbig|Hsmall].
  - pose proof (zero_fill (tail ++ [0x80]) rest [] (S (length tail)) 64) as Hfill.
    rewrite !app_nil_r in Hfill. rewrite Hfill by lia. clear Hfill.
    set (b1 := (tail ++ [0x80]) ++ replicate (length rest) 0).
    assert (length b1 = 64%nat) as Hb1 by (unfold b1; rewrite length_app, length_replicate; lia).
    pose proof (zero_fill [] (take 56 b1) (drop 56 b1) 0 56) as Hfill.
    rewrite take_drop, length_take, Hb1 in Hfill. cbn [app length Nat.min Nat.add] in Hfill.
    rewrite Hfill by done. clear Hfill.
    rewrite <-(app_nil_r (drop 56 b1)) at 1.
    rewrite (splice_app (replicate 56 0) (drop 56 b1) [])
      by (rewrite ?length_replicate, ?length_drop; lia).
    rewrite app_nil_r.
    replace ((119 - length tail) mod 64)%nat with (length rest + 56)%nat
      by (rewrite Nat.mod_small; lia).
    assert (tail ++ 0x80 :: replicate (length rest + 56) 0 ++ bits
            = b1 ++ replicate 56 0 ++ bits) as ->
      by (unfold b1; rewrite replicate_add, <-!(assoc_L (++)); done).
    rewrite (absorb_app _ b1 _ 1), !absorb_block;
      rewrite ?length_app, ?length_replicate; (done || lia).
  - set (k := (55 - length tail)%nat).
    assert (rest = take k rest ++ drop k rest) as Hrest by (by rewrite take_drop).
    rewrite Hrest at 1. rewrite (zero_fill (tail ++ [0x80]) (take k rest) (drop k rest))
      by (rewrite ?length_take; lia).
    rewrite length_take, Nat.min_l by lia. rewrite (assoc_L (++)).
    rewrite <-(app_nil_r (drop k rest)).
    rewrite splice_app by (rewrite ?length_app, ?length_replicate, ?length_drop; simpl; lia).
    rewrite app_nil_r.
    replace ((119 - length tail) mod 64)%nat with k.
    2:{ replace (119 - length tail)%nat with (k + 1 * 64)%nat by lia.
        rewrite Nat.Div0.mod_add, Nat.mod_small; lia. }
    rewrite absorb_block by (rewrite ?length_app; simpl; rewrite length_app, length_replicate; lia).
    rewrite <-!(assoc_L (++)). done.
Qed.

Section Streaming.
Context `{Profile}.

(** One iteration of the [update] loop moves bytes from the input to the
    hasher, and at least one of them. *)
Lemma update_step_buffers h m data :
  buffers h m → data ≠ [] →
  ∃ h' data', update_step (h, data) = Ret (h', data') ∧ total_len h' = total_len h ∧
    (length data' < length data)%nat ∧ ∃ moved, data = moved ++ data' ∧ buffers h' (m ++ moved).
Proof.
  intros (Hb & Hlt & full & n & Hm & Hfull & Hst) Hne.
  assert (0 < length data)%nat by (destruct data; simpl in *; [done|lia]).
  unfold update_step. set (t := Nat.min (64 - buf_len h) (length data)).
  assert (1 <= t <= length data)%nat by lia.
  rewrite copy_into_ok by (rewrite ?length_take; lia). simpl.
  set (buf' := splice (buf_len h) (take t data) (buf h)).
  assert (length buf' = 64%nat) by (unfold buf'; rewrite length_splice; rewrite ?length_take; lia).
  assert (take (buf_len h + t) buf' = take (buf_len h) (buf h) ++ take t data) as Hbuf'.
  { unfold buf', splice. rewrite (assoc_L (++)), take_app_le, take_ge;
      rewrite ?length_app, ?length_take; [done|lia|lia]. }
  bool_cases; eexists _, _; (split; [done|]); (split; [done|]);
    (split; [rewrite length_drop; lia|]); exists (take t data);
    (split; [by rewrite take_drop|]).
  - split; [done|]. split; [simpl; lia|]. exists (m ++ take t data), (S n). simpl.
    rewrite take_0, app_nil_r. split; [done|].
    assert (length (m ++ take t data) = (64 * S n)%nat) as Hlen.
    { rewrite Hm, !length_app, !length_take. lia. }
    split; [lia|]. rewrite Hm, <-(assoc_L (++)), <-Hbuf', take_ge by lia.
    rewrite (absorb_app _ _ _ n) by lia. by rewrite absorb_block, Hst.
  - split; [done|]. split; [simpl; lia|]. exists full, n. simpl.
    rewrite Hbuf', Hm, (assoc_L (++)). done.
Qed.

Lemma update_absorbs h m data :
  absorbs h m → Z.of_nat (length m + length data) < 2 ^ 64 →
  ∃ h', update h data = Ret h' ∧ absorbs h' (m ++ data).
Proof.
  intros [Hbuf Htot] Hlen. unfold update.
  rewrite add_small by (unfold uint; lia). rewrite bind_Ret.
  set (s0 := (mkSha256 _ _ _ _, data)).
  destruct (while_ind (λ s : Sha256 * list Z, ∃ fed, data = fed ++ s.2 ∧ buffers s.1 (m ++ fed)
                ∧ total_len s.1 = total_len s0.1)
              (λ s, length s.2) (λ s, negb (length s.2 =? 0)%nat) update_step (length data) s0)
    as ([h' rest] & -> & (fed & Hdata & Hb' & Ht') & Hstop).
  - exists []. rewrite app_nil_r. done.
  - done.
  - intros [h1 d1] (fed & Hd & Hb1 & Ht1) Hc. cbn [fst snd] in *.
    destruct (update_step_buffers h1 (m ++ fed) d1) as (h2 & d2 & -> & Ht2 & Hlt & mv & Hmv & Hb2);
      [done|by intros ->|].
    exists (h2, d2). split; [done|]. split; [|done].
    exists (fed ++ mv). simpl. rewrite <-(assoc_L (++)), <-Hmv. split; [done|].
    rewrite (assoc_L (++)). split; [done|]. by rewrite Ht2.
  - simpl in *. exists h'. split; [done|].
    assert (rest = []) as -> by (destruct rest; [done|discriminate]).
    rewrite app_nil_r in Hdata. subst fed. split; [done|].
    rewrite Ht'. simpl. rewrite length_app, Htot. lia.
Qed.

Lemma finalize_absorbs h m :
  absorbs h m → Z.of_nat (length m) < 2 ^ 61 → finalize h = Ret (sha256_spec m).
Proof.
  intros [(Hb & Hlt & full & n & Hm & Hfull & Hst) Htot] Hlen. unfold finalize.
  rewrite mul_small by (unfold uint; lia). rewrite bind_Ret.
  rewrite store_ok by lia. rewrite bind_Ret.
  set (tail := take (buf_len h) (buf h)) in *.
  assert (length tail = buf_len h) as Htail by (unfold tail; rewrite length_take; lia).
  unfold sha256_spec. rewrite (pad_split m full tail n), (absorb_app _ full _ n), <-Hst
    by (done || lia).
  assert (<[buf_len h:=128]> (buf h) = tail ++ 128 :: drop (S (buf_len h)) (buf h)) as ->.
  { unfold tail. apply insert_take_drop. lia. }
  rewrite <-Htail. rewrite finish_spec; [|rewrite length_drop; lia|apply length_be_bytes].
  rewrite output_loop by (apply length_absorb; rewrite Hst; by apply length_absorb).
  do 5 f_equal. by rewrite Z.mul_comm, Htot.
Qed.

End Streaming.

(** ** The hasher computes SHA-256 *)

(** Feeding the hasher one piece after the other. *)
Fixpoint update_all `{Profile} (h : Sha256) (parts : list (list Z)) : outcome Sha256 :=
  match parts with
  | [] => Ret h
  | p :: parts => h' ← update h p; update_all h' parts
  end.

Lemma update_all_absorbs `{Profile} parts h m :
  absorbs h m → Z.of_nat (length m + length (mjoin parts)) < 2 ^ 64 →
  ∃ h', update_all h parts = Ret h' ∧ absorbs h' (m ++ mjoin parts).
Proof.
  revert h m. induction parts as [|p parts IH]; intros h m Hh Hlen; cbn [update_all].
  - exists h. split; [done|]. simpl. by rewrite app_nil_r.
  - change (mjoin (p :: parts)) with (p ++ mjoin parts) in *. rewrite length_app in Hlen.
    destruct (update_absorbs h m p) as (h' & -> & Hh'); [done|lia|]. rewrite bind_Ret.
    rewrite (assoc_L (++)). apply IH; [done|]. rewrite length_app. lia.
Qed.

Lemma sha256_ok `{Profile} m : Z.of_nat (length m) < 2 ^ 61 → sha256 m = Ret (sha256_spec m).
Proof.
  intros Hlen. unfold sha256.
  destruct (update_absorbs new [] m) as (h & -> & Hh); [apply absorbs_new|simpl; lia|].
  by apply finalize_absorbs.
Qed.

(** The pad loops of [hmac_sha256]. *)
Lemma xor_loop n p k :
  length k = n →
  for_ 0 n (λ i q, <[i := Z.lxor (q !!! i) (k !!! i)]> q) (replicate n p) = xor_pad k p.
Proof.
  intros Hk. set (f := λ (i : nat) (q : list Z), _).
  pose proof (for_ind (λ i q, q = xor_pad (take i k) p ++ replicate (n - i) p) 0 n f
                (replicate n p)) as Hloop. cbv beta in Hloop.
  rewrite Hloop; [|lia|by rewrite take_0, Nat.sub_0_r|].
  - rewrite Nat.sub_diag, take_ge, app_nil_r by lia. done.
  - intros i q Hi ->. unfold f.
    assert (length (xor_pad (take i k) p) = i) as Hlen
      by (unfold xor_pad; rewrite length_fmap, length_take; lia).
    replace (n - i)%nat with (S (n - S i)) by lia. simpl.
    rewrite lookup_total_app_r, Hlen, Nat.sub_diag by lia.
    rewrite insert_app_r_alt, Hlen, Nat.sub_diag by lia. simpl.
    assert (k !! i = Some (k !!! i)) as Hki by (apply list_lookup_lookup_total_lt; lia).
    rewrite (take_S_r _ _ _ Hki). unfold xor_pad. by rewrite fmap_app, <-(assoc_L (++)).
Qed.

Lemma hmac_ok `{Profile} key data :
  Z.of_nat (length key) < 2 ^ 61 → Z.of_nat (length data) < 2 ^ 60 →
  hmac_sha256 key data = Ret (hmac_spec key data).
Proof.
  intros Hkey Hdata. unfold hmac_sha256.
  assert ((if (64 <? length key)%nat
       then hk ← sha256 key; Ret (splice 0 hk (replicate 64 0))
       else Ret (splice 0 key (replicate 64 0))) = Ret (hmac_key key)) as ->.
  { unfold hmac_key. destruct (Nat.ltb_spec 64 (length key)).
    - rewrite sha256_ok, bind_Ret, splice_zeros by (rewrite ?length_sha256_spec; lia).
      by rewrite Nat.sub_0_r.
    - rewrite splice_zeros by lia. by rewrite Nat.sub_0_r. }
  rewrite bind_Ret, !xor_loop by apply length_hmac_key.
  set (k := hmac_key key).
  assert (∀ p, length (xor_pad k p) = 64%nat) as Hpad
    by (intros; unfold xor_pad; rewrite length_fmap; apply length_hmac_key).
  destruct (update_absorbs new [] (xor_pad k 0x36)) as (h1 & -> & Hh1);
    [apply absorbs_new|rewrite Hpad; simpl; lia|]. rewrite bind_Ret. cbn [app] in Hh1.
  destruct (update_absorbs h1 _ data Hh1) as (h2 & -> & Hh2);
    [rewrite Hpad; lia|]. rewrite bind_Ret.
  rewrite (finalize_absorbs _ _ Hh2) by (rewrite length_app, Hpad; lia).
  rewrite bind_Ret.
  destruct (update_absorbs new [] (xor_pad k 0x5c)) as (h3 & -> & Hh3);
    [apply absorbs_new|rewrite Hpad; simpl; lia|]. rewrite bind_Ret. cbn [app] in Hh3.
  destruct (update_absorbs h3 _ (sha256_spec (xor_pad k 0x36 ++ data)) Hh3) as (h4 & -> & Hh4);
    [rewrite Hpad, length_sha256_spec; lia|]. rewrite bind_Ret.
  rewrite (finalize_absorbs _ _ Hh4); [done|].
  rewrite length_app, Hpad, length_sha256_spec. lia.
Qed.

(** ** What [crypto.rs] promises its clients *)

#[export] Instance crypto_ops `{Profile} : HashOps :=
  {| h_sha256 := sha256; h_hmac_sha256 := hmac_sha256 |}.

#[export] Instance crypto_laws `{Profile} : HashLaws crypto_ops.
Proof.
  refine {| sha256_fn := sha256_spec; hmac_fn := hmac_spec |}.
  - intros m Hm. apply sha256_ok. rewrite max_message_value in Hm. lia.
  - intros k m Hk Hm. rewrite max_message_value in *. apply hmac_ok; lia.
  - apply length_sha256_spec.
  - apply bytes_sha256_spec.
  - intros. apply length_sha256_spec.
  - intros. apply bytes_sha256_spec.
Defined.

(** ** The compression function against FIPS 180-4 section 6.2.2

    The standard defines the schedule as a recurrence and each round with
    one sum modulo 2^32; the code fills a 64-word array in place and adds
    pairwise with [wrapping_add]. *)

Module Fips.
Definition Sigma0 x := Z.lxor (Z.lxor (rotr 32 x 2) (rotr 32 x 13)) (rotr 32 x 22).
Definition Sigma1 x := Z.lxor (Z.lxor (rotr 32 x 6) (rotr 32 x 11)) (rotr 32 x 25).
Definition sigma0 x := Z.lxor (Z.lxor (rotr 32 x 7) (rotr 32 x 18)) (Z.shiftr x 3).
Definition sigma1 x := Z.lxor (Z.lxor (rotr 32 x 17) (rotr 32 x 19)) (Z.shiftr x 10).
Definition Ch x y z := Z.lxor (Z.land x y) (Z.land (bnot 32 x) z).
Definition Maj x y z := Z.lxor (Z.lxor (Z.land x y) (Z.land x z)) (Z.land y z).

(** The schedule, newest word first: [W_t] from the sixteen words before it. *)
Definition next (ws : list Z) : list Z :=
  (sigma1 (ws !!! 1%nat) + ws !!! 6%nat + sigma0 (ws !!! 14%nat) + ws !!! 15%nat) mod 2 ^ 32 :: ws.
Definition W (block : list Z) : list Z :=
  reverse (Nat.iter 48 next (reverse (of_be <$> chunks 4 16 block))).

Definition step (v : Working) (kw : Z * Z) : Working :=
  let '(mkWorking a b c d e f g h) := v in
  let T1 := (h + Sigma1 e + Ch e f g + kw.1 + kw.2) mod 2 ^ 32 in
  let T2 := (Sigma0 a + Maj a b c) mod 2 ^ 32 in
  mkWorking ((T1 + T2) mod 2 ^ 32) a b c ((d + T1) mod 2 ^ 32) e f g.

Definition to_list (v : Working) : list Z := [wa v; wb v; wc v; wd v; we v; wf v; wg v; wh v].
Definition of_list (l : list Z) : Working :=
  mkWorking (l !!! 0%nat) (l !!! 1%nat) (l !!! 2%nat) (l !!! 3%nat)
            (l !!! 4%nat) (l !!! 5%nat) (l !!! 6%nat) (l !!! 7%nat).

Definition hash_block (H block : list Z) : list Z :=
  zip_with (λ x y, (x + y) mod 2 ^ 32) H
    (to_list (foldl step (of_list H) (zip K (W block)))).
End Fips.

Lemma wadd_sum a b c : wadd 32 (wadd 32 a b) c = (a + b + c) mod 2 ^ 32.
Proof. unfold wadd, wrap. by rewrite Z.add_mod_idemp_l by lia. Qed.

Lemma wadd_sum4 a b c d :
  wadd 32 (wadd 32 (wadd 32 a b) c) d = (a + b + c + d) mod 2 ^ 32.
Proof. unfold wadd at 1. rewrite wadd_sum. unfold wrap. by rewrite Z.add_mod_idemp_l by lia. Qed.

Lemma wadd_sum5 a b c d e :
  wadd 32 (wadd 32 (wadd 32 (wadd 32 a b) c) d) e = (a + b + c + d + e) mod 2 ^ 32.
Proof. unfold wadd at 1. rewrite wadd_sum4. unfold wrap. by rewrite Z.add_mod_idemp_l by lia. Qed.

Lemma schedule_first block :
  length block = 64%nat →
  let w := for_ 0 16 (λ i w,
    <[i := of_be [block !!! (i*4)%nat; block !!! (i*4+1)%nat;
                  block !!! (i*4+2)%nat; block !!! (i*4+3)%nat]]> w) (replicate 64 0) in
  length w = 64%nat ∧ take 16 w = of_be <$> chunks 4 16 block.
Proof.
  intros Hb. do 65 (destruct block as [|? block]; try discriminate). split; reflexivity.
Qed.

Lemma reverse_take_lookup (w : list Z) i j :
  (j < i <= length w)%nat → reverse (take i w) !!! j = w !!! (i - S j)%nat.
Proof.
  intros. rewrite !list_lookup_total_alt, reverse_lookup by (rewrite length_take; lia).
  rewrite length_take, Nat.min_l, lookup_take_lt by lia. done.
Qed.

Lemma schedule_fips block : length block = 64%nat → schedule block = Fips.W block.
Proof.
  intros Hb. unfold schedule. destruct (schedule_first block Hb) as [Hlen Hfst].
  set (w0 := for_ 0 16 _ (replicate 64 0)) in *. cbv zeta. set (f := λ (i : nat) (w : list Z), _).
  destruct (for_ind (λ i w, length w = 64%nat ∧
      reverse (take i w) = Nat.iter (i - 16) Fips.next (reverse (of_be <$> chunks 4 16 block)))
      16 64 f w0) as [Hl Hw].
  - lia.
  - by rewrite Hfst.
  - intros i w Hi [Hl IH]. unfold f. split; [by rewrite length_insert|].
    rewrite Nat.sub_succ_l, Nat.iter_succ, <-IH by lia. unfold Fips.next.
    rewrite !reverse_take_lookup by lia.
    rewrite (take_S_r _ _ _ (list_lookup_insert_eq w i _ ltac:(lia))).
    rewrite reverse_snoc, take_insert_ge by lia. f_equal.
    rewrite wadd_sum4. f_equal. unfold Fips.sigma0, Fips.sigma1. lia.
  - unfold Fips.W. change 48%nat with (64 - 16)%nat. rewrite <-Hw, reverse_involutive, take_ge by lia.
    done.
Qed.

Lemma length_W block : length block = 64%nat → length (Fips.W block) = 64%nat.
Proof.
  intros Hb. rewrite <-schedule_fips by done. unfold schedule. cbv zeta.
  destruct (schedule_first block Hb) as [Hlen _].
  apply (for_ind (λ _ w, length w = 64%nat)); [lia|exact Hlen|].
  intros. by rewrite length_insert.
Qed.

Lemma round_fips w i v : round w i v = Fips.step v (K !!! i, w !!! i).
Proof.
  destruct v as [a b c d e f g h]. unfold round, Fips.step. cbn [fst snd].
  rewrite (wadd_sum5 h). reflexivity.
Qed.

Lemma rounds_fips w v :
  length w = 64%nat → for_ 0 64 (round w) v = foldl Fips.step v (zip K w).
Proof.
  intros Hw. set (kw := zip K w).
  assert (length kw = 64%nat) as Hkw by (unfold kw; rewrite length_zip_with, Hw; done).
  rewrite (for_ind (λ i v', v' = foldl Fips.step v (take i kw)) 0 64 (round w) v).
  - by rewrite take_ge by lia.
  - lia.
  - done.
  - intros i v' Hi ->. rewrite round_fips.
    assert (kw !! i = Some (K !!! i, w !!! i)) as Hki.
    { unfold kw. apply lookup_zip_with_Some. eexists _, _. split; [done|].
      split; apply list_lookup_lookup_total_lt; [simpl; lia|lia]. }
    by rewrite (take_S_r _ _ _ Hki), foldl_app.
Qed.

(** ** Properties *)

(** C7: however a message is cut into pieces, feeding the pieces to a fresh
    [Sha256] and finalising returns (no panic, no endless loop, in either
    build profile) the FIPS 180-4 hash of the whole message, for every
    message below 2^61 bytes. *)
Theorem sha256_streaming `{Profile} (parts : list (list Z)) :
  Z.of_nat (length (mjoin parts)) < 2 ^ 61 →
  (h ← update_all new parts; finalize h) = Ret (sha256_spec (mjoin parts)).
Proof.
  intros Hlen.
  destruct (update_all_absorbs parts new []) as (h & -> & Hh); [apply absorbs_new|simpl; lia|].
  by apply finalize_absorbs.
Qed.

Lemma sha256_streaming_witness :
  (h ← @update_all dev_profile new [bstr "ab"; []; bstr "c"]; @finalize dev_profile h)
  = Ret (sha256_spec (bstr "abc")).
Proof. apply (@sha256_streaming dev_profile [bstr "ab"; []; bstr "c"]). reflexivity. Defined.

(** C28: [hmac_sha256] returns the RFC 2104 value
    H(k xor opad ++ H(k xor ipad ++ data)), with the key hashed first when it
    is longer than a block and zero-padded otherwise. *)
Theorem hmac_sha256_rfc2104 `{Profile} key data :
  Z.of_nat (length key) < 2 ^ 61 → Z.of_nat (length data) < 2 ^ 60 →
  hmac_sha256 key data = Ret (hmac_spec key data).
Proof. apply hmac_ok. Qed.

Lemma hmac_sha256_rfc2104_witness :
  @hmac_sha256 release_profile (replicate 70 0x0b) (bstr "Hi There")
  = Ret (hmac_spec (replicate 70 0x0b) (bstr "Hi There")).
Proof. apply (@hmac_sha256_rfc2104 release_profile); reflexivity. Defined.

(** on an 8-word state and a 64-byte block the in-place compression
    function computes the FIPS 180-4 section 6.2.2 recurrences. *)
Theorem compress_fips st block :
  length st = 8%nat → length block = 64%nat → compress st block = Fips.hash_block st block.
Proof.
  intros Hst Hb. unfold compress, Fips.hash_block.
  rewrite schedule_fips, rounds_fips by (done || by apply length_W). fold (Fips.of_list st).
  do 9 (destruct st as [|? st]; try discriminate). reflexivity.
Qed.

Lemma compress_fips_witness :
  compress H0 (replicate 64 0) = Fips.hash_block H0 (replicate 64 0).
Proof. apply (compress_fips H0 (replicate 64 0)); reflexivity. Defined.

(** the constant-time comparison of two 32-byte arrays is equality. *)
Theorem ct_eq_32_spec a b :
  length a = 32%nat → length b = 32%nat → ct_eq_32 a b = true ↔ a = b.
Proof. apply ct_diff_eq. Qed.

Lemma ct_eq_32_spec_witness : ct_eq_32 (replicate 32 7) (replicate 32 7) = true.
Proof. apply (ct_eq_32_spec (replicate 32 7) (replicate 32 7)); reflexivity. Defined.

(** the published test vectors the repository's tests name: SHA-256 of
    the empty string and of "abc" (FIPS 180-4), HMAC-SHA-256 of "Hi There"
    under twenty bytes 0x0b. *)
Theorem crypto_vectors :
  @sha256 dev_profile [] =
    Ret (be_bytes 32 0xe3b0c44298fc1c149afbf4c8996fb92427ae41e4649b934ca495991b7852b855) ∧
  @sha256 dev_profile (bstr "abc") =
    Ret (be_bytes 32 0xba7816bf8f01cfea414140de5dae2223b00361a396177a9cb410ff61f20015ad) ∧
  @hmac_sha256 dev_profile (replicate 20 0x0b) (bstr "Hi There") =
    Ret (be_bytes 32 0xb0344c61d8db38535ca8afceaf0bf12b881dc200c9833da726e9376c2e32cff7).
Proof. vm_compute. done. Qed.

(** The HMAC of fifty bytes 0xdd under eighty bytes 0xaa (a key longer than a
    block) starts with e4 ae 5e 84. *)
Theorem long_key_vector :
  take 4 (hmac_spec (replicate 80 0xaa) (replicate 50 0xdd)) = [0xe4; 0xae; 0x5e; 0x84].
Proof. vm_compute. reflexivity. Qed.
