(* ===== verification/Rfc8439.v ===== *)
(** * RFC 8439, transcribed

    The ChaCha20 block function, the ChaCha20 encryption and the message the
    AEAD construction authenticates, as sections 2.1 to 2.4 and 2.8 of
    RFC 8439 state them, on integers and lists.  Nothing here is taken from
    the kernel: words are integers modulo 2^32, the state is the list of its
    sixteen words, a key has 32 bytes and a nonce 12, and every encoding is
    written out.  [CryptoAead] and [Poly1305] prove that the code computes
    these functions. *)

From Stdlib Require Import ZArith List.
From stdpp Require Import base numbers list.
#[local] Open Scope Z_scope.

Module Rfc.

(** ** Section 2.1: the quarter round *)

Definition plus32 (x y : Z) : Z := (x + y) mod 2 ^ 32.
Definition roll (x n : Z) : Z := Z.lor (Z.shiftl x n mod 2 ^ 32) (Z.shiftr x (32 - n)).

Definition quarter_round (a b c d : Z) : Z * Z * Z * Z :=
  let a := plus32 a b in let d := roll (Z.lxor d a) 16 in
  let c := plus32 c d in let b := roll (Z.lxor b c) 12 in
  let a := plus32 a b in let d := roll (Z.lxor d a) 8 in
  let c := plus32 c d in let b := roll (Z.lxor b c) 7 in
  (a, b, c, d).

(** ** Section 2.3: the block function *)

(** [inner_block]: a column round and a diagonal round of the four by four
    matrix of words. *)
Definition inner_block (s : list Z) : list Z :=
  match s with
  | [x0; x1; x2; x3; x4; x5; x6; x7; x8; x9; x10; x11; x12; x13; x14; x15] =>
    let '(x0, x4, x8, x12) := quarter_round x0 x4 x8 x12 in
    let '(x1, x5, x9, x13) := quarter_round x1 x5 x9 x13 in
    let '(x2, x6, x10, x14) := quarter_round x2 x6 x10 x14 in
    let '(x3, x7, x11, x15) := quarter_round x3 x7 x11 x15 in
    let '(x0, x5, x10, x15) := quarter_round x0 x5 x10 x15 in
    let '(x1, x6, x11, x12) := quarter_round x1 x6 x11 x12 in
    let '(x2, x7, x8, x13) := quarter_round x2 x7 x8 x13 in
    let '(x3, x4, x9, x14) := quarter_round x3 x4 x9 x14 in
    [x0; x1; x2; x3; x4; x5; x6; x7; x8; x9; x10; x11; x12; x13; x14; x15]
  | _ => s
  end.

(** The [i]-th little-endian word of a string of bytes. *)
Definition word (b : list Z) (i : nat) : Z :=
  b !!! (4 * i)%nat + b !!! (4 * i + 1)%nat * 2 ^ 8 + b !!! (4 * i + 2)%nat * 2 ^ 16
  + b !!! (4 * i + 3)%nat * 2 ^ 24.

(** Constants "expa nd 3 2-by te k", key, block counter, nonce. *)
Definition setup (key : list Z) (counter : Z) (nonce : list Z) : list Z :=
  [0x61707865; 0x3320646e; 0x79622d32; 0x6b206574]
  ++ map (word key) (seq 0 8) ++ [counter] ++ map (word nonce) (seq 0 3).

(** The [n] bytes of a number, least significant first. *)
Definition num_to_le_bytes (n : nat) (x : Z) : list Z :=
  map (fun i => (x / 2 ^ (8 * Z.of_nat i)) mod 2 ^ 8) (seq 0 n).

(** [state += initial_state]. *)
Definition add_states (s t : list Z) : list Z := map (fun p => plus32 (fst p) (snd p)) (combine s t).

Definition block (key : list Z) (counter : Z) (nonce : list Z) : list Z :=
  let initial := setup key counter nonce in
  flat_map (num_to_le_bytes 4) (add_states (Nat.iter 10 inner_block initial) initial).

(** ** Section 2.4: encryption, with the block counter from 1 *)

Definition key_stream (key nonce : list Z) (blocks : nat) : list Z :=
  flat_map (fun i => block key (Z.of_nat i) nonce) (seq 1 blocks).

Definition encrypt (key nonce plaintext : list Z) : list Z :=
  map (fun p => Z.lxor (fst p) (snd p))
    (combine plaintext (key_stream key nonce ((length plaintext + 63) / 64))).

(** ** Sections 2.6 and 2.8: the one-time key and the authenticated data *)

Definition poly1305_key_gen (key nonce : list Z) : list Z := firstn 32 (block key 0 nonce).

Definition padding16 (x : list Z) : list Z :=
  if Nat.eqb (length x mod 16) 0 then [] else repeat 0 (16 - length x mod 16).

Definition mac_data (aad ciphertext : list Z) : list Z :=
  aad ++ padding16 aad ++ ciphertext ++ padding16 ciphertext
  ++ num_to_le_bytes 8 (Z.of_nat (length aad)) ++ num_to_le_bytes 8 (Z.of_nat (length ciphertext)).

(** ** Test vectors of the RFC *)

(** Section 2.1.1. *)
Example quarter_round_vector :
  quarter_round 0x11111111 0x01020304 0x9b8d6f43 0x01234567
  = (0xea2a92f4, 0xcb1cf8ce, 0x4581472e, 0x5881c4bb).
Proof. vm_compute. reflexivity. Qed.

(** Section 2.3.2. *)
Example block_vector :
  block (map Z.of_nat (seq 0 32)) 1 [0; 0; 0; 9; 0; 0; 0; 0x4a; 0; 0; 0; 0]
  = [0x10; 0xf1; 0xe7; 0xe4; 0xd1; 0x3b; 0x59; 0x15; 0x50; 0x0f; 0xdd; 0x1f; 0xa3; 0x20; 0x71; 0xc4;
     0xc7; 0xd1; 0xf4; 0xc7; 0x33; 0xc0; 0x68; 0x03; 0x04; 0x22; 0xaa; 0x9a; 0xc3; 0xd4; 0x6c; 0x4e;
     0xd2; 0x82; 0x64; 0x46; 0x07; 0x9f; 0xaa; 0x09; 0x14; 0xc2; 0xd7; 0x05; 0xd9; 0x8b; 0x02; 0xa2;
     0xb5; 0x12; 0x9c; 0xd1; 0xde; 0x16; 0x4e; 0xb9; 0xcb; 0xd0; 0x83; 0xe8; 0xa2; 0x50; 0x3c; 0x4e].
Proof. vm_compute. reflexivity. Qed.

End Rfc.
