(* ===== verification/CryptoAead.v ===== *)
(** * ChaCha20, HKDF-SHA-256 and the encrypt-then-HMAC AEAD

    Model of [kernel/src/crypto_aead.rs].  [qr] and [chacha20_block] work on
    the sixteen-word state in place, as the code does; [hkdf_extract],
    [hkdf_expand_32] and [eipc_session_key] derive the EIPC session key;
    [aead_seal] and [aead_open] are the 48-byte encrypt-then-HMAC pair.
    Hashing goes through the [HashOps] interface.

    Shown here: the double round is a permutation of states (so the block
    function loses no information before the feed-forward), a block is 64
    bytes, the session key is the RFC 5869 value and depends injectively on
    what is hashed, opening what was sealed gives back the plaintext, and
    opening accepts a payload exactly when its tag is the expected one. *)

From S2P Require Import Prelude Interfaces Crypto Rfc8439.
From Stdlib Require Import ZArith Lia.
From stdpp Require Import base numbers list strings.
#[local] Open Scope Z_scope.

(** ** ChaCha20 *)

Definition qr (s : list Z) (a b c d : nat) : list Z :=
  let s := <[a := wadd 32 (s !!! a) (s !!! b)]> s in
  let s := <[d := Z.lxor (s !!! d) (s !!! a)]> s in
  let s := <[d := rotl 32 (s !!! d) 16]> s in
  let s := <[c := wadd 32 (s !!! c) (s !!! d)]> s in
  let s := <[b := Z.lxor (s !!! b) (s !!! c)]> s in
  let s := <[b := rotl 32 (s !!! b) 12]> s in
  let s := <[a := wadd 32 (s !!! a) (s !!! b)]> s in
  let s := <[d := Z.lxor (s !!! d) (s !!! a)]> s in
  let s := <[d := rotl 32 (s !!! d) 8]> s in
  let s := <[c := wadd 32 (s !!! c) (s !!! d)]> s in
  let s := <[b := Z.lxor (s !!! b) (s !!! c)]> s in
  <[b := rotl 32 (s !!! b) 7]> s.

(** The body of the ten-iteration loop: four column and four diagonal
    quarter rounds. *)
Definition double_round (s : list Z) : list Z :=
  let s := qr s 0 4 8 12 in
  let s := qr s 1 5 9 13 in
  let s := qr s 2 6 10 14 in
  let s := qr s 3 7 11 15 in
  let s := qr s 0 5 10 15 in
  let s := qr s 1 6 11 12 in
  let s := qr s 2 7 8 13 in
  qr s 3 4 9 14.

(** Lines 24-34: constants, key, counter, nonce. *)
Definition initial_state (key : list Z) (counter : Z) (nonce : list Z) : list Z :=
  let s := replicate 16 0 in
  let s := <[0%nat := 0x61707865]> s in
  let s := <[1%nat := 0x3320646e]> s in
  let s := <[2%nat := 0x79622d32]> s in
  let s := <[3%nat := 0x6b206574]> s in
  let s := for_ 0 8 (λ i s,
    let o := (i * 4)%nat in
    <[(4 + i)%nat := of_le [key !!! o; key !!! (o+1)%nat; key !!! (o+2)%nat; key !!! (o+3)%nat]]> s) s in
  let s := <[12%nat := counter]> s in
  let s := <[13%nat := of_le [nonce !!! 0%nat; nonce !!! 1%nat; nonce !!! 2%nat; nonce !!! 3%nat]]> s in
  let s := <[14%nat := of_le [nonce !!! 4%nat; nonce !!! 5%nat; nonce !!! 6%nat; nonce !!! 7%nat]]> s in
  <[15%nat := of_le [nonce !!! 8%nat; nonce !!! 9%nat; nonce !!! 10%nat; nonce !!! 11%nat]]> s.

Definition chacha20_block (key : list Z) (counter : Z) (nonce : list Z) : list Z :=
  let init := initial_state key counter nonce in
  let s := for_ 0 10 (λ _ s, double_round s) init in
  let s := for_ 0 16 (λ i s, <[i := wadd 32 (s !!! i) (init !!! i)]> s) s in
  for_ 0 16 (λ i out, splice (i*4) (le_bytes 4 (s !!! i)) out) (replicate 64 0).

Definition chacha20_self_test : bool :=
  let key := replicate 32 0 in
  let nonce := replicate 12 0 in
  let block := chacha20_block key 0 nonce in
  let word0 := of_le [block !!! 0%nat; block !!! 1%nat; block !!! 2%nat; block !!! 3%nat] in
  word0 =? 0xade0b876.

Definition MAX_PT : nat := 48.
Definition TAG_LEN : nat := 16.

Record AeadCt := mkAeadCt { ct : list Z; len : nat; tag : list Z }.

Section Aead.
Context `{Profile} `{HashOps}.

(** [out] is the destination slice: [out[i]] is bounds-checked, and so is
    [ks[i]] on the 64-byte keystream block. *)
Definition chacha20_xor (key nonce data out : list Z) : outcome (list Z) :=
  debug_assert (length data <=? 64)%nat;;
  let ks := chacha20_block key 1 nonce in
  for_out 0 (length data) (λ i out,
    d ← index data i; k ← index ks i; store out i (Z.lxor d k)) out.

(** ** HKDF-SHA-256 *)

Definition hkdf_extract (salt ikm : list Z) : outcome (list Z) := h_hmac_sha256 salt ikm.

Definition hkdf_expand_32 (prk info : list Z) : outcome (list Z) :=
  let buf := replicate 128 0 in
  let len := Nat.min (length info) 127 in
  let buf := splice 0 (take len info) buf in
  let buf := <[len := 0x01]> buf in
  h_hmac_sha256 prk (take (len + 1) buf).

Definition eipc_session_key (cap_chain_hash : list Z) (sender receiver : Z) : outcome (list Z) :=
  prk ← hkdf_extract (replicate 32 0) cap_chain_hash;
  let info := replicate 21 0 in
  let info := splice 0 (bstr "AXIOM-EIPC-v1") info in
  let info := splice 13 (le_bytes 4 sender) info in
  let info := splice 17 (le_bytes 4 receiver) info in
  hkdf_expand_32 prk info.

(** ** The AEAD *)

(** Lines 128-131 and 142-145: the authenticated message, [nonce ++ c] for a
    ciphertext [c] of [len] bytes. *)
Definition auth_input (nonce c : list Z) (len : nat) : outcome (list Z) :=
  let auth_in := replicate (12 + MAX_PT) 0 in
  let auth_in := splice 0 nonce auth_in in
  c ← slice 0 len c;
  auth_in ← copy_into 12 (12 + len) c auth_in;
  slice 0 (12 + len) auth_in.

Definition aead_seal (key nonce plaintext : list Z) : outcome AeadCt :=
  let len := length plaintext in
  debug_assert (len <=? MAX_PT)%nat;;
  let ct := replicate MAX_PT 0 in
  out ← slice 0 len ct;
  out ← chacha20_xor key nonce plaintext out;
  let ct := splice 0 out ct in
  msg ← auth_input nonce ct len;
  h ← h_hmac_sha256 key msg;
  Ret (mkAeadCt ct len (take TAG_LEN h)).

Definition aead_open (key nonce : list Z) (c : AeadCt) : outcome (option (list Z * nat)) :=
  msg ← auth_input nonce (ct c) (len c);
  h ← h_hmac_sha256 key msg;
  if negb (ct_diff TAG_LEN (tag c) h =? 0) then Ret None
  else
    let pt := replicate MAX_PT 0 in
    c' ← slice 0 (len c) (ct c);
    out ← slice 0 (len c) pt;
    out ← chacha20_xor key nonce c' out;
    Ret (Some (splice 0 out pt, len c)).

End Aead.

(** ** The ChaCha20 state *)

(** Sixteen 32-bit words. *)
Definition words16 (s : list Z) : Prop := length s = 16%nat ∧ Forall (uint 32) s.

Lemma words16_lookup s i : words16 s → (i < 16)%nat → uint 32 (s !!! i).
Proof.
  intros [Hl Hs] Hi. apply (Forall_lookup_1 _ _ i _ Hs).
  apply list_lookup_lookup_total_lt. lia.
Qed.

Lemma words16_insert s i x : words16 s → uint 32 x → words16 (<[i := x]> s).
Proof. intros [Hl Hs] Hx. split; [by rewrite length_insert|]. by apply Forall_insert. Qed.

Lemma uint_wadd a b : uint 32 (wadd 32 a b).
Proof. apply uint_wrap. lia. Qed.

(** An in-place update that can be undone does not identify two states. *)
Lemma insert_update_inj (f : Z → Z → Z) (i j : nat) s t :
  words16 s → words16 t → (i < 16)%nat → (j < 16)%nat → i ≠ j →
  (∀ x x' y, uint 32 x → uint 32 x' → uint 32 y → f x y = f x' y → x = x') →
  <[i := f (s !!! i) (s !!! j)]> s = <[i := f (t !!! i) (t !!! j)]> t → s = t.
Proof.
  intros Hs Ht Hi Hj Hij Hf E. pose proof Hs as [Hls _]. pose proof Ht as [Hlt _].
  assert (∀ k, k ≠ i → s !! k = t !! k) as Hk.
  { intros k Hki. apply (f_equal (λ l, l !! k)) in E.
    by rewrite !list_lookup_insert_ne in E by done. }
  apply list_eq. intros k. destruct (decide (k = i)) as [->|]; [|by apply Hk].
  apply (f_equal (λ l, l !!! i)) in E. rewrite !list_lookup_total_insert_eq in E by lia.
  assert (s !!! j = t !!! j) as Hsj by (rewrite !list_lookup_total_alt, Hk; done).
  rewrite Hsj in E. apply Hf in E; try (by apply words16_lookup).
  rewrite !list_lookup_lookup_total_lt by lia. by rewrite E.
Qed.

Lemma wadd_inj x x' y : uint 32 x → uint 32 x' → wadd 32 x y = wadd 32 x' y → x = x'.
Proof.
  unfold uint, wadd, wrap. intros Hx Hx' E.
  assert (((x + y) - (x' + y)) mod 2 ^ 32 = 0) as Hd.
  { rewrite Zminus_mod, E, Z.sub_diag. done. }
  apply Z.mod_divide in Hd as [k Hk]; [|lia]. nia.
Qed.

Lemma rotl_inj x x' n :
  0 < n < 32 → uint 32 x → uint 32 x' → rotl 32 x n = rotl 32 x' n → x = x'.
Proof.
  intros Hn Hx Hx' E. apply Z.bits_inj'. intros i Hi.
  destruct (Z.lt_ge_cases i 32) as [Hlt|Hge]; [|by rewrite !(uint_testbit 32)].
  apply (f_equal (λ z, Z.testbit z (if i + n <? 32 then i + n else i + n - 32))) in E.
  rewrite !(rotl_testbit 32) in E by (done || destruct (Z.ltb_spec (i + n) 32); lia).
  destruct (Z.ltb_spec (i + n) 32).
  - rewrite (proj2 (Z.leb_le n (i + n))) in E by lia.
    by replace (i + n - n) with i in E by lia.
  - rewrite (proj2 (Z.leb_gt n (i + n - 32))) in E by lia.
    by replace (i + n - 32 + 32 - n) with i in E by lia.
Qed.

(** The four kinds of statement of [qr] are injective on states. *)
Definition add_at (a b : nat) (s : list Z) : list Z := <[a := wadd 32 (s !!! a) (s !!! b)]> s.
Definition xor_at (a b : nat) (s : list Z) : list Z := <[a := Z.lxor (s !!! a) (s !!! b)]> s.
Definition rot_at (a : nat) (n : Z) (s : list Z) : list Z := <[a := rotl 32 (s !!! a) n]> s.

Definition state_inj (f : list Z → list Z) : Prop :=
  (∀ s, words16 s → words16 (f s)) ∧
  (∀ s t, words16 s → words16 t → f s = f t → s = t).

Lemma state_inj_steps fs : Forall state_inj fs → state_inj (λ s, foldl (λ s f, f s) s fs).
Proof.
  induction 1 as [|f fs [Hf1 Hf2] _ [IH1 IH2]]; [by split|].
  split; simpl; [auto|]. intros s t Hs Ht E. apply IH2 in E; auto.
Qed.

Lemma add_at_inj a b : (a < 16)%nat → (b < 16)%nat → a ≠ b → state_inj (add_at a b).
Proof.
  intros. split; [intros; apply words16_insert; [done|apply uint_wadd]|].
  intros s t Hs Ht. apply (insert_update_inj (wadd 32)); try done.
  intros x x' y Hx Hx' _. by apply wadd_inj.
Qed.

Lemma xor_at_inj a b : (a < 16)%nat → (b < 16)%nat → a ≠ b → state_inj (xor_at a b).
Proof.
  intros. split.
  - intros s Hs. apply words16_insert; [done|]. apply uint_lxor; [lia|..]; by apply words16_lookup.
  - intros s t Hs Ht. apply (insert_update_inj Z.lxor); try done. intros; by eapply lxor_inj.
Qed.

Lemma rot_at_inj a n : (a < 16)%nat → 0 < n < 32 → state_inj (rot_at a n).
Proof.
  intros Ha Hn. split.
  - intros s Hs. apply words16_insert; [done|]. apply uint_rotl; [lia|]. by apply words16_lookup.
  - intros s t Hs Ht. set (j := if (a =? 0)%nat then 1%nat else 0%nat).
    apply (insert_update_inj (λ x _, rotl 32 x n) a j); try done.
    1,2: unfold j; bool_cases; lia.
    intros x x' _ Hx Hx' _. by apply rotl_inj.
Qed.

Definition qr_steps (a b c d : nat) : list (list Z → list Z) :=
  [add_at a b; xor_at d a; rot_at d 16; add_at c d; xor_at b c; rot_at b 12;
   add_at a b; xor_at d a; rot_at d 8; add_at c d; xor_at b c; rot_at b 7].

Lemma qr_eq_steps s a b c d : qr s a b c d = foldl (λ s f, f s) s (qr_steps a b c d).
Proof. reflexivity. Qed.

Lemma qr_inj a b c d :
  (a < 16)%nat → (b < 16)%nat → (c < 16)%nat → (d < 16)%nat →
  a ≠ b → b ≠ c → c ≠ d → d ≠ a → state_inj (λ s, qr s a b c d).
Proof.
  intros. destruct (state_inj_steps (qr_steps a b c d)) as [H1' H2'].
  { repeat first [apply Forall_nil_2 | apply Forall_cons_2];
      first [by apply add_at_inj|by apply xor_at_inj|apply rot_at_inj; [done|lia]]. }
  split; intros s; [rewrite qr_eq_steps; apply H1'|].
  intros t. rewrite !qr_eq_steps. apply H2'.
Qed.

Lemma length_steps (fs : list (list Z → list Z)) s :
  Forall (λ f, ∀ s, length (f s) = length s) fs → length (foldl (λ s f, f s) s fs) = length s.
Proof. intros Hfs. revert s. induction Hfs as [|f fs Hf _ IH]; intros s; [done|]. simpl. by rewrite IH. Qed.

Lemma length_qr s a b c d : length (qr s a b c d) = length s.
Proof.
  rewrite qr_eq_steps. apply length_steps.
  repeat first [apply Forall_nil_2 | apply Forall_cons_2]; intros; apply length_insert.
Qed.

#[local] Opaque qr.

Lemma double_round_inj : state_inj double_round.
Proof.
  apply (state_inj_steps
    [λ s, qr s 0 4 8 12; λ s, qr s 1 5 9 13; λ s, qr s 2 6 10 14; λ s, qr s 3 7 11 15;
     λ s, qr s 0 5 10 15; λ s, qr s 1 6 11 12; λ s, qr s 2 7 8 13; λ s, qr s 3 4 9 14]).
  repeat first [apply Forall_nil_2 | apply Forall_cons_2]; apply qr_inj; lia.
Qed.

#[local] Transparent qr.

(** ** Blocks *)

(** The loops of [chacha20_block] in closed form. *)
Definition block_closed (key : list Z) (counter : Z) (nonce : list Z) : list Z :=
  let init := initial_state key counter nonce in
  mjoin (le_bytes 4 <$> zip_with (wadd 32) (Nat.iter 10 double_round init) init).

Lemma length_le_join (l : list Z) n : length (mjoin (le_bytes n <$> l)) = (n * length l)%nat.
Proof.
  induction l as [|x l IH]; [simpl; lia|].
  change (mjoin (le_bytes n <$> x :: l)) with (le_bytes n x ++ mjoin (le_bytes n <$> l)).
  rewrite length_app, length_le_bytes, IH. simpl. lia.
Qed.

Lemma bytes_le_join (l : list Z) n : bytes (mjoin (le_bytes n <$> l)).
Proof.
  induction l as [|x l IH]; [constructor|].
  change (mjoin (le_bytes n <$> x :: l)) with (le_bytes n x ++ mjoin (le_bytes n <$> l)).
  apply Forall_app. split; [apply bytes_le_bytes|done].
Qed.

Lemma length_initial_state key counter nonce : length (initial_state key counter nonce) = 16%nat.
Proof. reflexivity. Qed.

Lemma length_double_round s : length (double_round s) = length s.
Proof. unfold double_round. by rewrite !length_qr. Qed.

Lemma feed_forward_loop s init :
  length s = 16%nat → length init = 16%nat →
  for_ 0 16 (λ i s, <[i := wadd 32 (s !!! i) (init !!! i)]> s) s = zip_with (wadd 32) s init.
Proof.
  intros Hs Hi. do 17 (destruct s as [|? s]; try discriminate).
  do 17 (destruct init as [|? init]; try discriminate). reflexivity.
Qed.

Lemma word_output_loop s :
  length s = 16%nat →
  for_ 0 16 (λ i out, splice (i*4) (le_bytes 4 (s !!! i)) out) (replicate 64 0)
  = mjoin (le_bytes 4 <$> s).
Proof. intros Hs. do 17 (destruct s as [|? s]; try discriminate). reflexivity. Qed.

Lemma rounds_iter n s : for_ 0 n (λ _ s, double_round s) s = Nat.iter n double_round s.
Proof. induction n as [|n IH]; [done|]. by rewrite for_S, IH, Nat.iter_succ by lia. Qed.

Lemma length_iter_double_round n s : length (Nat.iter n double_round s) = length s.
Proof. induction n as [|n IH]; [done|]. by rewrite Nat.iter_succ, length_double_round. Qed.

Lemma chacha20_block_eq key counter nonce :
  chacha20_block key counter nonce = block_closed key counter nonce.
Proof.
  unfold chacha20_block, block_closed. cbv zeta. rewrite rounds_iter.
  assert (length (Nat.iter 10 double_round (initial_state key counter nonce)) = 16%nat) as Hr
    by (by rewrite length_iter_double_round).
  rewrite feed_forward_loop, word_output_loop; try done.
Qed.

Lemma length_chacha20_block key counter nonce : length (chacha20_block key counter nonce) = 64%nat.
Proof.
  rewrite chacha20_block_eq. unfold block_closed.
  by rewrite length_le_join, length_zip_with, length_iter_double_round.
Qed.

Lemma bytes_chacha20_block key counter nonce : bytes (chacha20_block key counter nonce).
Proof. rewrite chacha20_block_eq. apply bytes_le_join. Qed.

#[export] Hint Rewrite length_chacha20_block : axiom_os.

(** ** The block function of RFC 8439 *)

Ltac words s := do 17 (destruct s as [|? s]; try discriminate).

(** The word operations only have to be the same on both sides. *)
Lemma plus32_wadd : Rfc.plus32 = wadd 32.
Proof. reflexivity. Qed.
Lemma roll_rotl : Rfc.roll = rotl 32.
Proof. reflexivity. Qed.

Ltac quarter :=
  unfold qr, Rfc.quarter_round; rewrite plus32_wadd, roll_rotl;
  generalize (wadd 32), Z.lxor, (rotl 32); intros; reflexivity.

Section QuarterRounds.
Variables x0 x1 x2 x3 x4 x5 x6 x7 x8 x9 x10 x11 x12 x13 x14 x15 : Z.
Let s : list Z := [x0; x1; x2; x3; x4; x5; x6; x7; x8; x9; x10; x11; x12; x13; x14; x15].

(** The quarter rounds the code makes in place, at their eight places. *)
Lemma qr_column0 :
  qr s 0 4 8 12 = (let '(x0, x4, x8, x12) := Rfc.quarter_round x0 x4 x8 x12 in
    [x0; x1; x2; x3; x4; x5; x6; x7; x8; x9; x10; x11; x12; x13; x14; x15]).
Proof. quarter. Qed.

Lemma qr_column1 :
  qr s 1 5 9 13 = (let '(x1, x5, x9, x13) := Rfc.quarter_round x1 x5 x9 x13 in
    [x0; x1; x2; x3; x4; x5; x6; x7; x8; x9; x10; x11; x12; x13; x14; x15]).
Proof. quarter. Qed.

Lemma qr_column2 :
  qr s 2 6 10 14 = (let '(x2, x6, x10, x14) := Rfc.quarter_round x2 x6 x10 x14 in
    [x0; x1; x2; x3; x4; x5; x6; x7; x8; x9; x10; x11; x12; x13; x14; x15]).
Proof. quarter. Qed.

Lemma qr_column3 :
  qr s 3 7 11 15 = (let '(x3, x7, x11, x15) := Rfc.quarter_round x3 x7 x11 x15 in
    [x0; x1; x2; x3; x4; x5; x6; x7; x8; x9; x10; x11; x12; x13; x14; x15]).
Proof. quarter. Qed.

Lemma qr_diagonal0 :
  qr s 0 5 10 15 = (let '(x0, x5, x10, x15) := Rfc.quarter_round x0 x5 x10 x15 in
    [x0; x1; x2; x3; x4; x5; x6; x7; x8; x9; x10; x11; x12; x13; x14; x15]).
Proof. quarter. Qed.

Lemma qr_diagonal1 :
  qr s 1 6 11 12 = (let '(x1, x6, x11, x12) := Rfc.quarter_round x1 x6 x11 x12 in
    [x0; x1; x2; x3; x4; x5; x6; x7; x8; x9; x10; x11; x12; x13; x14; x15]).
Proof. quarter. Qed.

Lemma qr_diagonal2 :
  qr s 2 7 8 13 = (let '(x2, x7, x8, x13) := Rfc.quarter_round x2 x7 x8 x13 in
    [x0; x1; x2; x3; x4; x5; x6; x7; x8; x9; x10; x11; x12; x13; x14; x15]).
Proof. quarter. Qed.

Lemma qr_diagonal3 :
  qr s 3 4 9 14 = (let '(x3, x4, x9, x14) := Rfc.quarter_round x3 x4 x9 x14 in
    [x0; x1; x2; x3; x4; x5; x6; x7; x8; x9; x10; x11; x12; x13; x14; x15]).
Proof. quarter. Qed.
End QuarterRounds.

Lemma double_round_inner s : length s = 16%nat → double_round s = Rfc.inner_block s.
Proof.
  intros Hs. words s. unfold double_round, Rfc.inner_block.
  rewrite qr_column0. destruct (Rfc.quarter_round _ _ _ _) as [[[? ?] ?] ?].
  rewrite qr_column1. destruct (Rfc.quarter_round _ _ _ _) as [[[? ?] ?] ?].
  rewrite qr_column2. destruct (Rfc.quarter_round _ _ _ _) as [[[? ?] ?] ?].
  rewrite qr_column3. destruct (Rfc.quarter_round _ _ _ _) as [[[? ?] ?] ?].
  rewrite qr_diagonal0. destruct (Rfc.quarter_round _ _ _ _) as [[[? ?] ?] ?].
  rewrite qr_diagonal1. destruct (Rfc.quarter_round _ _ _ _) as [[[? ?] ?] ?].
  rewrite qr_diagonal2. destruct (Rfc.quarter_round _ _ _ _) as [[[? ?] ?] ?].
  by rewrite qr_diagonal3.
Qed.

Lemma rounds_inner n s : length s = 16%nat → Nat.iter n double_round s = Nat.iter n Rfc.inner_block s.
Proof.
  intros Hs. induction n as [|n IH]; [done|]. rewrite !Nat.iter_succ, <-IH.
  apply double_round_inner. by rewrite length_iter_double_round.
Qed.

Lemma word_le (b : list Z) i o :
  o = (4 * i)%nat →
  of_le [b !!! o; b !!! (o + 1)%nat; b !!! (o + 2)%nat; b !!! (o + 3)%nat] = Rfc.word b i.
Proof. intros ->. unfold Rfc.word. cbn [of_le]. lia. Qed.

Lemma initial_state_setup key counter nonce : initial_state key counter nonce = Rfc.setup key counter nonce.
Proof.
  unfold Rfc.setup. cbn [map seq app].
  rewrite <-(word_le key 0 0), <-(word_le key 1 4), <-(word_le key 2 8), <-(word_le key 3 12),
    <-(word_le key 4 16), <-(word_le key 5 20), <-(word_le key 6 24), <-(word_le key 7 28),
    <-(word_le nonce 0 0), <-(word_le nonce 1 4), <-(word_le nonce 2 8) by done.
  reflexivity.
Qed.

Lemma num_to_le_bytes_le n x : Rfc.num_to_le_bytes n x = le_bytes n x.
Proof.
  unfold Rfc.num_to_le_bytes. revert x. induction n as [|n IH]; intros x; [done|].
  cbn [seq map le_bytes]. f_equal; [by rewrite Z.div_1_r|].
  rewrite <-seq_shift, map_map, <-IH. apply map_ext. intros i.
  rewrite Z.div_div by (try apply Z.pow_pos_nonneg; lia). do 2 f_equal.
  replace (8 * Z.of_nat (S i)) with (8 + 8 * Z.of_nat i) by lia. by rewrite Z.pow_add_r by lia.
Qed.

Lemma serialise_words l : flat_map (Rfc.num_to_le_bytes 4) l = mjoin (le_bytes 4 <$> l).
Proof. induction l as [|x l IH]; [done|]. cbn [flat_map]. by rewrite IH, num_to_le_bytes_le. Qed.

Lemma add_states_zip s t : Rfc.add_states s t = zip_with (wadd 32) s t.
Proof. unfold Rfc.add_states. revert t. induction s as [|x s IH]; intros [|y t]; try done. cbn. by rewrite IH. Qed.

Lemma chacha20_block_rfc key counter nonce :
  chacha20_block key counter nonce = Rfc.block key counter nonce.
Proof.
  rewrite chacha20_block_eq. unfold block_closed, Rfc.block.
  by rewrite rounds_inner, initial_state_setup, serialise_words, add_states_zip.
Qed.

(** ** XOR with the keystream *)

Definition xor_with (data ks : list Z) : list Z := zip_with Z.lxor data ks.

Lemma length_xor_with data ks :
  (length data <= length ks)%nat → length (xor_with data ks) = length data.
Proof. intros. unfold xor_with. rewrite length_zip_with. lia. Qed.

Lemma xor_with_involutive data ks :
  (length data <= length ks)%nat → xor_with (xor_with data ks) ks = data.
Proof.
  unfold xor_with. revert ks. induction data as [|x data IH]; intros [|k ks] Hl; simpl in *; try done.
  - lia.
  - rewrite lxor_cancel, IH by lia. done.
Qed.

Lemma bytes_xor_with data ks : bytes data → bytes ks → bytes (xor_with data ks).
Proof.
  unfold xor_with. intros Hd. revert ks. induction Hd as [|x data Hx _ IH]; intros ks Hk; [constructor|].
  destruct Hk as [|k ks Hk Hks]; simpl; constructor; [apply uint_lxor; [lia|done|done]|auto].
Qed.

(** The byte loops [out[pos + i] = data[pos + i] ^ ks[i]]. *)
Lemma xor_store_at data ks out pos n :
  (pos + n <= length data)%nat → (n <= length ks)%nat → (pos + n <= length out)%nat →
  for_out 0 n (λ i out, d ← index data (pos + i); k ← index ks i; store out (pos + i) (Z.lxor d k)) out
  = Ret (take pos out ++ xor_with (take n (drop pos data)) ks ++ drop (pos + n) out).
Proof.
  intros Hd Hks Hout. set (f := λ (i : nat) (o : list Z), _). set (d := take n (drop pos data)).
  assert (length d = n) as Hld by (unfold d; rewrite length_take, length_drop; lia).
  destruct (for_out_ind (λ i o, o = take pos out ++ take i (xor_with d ks) ++ drop (pos + i) out)
    0 n f out) as (o & Ho & ->).
  - lia.
  - by rewrite Nat.add_0_r, take_0, app_nil_l, take_drop.
  - intros i o Hi ->. unfold f.
    destruct (lookup_lt_is_Some_2 data (pos + i)) as [x Hx]; [lia|].
    destruct (lookup_lt_is_Some_2 ks i) as [k Hk]; [lia|].
    destruct (lookup_lt_is_Some_2 out (pos + i)) as [y Hy]; [lia|].
    rewrite (index_ok _ _ _ Hx), bind_Ret, (index_ok _ _ _ Hk), bind_Ret.
    assert (length (take i (xor_with d ks)) = i) as Hti
      by (rewrite length_take, length_xor_with; lia).
    assert (length (take pos out) = pos) as Htp by (rewrite length_take; lia).
    rewrite store_ok by (rewrite !length_app, Htp, Hti, length_drop; lia).
    eexists. split; [done|].
    rewrite (drop_S _ _ _ Hy), (assoc_L (++)), insert_app_r_alt
      by (rewrite length_app, Htp, Hti; lia).
    rewrite length_app, Htp, Hti, Nat.sub_diag, Nat.add_succ_r. cbn [insert list_insert].
    assert (xor_with d ks !! i = Some (Z.lxor x k)) as Hxi.
    { unfold xor_with. apply lookup_zip_with_Some. eexists x, k. split; [done|]. split; [|done].
      unfold d. by rewrite lookup_take_lt, lookup_drop by lia. }
    by rewrite (take_S_r _ _ _ Hxi), <-!(assoc_L (++)).
  - rewrite Ho, (take_ge (xor_with d ks)) by (rewrite length_xor_with; lia). done.
Qed.

Lemma xor_store_loop data ks out n :
  n = length data → (n <= length ks)%nat → (n <= length out)%nat →
  for_out 0 n (λ i out, d ← index data i; k ← index ks i; store out i (Z.lxor d k)) out
  = Ret (xor_with data ks ++ drop n out).
Proof.
  intros -> Hks Hout. pose proof (xor_store_at data ks out 0 (length data)) as Hloop.
  cbn [Nat.add take app drop] in Hloop. rewrite firstn_all in Hloop. apply Hloop; lia.
Qed.

Section AeadProofs.
Context `{Profile} `{HashOps} {laws : HashLaws _}.

Lemma chacha20_xor_ok key nonce data out :
  (length data <= 64)%nat → (length data <= length out)%nat →
  chacha20_xor key nonce data out
  = Ret (xor_with data (chacha20_block key 1 nonce) ++ drop (length data) out).
Proof.
  intros Hd Ho. unfold chacha20_xor, debug_assert.
  rewrite (proj2 (Nat.leb_le _ _) Hd), andb_false_r. simpl.
  apply xor_store_loop; [done|by rewrite length_chacha20_block|done].
Qed.

(** What [aead_seal] computes on a plaintext that fits. *)
Definition sealed (key nonce plaintext : list Z) : AeadCt :=
  let c := xor_with plaintext (chacha20_block key 1 nonce) in
  mkAeadCt (c ++ replicate (MAX_PT - length plaintext) 0) (length plaintext)
           (take TAG_LEN (hmac_fn key (nonce ++ c))).

Lemma auth_input_ok nonce c n :
  length nonce = 12%nat → length c = MAX_PT → (n <= MAX_PT)%nat →
  auth_input nonce c n = Ret (nonce ++ take n c).
Proof.
  unfold auth_input, MAX_PT. intros Hn Hc Hle.
  rewrite slice_ok, bind_Ret, Nat.sub_0_r, drop_0 by lia.
  rewrite splice_zeros, Hn by lia. cbn [replicate app].
  change (12 + 48 - 0 - 12)%nat with 48%nat.
  rewrite copy_into_ok, bind_Ret
    by (rewrite ?length_app, ?length_take, ?length_replicate; lia).
  rewrite <-(take_drop n (replicate 48 0)).
  rewrite splice_app by (rewrite ?length_take, ?length_replicate; lia).
  rewrite slice_ok by (rewrite !length_app, length_take; lia).
  rewrite drop_0, Nat.sub_0_r, (assoc_L (++)), take_app_length'; [done|].
  rewrite length_app, length_take. lia.
Qed.

Lemma take_zeros_app (c : list Z) n k : n = length c → take n (c ++ replicate k 0) = c.
Proof. intros ->. apply take_app_length. Qed.

Lemma aead_seal_ok key nonce plaintext :
  length key = 32%nat → length nonce = 12%nat → (length plaintext <= MAX_PT)%nat →
  aead_seal key nonce plaintext = Ret (sealed key nonce plaintext).
Proof.
  intros Hk Hn Hp. unfold aead_seal, debug_assert, sealed.
  rewrite (proj2 (Nat.leb_le _ _) Hp), andb_false_r, bind_Ret. unfold MAX_PT in Hp.
  rewrite slice_ok, bind_Ret by (rewrite length_replicate; unfold MAX_PT; lia).
  rewrite Nat.sub_0_r, drop_0, take_replicate, Nat.min_l by (unfold MAX_PT; lia).
  rewrite chacha20_xor_ok, bind_Ret by (rewrite ?length_replicate; lia).
  rewrite drop_ge, app_nil_r by (rewrite length_replicate; lia).
  set (c := xor_with plaintext _).
  assert (length c = length plaintext) as Hc
    by (unfold c; rewrite length_xor_with; rewrite ?length_chacha20_block; lia).
  rewrite splice_zeros, Hc, Nat.sub_0_r by (unfold MAX_PT; lia). cbn [replicate app].
  rewrite auth_input_ok, bind_Ret;
    [|done|rewrite length_app, length_replicate; unfold MAX_PT; lia|unfold MAX_PT; lia].
  rewrite take_zeros_app by done.
  rewrite hmac_ret, bind_Ret; [done|fits|rewrite length_app; fits].
Qed.

(** The tag [aead_open] expects. *)
Definition expected_tag (key nonce : list Z) (c : AeadCt) : list Z :=
  take TAG_LEN (hmac_fn key (nonce ++ take (len c) (ct c))).

(** A payload of the declared array sizes. *)
Definition wf_ct (c : AeadCt) : Prop :=
  length (ct c) = MAX_PT ∧ (len c <= MAX_PT)%nat ∧ length (tag c) = TAG_LEN.

Lemma ct_diff_take n a h :
  length a = n → (n <= length h)%nat → (ct_diff n a h =? 0) = true ↔ a = take n h.
Proof.
  intros Ha Hh. rewrite <-(ct_diff_eq n a (take n h)) by (rewrite ?length_take; lia).
  rewrite !Z.eqb_eq, !ct_diff_zero. split; intros E i Hi; rewrite E by done;
    rewrite !list_lookup_total_alt, lookup_take_lt by lia; done.
Qed.

Lemma aead_open_ok key nonce c :
  length key = 32%nat → length nonce = 12%nat → wf_ct c →
  aead_open key nonce c = Ret (
    if decide (tag c = expected_tag key nonce c)
    then Some (xor_with (take (len c) (ct c)) (chacha20_block key 1 nonce)
                 ++ replicate (MAX_PT - len c) 0, len c)
    else None).
Proof.
  intros Hk Hn (Hct & Hlen & Htag). unfold aead_open.
  rewrite auth_input_ok, bind_Ret by done.
  rewrite hmac_ret, bind_Ret;
    [|fits|rewrite length_app, length_take, Hct; unfold MAX_PT; fits].
  set (h := hmac_fn _ _).
  assert (length h = 32%nat) as Hh by apply length_hmac_fn.
  pose proof (ct_diff_take TAG_LEN (tag c) h Htag ltac:(rewrite Hh; unfold TAG_LEN; lia)) as Hd.
  unfold expected_tag. fold h. destruct (ct_diff TAG_LEN (tag c) h =? 0) eqn:E; cbn [negb].
  - rewrite decide_True by tauto.
    rewrite (slice_ok 0 (len c) (ct c)), bind_Ret by lia.
    rewrite slice_ok, bind_Ret by (rewrite length_replicate; lia).
    rewrite !Nat.sub_0_r, !drop_0, take_replicate, Nat.min_l by lia. unfold MAX_PT in *.
    rewrite chacha20_xor_ok, bind_Ret by (rewrite ?length_replicate, ?length_take; lia).
    rewrite drop_ge, app_nil_r by (rewrite length_replicate, length_take; lia).
    rewrite splice_zeros; rewrite length_xor_with;
      rewrite ?length_chacha20_block, length_take, ?Nat.min_l by lia; try lia.
    rewrite Nat.sub_0_r. done.
  - rewrite decide_False; [done|]. intros Heq. apply Hd in Heq. congruence.
Qed.

End AeadProofs.

(** ** Properties *)

(** the ChaCha20 double round (the body of the block function's loop)
    maps 16-word states to 16-word states and never maps two of them to the
    same one: it is a permutation, as the cipher requires. *)
Theorem double_round_permutation s t :
  words16 s → words16 t →
  words16 (double_round s) ∧ (double_round s = double_round t → s = t).
Proof. destruct double_round_inj as [H1 H2]. auto. Qed.

Lemma double_round_permutation_witness :
  words16 (double_round (replicate 16 1)) ∧
  (double_round (replicate 16 1) = double_round (replicate 16 1) → replicate 16 1 = replicate 16 1).
Proof.
  apply (double_round_permutation (replicate 16 1) (replicate 16 1));
    (split; [reflexivity|by apply Forall_replicate]).
Defined.

(** C29: [chacha20_block] is the block function of RFC 8439 section 2.3,
    transcribed in [Rfc8439] independently of the code, for every key, counter
    and nonce; it is 64 bytes, and the boot self-test succeeds. *)
Theorem chacha20_block_rfc8439 key counter nonce :
  chacha20_block key counter nonce = Rfc.block key counter nonce ∧
  length (chacha20_block key counter nonce) = 64%nat ∧
  bytes (chacha20_block key counter nonce) ∧ chacha20_self_test = true.
Proof.
  split; [apply chacha20_block_rfc|]. split; [apply length_chacha20_block|].
  split; [apply bytes_chacha20_block|]. vm_compute. reflexivity.
Qed.

Section AeadTheorems.
Context `{Profile} `{HashOps} {laws : HashLaws _}.

(** the session key of a channel is the RFC 5869 output for salt 0, the
    capability chain hash and the context string "AXIOM-EIPC-v1", sender,
    receiver, so both endpoints derive it without talking to each other. *)
Theorem eipc_session_key_hkdf cch sender receiver :
  length cch = 32%nat →
  eipc_session_key cch sender receiver =
  Ret (hmac_fn (hmac_fn (replicate 32 0) cch)
         (bstr "AXIOM-EIPC-v1" ++ le_bytes 4 sender ++ le_bytes 4 receiver ++ [1])).
Proof.
  intros Hc. unfold eipc_session_key, hkdf_extract.
  rewrite hmac_ret, bind_Ret; [|rewrite length_replicate; fits|fits]. unfold hkdf_expand_32.
  set (info := splice 17 _ _).
  assert (info = bstr "AXIOM-EIPC-v1" ++ le_bytes 4 sender ++ le_bytes 4 receiver) as -> by done.
  set (prefix := _ ++ _ ++ _).
  assert (length prefix = 21%nat) as Hp by done. rewrite Hp. cbn [Nat.min].
  assert (take (21 + 1) (<[21%nat:=1]> (splice 0 (take 21 prefix) (replicate 128 0)))
          = prefix ++ [1]) as -> by done.
  unfold prefix. rewrite <-!(assoc_L (++)). apply hmac_ret; [rewrite length_hmac_fn; fits|].
  done.
Qed.

(** opening what was sealed under the same key and nonce gives back the
    plaintext, zero-padded to the 48-byte array, with its length; neither
    call panics. *)
Theorem aead_roundtrip key nonce plaintext :
  length key = 32%nat → length nonce = 12%nat → (length plaintext <= MAX_PT)%nat →
  (c ← aead_seal key nonce plaintext; aead_open key nonce c)
  = Ret (Some (plaintext ++ replicate (MAX_PT - length plaintext) 0, length plaintext)).
Proof.
  intros Hk Hn Hp. rewrite aead_seal_ok, bind_Ret by done.
  set (ks := chacha20_block key 1 nonce).
  assert (length (xor_with plaintext ks) = length plaintext) as Hx.
  { apply length_xor_with. unfold ks. rewrite length_chacha20_block. unfold MAX_PT in Hp. lia. }
  rewrite aead_open_ok; try done.
  - unfold sealed, expected_tag. cbn [ct len tag]. fold ks.
    rewrite take_zeros_app by done. rewrite decide_True by done.
    rewrite xor_with_involutive; [done|].
    unfold ks. rewrite length_chacha20_block. unfold MAX_PT in Hp. lia.
  - split; [|split].
    + unfold sealed. cbn [ct]. fold ks. rewrite length_app, length_replicate, Hx. lia.
    + done.
    + unfold sealed, TAG_LEN. cbn [tag]. rewrite length_take, length_hmac_fn. done.
Qed.

(** [aead_open] produces a plaintext exactly for the payloads whose tag
    is the truncated HMAC of nonce and ciphertext, and returns [None] for
    every other one. *)
Theorem aead_open_authentic key nonce c :
  length key = 32%nat → length nonce = 12%nat → wf_ct c →
  (∃ p, aead_open key nonce c = Ret (Some p)) ↔ tag c = expected_tag key nonce c.
Proof.
  intros Hk Hn Hc. rewrite aead_open_ok by done. case_decide as Ht; split; try done.
  - eauto.
  - intros [p Hp]. discriminate.
Qed.

(** a plaintext longer than 48 bytes is refused by a panic in both
    profiles (the debug assertion in one, the slice bound in the other). *)
Theorem aead_seal_too_long key nonce plaintext :
  (MAX_PT < length plaintext)%nat → aead_seal key nonce plaintext = Panic.
Proof.
  intros Hlen. unfold aead_seal, debug_assert. rewrite (proj2 (Nat.leb_gt _ _) Hlen).
  destruct debug_assertions; [done|]. cbn [andb]. rewrite bind_Ret. unfold slice.
  rewrite length_replicate, (proj2 (Nat.leb_gt _ _) Hlen), andb_false_r. done.
Qed.
End AeadTheorems.

Lemma eipc_session_key_hkdf_witness :
  @eipc_session_key (@crypto_ops dev_profile) (replicate 32 9) 1 2 =
  Ret (@hmac_fn _ (@crypto_laws dev_profile)
         (@hmac_fn _ (@crypto_laws dev_profile) (replicate 32 0) (replicate 32 9))
         (bstr "AXIOM-EIPC-v1" ++ le_bytes 4 1 ++ le_bytes 4 2 ++ [1])).
Proof.
  apply (@eipc_session_key_hkdf (@crypto_ops dev_profile) (@crypto_laws dev_profile)). reflexivity.
Defined.

Lemma aead_roundtrip_witness :
  (c ← @aead_seal dev_profile (@crypto_ops dev_profile) (replicate 32 1) (replicate 12 2) (bstr "hi");
   @aead_open dev_profile (@crypto_ops dev_profile) (replicate 32 1) (replicate 12 2) c)
  = Ret (Some (bstr "hi" ++ replicate (MAX_PT - 2) 0, 2%nat)).
Proof.
  apply (@aead_roundtrip dev_profile (@crypto_ops dev_profile) (@crypto_laws dev_profile)
           (replicate 32 1) (replicate 12 2) (bstr "hi"));
    [reflexivity|reflexivity|vm_compute; lia].
Defined.

Lemma aead_open_authentic_witness :
  let c := mkAeadCt (replicate 48 0) 0 (replicate 16 0) in
  (∃ p, @aead_open dev_profile (@crypto_ops dev_profile) (replicate 32 1) (replicate 12 2) c
        = Ret (Some p)) ↔
  tag c = @expected_tag (@crypto_ops dev_profile) (@crypto_laws dev_profile)
            (replicate 32 1) (replicate 12 2) c.
Proof.
  apply (@aead_open_authentic dev_profile (@crypto_ops dev_profile) (@crypto_laws dev_profile)
           (replicate 32 1) (replicate 12 2) (mkAeadCt (replicate 48 0) 0 (replicate 16 0)));
    [reflexivity|reflexivity|split; [reflexivity|split; [vm_compute; lia|reflexivity]]].
Defined.

Lemma aead_seal_too_long_witness :
  @aead_seal release_profile (@crypto_ops release_profile) (replicate 32 1) (replicate 12 2)
    (replicate 49 0) = Panic.
Proof. apply aead_seal_too_long. vm_compute. lia. Defined.
