(* ===== verification/Poly1305.v ===== *)
(** * Poly1305 and ChaCha20-Poly1305

    Model of [kernel/src/poly1305.rs].  The code keeps the 130-bit
    accumulator as a [u64] and a [u128], multiplies with 64x64-bit partial
    products and reduces modulo 2^130 - 5 with carries; [add_block] and
    [poly1305] follow it limb by limb with the wrapping, overflowing and
    checked operations the code uses.  The reference is [poly1305_spec], the
    RFC 8439 section 2.5 definition over the integers.

    Shown here: the limb arithmetic computes the reference tag for every key
    and message (no carry is lost, nothing panics), the clamping mask is the
    RFC's, the sealed message opens to the plaintext, and opening accepts
    exactly the expected tag and otherwise leaves the output untouched. *)

From S2P Require Import Prelude Interfaces Crypto Rfc8439 CryptoAead.
From Stdlib Require Import ZArith Lia.
From stdpp Require Import base numbers list strings.
#[local] Open Scope Z_scope.

(** ** Poly1305 *)

Definition clamp (r : list Z) : list Z :=
  let r := <[3%nat := Z.land (r !!! 3%nat) 15]> r in
  let r := <[7%nat := Z.land (r !!! 7%nat) 15]> r in
  let r := <[11%nat := Z.land (r !!! 11%nat) 15]> r in
  let r := <[15%nat := Z.land (r !!! 15%nat) 15]> r in
  let r := <[4%nat := Z.land (r !!! 4%nat) 252]> r in
  let r := <[8%nat := Z.land (r !!! 8%nat) 252]> r in
  <[12%nat := Z.land (r !!! 12%nat) 252]> r.

Definition load_le_u128 (b : list Z) : Z :=
  let len := Nat.min (length b) 16 in
  of_le (splice 0 (take len b) (replicate 16 0)).

Definition u128_MAX : Z := 2 ^ 128 - 1.

Section Poly.
Context `{Profile}.

(** Lines 117-139: the 256-bit product of the accumulator and [r], as
    (low, high) halves. *)
Definition mul_acc (a b r128 : Z) : outcome (Z * Z) :=
  let br_lo := wmul 128 b r128 in
  let blo := wrap 64 b in
  let bhi := wrap 64 (Z.shiftr b 64) in
  let rlo := wrap 64 r128 in
  let rhi := wrap 64 (Z.shiftr r128 64) in
  lo_lo ← mul 128 blo rlo;
  lo_hi ← mul 128 blo rhi;
  hi_lo ← mul 128 bhi rlo;
  hi_hi ← mul 128 bhi rhi;
  let mid := wadd 128 (wadd 128 (Z.shiftr lo_lo 64) (Z.land lo_hi 0xFFFFFFFFFFFFFFFF))
                      (Z.land hi_lo 0xFFFFFFFFFFFFFFFF) in
  let br_hi := wadd 128 (wadd 128 (wadd 128 (Z.shiftr mid 64) (Z.shiftr lo_hi 64))
                                  (Z.shiftr hi_lo 64)) hi_hi in
  let ar := wmul 128 a r128 in
  let '(phi, _) := oadd 128 br_hi ar in
  Ret (br_lo, phi).

(** The [add_block] closure: the accumulator (h0, h1) is the pair. *)
Definition add_block (r : Z) (h : Z * Z) (block : list Z) (full : bool) : outcome (Z * Z) :=
  let '(h0, h1) := h in
  let n := load_le_u128 block in
  let '(n1, carry) :=
    if full && (length block =? 16)%nat then (n, 1)
    else
      let pos := Z.of_nat (length block) * 8 in
      if pos <? 128
      then let '(v, c) := oadd 128 n (Z.shiftl 1 pos) in (v, b2z c)
      else (n, 1) in
  let '(h1, c) := oadd 128 h1 n1 in
  let h0 := wadd 64 (wadd 64 h0 carry) (b2z c) in
  '(prod_lo, prod_hi) ← mul_acc h0 h1 r;
  let carry_bits := Z.shiftr prod_hi 2 in
  let new_h0 := wrap 64 (Z.land prod_hi 3) in
  let '(h1, c) := oadd 128 prod_lo (wmul 128 carry_bits 5) in
  let h0 := wadd 64 new_h0 (b2z c) in
  if (4 <=? h0) || ((h0 =? 3) && (u128_MAX - 3 <=? h1)) then
    let '(h1, borrow) := osub 128 h1 (u128_MAX - 4) in
    Ret (wsub 64 (wsub 64 h0 3) (b2z borrow), h1)
  else Ret (h0, h1).

(** The body of the [while offset + 16 <= msg.len()] loop. *)
Definition block_step (r : Z) (msg : list Z) (st : (Z * Z) * nat) : outcome ((Z * Z) * nat) :=
  let '(h, offset) := st in
  block ← slice offset (offset + 16) msg;
  h ← add_block r h block true;
  Ret (h, (offset + 16)%nat).

Definition poly1305 (key msg : list Z) : outcome (list Z) :=
  let r_bytes := clamp (take 16 key) in
  let r := load_le_u128 r_bytes in
  let s := load_le_u128 (drop 16 key) in
  '(h, offset) ← while_ (length msg) (λ st : (Z * Z) * nat, (st.2 + 16 <=? length msg)%nat)
    (block_step r msg) ((0, 0), 0%nat);
  h ← (if (offset <? length msg)%nat
       then block ← slice offset (length msg) msg; add_block r h block false
       else Ret h);
  let '(h0, h1) := h in
  let p_lo := u128_MAX - 4 in
  let p_hi := 3 in
  let '(h0, h1) :=
    if (p_hi <? h0) || ((h0 =? p_hi) && (p_lo <=? h1)) then
      let '(h1, borrow) := osub 128 h1 p_lo in
      (wsub 64 (wsub 64 h0 p_hi) (b2z borrow), h1)
    else (h0, h1) in
  let '(tag_val, _) := oadd 128 h1 s in
  Ret (le_bytes 16 tag_val).

(** ** ChaCha20-Poly1305 *)

(** Lines 211-221 and 281-291: XOR [src] with the keystream from counter 1
    into the destination slice [dst], 64 bytes at a time. *)
Definition stream_step (key nonce src : list Z) (st : Z * nat * list Z) : outcome (Z * nat * list Z) :=
  let '(counter, pos, dst) := st in
  let ks := chacha20_block key counter nonce in
  counter ← add 32 counter 1;
  let take_ := Nat.min (length src - pos) 64 in
  dst ← for_out 0 take_ (λ i dst,
    x ← index src (pos + i); k ← index ks i; store dst (pos + i) (Z.lxor x k)) dst;
  Ret (counter, (pos + take_)%nat, dst).

Definition stream_xor (key nonce src dst : list Z) : outcome (list Z) :=
  '(_, _, dst) ← while_ (length src) (λ st : Z * nat * list Z, (st.1.2 <? length src)%nat)
     (stream_step key nonce src) (1, 0%nat, dst);
  Ret dst.

Definition pad16 (n : nat) : nat := ((16 - n mod 16) mod 16)%nat.

(** Lines 224-237 and 259-271: the message Poly1305 authenticates. *)
Definition mac_input (aad ciphertext : list Z) : outcome (list Z) :=
  let mac_len := (length aad + pad16 (length aad) + length ciphertext
                  + pad16 (length ciphertext) + 8 + 8)%nat in
  let m := replicate mac_len 0 in
  let off := 0%nat in
  m ← copy_into off (off + length aad) aad m;
  let off := (off + (length aad + pad16 (length aad)))%nat in
  m ← copy_into off (off + length ciphertext) ciphertext m;
  let off := (off + (length ciphertext + pad16 (length ciphertext)))%nat in
  m ← copy_into off (off + 8) (le_bytes 8 (Z.of_nat (length aad))) m;
  let off := (off + 8)%nat in
  copy_into off (off + 8) (le_bytes 8 (Z.of_nat (length ciphertext))) m.

(** Returns the ciphertext buffer as the call leaves it, and the tag. *)
Definition chacha20_poly1305_seal (key nonce aad plaintext ciphertext : list Z)
    : outcome (list Z * list Z) :=
  let otk := take 32 (chacha20_block key 0 nonce) in
  ciphertext ← stream_xor key nonce plaintext ciphertext;
  m ← mac_input aad ciphertext;
  tag ← poly1305 otk m;
  Ret (ciphertext, tag).

(** Returns the verdict and the plaintext buffer as the call leaves it. *)
Definition chacha20_poly1305_open (key nonce aad ciphertext tag plaintext : list Z)
    : outcome (bool * list Z) :=
  let otk := take 32 (chacha20_block key 0 nonce) in
  m ← mac_input aad ciphertext;
  expected ← poly1305 otk m;
  if negb (ct_diff 16 expected tag =? 0) then Ret (false, plaintext)
  else
    plaintext ← stream_xor key nonce ciphertext plaintext;
    Ret (true, plaintext).

Definition poly1305_self_test : outcome bool :=
  let key := be_bytes 32 0x85d6be7857556d337f4452fe42d506a80103808afb0db2fd4abff6af4149f51b in
  let msg := bstr "Cryptographic Forum Research Group" in
  tag ← poly1305 key msg;
  Ret ((tag !!! 0%nat =? 0xa8) && (tag !!! 1%nat =? 0x06) &&
       (tag !!! 2%nat =? 0x1d) && (tag !!! 3%nat =? 0xc1)).

End Poly.

(** ** RFC 8439 section 2.5 over the integers *)

Definition p1305 : Z := 2 ^ 130 - 5.

(** A block with the extra bit above its last byte. *)
Definition block_value (b : list Z) : Z := of_le b + 2 ^ (8 * Z.of_nat (length b)).

Definition blocks16 (msg : list Z) : list (list Z) :=
  chunks 16 (length msg / 16) msg
  ++ (if (length msg mod 16 =? 0)%nat then [] else [drop (16 * (length msg / 16)) msg]).

Definition poly_eval (r : Z) (blocks : list (list Z)) : Z :=
  foldl (λ acc b, ((acc + block_value b) * r) mod p1305) 0 blocks.

Definition clamp_mask : Z := 0x0ffffffc0ffffffc0ffffffc0fffffff.

Definition poly1305_spec (key msg : list Z) : list Z :=
  let r := Z.land (of_le (take 16 key)) clamp_mask in
  let s := of_le (drop 16 key) in
  le_bytes 16 ((poly_eval r (blocks16 msg) + s) mod 2 ^ 128).

(** ** Limb arithmetic *)

Lemma land_mask64 x : Z.land x 0xFFFFFFFFFFFFFFFF = x mod 2 ^ 64.
Proof. change 0xFFFFFFFFFFFFFFFF with (Z.ones 64). apply Z.land_ones. lia. Qed.

Lemma land_3 x : Z.land x 3 = x mod 4.
Proof. change 3 with (Z.ones 2). by rewrite Z.land_ones. Qed.

Lemma mul_u64_ok `{Profile} x y :
  0 <= x < 2 ^ 64 → 0 <= y < 2 ^ 64 → mul 128 x y = Ret (x * y) ∧ 0 <= x * y <= (2 ^ 64 - 1) * (2 ^ 64 - 1).
Proof.
  intros Hx Hy. assert (0 <= x * y <= (2 ^ 64 - 1) * (2 ^ 64 - 1)) by nia.
  split; [|done]. apply mul_small. unfold uint. lia.
Qed.

Lemma oadd_spec a b v c :
  0 <= a < 2 ^ 128 → 0 <= b < 2 ^ 128 → oadd 128 a b = (v, c) →
  0 <= v < 2 ^ 128 ∧ v + b2z c * 2 ^ 128 = a + b ∧ 0 <= b2z c <= 1.
Proof.
  unfold oadd, wrap. intros Ha Hb [= <- <-].
  destruct (Z.leb_spec (2 ^ 128) (a + b)); cbn [b2z].
  - rewrite <-(Z.mod_add (a + b) (-1)), Z.mod_small by lia. lia.
  - rewrite Z.mod_small by lia. lia.
Qed.

Lemma osub_spec a b v c :
  0 <= a < 2 ^ 128 → 0 <= b < 2 ^ 128 → osub 128 a b = (v, c) →
  0 <= v < 2 ^ 128 ∧ v = a - b + b2z c * 2 ^ 128 ∧ 0 <= b2z c <= 1.
Proof.
  unfold osub, wrap. intros Ha Hb [= <- <-].
  destruct (Z.ltb_spec a b); cbn [b2z].
  - rewrite <-(Z.mod_add (a - b) 1), Z.mod_small by lia. lia.
  - rewrite Z.mod_small by lia. lia.
Qed.

Lemma wadd64_small a b : 0 <= a + b < 2 ^ 64 → wadd 64 a b = a + b.
Proof. apply wrap_small. Qed.

(** The partial products give the high half of a 128x128-bit product. *)
Lemma high_half blo bhi rlo rhi :
  0 <= blo < 2 ^ 64 → 0 <= bhi < 2 ^ 64 → 0 <= rlo < 2 ^ 64 → 0 <= rhi < 2 ^ 64 →
  let mid := blo * rlo / 2 ^ 64 + (blo * rhi) mod 2 ^ 64 + (bhi * rlo) mod 2 ^ 64 in
  (bhi * 2 ^ 64 + blo) * (rhi * 2 ^ 64 + rlo) / 2 ^ 128
  = mid / 2 ^ 64 + blo * rhi / 2 ^ 64 + bhi * rlo / 2 ^ 64 + bhi * rhi.
Proof.
  intros Hbl Hbh Hrl Hrh mid.
  replace ((bhi * 2 ^ 64 + blo) * (rhi * 2 ^ 64 + rlo))
    with (bhi * rhi * 2 ^ 128 + (blo * rhi + bhi * rlo) * 2 ^ 64 + blo * rlo) by ring.
  generalize dependent (blo * rlo). generalize dependent (blo * rhi).
  generalize dependent (bhi * rlo). generalize dependent (bhi * rhi).
  intros hh hl lh ll mid. symmetry. apply Z.div_unique with
    ((mid mod 2 ^ 64) * 2 ^ 64 + ll mod 2 ^ 64).
  - left. pose proof (Z.mod_pos_bound mid (2 ^ 64)). pose proof (Z.mod_pos_bound ll (2 ^ 64)). lia.
  - subst mid. set (m := ll / 2 ^ 64 + lh mod 2 ^ 64 + hl mod 2 ^ 64).
    pose proof (Z.div_mod m (2 ^ 64)). pose proof (Z.div_mod ll (2 ^ 64)).
    pose proof (Z.div_mod lh (2 ^ 64)). pose proof (Z.div_mod hl (2 ^ 64)).
    unfold m in *. lia.
Qed.

(** [mul_acc] is exact when the product fits in 256 bits. *)
Lemma mul_acc_ok `{Profile} a b r :
  0 <= a → 0 <= b < 2 ^ 128 → 0 <= r < 2 ^ 124 → a * r + b * r / 2 ^ 128 < 2 ^ 128 →
  mul_acc a b r = Ret ((b * r) mod 2 ^ 128, a * r + b * r / 2 ^ 128).
Proof.
  intros Ha Hb Hr Hfit. unfold mul_acc, wrap, wmul, wadd, oadd.
  rewrite !Z.shiftr_div_pow2 by lia. unfold wrap.
  rewrite (Z.mod_small (b / 2 ^ 64)), (Z.mod_small (r / 2 ^ 64))
    by (split; [apply Z.div_pos|apply Z.div_lt_upper_bound]; lia).
  pose proof (Z.mod_pos_bound b (2 ^ 64) ltac:(lia)) as Hblo.
  pose proof (Z.mod_pos_bound r (2 ^ 64) ltac:(lia)) as Hrlo.
  assert (0 <= b / 2 ^ 64 < 2 ^ 64) as Hbhi
    by (split; [apply Z.div_pos|apply Z.div_lt_upper_bound]; lia).
  assert (0 <= r / 2 ^ 64 < 2 ^ 64) as Hrhi
    by (split; [apply Z.div_pos|apply Z.div_lt_upper_bound]; lia).
  pose proof (high_half _ _ _ _ Hblo Hbhi Hrlo Hrhi) as Hhigh.
  replace (b / 2 ^ 64 * 2 ^ 64 + b mod 2 ^ 64) with b in Hhigh by (pose proof (Z.div_mod b (2 ^ 64)); lia).
  replace (r / 2 ^ 64 * 2 ^ 64 + r mod 2 ^ 64) with r in Hhigh by (pose proof (Z.div_mod r (2 ^ 64)); lia).
  destruct (mul_u64_ok _ _ Hblo Hrlo) as [-> Bll]. rewrite bind_Ret.
  destruct (mul_u64_ok _ _ Hblo Hrhi) as [-> Blh]. rewrite bind_Ret.
  destruct (mul_u64_ok _ _ Hbhi Hrlo) as [-> Bhl]. rewrite bind_Ret.
  destruct (mul_u64_ok _ _ Hbhi Hrhi) as [-> Bhh]. rewrite bind_Ret.
  cbv zeta in Hhigh. rewrite !Z.shiftr_div_pow2, !land_mask64 by lia.
  set (ll := b mod 2 ^ 64 * (r mod 2 ^ 64)) in *.
  set (lh := b mod 2 ^ 64 * (r / 2 ^ 64)) in *.
  set (hl := b / 2 ^ 64 * (r mod 2 ^ 64)) in *.
  set (hh := b / 2 ^ 64 * (r / 2 ^ 64)) in *.
  assert (0 <= a * r) by nia.
  pose proof (Z.mod_pos_bound lh (2 ^ 64)). pose proof (Z.mod_pos_bound hl (2 ^ 64)).
  assert (0 <= ll / 2 ^ 64 < 2 ^ 64) by (split; [apply Z.div_pos|apply Z.div_lt_upper_bound]; lia).
  rewrite !Z.add_mod_idemp_l by lia.
  rewrite (Z.mod_small (ll / 2 ^ 64 + _ + _)) by lia.
  set (mid := ll / 2 ^ 64 + _ + _) in *.
  assert (0 <= mid / 2 ^ 64) by (apply Z.div_pos; lia).
  assert (0 <= lh / 2 ^ 64) by (apply Z.div_pos; lia).
  assert (0 <= hl / 2 ^ 64) by (apply Z.div_pos; lia).
  rewrite (Z.mod_small (mid / 2 ^ 64 + _ + _)), (Z.mod_small (a * r)), <-Hhigh by lia.
  rewrite (Z.mod_small (b * r / 2 ^ 128 + a * r)) by lia. by rewrite (Z.add_comm (a * r)).
Qed.

(** ** One block *)

(** The accumulator's value, and the range it keeps between blocks. *)
Definition acc_value (h : Z * Z) : Z := h.1 * 2 ^ 128 + h.2.
Definition acc_ok (h : Z * Z) : Prop :=
  0 <= h.1 ∧ 0 <= h.2 < 2 ^ 128 ∧ acc_value h <= p1305.

Lemma load_le_u128_ok b : (length b <= 16)%nat → load_le_u128 b = of_le b.
Proof.
  intros Hb. unfold load_le_u128. rewrite Nat.min_l, take_ge, splice_zeros by lia.
  cbn [replicate app]. rewrite of_le_app, of_le_zeros. lia.
Qed.

(** Lines 64-79: the block's value with its extra bit, as a 128-bit word and
    a carry. *)
Definition block_limbs (block : list Z) (full : bool) : Z * Z :=
  let n := load_le_u128 block in
  if full && (length block =? 16)%nat then (n, 1)
  else
    let pos := Z.of_nat (length block) * 8 in
    if pos <? 128
    then let '(v, c) := oadd 128 n (Z.shiftl 1 pos) in (v, b2z c)
    else (n, 1).

Lemma block_limbs_ok block full :
  bytes block → (length block <= 16)%nat →
  let '(n1, carry) := block_limbs block full in
  0 <= n1 < 2 ^ 128 ∧ 0 <= carry <= 1 ∧ n1 + carry * 2 ^ 128 = block_value block.
Proof.
  intros Hb Hlen. unfold block_limbs. rewrite load_le_u128_ok by done.
  pose proof (of_le_range block Hb) as Hr. unfold block_value.
  assert (256 ^ Z.of_nat (length block) <= 2 ^ 128) as Hle.
  { change (2 ^ 128) with (256 ^ 16). apply Z.pow_le_mono_r; lia. }
  destruct (Nat.eqb_spec (length block) 16) as [E|Hne].
  - rewrite E. change (2 ^ (8 * Z.of_nat 16)) with (2 ^ 128).
    change (Z.of_nat 16 * 8 <? 128) with false. destruct full; simpl; lia.
  - rewrite andb_false_r. cbv zeta. rewrite (proj2 (Z.ltb_lt _ 128)) by lia.
    rewrite Z.shiftl_1_l, (Z.mul_comm 8).
    destruct (oadd 128 _ _) as [v c] eqn:E.
    assert (0 <= 2 ^ (Z.of_nat (length block) * 8) < 2 ^ 128) as Hp
      by (split; [apply Z.pow_nonneg; lia|apply Z.pow_lt_mono_r; lia]).
    apply oadd_spec in E; [|lia|done]. lia.
Qed.

(** Lines 150-163: reduce the 256-bit product modulo 2^130 - 5. *)
Definition reduce (prod_lo prod_hi : Z) : Z * Z :=
  let carry_bits := Z.shiftr prod_hi 2 in
  let new_h0 := wrap 64 (Z.land prod_hi 3) in
  let '(h1, c) := oadd 128 prod_lo (wmul 128 carry_bits 5) in
  let h0 := wadd 64 new_h0 (b2z c) in
  if (4 <=? h0) || ((h0 =? 3) && (u128_MAX - 3 <=? h1)) then
    let '(h1, borrow) := osub 128 h1 (u128_MAX - 4) in
    (wsub 64 (wsub 64 h0 3) (b2z borrow), h1)
  else (h0, h1).

Lemma reduce_ok lo hi :
  0 <= lo < 2 ^ 128 → 0 <= hi < 2 ^ 127 →
  acc_ok (reduce lo hi) ∧
  ∃ k, hi * 2 ^ 128 + lo = acc_value (reduce lo hi) + k * p1305.
Proof.
  intros Hlo Hhi. unfold reduce, acc_ok, acc_value, p1305, u128_MAX.
  rewrite Z.shiftr_div_pow2, land_3 by lia. change (2 ^ 2) with 4.
  pose proof (Z.div_mod hi 4) as Hdm. pose proof (Z.mod_pos_bound hi 4) as Hmb.
  assert (0 <= hi / 4 < 2 ^ 125) as Hq by (split; [apply Z.div_pos|apply Z.div_lt_upper_bound]; lia).
  unfold wmul. rewrite (wrap_small 128), (wrap_small 64) by (unfold uint; lia).
  destruct (oadd 128 lo _) as [h1 c] eqn:E1.
  apply oadd_spec in E1 as (B1 & V1 & C1); [|lia|lia].
  rewrite wadd64_small by lia.
  destruct ((4 <=? hi mod 4 + b2z c) || _) eqn:Hcond.
  - destruct (osub 128 h1 _) as [h1' bo] eqn:E2.
    apply osub_spec in E2 as (B2 & V2 & C2); [|lia|lia].
    unfold wsub. cbn [fst snd].
    assert (hi mod 4 + b2z c = 4 ∨ (hi mod 4 + b2z c = 3 ∧ 2 ^ 128 - 4 <= h1)) as Hc by lia.
    rewrite (wrap_small 64 (_ - 3)), wrap_small by (unfold uint; lia).
    split; [lia|]. exists (hi / 4 + 1). lia.
  - cbn [fst snd]. split; [lia|]. exists (hi / 4). lia.
Qed.

Lemma add_block_unfold `{Profile} r h block full :
  add_block r h block full =
  (let '(n1, carry) := block_limbs block full in
   let '(h1, c) := oadd 128 h.2 n1 in
   let h0 := wadd 64 (wadd 64 h.1 carry) (b2z c) in
   '(lo, hi) ← mul_acc h0 h1 r; Ret (reduce lo hi)).
Proof.
  destruct h as [h0 h1]. unfold add_block, reduce, block_limbs. cbn [fst snd].
  destruct (if full && _ then _ else _) as [n1 carry]. destruct (oadd 128 h1 n1) as [h1' c].
  destruct (mul_acc _ _ _) as [[lo hi]| |]; [|done|done]. cbn [mbind outcome_bind].
  destruct (oadd 128 lo _). destruct (_ || _); [|done]. by destruct (osub _ _ _).
Qed.

Lemma block_value_range block :
  bytes block → (length block <= 16)%nat → 0 <= block_value block < 2 ^ 129.
Proof.
  intros Hb Hl. unfold block_value. pose proof (of_le_range block Hb) as Hr.
  replace (256 ^ Z.of_nat (length block)) with (2 ^ (8 * Z.of_nat (length block))) in Hr
    by (rewrite Z.pow_mul_r by lia; done).
  assert (2 ^ (8 * Z.of_nat (length block)) <= 2 ^ 128) by (apply Z.pow_le_mono_r; lia). lia.
Qed.

Lemma add_block_ok `{Profile} r h block full :
  acc_ok h → 0 <= r < 2 ^ 124 → bytes block → (length block <= 16)%nat →
  ∃ h', add_block r h block full = Ret h' ∧ acc_ok h' ∧
    acc_value h' mod p1305 = ((acc_value h + block_value block) * r) mod p1305.
Proof.
  intros (H0 & H1 & H2) Hr Hb Hlen. rewrite add_block_unfold.
  pose proof (block_limbs_ok block full Hb Hlen) as Hbl.
  pose proof (block_value_range block Hb Hlen) as Hbv.
  destruct (block_limbs block full) as [n1 carry]. destruct Hbl as (Bn & Bc & Vn).
  destruct (oadd 128 h.2 n1) as [h1 c] eqn:E1. apply oadd_spec in E1 as (B1 & V1 & C1); [|lia|lia].
  unfold acc_value, p1305 in H2. cbv zeta.
  rewrite (wadd64_small h.1 carry), wadd64_small by lia.
  set (h0 := h.1 + carry + b2z c). set (v := acc_value h + block_value block).
  assert (h0 * 2 ^ 128 + h1 = v) as Hv by (unfold v, acc_value; lia).
  assert (0 <= v < 2 ^ 131) as Bv by (unfold v, acc_value, p1305 in *; lia).
  assert (v * r < 2 ^ 255) as Bvr by nia.
  assert (h0 * r + h1 * r / 2 ^ 128 = v * r / 2 ^ 128) as Hhi.
  { rewrite <-Hv. replace ((h0 * 2 ^ 128 + h1) * r) with (h1 * r + h0 * r * 2 ^ 128) by ring.
    rewrite Z.div_add by lia. lia. }
  assert ((h1 * r) mod 2 ^ 128 = (v * r) mod 2 ^ 128) as Hlo.
  { rewrite <-Hv. replace ((h0 * 2 ^ 128 + h1) * r) with (h1 * r + h0 * r * 2 ^ 128) by ring.
    by rewrite Z.mod_add by lia. }
  assert (0 <= v * r / 2 ^ 128 < 2 ^ 127) as Bhi
    by (split; [apply Z.div_pos; nia|apply Z.div_lt_upper_bound; lia]).
  rewrite mul_acc_ok, bind_Ret; [|lia|done|done|lia]. rewrite Hhi, Hlo.
  destruct (reduce_ok ((v * r) mod 2 ^ 128) (v * r / 2 ^ 128)) as [Hok [k Hk]];
    [apply Z.mod_pos_bound; lia|done|].
  eexists. split; [done|]. split; [done|].
  replace (v * r) with (acc_value (reduce ((v * r) mod 2 ^ 128) (v * r / 2 ^ 128)) + k * p1305) at 3.
  - by rewrite Z.mod_add by (unfold p1305; lia).
  - rewrite <-Hk. pose proof (Z.div_mod (v * r) (2 ^ 128)). lia.
Qed.

(** ** The clamped key *)

Lemma clamp_spec r :
  length r = 16%nat → bytes r →
  of_le (clamp r) = Z.land (of_le r) clamp_mask ∧ 0 <= of_le (clamp r) < 2 ^ 124.
Proof.
  intros Hl Hr. assert (of_le (clamp r) = Z.land (of_le r) clamp_mask) as ->.
  { change clamp_mask with (of_le [255;255;255;15;252;255;255;15;252;255;255;15;252;255;255;15]).
    rewrite land_of_le; [|done|done|by repeat constructor].
    assert (∀ i x, r !! i = Some x → Z.land x 255 = x) as H255.
    { intros i x Hx. change 255 with (Z.ones 8). rewrite Z.land_ones by lia.
      apply Z.mod_small. by apply (Forall_lookup_1 _ _ i _ Hr). }
    do 17 (destruct r as [|? r]; try discriminate). cbn -[Z.land Z.mul Z.add].
    rewrite (H255 0%nat), (H255 1%nat), (H255 2%nat), (H255 5%nat), (H255 6%nat),
      (H255 9%nat), (H255 10%nat), (H255 13%nat), (H255 14%nat) by done. done. }
  split; [done|]. rewrite Z.land_comm.
  apply (uint_land 124); [lia|done|]. pose proof (of_le_range r Hr). lia.
Qed.

(** ** The whole message *)

Section PolyProofs.
Context `{Profile}.
Variables (r : Z) (msg : list Z).
Hypotheses (Hr : 0 <= r < 2 ^ 124) (Hmsg : bytes msg).

(** The accumulator after [i] full blocks. *)
Definition loop_inv (st : (Z * Z) * nat) : Prop :=
  ∃ i, st.2 = (16 * i)%nat ∧ (16 * i <= length msg)%nat ∧ acc_ok st.1 ∧
    acc_value st.1 mod p1305 = poly_eval r (chunks 16 i msg).

Lemma poly_eval_snoc bs b :
  poly_eval r (bs ++ [b]) = ((poly_eval r bs + block_value b) * r) mod p1305.
Proof. unfold poly_eval. by rewrite foldl_app. Qed.

Lemma acc_step h bs b h' :
  acc_value h mod p1305 = poly_eval r bs →
  acc_value h' mod p1305 = ((acc_value h + block_value b) * r) mod p1305 →
  acc_value h' mod p1305 = poly_eval r (bs ++ [b]).
Proof.
  intros E1 E2. rewrite poly_eval_snoc, <-E1, E2.
  rewrite (Z.mul_mod (_ mod _ + _)), Z.add_mod_idemp_l, <-Z.mul_mod by (unfold p1305; lia). done.
Qed.

Lemma loop_step h offset :
  loop_inv (h, offset) → (offset + 16 <= length msg)%nat →
  ∃ st', block_step r msg (h, offset) = Ret st' ∧
    loop_inv st' ∧ (length msg - st'.2 < length msg - offset)%nat.
Proof.
  intros (i & Hoff & Hle & Hok & Hval) Hc. cbn [fst snd] in *. unfold block_step.
  rewrite slice_ok, bind_Ret by lia. replace (offset + 16 - offset)%nat with 16%nat by lia.
  destruct (add_block_ok r h (take 16 (drop offset msg)) true) as (h' & -> & Hok' & Hv');
    [done|done|by apply Forall_chunk|rewrite length_take; lia|].
  rewrite bind_Ret. eexists. split; [done|]. split; [|simpl; lia].
  exists (S i). split; [simpl; lia|]. split; [lia|]. split; [done|]. cbn [fst].
  rewrite chunks_S_r, <-Hoff. by apply acc_step with h.
Qed.

Lemma absorb_blocks :
  ∃ h, ('(h, offset) ← while_ (length msg)
          (λ st : (Z * Z) * nat, (st.2 + 16 <=? length msg)%nat)
          (block_step r msg) ((0, 0), 0%nat);
        (if (offset <? length msg)%nat
         then block ← slice offset (length msg) msg; add_block r h block false
         else Ret h)) = Ret h ∧
    acc_ok h ∧ acc_value h mod p1305 = poly_eval r (blocks16 msg).
Proof.
  destruct (while_ind loop_inv (λ st, length msg - st.2)%nat
    (λ st : (Z * Z) * nat, (st.2 + 16 <=? length msg)%nat) (block_step r msg) (length msg) ((0, 0), 0%nat))
    as ([h offset] & -> & (i & Hoff & Hle & Hok & Hval) & Hc).
  - exists 0%nat. split; [done|]. split; [lia|]. split; [|done].
    unfold acc_ok, acc_value, p1305. simpl. lia.
  - simpl. lia.
  - intros [h offset] Hinv Hc. apply loop_step; [done|]. cbn [snd] in Hc. by apply Nat.leb_le.
  - cbn [fst snd] in *. rewrite bind_Ret. apply Nat.leb_gt in Hc. unfold blocks16.
    assert (length msg / 16 = i)%nat as ->
      by (symmetry; apply (Nat.div_unique _ _ _ (length msg - 16 * i)); lia).
    assert (length msg mod 16 = length msg - 16 * i)%nat as ->
      by (symmetry; apply (Nat.mod_unique _ _ i); lia).
    destruct (Nat.ltb_spec offset (length msg)).
    + rewrite (proj2 (Nat.eqb_neq _ 0)) by lia.
      rewrite slice_ok, bind_Ret by lia.
      rewrite (take_ge (drop offset msg)) by (rewrite length_drop; lia).
      destruct (add_block_ok r h (drop offset msg) false) as (h' & -> & Hok' & Hv');
        [done|done|by apply Forall_drop|rewrite length_drop; lia|].
      exists h'. split; [done|]. split; [done|]. rewrite <-Hoff. by apply acc_step with h.
    + rewrite (proj2 (Nat.eqb_eq _ 0)) by lia. exists h. rewrite app_nil_r. done.
Qed.

End PolyProofs.

Lemma poly1305_ok `{Profile} key msg :
  length key = 32%nat → bytes key → bytes msg → poly1305 key msg = Ret (poly1305_spec key msg).
Proof.
  intros Hk Hkey Hmsg. unfold poly1305, poly1305_spec.
  destruct (clamp_spec (take 16 key)) as [Hcl Hr];
    [rewrite length_take; lia|by apply Forall_take|].
  rewrite (load_le_u128_ok (clamp _)) by (unfold clamp; rewrite !length_insert, length_take; lia).
  rewrite (load_le_u128_ok (drop _ _)) by (rewrite length_drop; lia).
  rewrite <-Hcl. set (r := of_le (clamp (take 16 key))) in *. set (s := of_le (drop 16 key)).
  assert (0 <= s < 2 ^ 128) as Hs.
  { pose proof (of_le_range (drop 16 key) ltac:(by apply Forall_drop)) as Hd.
    rewrite length_drop, Hk in Hd. done. }
  destruct (absorb_blocks r msg Hr Hmsg) as (h & Habs & Hok & Hval).
  set (w := while_ _ _ _ _) in *.
  destruct w as [[h' offset]| |]; [|done|done]. rewrite bind_Ret in Habs. rewrite bind_Ret.
  rewrite Habs, bind_Ret, <-Hval. clear Habs Hval. destruct h as [h0 h1].
  destruct Hok as (H0 & H1 & H2). unfold acc_value, p1305, u128_MAX in *. cbn [fst snd] in *.
  destruct ((3 <? h0) || _) eqn:Hcond.
  - assert (h0 = 3 ∧ h1 = 2 ^ 128 - 5) as [-> ->] by lia. reflexivity.
  - rewrite (Z.mod_small (h0 * 2 ^ 128 + h1)) by lia. unfold oadd, wrap. do 2 f_equal.
    replace (h0 * 2 ^ 128 + h1 + s) with (h1 + s + h0 * 2 ^ 128) by ring.
    by rewrite Z.mod_add.
Qed.

(** ** The keystream *)

Definition keystream (key nonce : list Z) (n : nat) : list Z :=
  mjoin ((λ i, chacha20_block key (Z.of_nat i) nonce) <$> seq 1 n).

Definition nblocks (len : nat) : nat := ((len + 63) / 64)%nat.

(** What [stream_xor] produces from [src]. *)
Definition encrypt (key nonce src : list Z) : list Z :=
  xor_with src (keystream key nonce (nblocks (length src))).

(** The longest message before the 32-bit block counter overflows. *)
Definition max_stream : Z := 64 * (2 ^ 32 - 2).

Lemma keystream_S key nonce n :
  keystream key nonce (S n) = keystream key nonce n ++ chacha20_block key (Z.of_nat (S n)) nonce.
Proof.
  unfold keystream. rewrite seq_S, fmap_app, join_app. f_equal.
Qed.

Lemma length_keystream key nonce n : length (keystream key nonce n) = (64 * n)%nat.
Proof.
  induction n as [|n IH]; [done|].
  rewrite keystream_S, length_app, IH, length_chacha20_block. lia.
Qed.

Lemma bytes_keystream key nonce n : bytes (keystream key nonce n).
Proof.
  induction n as [|n IH]; [constructor|]. rewrite keystream_S.
  apply Forall_app. split; [done|apply bytes_chacha20_block].
Qed.

Lemma nblocks_ge len : (len <= 64 * nblocks len)%nat.
Proof. unfold nblocks. pose proof (Nat.div_mod_eq (len + 63) 64).
  pose proof (Nat.mod_upper_bound (len + 63) 64). lia. Qed.

Lemma nblocks_lt len i : (64 * i < len)%nat → (S i <= nblocks len)%nat.
Proof. intros. unfold nblocks. apply Nat.div_le_lower_bound; lia. Qed.

Lemma nblocks_le len i : (len <= 64 * i)%nat → (nblocks len <= i)%nat.
Proof. intros. unfold nblocks. apply Nat.lt_succ_r, Nat.Div0.div_lt_upper_bound. lia. Qed.

Lemma length_encrypt key nonce src : length (encrypt key nonce src) = length src.
Proof. apply length_xor_with. rewrite length_keystream. apply nblocks_ge. Qed.

Lemma bytes_encrypt key nonce src : bytes src → bytes (encrypt key nonce src).
Proof. intros. apply bytes_xor_with; [done|apply bytes_keystream]. Qed.

Lemma encrypt_involutive key nonce src : encrypt key nonce (encrypt key nonce src) = src.
Proof.
  unfold encrypt at 1. rewrite length_encrypt. apply xor_with_involutive.
  rewrite length_keystream. apply nblocks_ge.
Qed.

(** It is the encryption of RFC 8439 section 2.4. *)
Lemma key_stream_rfc key nonce n : keystream key nonce n = Rfc.key_stream key nonce n.
Proof.
  unfold keystream, Rfc.key_stream. induction (seq 1 n) as [|i l IH]; [done|].
  cbn [flat_map]. rewrite <-IH, <-chacha20_block_rfc. done.
Qed.

Lemma xor_combine (a b : list Z) : xor_with a b = map (λ p, Z.lxor p.1 p.2) (combine a b).
Proof. unfold xor_with. revert b. induction a as [|x a IH]; intros [|y b]; try done. cbn. by rewrite IH. Qed.

Lemma encrypt_rfc key nonce src : encrypt key nonce src = Rfc.encrypt key nonce src.
Proof. unfold encrypt, Rfc.encrypt. by rewrite xor_combine, key_stream_rfc. Qed.

Lemma xor_with_app a b k l :
  length a = length k → xor_with (a ++ b) (k ++ l) = xor_with a k ++ xor_with b l.
Proof. intros. unfold xor_with. by apply zip_with_app. Qed.

Section Stream.
Context `{Profile}.
Variables (key nonce src dst : list Z).
Hypotheses (Hdst : (length src <= length dst)%nat) (Hmax : Z.of_nat (length src) <= max_stream).

Definition stream_inv (st : Z * nat * list Z) : Prop :=
  ∃ i, st.1.1 = Z.of_nat (S i) ∧ st.1.2 = Nat.min (64 * i) (length src) ∧
    (i <= nblocks (length src))%nat ∧
    st.2 = xor_with (take st.1.2 src) (keystream key nonce i) ++ drop st.1.2 dst.

Lemma stream_step_inv st :
  stream_inv st → (st.1.2 < length src)%nat →
  ∃ st', stream_step key nonce src st = Ret st' ∧ stream_inv st' ∧
    (length src - st'.1.2 < length src - st.1.2)%nat.
Proof.
  destruct st as [[counter pos] d]. intros (i & Hctr & Hpos & Hi & Hd) Hlt. cbn [fst snd] in *. subst counter d.
  pose proof (nblocks_lt (length src) i ltac:(lia)) as Hblk.
  assert (64 * nblocks (length src) <= length src + 63)%nat
    by (unfold nblocks; pose proof (Nat.div_mod_eq (length src + 63) 64); lia).
  unfold stream_step. unfold max_stream in Hmax. rewrite add_small, bind_Ret by (unfold uint; lia).
  set (t := Nat.min (length src - pos) 64).
  set (x := xor_with (take pos src) (keystream key nonce i)).
  assert (length x = pos) as Hx.
  { unfold x. rewrite length_xor_with; rewrite length_take; [lia|].
    rewrite length_keystream. lia. }
  rewrite xor_store_at, bind_Ret;
    [|lia|rewrite length_chacha20_block; lia|rewrite length_app, length_drop, Hx; lia].
  eexists. split; [done|]. split; [|cbn [fst snd]; lia].
  exists (S i). cbn [fst snd]. split; [lia|]. split; [lia|]. split; [done|].
  rewrite take_app_length', drop_app_add', drop_drop by lia.
  rewrite (assoc_L (++)). f_equal.
  rewrite keystream_S, <-take_take_drop, xor_with_app; [done|].
  rewrite length_take, length_keystream. lia.
Qed.

Lemma stream_xor_ok :
  stream_xor key nonce src dst = Ret (encrypt key nonce src ++ drop (length src) dst).
Proof.
  unfold stream_xor.
  destruct (while_ind stream_inv (λ st, length src - st.1.2)%nat
    (λ st : Z * nat * list Z, (st.1.2 <? length src)%nat) (stream_step key nonce src)
    (length src) (1, 0%nat, dst)) as ([[counter pos] d] & -> & (i & _ & Hpos & Hi & Hd) & Hc).
  - exists 0%nat. repeat split; cbn [fst snd]; lia.
  - cbn [fst snd]. lia.
  - intros st Hst Hc. apply stream_step_inv; [done|]. by apply Nat.ltb_lt.
  - rewrite bind_Ret. cbn [fst snd] in *. apply Nat.ltb_ge in Hc.
    assert (pos = length src) as -> by lia.
    assert (i = nblocks (length src)) as -> by (pose proof (nblocks_le (length src) i); lia).
    rewrite firstn_all in Hd. by rewrite Hd.
Qed.
End Stream.

(** ** The authenticated message *)

(** The layout [mac_input] builds, with the code's padding lengths. *)
Definition mac_layout (aad c : list Z) : list Z :=
  aad ++ replicate (pad16 (length aad)) 0 ++ c ++ replicate (pad16 (length c)) 0
  ++ le_bytes 8 (Z.of_nat (length aad)) ++ le_bytes 8 (Z.of_nat (length c)).

Lemma padding16_pad16 x : Rfc.padding16 x = replicate (pad16 (length x)) 0.
Proof.
  unfold Rfc.padding16, pad16. pose proof (Nat.mod_upper_bound (length x) 16).
  destruct (Nat.eqb_spec (length x mod 16) 0) as [E|Hne]; [by rewrite E|].
  rewrite (Nat.mod_small (16 - _)) by lia. by induction (16 - _)%nat as [|k IH]; [|cbn; rewrite IH].
Qed.

(** It is the data RFC 8439 section 2.8 authenticates. *)
Lemma mac_layout_rfc aad c : mac_layout aad c = Rfc.mac_data aad c.
Proof. unfold mac_layout, Rfc.mac_data. by rewrite !padding16_pad16, !num_to_le_bytes_le. Qed.

(** Copying [src] over the next zeros of a buffer under construction. *)
Lemma copy_next (done src : list Z) off end_ k :
  off = length done → end_ = (off + length src)%nat → (length src <= k)%nat →
  copy_into off end_ src (done ++ replicate k 0) = Ret (done ++ src ++ replicate (k - length src) 0).
Proof.
  intros -> -> Hk. rewrite copy_into_ok by (rewrite ?length_app, ?length_replicate; lia). f_equal.
  replace k with (length src + (k - length src))%nat at 1 by lia. rewrite replicate_add.
  by rewrite splice_app by (rewrite ?length_replicate; done).
Qed.

Lemma mac_input_ok aad c : mac_input aad c = Ret (Rfc.mac_data aad c).
Proof.
  rewrite <-mac_layout_rfc. unfold mac_input, mac_layout. set (pa := pad16 (length aad)). set (pc := pad16 (length c)).
  set (n := (length aad + pa + length c + pc + 8 + 8)%nat).
  pose proof (copy_next [] aad 0 (0 + length aad) n) as E1.
  rewrite !app_nil_l in E1. rewrite E1, bind_Ret by (simpl; lia). clear E1.
  replace (n - length aad)%nat with (pa + (length c + pc + 8 + 8))%nat by lia.
  rewrite replicate_add, (assoc_L (++)).
  rewrite copy_next, bind_Ret by (rewrite ?length_app, ?length_replicate; lia).
  replace (length c + pc + 8 + 8 - length c)%nat with (pc + (8 + 8))%nat by lia.
  rewrite replicate_add, !(assoc_L (++)).
  rewrite copy_next, bind_Ret by (rewrite ?length_app, ?length_replicate, ?length_le_bytes; lia).
  rewrite length_le_bytes, (assoc_L (++)).
  rewrite copy_next by (rewrite ?length_app, ?length_replicate, ?length_le_bytes; lia).
  rewrite length_le_bytes, app_nil_r, <-!(assoc_L (++)). done.
Qed.

Lemma bytes_mac_data aad c : bytes aad → bytes c → bytes (Rfc.mac_data aad c).
Proof.
  intros. rewrite <-mac_layout_rfc. unfold mac_layout. rewrite !Forall_app. repeat split; try done; auto with axiom_os.
  all: by apply Forall_replicate.
Qed.

(** The RFC 8439 section 2.8 tag. *)
Definition aead_tag (key nonce aad c : list Z) : list Z :=
  poly1305_spec (Rfc.poly1305_key_gen key nonce) (Rfc.mac_data aad c).

Section AeadPoly.
Context `{Profile}.

Lemma tag_ok key nonce aad c :
  bytes aad → bytes c →
  (m ← mac_input aad c; poly1305 (take 32 (chacha20_block key 0 nonce)) m)
  = Ret (aead_tag key nonce aad c).
Proof.
  intros. rewrite mac_input_ok, bind_Ret. unfold aead_tag, Rfc.poly1305_key_gen.
  rewrite <-chacha20_block_rfc. apply poly1305_ok.
  - by rewrite length_take, length_chacha20_block.
  - apply Forall_take, bytes_chacha20_block.
  - by apply bytes_mac_data.
Qed.

Lemma seal_ok key nonce aad pt buf :
  bytes aad → bytes pt → bytes buf → (length pt <= length buf)%nat →
  Z.of_nat (length pt) <= max_stream →
  let c := encrypt key nonce pt ++ drop (length pt) buf in
  chacha20_poly1305_seal key nonce aad pt buf = Ret (c, aead_tag key nonce aad c).
Proof.
  intros Ha Hp Hb Hlen Hmax c. unfold chacha20_poly1305_seal.
  rewrite stream_xor_ok, bind_Ret by done. fold c.
  assert (bytes c) as Hc
    by (apply Forall_app; split; [by apply bytes_encrypt|by apply Forall_drop]).
  pose proof (tag_ok key nonce aad c Ha Hc) as Htag. rewrite mac_input_ok, bind_Ret in Htag.
  by rewrite mac_input_ok, bind_Ret, Htag, bind_Ret.
Qed.

Lemma open_ok key nonce aad c tag buf :
  bytes aad → bytes c → length tag = 16%nat → (length c <= length buf)%nat →
  Z.of_nat (length c) <= max_stream →
  chacha20_poly1305_open key nonce aad c tag buf =
  Ret (if decide (tag = aead_tag key nonce aad c)
       then (true, encrypt key nonce c ++ drop (length c) buf) else (false, buf)).
Proof.
  intros Ha Hc Ht Hlen Hmax. unfold chacha20_poly1305_open.
  rewrite mac_input_ok, bind_Ret.
  pose proof (tag_ok key nonce aad c Ha Hc) as Htag. rewrite mac_input_ok, bind_Ret in Htag.
  rewrite Htag, bind_Ret.
  assert (length (aead_tag key nonce aad c) = 16%nat) as Hl by apply length_le_bytes.
  pose proof (ct_diff_eq 16 _ _ Hl Ht) as Hd.
  destruct (ct_diff 16 _ tag =? 0); cbn [negb].
  - rewrite decide_True by (symmetry; tauto). by rewrite stream_xor_ok.
  - rewrite decide_False; [done|]. intros ->. by apply diff_false_true, Hd.
Qed.

End AeadPoly.

(** ** Properties *)

(** C5: the limb implementation returns the RFC 8439 section 2.5 tag: the
    polynomial of the message blocks evaluated at the clamped r modulo
    2^130 - 5, plus s, modulo 2^128.  No carry is lost and no operation
    panics, for every key and message, in both profiles. *)
Theorem poly1305_rfc8439 `{Profile} key msg :
  length key = 32%nat → bytes key → bytes msg →
  poly1305 key msg = Ret (poly1305_spec key msg).
Proof. apply poly1305_ok. Qed.

Lemma poly1305_rfc8439_witness :
  @poly1305 dev_profile (replicate 32 255) (replicate 33 255)
  = Ret (poly1305_spec (replicate 32 255) (replicate 33 255)).
Proof.
  apply (@poly1305_rfc8439 dev_profile (replicate 32 255) (replicate 33 255));
    [reflexivity|by apply Forall_replicate|by apply Forall_replicate].
Defined.

(** the accumulator stays reduced: from any accumulator value at most
    2^130 - 5 the block step returns one at most 2^130 - 5, congruent to
    (acc + block) * r. *)
Theorem add_block_reduces `{Profile} r h block full :
  acc_ok h → 0 <= r < 2 ^ 124 → bytes block → (length block <= 16)%nat →
  ∃ h', add_block r h block full = Ret h' ∧ acc_ok h' ∧
    acc_value h' mod p1305 = ((acc_value h + block_value block) * r) mod p1305.
Proof. apply add_block_ok. Qed.

Lemma add_block_reduces_witness :
  ∃ h', @add_block dev_profile 5 (3, 2 ^ 128 - 5) (replicate 16 255) true = Ret h' ∧ acc_ok h' ∧
    acc_value h' mod p1305
    = ((acc_value (3, 2 ^ 128 - 5) + block_value (replicate 16 255)) * 5) mod p1305.
Proof.
  apply (@add_block_reduces dev_profile 5 (3, 2 ^ 128 - 5) (replicate 16 255) true).
  - unfold acc_ok, acc_value, p1305. simpl. lia.
  - lia.
  - by apply Forall_replicate.
  - simpl. lia.
Defined.

(** C24: opening what was sealed under the same key, nonce and associated
    data accepts and writes the plaintext, for every message the block
    counter can number, whatever the two buffers held before. *)
Theorem seal_open_roundtrip `{Profile} key nonce aad pt cbuf pbuf :
  bytes aad → bytes pt → length cbuf = length pt → bytes cbuf →
  (length pt <= length pbuf)%nat → Z.of_nat (length pt) <= max_stream →
  ('(c, tag) ← chacha20_poly1305_seal key nonce aad pt cbuf;
   chacha20_poly1305_open key nonce aad c tag pbuf)
  = Ret (true, pt ++ drop (length pt) pbuf).
Proof.
  intros Ha Hp Hl Hb Hpb Hmax. rewrite seal_ok, bind_Ret by (done || lia).
  rewrite drop_ge, app_nil_r by lia.
  rewrite open_ok; rewrite ?length_encrypt; try done.
  - rewrite decide_True by done. by rewrite encrypt_involutive.
  - by apply bytes_encrypt.
Qed.

Lemma seal_open_roundtrip_witness :
  ('(c, tag) ← @chacha20_poly1305_seal dev_profile (replicate 32 1) (replicate 12 2) (bstr "ad")
                 (bstr "hello") (replicate 5 0);
   @chacha20_poly1305_open dev_profile (replicate 32 1) (replicate 12 2) (bstr "ad") c tag
     (replicate 64 0))
  = Ret (true, bstr "hello" ++ drop 5 (replicate 64 0)).
Proof.
  apply (@seal_open_roundtrip dev_profile (replicate 32 1) (replicate 12 2) (bstr "ad")
           (bstr "hello") (replicate 5 0) (replicate 64 0)).
  - by repeat constructor.
  - by repeat constructor.
  - reflexivity.
  - by apply Forall_replicate.
  - vm_compute. lia.
  - vm_compute. discriminate.
Defined.

(** C25: [chacha20_poly1305_open] accepts exactly the RFC 8439 tag of the
    associated data and ciphertext it is given (the one-time key, the padded
    data and the encryption are those of [Rfc8439]) and then writes the
    RFC 8439 decryption; on any other tag it answers false and the plaintext
    buffer is untouched. *)
Theorem open_authentic `{Profile} key nonce aad c tag pbuf :
  bytes aad → bytes c → length tag = 16%nat → (length c <= length pbuf)%nat →
  Z.of_nat (length c) <= max_stream →
  (tag = aead_tag key nonce aad c ∧
   chacha20_poly1305_open key nonce aad c tag pbuf
   = Ret (true, Rfc.encrypt key nonce c ++ drop (length c) pbuf)) ∨
  (tag ≠ aead_tag key nonce aad c ∧
   chacha20_poly1305_open key nonce aad c tag pbuf = Ret (false, pbuf)).
Proof. intros. rewrite open_ok, encrypt_rfc by done. case_decide; [left|right]; done. Qed.

Lemma open_authentic_witness :
  let open_ := @chacha20_poly1305_open dev_profile (replicate 32 1) (replicate 12 2) [] [7]
                 (replicate 16 0) [9] in
  (replicate 16 0 = aead_tag (replicate 32 1) (replicate 12 2) [] [7] ∧
   open_ = Ret (true, Rfc.encrypt (replicate 32 1) (replicate 12 2) [7] ++ drop 1 [9])) ∨
  (replicate 16 0 ≠ aead_tag (replicate 32 1) (replicate 12 2) [] [7] ∧ open_ = Ret (false, [9])).
Proof.
  apply (@open_authentic dev_profile (replicate 32 1) (replicate 12 2) [] [7] (replicate 16 0) [9]).
  - constructor.
  - by repeat constructor.
  - reflexivity.
  - simpl. lia.
  - vm_compute. discriminate.
Defined.
