(* ===== verification/Capability.v ===== *)
(** * Temporal capabilities

    Model of [kernel/src/axiom/capability.rs]: capability records
    authenticated with HMAC-SHA-256, [mint], [verify], [ttl] and [derive].
    The hash functions come through [HashOps].

    Shown here: what [verify] and [derive] answer on every input; that a
    chain of derivations of any length only attenuates (rights, lifetime,
    object) and is bounded in depth; that expiry is permanent and reaches
    every descendant; and that a capability accepted with another
    capability's MAC is that capability, unless HMAC collides. *)

From S2P Require Import Prelude Interfaces Crypto.
From Stdlib Require Import ZArith Lia.
From stdpp Require Import base numbers list strings.
#[local] Open Scope Z_scope.

(** ** The rights bits *)

Definition READ : Z := 0x01.
Definition WRITE : Z := 0x02.
Definition EXECUTE : Z := 0x04.
Definition DERIVE : Z := 0x08.
Definition GRANT : Z := 0x10.

(** ** Capabilities *)

Record Capability := mkCapability {
  object_id : Z; rights : Z; expires_at : Z; depth : Z;
  parent_hash : list Z; mac : list Z }.

#[global] Instance Capability_eq_dec : EqDecision Capability.
Proof. solve_decision. Defined.

Definition auth_bytes (object_id rights expires_at depth : Z) (parent_hash : list Z) : list Z :=
  let buf := replicate 50 0 in
  let buf := splice 0 (le_bytes 8 object_id) buf in
  let buf := <[8%nat := rights]> buf in
  let buf := splice 9 (le_bytes 8 expires_at) buf in
  let buf := <[17%nat := depth]> buf in
  splice 18 parent_hash buf.

Definition ttl (c : Capability) (now : Z) : Z := saturating_sub (expires_at c) now.

Section Operations.
Context `{HashOps}.

Definition mint (k : list Z) (object_id rights expires_at : Z) : outcome Capability :=
  let parent_hash := replicate 32 0 in
  let bytes := auth_bytes object_id rights expires_at 0 parent_hash in
  mac ← h_hmac_sha256 k bytes;
  Ret (mkCapability object_id rights expires_at 0 parent_hash mac).

Definition verify (c : Capability) (k : list Z) (now : Z) : outcome bool :=
  if expires_at c <=? now then Ret false else
  let bytes := auth_bytes (object_id c) (rights c) (expires_at c) (depth c) (parent_hash c) in
  expected ← h_hmac_sha256 k bytes;
  Ret (ct_eq_32 expected (mac c)).

Definition derive (c : Capability) (k : list Z) (now new_rights new_expires_at : Z)
    : outcome (option Capability) :=
  ok ← verify c k now;
  if negb ok then Ret None else
  if Z.land (rights c) DERIVE =? 0 then Ret None else
  if negb (Z.land new_rights (bnot 8 (rights c)) =? 0) then Ret None else
  if expires_at c <? new_expires_at then Ret None else
  match checked_add 8 (depth c) 1 with
  | None => Ret None
  | Some depth =>
    if 64 <? depth then Ret None else
    parent_hash ← h_sha256 (mac c);
    let bytes := auth_bytes (object_id c) new_rights new_expires_at depth parent_hash in
    mac ← h_hmac_sha256 k bytes;
    Ret (Some (mkCapability (object_id c) new_rights new_expires_at depth parent_hash mac))
  end.
End Operations.

(** ** Well-formedness: what the field types guarantee *)

Record wf_cap (c : Capability) : Prop := {
  wf_oid : u64 (object_id c);
  wf_rights : u8 (rights c);
  wf_expires : u64 (expires_at c);
  wf_depth : u8 (depth c);
  wf_parent_len : length (parent_hash c) = 32%nat;
  wf_parent : bytes (parent_hash c);
  wf_mac_len : length (mac c) = 32%nat;
  wf_mac : bytes (mac c);
}.

(** The serialisation as a concatenation. *)
Lemma cap_bytes_app oid r e d ph :
  length ph = 32%nat →
  auth_bytes oid r e d ph = le_bytes 8 oid ++ [r] ++ le_bytes 8 e ++ [d] ++ ph.
Proof.
  intros Hp. unfold auth_bytes.
  do 33 (destruct ph as [|? ph]; try discriminate). reflexivity.
Qed.

Lemma length_cap_bytes oid r e d ph :
  length ph = 32%nat → length (auth_bytes oid r e d ph) = 50%nat.
Proof. intros Hp. rewrite cap_bytes_app, !length_app, !length_le_bytes by done. simpl. lia. Qed.

Definition auth_of (c : Capability) : list Z :=
  auth_bytes (object_id c) (rights c) (expires_at c) (depth c) (parent_hash c).

(** No two sets of field values have the same serialisation. *)
Lemma auth_of_inj c c' :
  wf_cap c → wf_cap c' → auth_of c = auth_of c' →
  object_id c = object_id c' ∧ rights c = rights c' ∧ expires_at c = expires_at c' ∧
  depth c = depth c' ∧ parent_hash c = parent_hash c'.
Proof.
  intros Hc Hc' E. unfold auth_of in E.
  rewrite !cap_bytes_app in E by apply wf_parent_len, Hc || apply wf_parent_len, Hc'.
  apply app_inj_1 in E as [E1 E]; [|by rewrite !length_le_bytes].
  apply app_inj_1 in E as [E2 E]; [|done].
  apply app_inj_1 in E as [E3 E]; [|by rewrite !length_le_bytes].
  apply app_inj_1 in E as [E4 E]; [|done].
  apply le_bytes_inj in E1; [|apply wf_oid, Hc|apply wf_oid, Hc'].
  apply le_bytes_inj in E3; [|apply wf_expires, Hc|apply wf_expires, Hc'].
  repeat split; congruence.
Qed.

(** ** Rights as sets of bits *)

Definition sub_rights (r r' : Z) : Prop := ∀ i, Z.testbit r i = true → Z.testbit r' i = true.

#[global] Instance sub_rights_preorder : PreOrder sub_rights.
Proof. split; [by intros r i|]. intros r s t Hrs Hst i Hi. auto. Qed.

(** The escalation guard [new & !self != 0] is containment. *)
Lemma escalation_guard r r' :
  u8 r → u8 r' → Z.land r (bnot 8 r') = 0 ↔ sub_rights r r'.
Proof.
  intros Hr Hr'. unfold bnot, sub_rights. rewrite <-Z.bits_inj_iff'. split; intros E i.
  - intros Hi. destruct (Z.lt_ge_cases i 0); [by rewrite Z.testbit_neg_r in Hi|].
    destruct (Z.lt_ge_cases i 8); [|by rewrite (uint_testbit 8 r) in Hi].
    specialize (E i). rewrite Z.land_spec, Z.lxor_spec, Z.bits_0, Hi, Z.ones_spec_low in E by lia.
    destruct (Z.testbit r' i); [done|]. by specialize (E ltac:(done)).
  - intros Hi. rewrite Z.land_spec, Z.lxor_spec, Z.bits_0.
    destruct (Z.testbit r i) eqn:Hri; [|done]. rewrite (E i Hri).
    destruct (Z.lt_ge_cases i 8); [by rewrite Z.ones_spec_low by lia|].
    by rewrite (uint_testbit 8 r) in Hri.
Qed.

(** ** What the operations compute *)

Section Laws.
Context `{ops : HashOps} {laws : HashLaws ops}.
Variable k : list Z.
Hypothesis Hk : length k = 32%nat.

(** The MAC is that of the fields. *)
Definition authentic (c : Capability) : Prop := mac c = hmac_fn k (auth_of c).

#[global] Instance authentic_dec c : Decision (authentic c).
Proof. unfold authentic. apply _. Defined.

Lemma hmac_auth oid r e d ph :
  length ph = 32%nat →
  h_hmac_sha256 k (auth_bytes oid r e d ph) = Ret (hmac_fn k (auth_bytes oid r e d ph)).
Proof. intros. apply hmac_ret; [rewrite Hk; fits|rewrite length_cap_bytes by done; fits]. Qed.

Lemma verify_ok c now :
  wf_cap c → verify c k now = Ret (bool_decide (now < expires_at c ∧ authentic c)).
Proof.
  intros Hc. unfold verify. destruct (Z.leb_spec (expires_at c) now).
  - rewrite bool_decide_eq_false_2 by lia. done.
  - rewrite hmac_auth, bind_Ret by apply wf_parent_len, Hc. f_equal.
    apply eq_true_iff_eq. unfold ct_eq_32. rewrite bool_decide_eq_true, ct_diff_eq.
    + unfold authentic, auth_of. intuition congruence.
    + apply length_hmac_fn.
    + apply wf_mac_len, Hc.
Qed.

Definition minted (oid r e : Z) : Capability :=
  let ph := replicate 32 0 in mkCapability oid r e 0 ph (hmac_fn k (auth_bytes oid r e 0 ph)).

Lemma mint_ok oid r e : mint k oid r e = Ret (minted oid r e).
Proof. unfold mint. by rewrite hmac_auth, bind_Ret by apply length_replicate. Qed.

Lemma wf_minted oid r e : u64 oid → u8 r → u64 e → wf_cap (minted oid r e).
Proof.
  intros. split; cbn [minted object_id rights expires_at depth parent_hash mac]; try done;
    auto with axiom_os.
  by apply bytes_replicate.
Qed.

Definition child (c : Capability) (r e : Z) : Capability :=
  let ph := sha256_fn (mac c) in
  mkCapability (object_id c) r e (depth c + 1) ph
    (hmac_fn k (auth_bytes (object_id c) r e (depth c + 1) ph)).

(** The conditions the documentation of [derive] lists. *)
Record may_derive (c : Capability) (now r e : Z) : Prop := {
  md_live : now < expires_at c;
  md_auth : authentic c;
  md_right : Z.land (rights c) DERIVE ≠ 0;
  md_rights : sub_rights r (rights c);
  md_expiry : e <= expires_at c;
  md_depth : depth c < 64;
}.

Lemma derive_refused c now r e :
  wf_cap c → u8 r → ¬ may_derive c now r e → derive c k now r e = Ret None.
Proof.
  intros Hc Hr Hno. unfold derive. rewrite verify_ok, bind_Ret by done.
  case_bool_decide as Hv; [|done]. cbn [negb].
  destruct (Z.eqb_spec (Z.land (rights c) DERIVE) 0); [done|].
  destruct (Z.eqb_spec (Z.land r (bnot 8 (rights c))) 0) as [Hs|]; [|done]. cbn [negb].
  destruct (Z.ltb_spec (expires_at c) e); [done|].
  unfold checked_add. destruct (Z.ltb_spec (depth c + 1) (2 ^ 8)); [|done].
  destruct (Z.ltb_spec 64 (depth c + 1)); [done|]. exfalso. apply Hno.
  apply escalation_guard in Hs; [|done|apply wf_rights, Hc].
  split; try done; [apply Hv|apply Hv|lia].
Qed.

Lemma derive_granted c now r e :
  wf_cap c → u8 r → may_derive c now r e → derive c k now r e = Ret (Some (child c r e)).
Proof.
  intros Hc Hr [H1 H2 H3 H4 H5 H6]. unfold derive. rewrite verify_ok, bind_Ret by done.
  rewrite bool_decide_eq_true_2 by done. cbn [negb].
  rewrite (proj2 (Z.eqb_neq _ _) H3).
  rewrite (proj2 (Z.eqb_eq _ _)) by (apply escalation_guard; [done|apply wf_rights, Hc|done]).
  cbn [negb]. rewrite (proj2 (Z.ltb_ge _ _)) by done.
  unfold checked_add. rewrite (proj2 (Z.ltb_lt _ _)) by lia.
  rewrite (proj2 (Z.ltb_ge _ _)) by lia.
  rewrite sha256_ret, bind_Ret by (rewrite (wf_mac_len _ Hc); fits).
  by rewrite hmac_auth, bind_Ret by apply length_sha256_fn.
Qed.

Lemma may_derive_dec c now r e :
  wf_cap c → u8 r → may_derive c now r e ∨ ¬ may_derive c now r e.
Proof.
  intros Hc Hr.
  destruct (decide (now < expires_at c ∧ authentic c ∧ Z.land (rights c) DERIVE ≠ 0 ∧
    Z.land r (bnot 8 (rights c)) = 0 ∧ e <= expires_at c ∧ depth c < 64)) as [Hy|Hn].
  - left. destruct Hy as (?&?&?&Hs&?&?). apply escalation_guard in Hs; [|done|apply wf_rights, Hc].
    by split.
  - right. intros [????? ?]. apply Hn. repeat split; try done.
    apply escalation_guard; [done|apply wf_rights, Hc|done].
Qed.
(** ** Chains of derivations *)

Lemma wf_child c r e : wf_cap c → u8 r → u64 e → depth c < 64 → wf_cap (child c r e).
Proof.
  intros Hc Hr He Hd. destruct (wf_depth _ Hc).
  split; cbn [child object_id rights expires_at depth parent_hash mac]; auto with axiom_os.
  - apply wf_oid, Hc.
  - split; lia.
Qed.

Lemma authentic_minted oid r e : authentic (minted oid r e).
Proof. done. Qed.

Lemma authentic_child c r e : authentic (child c r e).
Proof. done. Qed.

(** [delegated root n c]: [c] is reached from [root] by [n] successful calls
    of [derive], each made at some time with some arguments. *)
Inductive delegated (root : Capability) : nat → Capability → Prop :=
  | delegated_root : delegated root 0 root
  | delegated_step n c now r e c' :
      delegated root n c → u8 r → u64 e → derive c k now r e = Ret (Some c') →
      delegated root (S n) c'.

Record attenuated (root : Capability) (n : nat) (c : Capability) : Prop := {
  at_wf : wf_cap c;
  at_authentic : authentic c;
  at_oid : object_id c = object_id root;
  at_rights : sub_rights (rights c) (rights root);
  at_expiry : expires_at c <= expires_at root;
  at_depth : depth c = depth root + Z.of_nat n;
  at_bound : n = 0%nat ∨ depth c <= 64;
}.

Lemma delegated_attenuated root n c :
  wf_cap root → authentic root → delegated root n c → attenuated root n c.
Proof.
  intros Hw Ha. induction 1 as [|n c now r e c' _ IH Hr He Hd].
  - split; try done; lia.
  - destruct IH as [Hcw Hca Ho Hs Hx Hdep _].
    destruct (may_derive_dec c now r e) as [Hm|Hm]; [done|done| |].
    + rewrite derive_granted in Hd by done. simplify_out. destruct Hm as [????? Hlt].
      split; cbn [child object_id rights expires_at depth]; try done; [..|right; lia].
      * by apply wf_child.
      * by etrans.
      * lia.
      * lia.
    + rewrite derive_refused in Hd by done. simplify_out. done.
Qed.
End Laws.

(** ** Properties *)

Section Theorems.
Context `{ops : HashOps} {laws : HashLaws ops}.

(** [verify] answers true exactly when the capability has not expired
    and its MAC is the HMAC of its fields under the key; so a minted
    capability verifies until, and never from, its expiry on, and [ttl] is
    positive exactly as long. *)
Theorem mint_verify k oid r e now :
  length k = 32%nat → u64 oid → u8 r → u64 e → u64 now →
  ∃ c, mint k oid r e = Ret c ∧ rights c = r ∧ object_id c = oid ∧ depth c = 0 ∧
    verify c k now = Ret (now <? e) ∧ (0 < ttl c now ↔ now < e).
Proof.
  intros Hk Ho Hr He Hn. exists (minted k oid r e).
  split; [by apply mint_ok|]. do 3 (split; [done|]). split.
  - rewrite verify_ok by (done || by apply wf_minted). f_equal.
    apply eq_true_iff_eq. rewrite bool_decide_eq_true, Z.ltb_lt.
    split; [by intros []|]. intros. split; [done|apply authentic_minted].
  - unfold ttl, saturating_sub. simpl. lia.
Qed.

(** [verify] on an arbitrary capability value: it accepts exactly the
    unexpired capabilities whose MAC is the HMAC of the 50 serialised bytes,
    so a changed MAC bit, a changed field and an expired capability are all
    refused; it never panics. *)
Theorem verify_spec k c now :
  length k = 32%nat → wf_cap c →
  verify c k now = Ret (bool_decide (now < expires_at c ∧ mac c = hmac_fn k (auth_of c))).
Proof. intros Hk Hc. by rewrite verify_ok. Qed.

(** C19: [derive] returns the child with the asked rights and expiry, one
    level deeper and linked to the parent's MAC, exactly when the parent is
    valid now, has DERIVE, contains the new rights, does not expire earlier,
    and is at depth below 64; in every other case it returns [None]. *)
Theorem derive_spec k c now r e :
  length k = 32%nat → wf_cap c → u8 r →
  (may_derive k c now r e ∧ derive c k now r e = Ret (Some (child k c r e))) ∨
  (¬ may_derive k c now r e ∧ derive c k now r e = Ret None).
Proof.
  intros Hk Hc Hr. destruct (may_derive_dec k c now r e) as [Hm|Hm]; [done|done|left|right].
  - split; [done|]. by apply derive_granted.
  - split; [done|]. by apply derive_refused.
Qed.

(** C3: no chain of derivations, however long and whenever its steps are
    taken, amplifies: every capability delegated from an authentic root names
    the same object, has a subset of its rights and expires no later, its
    depth counts the steps and is at most 64, and it carries a valid MAC. *)
Theorem delegation_attenuates k root n c :
  length k = 32%nat → wf_cap root → authentic k root → delegated k root n c →
  object_id c = object_id root ∧ sub_rights (rights c) (rights root) ∧
  expires_at c <= expires_at root ∧ depth c = depth root + Z.of_nat n ∧
  (n = 0%nat ∨ depth c <= 64) ∧ authentic k c.
Proof. intros Hk Hw Ha Hd. by destruct (delegated_attenuated k Hk root n c Hw Ha Hd). Qed.

(** temporal decay: from the root's expiry on, the root and every
    capability ever delegated from it are refused, at every later time, and
    none of them can derive anything any more. *)
Theorem decay_is_permanent k root n c now r e :
  length k = 32%nat → wf_cap root → authentic k root → delegated k root n c →
  expires_at root <= now → verify c k now = Ret false ∧ derive c k now r e = Ret None.
Proof.
  intros Hk Hw Ha Hd Hnow. destruct (delegated_attenuated k Hk root n c Hw Ha Hd).
  assert (verify c k now = Ret false) as Hv.
  { rewrite verify_ok, bool_decide_eq_false_2 by (done || lia). done. }
  split; [done|]. unfold derive. by rewrite Hv.
Qed.

(** a capability that verifies with the MAC of another capability that
    verifies is that capability, or the two serialisations are different
    messages with one HMAC: a transplanted MAC is a collision of
    HMAC-SHA-256 under the kernel's key. *)
Theorem transplanted_mac k c c' now now' :
  length k = 32%nat → wf_cap c → wf_cap c' →
  verify c k now = Ret true → verify c' k now' = Ret true → mac c = mac c' →
  c = c' ∨ (auth_of c ≠ auth_of c' ∧ hmac_fn k (auth_of c) = hmac_fn k (auth_of c')).
Proof.
  intros Hk Hc Hc' Hv Hv' Hm. rewrite verify_ok in Hv, Hv' by done. simplify_out.
  apply bool_decide_eq_true in Hv as [_ Hv]. apply bool_decide_eq_true in Hv' as [_ Hv'].
  destruct (decide (auth_of c = auth_of c')) as [E|E]; [left|right; split; [done|]].
  - apply auth_of_inj in E as (?&?&?&?&?); [|done|done]. destruct c, c'; simpl in *. congruence.
  - unfold authentic in *. congruence.
Qed.
End Theorems.

(** ** Witnesses: the capability the boot demonstration mints *)

Definition demo_key : list Z := be_bytes 32
  0x5EC0DECAFEBABEDEADBEEFCAFEBABE00AABBCCDDEEFF0123456789ABCDEF0011.

Definition demo_root : Capability :=
  @minted (@crypto_ops dev_profile) (@crypto_laws dev_profile) demo_key 0xF11E 0x0b 1000.

Lemma demo_root_wf : wf_cap demo_root.
Proof. apply wf_minted; [done|split; lia..]. Qed.

Lemma demo_child_delegated :
  @delegated (@crypto_ops dev_profile) demo_key demo_root 1
    (@child (@crypto_ops dev_profile) (@crypto_laws dev_profile) demo_key demo_root READ 800).
Proof.
  apply (delegated_step demo_key demo_root 0 demo_root 500 READ 800); [constructor|split; done|split; done|].
  apply derive_granted; [done|apply demo_root_wf|split; done|].
  split; try done. apply escalation_guard; done.
Qed.

Lemma mint_verify_witness :
  ∃ c, @mint (@crypto_ops dev_profile) demo_key 0xF11E 0x0b 1000 = Ret c ∧ rights c = 0x0b ∧
    object_id c = 0xF11E ∧ depth c = 0 ∧
    @verify (@crypto_ops dev_profile) c demo_key 500 = Ret (500 <? 1000) ∧
    (0 < ttl c 500 ↔ 500 < 1000).
Proof.
  apply (@mint_verify (@crypto_ops dev_profile) (@crypto_laws dev_profile)); [done|split; lia..].
Defined.

Lemma verify_spec_witness :
  @verify (@crypto_ops dev_profile) demo_root demo_key 500
  = Ret (bool_decide (500 < expires_at demo_root ∧
      mac demo_root = @hmac_fn _ (@crypto_laws dev_profile) demo_key (auth_of demo_root))).
Proof.
  apply (@verify_spec (@crypto_ops dev_profile) (@crypto_laws dev_profile)); [done|].
  apply demo_root_wf.
Defined.

Lemma derive_spec_witness :
  (@may_derive _ (@crypto_laws dev_profile) demo_key demo_root 500 EXECUTE 800 ∧
   @derive (@crypto_ops dev_profile) demo_root demo_key 500 EXECUTE 800
   = Ret (Some (@child _ (@crypto_laws dev_profile) demo_key demo_root EXECUTE 800))) ∨
  (¬ @may_derive _ (@crypto_laws dev_profile) demo_key demo_root 500 EXECUTE 800 ∧
   @derive (@crypto_ops dev_profile) demo_root demo_key 500 EXECUTE 800 = Ret None).
Proof.
  apply (@derive_spec (@crypto_ops dev_profile) (@crypto_laws dev_profile));
    [done|apply demo_root_wf|split; done].
Defined.

Lemma delegation_attenuates_witness :
  let c := @child _ (@crypto_laws dev_profile) demo_key demo_root READ 800 in
  object_id c = object_id demo_root ∧ sub_rights (rights c) (rights demo_root) ∧
  expires_at c <= expires_at demo_root ∧ depth c = depth demo_root + 1 ∧
  (1%nat = 0%nat ∨ depth c <= 64) ∧ @authentic _ (@crypto_laws dev_profile) demo_key c.
Proof.
  apply (@delegation_attenuates _ (@crypto_laws dev_profile) demo_key demo_root 1);
    [done|apply demo_root_wf|done|apply demo_child_delegated].
Defined.

Lemma decay_is_permanent_witness :
  let c := @child _ (@crypto_laws dev_profile) demo_key demo_root READ 800 in
  @verify (@crypto_ops dev_profile) c demo_key 1500 = Ret false ∧
  @derive (@crypto_ops dev_profile) c demo_key 1500 READ 1200 = Ret None.
Proof.
  apply (@decay_is_permanent _ (@crypto_laws dev_profile) demo_key demo_root 1);
    [done|apply demo_root_wf|done|apply demo_child_delegated|done].
Defined.

Lemma transplanted_mac_witness :
  let ops := @crypto_ops dev_profile in
  let laws := @crypto_laws dev_profile in
  demo_root = demo_root ∨
  (auth_of demo_root ≠ auth_of demo_root ∧
   @hmac_fn ops laws demo_key (auth_of demo_root) = @hmac_fn ops laws demo_key (auth_of demo_root)).
Proof.
  apply (@transplanted_mac _ (@crypto_laws dev_profile) demo_key demo_root demo_root 500 500);
    [done|apply demo_root_wf|apply demo_root_wf| | |done].
  all: rewrite verify_ok, bool_decide_eq_true_2 by (done || apply demo_root_wf); done.
Defined.
