(* ===== verification/Meal.v ===== *)
(** * MEAL: the hash-chained audit log

    Model of [kernel/src/meal.rs]: audit events and their codes, entries and
    their 80-byte serialisation, the 64-slot ring [MealLog] with [append] and
    [verify_chain], and the global [log] behind a spin lock taken with
    [try_lock].  The tick counter read by [append] is an argument.

    The abstract state of a log is its whole history, the list of every entry
    ever appended; [log_inv] relates it to the ring.  Shown here: [append]
    extends the history by one authentic, linked, correctly numbered entry
    and keeps the invariant; [verify_chain] accepts every log so built;
    and, for a log whose slots were overwritten arbitrarily, what
    [verify_chain] accepts is a contiguous piece of the history, unless an
    HMAC was forged or SHA-256 collides on the log's own messages.  The
    contiguous pieces are all accepted, so removing the newest or the oldest
    entries is not detected. *)

From S2P Require Import Prelude Interfaces Crypto.
From Stdlib Require Import ZArith Lia.
From stdpp Require Import base numbers list strings.
#[local] Open Scope Z_scope.

(** ** Events *)

Inductive AuditEvent :=
  | LogInitialised | CapabilityDerived | CapabilityExpired | ProcessCreated | ProcessExited
  | EipcSend | EipcReceive | SyscallDispatched | ScbaFenceFired
  | DriverLoaded | DriverFaultMmio | DriverFaultSyscall | DriverStopped
  | LatticeReconfigured | MemoryZeroed | BootComplete.

#[global] Instance AuditEvent_eq_dec : EqDecision AuditEvent.
Proof. solve_decision. Defined.

(** [#[repr(u16)]] and the discriminants. *)
Definition event_code (e : AuditEvent) : Z :=
  match e with
  | LogInitialised => 0x0000
  | CapabilityDerived => 0x0001
  | CapabilityExpired => 0x0002
  | ProcessCreated => 0x0100
  | ProcessExited => 0x0101
  | EipcSend => 0x0200
  | EipcReceive => 0x0201
  | SyscallDispatched => 0x0300
  | ScbaFenceFired => 0x0500
  | DriverLoaded => 0x0400
  | DriverFaultMmio => 0x0401
  | DriverFaultSyscall => 0x0402
  | DriverStopped => 0x0404
  | LatticeReconfigured => 0x0600
  | MemoryZeroed => 0x0700
  | BootComplete => 0xFF00
  end.

Definition event_name (e : AuditEvent) : string :=
  match e with
  | LogInitialised => "LogInit"
  | CapabilityDerived => "CapDerived"
  | CapabilityExpired => "CapExpired"
  | ProcessCreated => "ProcCreated"
  | ProcessExited => "ProcExited"
  | EipcSend => "EipcSend"
  | EipcReceive => "EipcRecv"
  | SyscallDispatched => "Syscall"
  | ScbaFenceFired => "ScbaFence"
  | DriverLoaded => "DrvLoaded"
  | DriverFaultMmio => "DrvFaultMmio"
  | DriverFaultSyscall => "DrvFaultSys"
  | DriverStopped => "DrvStopped"
  | LatticeReconfigured => "LatticeReconf"
  | MemoryZeroed => "MemZeroed"
  | BootComplete => "BootDone"
  end.

(** ** Entries *)

Record AuditEntry := mkAuditEntry {
  sequence : Z; timestamp : Z; event_type : AuditEvent; actor : Z;
  value_a : Z; value_b : Z; prev_hash : list Z; mac : list Z }.

#[global] Instance AuditEntry_eq_dec : EqDecision AuditEntry.
Proof. solve_decision. Defined.

Definition auth_bytes (e : AuditEntry) : list Z :=
  let b := replicate 80 0 in
  let b := splice 0 (le_bytes 8 (sequence e)) b in
  let b := splice 8 (le_bytes 8 (timestamp e)) b in
  let b := splice 16 (le_bytes 2 (event_code (event_type e))) b in
  let b := splice 24 (le_bytes 4 (actor e)) b in
  let b := splice 32 (le_bytes 8 (value_a e)) b in
  let b := splice 40 (le_bytes 8 (value_b e)) b in
  splice 48 (prev_hash e) b.

(** ** The log *)

Definition CAPACITY : nat := 64.

Record MealLog := mkMealLog {
  entries : list (option AuditEntry);
  write_head : nat;
  total : Z;
  chain_tip : list Z;
  audit_key : list Z;
}.

(** One line of [print_all]: sequence, timestamp, event name, actor,
    [value_a] and the first four bytes of the entry's hash. *)
Record LogLine := mkLogLine {
  ln_seq : Z; ln_time : Z; ln_event : string; ln_actor : Z; ln_val : Z; ln_chain : list Z }.

Definition K_AUDIT : list Z := be_bytes 32
  0xA1B2C3D4E5F60718293A4B5C6D7E8F90A1B2C3D4E5F60718293A4B5C6D7E8F90.

(** A call of [log] as the other components make it; their models return the
    calls they make in order. *)
Record Audit := mkAudit { au_event : AuditEvent; au_actor : Z; au_a : Z; au_b : Z }.

#[global] Instance Audit_eq_dec : EqDecision Audit.
Proof. solve_decision. Defined.

Section Operations.
Context `{Profile} `{HashOps}.

Definition self_hash (e : AuditEntry) : outcome (list Z) := h_sha256 (auth_bytes e).

Definition new (key : list Z) : outcome MealLog :=
  tip ← h_sha256 (bstr "AXIOM-MEAL-GENESIS-v4");
  Ret (mkMealLog (replicate CAPACITY None) 0 0 tip key).

Definition with_mac (e : AuditEntry) (m : list Z) : AuditEntry :=
  mkAuditEntry (sequence e) (timestamp e) (event_type e) (actor e) (value_a e) (value_b e)
    (prev_hash e) m.

Definition append (l : MealLog) (ticks : Z) (ev : AuditEvent) (actor a b : Z)
    : outcome (MealLog * Z) :=
  let seq := total l in
  let e := mkAuditEntry seq ticks ev actor a b (chain_tip l) (replicate 32 0) in
  m ← h_hmac_sha256 (audit_key l) (auth_bytes e);
  let e := with_mac e m in
  tip ← self_hash e;
  entries' ← store (entries l) (write_head l) (Some e);
  let head := ((write_head l + 1) mod CAPACITY)%nat in
  total' ← add 64 (total l) 1;
  Ret (mkMealLog entries' head total' tip (audit_key l), seq).

Definition verify_entry (l : MealLog) (e : AuditEntry) : outcome bool :=
  exp ← h_hmac_sha256 (audit_key l) (auth_bytes e);
  Ret (ct_diff 32 exp (mac e) =? 0).

(** The body of the loop of [verify_chain]: the state is [(prev, n)], an
    [inr] is the early return. *)
Definition verify_step (l : MealLog) (i : nat) (s : option (list Z) * nat)
    : outcome ((option (list Z) * nat) + (nat * bool)) :=
  let '(prev, n) := s in
  slot ← index (entries l) ((write_head l + i) mod CAPACITY)%nat;
  match slot with
  | None => Ret (inl (prev, n))
  | Some e =>
    ok ← verify_entry l e;
    if negb ok then Ret (inr (n, false)) else
    if (match prev with Some ph => negb (bool_decide (prev_hash e = ph)) | None => false end)
    then Ret (inr (n, false)) else
    h ← self_hash e;
    Ret (inl (Some h, S n))
  end.

Definition verify_chain (l : MealLog) : outcome (nat * bool) :=
  r ← loop_ret (seq 0 CAPACITY) (verify_step l) (None, 0%nat);
  match r with
  | inl (_, n) => Ret (n, true)
  | inr result => Ret result
  end.

Definition entry_count (l : MealLog) : Z := total l.

Definition print_step (l : MealLog) (i : nat) (out : list LogLine) : outcome (list LogLine) :=
  slot ← index (entries l) ((write_head l + i) mod CAPACITY)%nat;
  match slot with
  | None => Ret out
  | Some e =>
    h ← self_hash e;
    Ret (out ++ [mkLogLine (sequence e) (timestamp e) (event_name (event_type e))
                   (actor e) (value_a e) (take 4 h)])
  end.
Definition print_all (l : MealLog) : outcome (list LogLine) :=
  for_out 0 CAPACITY (print_step l) [].

(** The global instance behind its lock: [log] gives up when the lock is
    held (an interrupt arrived inside [append] or [print_all]). *)
Definition log (locked : bool) (meal : MealLog) (ticks : Z) (ev : AuditEvent) (actor a b : Z)
    : outcome MealLog :=
  if locked then Ret meal else
  '(meal', _) ← append meal ticks ev actor a b;
  Ret meal'.
End Operations.

(** ** Serialisation *)

Record wf_entry (e : AuditEntry) : Prop := {
  wf_seq : u64 (sequence e);
  wf_time : u64 (timestamp e);
  wf_actor : u32 (actor e);
  wf_a : u64 (value_a e);
  wf_b : u64 (value_b e);
  wf_prev : length (prev_hash e) = 32%nat;
  wf_mac : length (mac e) = 32%nat;
}.

Lemma entry_bytes_app e :
  length (prev_hash e) = 32%nat →
  auth_bytes e = le_bytes 8 (sequence e) ++ le_bytes 8 (timestamp e)
    ++ le_bytes 2 (event_code (event_type e)) ++ replicate 6 0 ++ le_bytes 4 (actor e)
    ++ replicate 4 0 ++ le_bytes 8 (value_a e) ++ le_bytes 8 (value_b e) ++ prev_hash e.
Proof.
  destruct e as [s t ev a va vb ph m]. simpl prev_hash. intros Hp.
  do 33 (destruct ph as [|? ph]; try discriminate). reflexivity.
Qed.

Lemma length_entry_bytes e : length (prev_hash e) = 32%nat → length (auth_bytes e) = 80%nat.
Proof.
  intros Hp. rewrite entry_bytes_app, !length_app, !length_le_bytes by done. simpl. lia.
Qed.

Lemma event_code_inj e e' : event_code e = event_code e' → e = e'.
Proof. by destruct e, e'. Qed.

Lemma event_code_range e : 0 <= event_code e < 256 ^ Z.of_nat 2.
Proof. by destruct e. Qed.

Lemma auth_bytes_inj e e' :
  wf_entry e → wf_entry e' → auth_bytes e = auth_bytes e' → mac e = mac e' → e = e'.
Proof.
  intros [] [] E Em. rewrite !entry_bytes_app in E by done.
  do 8 (apply app_inj_1 in E as [? E]; [|by rewrite ?length_le_bytes]).
  repeat match goal with
  | H : le_bytes _ _ = le_bytes _ _ |- _ =>
      apply le_bytes_inj in H; [|first [assumption|apply event_code_range]..]
  end.
  destruct e, e'; simpl in *. f_equal; auto using event_code_inj.
Qed.

(** ** Histories

    [chain_ok key prev es]: every entry's MAC is right and its link is the
    hash of the entry before it ([prev] for the first, when given). *)

Section Laws.
Context `{Profile} `{ops : HashOps} {laws : HashLaws ops}.

Definition hash_of (e : AuditEntry) : list Z := sha256_fn (auth_bytes e).
Definition authentic (key : list Z) (e : AuditEntry) : Prop := mac e = hmac_fn key (auth_bytes e).
Definition links (prev : option (list Z)) (e : AuditEntry) : Prop :=
  match prev with Some p => prev_hash e = p | None => True end.

Fixpoint chain_ok (key : list Z) (prev : option (list Z)) (es : list AuditEntry) : Prop :=
  match es with
  | [] => True
  | e :: es => authentic key e ∧ links prev e ∧ chain_ok key (Some (hash_of e)) es
  end.

#[local] Instance authentic_dec key e : Decision (authentic key e).
Proof. unfold authentic. apply _. Defined.
#[local] Instance links_dec prev e : Decision (links prev e).
Proof. destruct prev; simpl; apply _. Defined.

(** The hash the next entry must link to. *)
Definition tip (prev : option (list Z)) (es : list AuditEntry) : option (list Z) :=
  match last es with Some e => Some (hash_of e) | None => prev end.

Lemma chain_ok_app key prev a b :
  chain_ok key prev (a ++ b) ↔ chain_ok key prev a ∧ chain_ok key (tip prev a) b.
Proof.
  revert prev. induction a as [|e a IH]; intros prev; simpl; [tauto|].
  rewrite IH. replace (tip (Some (hash_of e)) a) with (tip prev (e :: a)) 
    by (unfold tip; rewrite last_cons; by destruct (last a)).
  tauto.
Qed.

Lemma chain_ok_None key prev es : chain_ok key prev es → chain_ok key None es.
Proof. destruct es; simpl; tauto. Qed.

(** What the log holds, oldest first. *)
Definition present (l : MealLog) : list AuditEntry :=
  omap id (unroll (write_head l) (entries l)).

Record wf_log (l : MealLog) : Prop := {
  wf_entries : length (entries l) = CAPACITY;
  wf_head : (write_head l < CAPACITY)%nat;
  wf_key : length (audit_key l) = 32%nat;
  wf_present : Forall wf_entry (present l);
}.

Definition check (l : MealLog) (e : AuditEntry) (s : option (list Z) * nat)
    : outcome ((option (list Z) * nat) + (nat * bool)) :=
  if decide (authentic (audit_key l) e ∧ links s.1 e)
  then Ret (inl (Some (hash_of e), S s.2)) else Ret (inr (s.2, false)).

Lemma self_hash_ok e : wf_entry e → self_hash e = Ret (hash_of e).
Proof. intros []. apply sha256_ret. rewrite length_entry_bytes by done. fits. Qed.

Lemma verify_entry_ok l e :
  wf_log l → wf_entry e → verify_entry l e = Ret (bool_decide (authentic (audit_key l) e)).
Proof.
  intros Hl He. destruct He. unfold verify_entry. rewrite hmac_ret, bind_Ret.
  - f_equal. apply eq_true_iff_eq. rewrite bool_decide_eq_true, ct_diff_eq by (done || apply length_hmac_fn).
    unfold authentic. split; congruence.
  - rewrite (wf_key l Hl). fits.
  - rewrite length_entry_bytes by done. fits.
Qed.

Lemma verify_step_slot l i x s :
  wf_log l → unroll (write_head l) (entries l) !! i = Some x →
  verify_step l i s = match x with None => Ret (inl s) | Some e => check l e s end.
Proof.
  intros Hl Hx. pose proof Hl as [Hlen Hh _ Hp]. destruct s as [prev n].
  pose proof (lookup_lt_Some _ _ _ Hx) as Hi. rewrite length_unroll in Hi.
  assert (entries l !! ((write_head l + i) mod CAPACITY)%nat = Some x) as Hs.
  { rewrite <-Hlen, <-unroll_lookup by (rewrite ?Hlen; done || lia). done. }
  unfold verify_step. rewrite (index_ok _ _ x), bind_Ret by done. destruct x as [e|]; [|done].
  assert (wf_entry e) as He.
  { rewrite Forall_forall in Hp. apply Hp. apply list_elem_of_omap. exists (Some e).
    split; [by eapply list_elem_of_lookup_2|done]. }
  rewrite verify_entry_ok, bind_Ret, self_hash_ok by done. unfold check. simpl fst. simpl snd.
  case_bool_decide as Ha; simpl negb; [|rewrite decide_False by (intros [??]; done); done].
  destruct prev as [p|]; simpl links.
  - case_bool_decide as Hp'; simpl negb; [by rewrite decide_True|rewrite decide_False by (intros [??]; done); done].
  - by rewrite decide_True.
Qed.

Lemma check_loop l es prev n :
  (chain_ok (audit_key l) prev es ∧
   ∃ p, loop_ret es (check l) (prev, n) = Ret (inl (p, (n + length es)%nat))) ∨
  (¬ chain_ok (audit_key l) prev es ∧
   ∃ m, loop_ret es (check l) (prev, n) = Ret (inr (m, false))).
Proof.
  revert prev n. induction es as [|e es IH]; intros prev n.
  - left. split; [done|]. exists prev. simpl. by rewrite Nat.add_0_r.
  - cbn [loop_ret chain_ok length].
    destruct (decide (authentic (audit_key l) e ∧ links prev e)) as [Hd|Hd].
    + assert (check l e (prev, n) = Ret (inl (Some (hash_of e), S n))) as ->
        by (unfold check; by rewrite decide_True).
      rewrite !bind_Ret. rewrite Nat.add_succ_r. destruct (IH (Some (hash_of e)) (S n)); tauto.
    + assert (check l e (prev, n) = Ret (inr (n, false))) as ->
        by (unfold check; by rewrite decide_False).
      right. split; [tauto|]. by exists n.
Qed.

Lemma verify_chain_ok l :
  wf_log l →
  (chain_ok (audit_key l) None (present l) ∧ verify_chain l = Ret (length (present l), true)) ∨
  (¬ chain_ok (audit_key l) None (present l) ∧ ∃ m, verify_chain l = Ret (m, false)).
Proof.
  intros Hl. unfold verify_chain.
  assert (loop_ret (seq 0 CAPACITY) (verify_step l) (None, 0%nat)
          = loop_ret (present l) (check l) (None, 0%nat)) as ->.
  { assert (CAPACITY = length (unroll (write_head l) (entries l))) as ->
      by (by rewrite length_unroll, (wf_entries l Hl)).
    rewrite (loop_ret_lookup _ _ (λ x s, match x with None => Ret (inl s) | Some e => check l e s end)).
    - by apply loop_ret_omap.
    - intros i x s. by apply verify_step_slot. }
  destruct (check_loop l (present l) None 0) as [[Hc [p ->]]|[Hc [m ->]]]; [left|right].
  - done.
  - split; [done|]. by exists m.
Qed.

(** The line printed for an entry. *)
Definition line_of (e : AuditEntry) : LogLine :=
  mkLogLine (sequence e) (timestamp e) (event_name (event_type e)) (actor e) (value_a e) (take 4 (hash_of e)).

(** One line per entry, oldest first. *)
Lemma print_all_ok l : wf_log l → print_all l = Ret (line_of <$> present l).
Proof.
  intros Hl. pose proof Hl as [Hlen Hh _ Hp]. set (u := unroll (write_head l) (entries l)).
  assert (length u = CAPACITY) as Hu by (unfold u; by rewrite length_unroll).
  unfold print_all.
  destruct (for_out_ind (λ i out, out = line_of <$> omap id (take i u)) 0 CAPACITY (print_step l) [])
    as (s & -> & ->); [lia|done| |by rewrite take_ge by lia].
  intros i out Hi ->. destruct (lookup_lt_is_Some_2 u i) as [x Hx]; [lia|].
  assert (entries l !! ((write_head l + i) mod CAPACITY)%nat = Some x) as Hs.
  { rewrite <-Hlen, <-unroll_lookup by (rewrite ?Hlen; done || lia). done. }
  unfold print_step. rewrite (index_ok _ _ x), bind_Ret by done.
  rewrite (take_S_r _ _ x), omap_app, fmap_app by done. destruct x as [e|]; eexists; cycle 1.
  { split; [done|]. simpl. by rewrite app_nil_r. }
  rewrite self_hash_ok, bind_Ret; [done|]. rewrite Forall_forall in Hp. apply Hp.
  apply list_elem_of_omap. exists (Some e). split; [by eapply list_elem_of_lookup_2|done].
Qed.

(** ** The invariant: the ring holds the newest part of a valid history *)

Definition genesis_msg : list Z := bstr "AXIOM-MEAL-GENESIS-v4".
Definition genesis : list Z := sha256_fn genesis_msg.

Definition window (hist : list AuditEntry) : list AuditEntry :=
  drop (length hist - CAPACITY) hist.

Record log_inv (l : MealLog) (hist : list AuditEntry) : Prop := {
  li_entries : length (entries l) = CAPACITY;
  li_head : write_head l = (length hist mod CAPACITY)%nat;
  li_key : length (audit_key l) = 32%nat;
  li_total : total l = Z.of_nat (length hist);
  li_ring : unroll (write_head l) (entries l)
    = replicate (CAPACITY - length hist) None ++ (Some <$> window hist);
  li_wf : Forall wf_entry hist;
  li_chain : chain_ok (audit_key l) (Some genesis) hist;
  li_tip : Some (chain_tip l) = tip (Some genesis) hist;
  li_seq i e : hist !! i = Some e → sequence e = Z.of_nat i;
}.

Lemma log_inv_present l hist : log_inv l hist → present l = window hist.
Proof.
  intros Hl. unfold present. rewrite (li_ring _ _ Hl), omap_app, omap_replicate_None.
  apply omap_fmap_Some.
Qed.

Lemma log_inv_wf l hist : log_inv l hist → wf_log l.
Proof.
  intros Hl. split; try apply Hl.
  - rewrite (li_head _ _ Hl). by apply Nat.mod_upper_bound.
  - rewrite (log_inv_present l hist) by done. apply Forall_drop, Hl.
Qed.

Lemma length_window hist : length (window hist) = Nat.min CAPACITY (length hist).
Proof. unfold window. rewrite length_drop. lia. Qed.

(** The tail of the reading order, with the new entry, is the new window. *)
Lemma window_push (hist : list AuditEntry) e :
  tail (replicate (CAPACITY - length hist) None ++ (Some <$> window hist)) ++ [Some e]
  = replicate (CAPACITY - length (hist ++ [e])) None ++ (Some <$> window (hist ++ [e])).
Proof.
  rewrite length_app. simpl length. unfold window. rewrite length_app. simpl length.
  destruct (decide (length hist < CAPACITY)%nat) as [Hlt|Hge].
  - replace (CAPACITY - length hist)%nat with (S (CAPACITY - (length hist + 1))) by lia.
    replace (length hist - CAPACITY)%nat with 0%nat by lia.
    replace (length hist + 1 - CAPACITY)%nat with 0%nat by lia.
    rewrite !drop_0, fmap_app. simpl. by rewrite <-(assoc_L (++)).
  - replace (CAPACITY - length hist)%nat with 0%nat by lia.
    replace (CAPACITY - (length hist + 1))%nat with 0%nat by lia.
    set (d := (length hist - CAPACITY)%nat).
    replace (length hist + 1 - CAPACITY)%nat with (S d) by lia. simpl replicate. rewrite !app_nil_l.
    destruct (lookup_lt_is_Some_2 hist d) as [y Hy]; [unfold d, CAPACITY in *; lia|].
    rewrite (drop_S hist y) by done. simpl tail.
    rewrite drop_app_le, fmap_app; [done|]. apply lookup_lt_Some in Hy. lia.
Qed.

Lemma new_inv key : length key = 32%nat →
  new key = Ret (mkMealLog (replicate CAPACITY None) 0 0 genesis key) ∧
  log_inv (mkMealLog (replicate CAPACITY None) 0 0 genesis key) [].
Proof.
  intros Hk. split; [unfold new; by rewrite sha256_ret|]. by split.
Qed.

Definition new_entry (l : MealLog) (ticks : Z) (ev : AuditEvent) (actor a b : Z) : AuditEntry :=
  let e := mkAuditEntry (total l) ticks ev actor a b (chain_tip l) (replicate 32 0) in
  with_mac e (hmac_fn (audit_key l) (auth_bytes e)).

Lemma li_tip_length l hist : log_inv l hist → length (chain_tip l) = 32%nat.
Proof.
  intros Hl. pose proof (li_tip _ _ Hl) as Ht. unfold tip in Ht.
  destruct (last hist); injection Ht as ->; apply length_sha256_fn.
Qed.

Lemma wf_new_entry l hist ticks ev actor a b :
  log_inv l hist → Z.of_nat (length hist) < 2 ^ 64 - 1 → u64 ticks → u32 actor → u64 a → u64 b →
  wf_entry (new_entry l ticks ev actor a b).
Proof.
  intros Hl Hn Ht Hac Ha Hb. split; cbn [new_entry with_mac sequence timestamp event_type
    Meal.actor value_a value_b prev_hash mac]; try done.
  - rewrite (li_total _ _ Hl). split; lia.
  - by eapply li_tip_length.
  - apply length_hmac_fn.
Qed.

Lemma append_ok l hist ticks ev actor a b :
  log_inv l hist → Z.of_nat (length hist) < 2 ^ 64 - 1 → u64 ticks → u32 actor → u64 a → u64 b →
  let e := new_entry l ticks ev actor a b in
  append l ticks ev actor a b
  = Ret (mkMealLog (<[write_head l := Some e]> (entries l)) ((write_head l + 1) mod CAPACITY)
           (total l + 1) (hash_of e) (audit_key l), total l).
Proof.
  intros Hl Hn Ht Hac Ha Hb e.
  assert (wf_entry e) as He by (by eapply wf_new_entry).
  unfold append. set (e0 := mkAuditEntry _ _ _ _ _ _ _ _).
  assert (length (prev_hash e0) = 32%nat) as Hp by (by eapply li_tip_length).
  rewrite hmac_ret, bind_Ret; [|rewrite (li_key _ _ Hl); fits|rewrite length_entry_bytes by done; fits].
  change (with_mac e0 _) with e. rewrite self_hash_ok, bind_Ret by done.
  rewrite store_ok, bind_Ret.
  - rewrite add_small, bind_Ret; [done|]. rewrite (li_total _ _ Hl). split; lia.
  - rewrite (li_entries _ _ Hl), (li_head _ _ Hl). by apply Nat.mod_upper_bound.
Qed.

Lemma append_inv l hist ticks ev actor a b :
  log_inv l hist → Z.of_nat (length hist) < 2 ^ 64 - 1 → u64 ticks → u32 actor → u64 a → u64 b →
  let e := new_entry l ticks ev actor a b in
  log_inv (mkMealLog (<[write_head l := Some e]> (entries l)) ((write_head l + 1) mod CAPACITY)
             (total l + 1) (hash_of e) (audit_key l)) (hist ++ [e]).
Proof.
  intros Hl Hn Ht Hac Ha Hb e.
  assert (wf_entry e) as He by (by eapply wf_new_entry).
  assert (write_head l < CAPACITY)%nat as Hh by apply (wf_head _ (log_inv_wf _ _ Hl)).
  split; cbn [entries write_head total chain_tip audit_key].
  - by rewrite length_insert, (li_entries _ _ Hl).
  - rewrite (li_head _ _ Hl), Nat.Div0.add_mod_idemp_l, length_app. done.
  - apply Hl.
  - rewrite (li_total _ _ Hl), length_app. simpl. lia.
  - rewrite Nat.add_1_r. rewrite <-(li_entries _ _ Hl) at 1.
    rewrite unroll_push by (by rewrite (li_entries _ _ Hl)).
    rewrite (li_ring _ _ Hl). apply window_push.
  - apply Forall_app. split; [apply Hl|by constructor].
  - apply chain_ok_app. split; [apply Hl|]. simpl. rewrite <-(li_tip _ _ Hl). by split.
  - unfold tip. by rewrite last_snoc.
  - intros i e' Hi. apply lookup_app_Some in Hi as [Hi|[Hge Hi]]; [by apply (li_seq _ _ Hl)|].
    apply list_lookup_singleton_Some in Hi as [Hi <-]. simpl. rewrite (li_total _ _ Hl). lia.
Qed.

(** ** Sequences of calls *)

(** The call that made an entry. *)
Definition audit_of (e : AuditEntry) : Audit := mkAudit (event_type e) (actor e) (value_a e) (value_b e).

Definition wf_audit (a : Audit) : Prop := u32 (au_actor a) ∧ u64 (au_a a) ∧ u64 (au_b a).

(** The calls of [log] in order, none of them finding the lock held; [clock]
    gives the tick counter at each call. *)
Fixpoint log_all (clock : nat → Z) (calls : list Audit) (l : MealLog) : outcome MealLog :=
  match calls with
  | [] => Ret l
  | a :: calls =>
    l ← log false l (clock (Z.to_nat (total l))) (au_event a) (au_actor a) (au_a a) (au_b a);
    log_all clock calls l
  end.

Lemma log_all_ok clock calls l hist :
  (∀ n, u64 (clock n)) → Forall wf_audit calls → log_inv l hist →
  Z.of_nat (length hist + length calls) < 2 ^ 64 →
  ∃ l' es, log_all clock calls l = Ret l' ∧ log_inv l' (hist ++ es) ∧ audit_of <$> es = calls ∧
    audit_key l' = audit_key l.
Proof.
  intros Hc. revert l hist. induction calls as [|a calls IH]; intros l hist Hw Hl Hn.
  - exists l, []. rewrite app_nil_r. done.
  - apply Forall_cons in Hw as [(Ha1 & Ha2 & Ha3) Hw]. cbn [length] in Hn.
    set (t := clock (Z.to_nat (total l))). set (e := new_entry l t (au_event a) (au_actor a) (au_a a) (au_b a)).
    assert (Z.of_nat (length hist) < 2 ^ 64 - 1) as Hlt by lia.
    pose proof (append_ok l hist t (au_event a) (au_actor a) (au_a a) (au_b a) Hl Hlt (Hc _) Ha1 Ha2 Ha3) as Ea.
    pose proof (append_inv l hist t (au_event a) (au_actor a) (au_a a) (au_b a) Hl Hlt (Hc _) Ha1 Ha2 Ha3) as Hi.
    destruct (IH _ _ Hw Hi) as (l' & es & El & Hinv & Hes & Hk); [rewrite length_app; simpl; lia|].
    exists l', (e :: es). cbn [log_all log]. fold t. rewrite Ea, !bind_Ret, El. split; [done|].
    split; [by rewrite <-(assoc_L (++)) in Hinv|]. split; [|done].
    rewrite fmap_cons, Hes. by destruct a.
Qed.

(** ** Pieces of a history *)

Lemma segment_chain_ok key prev hist n i :
  chain_ok key prev hist → chain_ok key None (take n (drop i hist)).
Proof.
  intros Hc. rewrite <-(take_drop i hist), chain_ok_app in Hc. destruct Hc as [_ Hc].
  rewrite <-(take_drop n (drop i hist)), chain_ok_app in Hc. by eapply chain_ok_None, Hc.
Qed.

(** The messages a history hashes. *)
Definition messages (hist : list AuditEntry) : list (list Z) :=
  genesis_msg :: (auth_bytes <$> hist).

Definition forged (key : list Z) (hist : list AuditEntry) (e : AuditEntry) : Prop :=
  authentic key e ∧ auth_bytes e ∉ auth_bytes <$> hist.

Definition collides (x y : list Z) : Prop := x ≠ y ∧ sha256_fn x = sha256_fn y.

(** An authentic entry whose serialisation was logged is the logged one. *)
Lemma logged_entry l hist e :
  log_inv l hist → wf_entry e → authentic (audit_key l) e →
  auth_bytes e ∈ auth_bytes <$> hist → ∃ i, hist !! i = Some e.
Proof.
  intros Hl He Ha (e' & E & Hin)%list_elem_of_fmap.
  apply list_elem_of_lookup in Hin as [i Hi].
  assert (wf_entry e') as He' by (pose proof (li_wf _ _ Hl) as Hw; by eapply Forall_lookup_1 in Hw).
  assert (authentic (audit_key l) e') as Ha'.
  { pose proof (li_chain _ _ Hl) as Hc. eapply (segment_chain_ok _ _ _ 1 i) in Hc.
    rewrite (drop_S hist e') in Hc by done. apply Hc. }
  exists i. rewrite Hi. f_equal. symmetry. apply auth_bytes_inj; [done..|].
  unfold authentic in *. congruence.
Qed.

(** The entry a logged entry links to. *)
Lemma link_of l hist i e :
  log_inv l hist → hist !! i = Some e →
  (i = 0%nat ∧ prev_hash e = genesis) ∨
  ∃ j e', i = S j ∧ hist !! j = Some e' ∧ prev_hash e = hash_of e'.
Proof.
  intros Hl Hi. pose proof (li_chain _ _ Hl) as Hc.
  rewrite <-(take_drop i hist), chain_ok_app, (drop_S hist e) in Hc by done.
  destruct Hc as (_ & _ & Hlk & _). unfold tip in Hlk. destruct i as [|j]; [by left|right].
  destruct (lookup_lt_is_Some_2 hist j) as [e' He']; [apply lookup_lt_Some in Hi; lia|].
  rewrite (take_S_r _ _ e'), last_snoc in Hlk by done. eauto.
Qed.

(** Without collisions, entries that link to one another and were logged are
    consecutive in the history. *)
Lemma linked_consecutive l hist e e' i j :
  log_inv l hist → hist !! i = Some e → hist !! j = Some e' → prev_hash e' = hash_of e →
  j = S i ∨ Exists (λ x, Exists (collides x) (messages hist)) (messages hist).
Proof.
  intros Hl Hi Hj Hp.
  assert (∀ k e, hist !! k = Some e → wf_entry e ∧ auth_bytes e ∈ messages hist) as Hk.
  { intros k e0 Hk. split; [pose proof (li_wf _ _ Hl) as Hw; by eapply Forall_lookup_1 in Hw|].
    right. apply list_elem_of_fmap. exists e0. split; [done|]. by eapply list_elem_of_lookup_2. }
  destruct (Hk i e Hi) as [He Hm].
  assert (∀ x, x ∈ messages hist → x ≠ auth_bytes e → sha256_fn x = hash_of e →
    Exists (λ x, Exists (collides x) (messages hist)) (messages hist)) as Hcoll.
  { intros x Hx Hne E. apply Exists_exists. exists x. split; [done|].
    apply Exists_exists. exists (auth_bytes e). done. }
  destruct (link_of l hist j e' Hl Hj) as [[-> Hg]|(k & e0 & -> & Hk0 & Hg)].
  - right. apply (Hcoll genesis_msg); [left| |unfold genesis in Hg; congruence].
    intros E. apply (f_equal length) in E. rewrite length_entry_bytes in E by apply He. discriminate E.
  - destruct (decide (auth_bytes e0 = auth_bytes e)) as [E|E].
    + left. f_equal. apply Nat2Z.inj. rewrite <-(li_seq _ _ Hl k e0), <-(li_seq _ _ Hl i e) by done.
      rewrite !entry_bytes_app in E by apply He || apply (Hk k e0 Hk0).
      apply app_inj_1 in E as [E _]; [|by rewrite !length_le_bytes].
      apply le_bytes_inj in E; [done|apply (Hk k e0 Hk0)|apply He].
    + right. apply (Hcoll (auth_bytes e0)); [apply (Hk k e0 Hk0)|done|unfold hash_of in *; congruence].
Qed.

Lemma accepted_segment l hist es :
  log_inv l hist → Forall wf_entry es → chain_ok (audit_key l) None es →
  (∃ i, es = take (length es) (drop i hist)) ∨
  Exists (forged (audit_key l) hist) es ∨
  Exists (λ x, Exists (collides x) (messages hist)) (messages hist).
Proof.
  intros Hl. induction es as [|e es IH]; intros Hw Hc; [left; by exists 0%nat|].
  inversion Hw as [|?? He Hw']; subst. destruct Hc as (Ha & _ & Hc).
  destruct (decide (auth_bytes e ∈ auth_bytes <$> hist)) as [Hin|Hin];
    [|right; left; by constructor].
  destruct (logged_entry l hist e) as [i Hi]; [done..|].
  destruct IH as [[j Hj]|[Hf|Hcol]]; [done|by eapply chain_ok_None| | |by do 2 right];
    [|right; left; by constructor].
  destruct es as [|e' es].
  - left. exists i. simpl. rewrite (drop_S hist e) by done. done.
  - assert (hist !! j = Some e') as Hj'.
    { apply (f_equal (λ l, l !! 0%nat)) in Hj. simpl in Hj.
      destruct (drop j hist) as [|x d] eqn:Hd; [done|]. simpl in Hj. injection Hj as ->.
      apply (f_equal (λ l, l !! 0%nat)) in Hd. by rewrite lookup_drop, Nat.add_0_r in Hd. }
    destruct Hc as (_ & Hlk & _).
    destruct (linked_consecutive l hist e e' i j) as [->|Hcol]; [done..| |by do 2 right].
    left. exists i. rewrite (drop_S hist e) by done. simpl length. cbn [take]. f_equal. done.
Qed.
End Laws.

(** ** Properties *)

(** The log with its newest slot cleared. *)
Definition erase_newest (l : MealLog) : MealLog :=
  mkMealLog (<[((write_head l + (CAPACITY - 1)) mod CAPACITY)%nat := None]> (entries l))
    (write_head l) (total l) (chain_tip l) (audit_key l).

Lemma present_erase_newest `{ops : HashOps} {laws : HashLaws ops} l hist e :
  log_inv l (hist ++ [e]) →
  present (erase_newest l)
  = take (length (window (hist ++ [e])) - 1) (window (hist ++ [e])).
Proof.
  intros Hl. pose proof (log_inv_wf _ _ Hl) as [Hlen Hh _ _].
  unfold present, erase_newest. cbn [entries write_head]. rewrite <-Hlen at 2.
  rewrite unroll_insert by (rewrite Hlen; unfold CAPACITY in *; lia).
  rewrite (li_ring _ _ Hl). set (w := window (hist ++ [e])).
  assert (∃ w0, w = w0 ++ [e]) as [w0 Hw].
  { unfold w, window. exists (drop (length (hist ++ [e]) - CAPACITY) hist).
    rewrite drop_app_le; [done|]. rewrite length_app. unfold CAPACITY. simpl. lia. }
  assert (length w = Nat.min CAPACITY (length (hist ++ [e]))) as Hlw by apply length_window.
  clearbody w. subst w. rewrite (length_app w0), (length_app hist) in *. simpl length in *.
  rewrite Nat.add_sub, take_app_length. rewrite fmap_app.
  rewrite (assoc_L (++)). rewrite insert_app_r_alt.
  - rewrite length_app, length_replicate, length_fmap.
    replace (CAPACITY - 1 - _)%nat with 0%nat by (unfold CAPACITY in *; lia). simpl.
    rewrite !omap_app, omap_replicate_None, omap_fmap_Some. simpl. by rewrite app_nil_r.
  - rewrite length_app, length_replicate, length_fmap. unfold CAPACITY in *. lia.
Qed.

Section Theorems.
Context `{Profile} `{ops : HashOps} {laws : HashLaws ops}.

(** C20: [append] on a log that represents a history returns the number of
    entries logged before as the sequence number, never panics, and the new
    log represents the history with one more entry: the event and arguments
    given, numbered, authenticated, linked to its predecessor; the ring
    keeps the newest 64. *)
Theorem append_refines l hist ticks ev actor a b :
  log_inv l hist → Z.of_nat (length hist) < 2 ^ 64 - 1 → u64 ticks → u32 actor → u64 a → u64 b →
  ∃ l' e, append l ticks ev actor a b = Ret (l', Z.of_nat (length hist)) ∧
    log_inv l' (hist ++ [e]) ∧ event_type e = ev ∧ timestamp e = ticks ∧ Meal.actor e = actor ∧
    value_a e = a ∧ value_b e = b ∧ present l' = window (hist ++ [e]) ∧
    audit_key l' = audit_key l.
Proof.
  intros Hl Hn Ht Hac Ha Hb. rewrite (append_ok l hist) by done. rewrite <-(li_total _ _ Hl).
  pose proof (append_inv l hist ticks ev actor a b Hl Hn Ht Hac Ha Hb) as Hi.
  eexists _, _. split; [reflexivity|]. split; [exact Hi|]. do 5 (split; [done|]).
  split; [by apply log_inv_present|done].
Qed.

(** [verify_chain] accepts every log built by [append], with the number
    of entries the ring holds. *)
Theorem verify_chain_complete l hist :
  log_inv l hist → verify_chain l = Ret (Nat.min CAPACITY (length hist), true).
Proof.
  intros Hl. rewrite <-length_window, <-(log_inv_present l hist) by done.
  destruct (verify_chain_ok l) as [[_ ->]|[Hno _]]; [by eapply log_inv_wf|done|].
  destruct Hno. rewrite (log_inv_present l hist) by done. unfold window.
  rewrite <-(firstn_all (drop _ hist)). by eapply segment_chain_ok, li_chain.
Qed.

(** C2: tamper evidence: whatever the slots of a log were overwritten with,
    if [verify_chain] accepts, what the log holds is a contiguous piece of
    the history in the original order with the original contents (nothing
    altered, inserted, reordered or removed from the middle), or it contains
    an entry with a valid MAC that was never logged (an HMAC forgery), or
    two different messages of the log have the same SHA-256. *)
Theorem verify_chain_tamper_evident l hist l' n :
  log_inv l hist → wf_log l' → audit_key l' = audit_key l → verify_chain l' = Ret (n, true) →
  n = length (present l') ∧
  ((∃ i, present l' = take n (drop i hist)) ∨
   Exists (forged (audit_key l) hist) (present l') ∨
   Exists (λ x, Exists (collides x) (messages hist)) (messages hist)).
Proof.
  intros Hl Hw' Hk Hv. destruct (verify_chain_ok l') as [[Hc Hv']|[_ [m Hm]]]; [done| |congruence].
  assert (n = length (present l')) as -> by congruence. split; [done|]. rewrite Hk in Hc.
  apply accepted_segment; [done|apply Hw'|done].
Qed.

(** what tamper evidence does not cover: clearing the newest slot of a
    log leaves a log that [verify_chain] accepts, one entry shorter; the
    counter [total] and [chain_tip], which still describe the removed entry,
    are not consulted. *)
Theorem newest_entry_deletable l hist e :
  log_inv l (hist ++ [e]) →
  verify_chain (erase_newest l)
  = Ret ((Nat.min CAPACITY (length (hist ++ [e])) - 1)%nat, true).
Proof.
  intros Hl. pose proof (log_inv_wf _ _ Hl) as [Hlen Hh Hkey Hp].
  pose proof (present_erase_newest l hist e Hl) as He.
  assert (Forall wf_entry (present (erase_newest l))) as Hpw.
  { rewrite He, <-(log_inv_present l) by done. by apply Forall_take. }
  destruct (verify_chain_ok (erase_newest l)) as [[_ ->]|[Hno _]].
  - split; [unfold erase_newest; cbn [entries]; by rewrite length_insert|done..].
  - rewrite He, length_take, <-length_window. do 2 f_equal. lia.
  - destruct Hno. rewrite He. apply (segment_chain_ok _ (Some genesis)), (li_chain _ _ Hl).
Qed.

(** an event logged while the lock is held (by the code the interrupt
    preempted) is dropped and the log is unchanged; otherwise [log] is
    [append]. *)
Theorem log_try_lock meal hist ticks ev actor a b :
  log_inv meal hist → Z.of_nat (length hist) < 2 ^ 64 - 1 → u64 ticks → u32 actor → u64 a → u64 b →
  log true meal ticks ev actor a b = Ret meal ∧
  ∃ meal' e, log false meal ticks ev actor a b = Ret meal' ∧ log_inv meal' (hist ++ [e]) ∧
    event_type e = ev.
Proof.
  intros Hl Hn Ht Hac Ha Hb. split; [done|]. unfold log. rewrite (append_ok meal hist) by done.
  eexists _, _. split; [reflexivity|]. split; [by apply append_inv|done].
Qed.
End Theorems.

(** ** Witnesses: the log after its first event *)

Definition empty_log : MealLog :=
  mkMealLog (replicate CAPACITY None) 0 0 (@genesis (@crypto_ops dev_profile) (@crypto_laws dev_profile))
    K_AUDIT.
Definition first_entry : AuditEntry :=
  @new_entry (@crypto_ops dev_profile) (@crypto_laws dev_profile) empty_log 3 LogInitialised 0 0 0.
Definition first_log : MealLog :=
  mkMealLog (<[0%nat := Some first_entry]> (replicate CAPACITY None)) 1 1
    (@hash_of (@crypto_ops dev_profile) (@crypto_laws dev_profile) first_entry) K_AUDIT.

Lemma empty_log_inv : @log_inv _ (@crypto_laws dev_profile) empty_log [].
Proof. by apply new_inv. Qed.

Lemma first_log_inv : @log_inv _ (@crypto_laws dev_profile) first_log [first_entry].
Proof. by apply (append_inv empty_log [] 3 LogInitialised 0 0 0 empty_log_inv). Qed.

Lemma first_log_verifies : @verify_chain (@crypto_ops dev_profile) first_log = Ret (1%nat, true).
Proof.
  destruct (verify_chain_ok (laws := @crypto_laws dev_profile) first_log (log_inv_wf _ _ first_log_inv))
    as [[_ ->]|[Hno _]].
  - by rewrite (log_inv_present _ _ first_log_inv), length_window.
  - destruct Hno. rewrite (log_inv_present _ _ first_log_inv).
    change (window [first_entry]) with (take 1 (drop 0 [first_entry])).
    exact (segment_chain_ok _ _ _ 1 0 (li_chain _ _ first_log_inv)).
Qed.

Lemma append_refines_witness :
  ∃ l' e, @append dev_profile (@crypto_ops dev_profile) empty_log 3 BootComplete 0 1 2
          = Ret (l', Z.of_nat (length (@nil AuditEntry))) ∧
    @log_inv _ (@crypto_laws dev_profile) l' ([] ++ [e]) ∧ event_type e = BootComplete ∧
    timestamp e = 3 ∧ actor e = 0 ∧ value_a e = 1 ∧ value_b e = 2 ∧
    present l' = window ([] ++ [e]) ∧ audit_key l' = audit_key empty_log.
Proof.
  apply (@append_refines dev_profile _ (@crypto_laws dev_profile) empty_log []);
    [apply empty_log_inv|done..].
Defined.

Lemma verify_chain_complete_witness :
  @verify_chain (@crypto_ops dev_profile) first_log
  = Ret (Nat.min CAPACITY (length [first_entry]), true).
Proof.
  apply (@verify_chain_complete _ (@crypto_laws dev_profile) first_log [first_entry] first_log_inv).
Defined.

Lemma verify_chain_tamper_evident_witness :
  1%nat = length (present first_log) ∧
  ((∃ i, present first_log = take 1 (drop i [first_entry])) ∨
   Exists (@forged _ (@crypto_laws dev_profile) (audit_key first_log) [first_entry])
     (present first_log) ∨
   Exists (λ x, Exists (@collides _ (@crypto_laws dev_profile) x) (messages [first_entry]))
     (messages [first_entry])).
Proof.
  apply (@verify_chain_tamper_evident _ (@crypto_laws dev_profile) first_log [first_entry]
           first_log 1); [apply first_log_inv|eapply log_inv_wf, first_log_inv|done|].
  apply first_log_verifies.
Defined.

Lemma newest_entry_deletable_witness :
  @verify_chain (@crypto_ops dev_profile) (erase_newest first_log) = Ret (0%nat, true).
Proof.
  apply (@newest_entry_deletable _ (@crypto_laws dev_profile) first_log [] first_entry
           first_log_inv).
Defined.

Lemma log_try_lock_witness :
  @log dev_profile (@crypto_ops dev_profile) true empty_log 3 EipcSend 1 2 3 = Ret empty_log ∧
  ∃ meal' e, @log dev_profile (@crypto_ops dev_profile) false empty_log 3 EipcSend 1 2 3 = Ret meal' ∧
    @log_inv _ (@crypto_laws dev_profile) meal' ([] ++ [e]) ∧ event_type e = EipcSend.
Proof.
  apply (@log_try_lock dev_profile _ (@crypto_laws dev_profile) empty_log []);
    [apply empty_log_inv|done..].
Defined.
