(* ===== verification/Text.v ===== *)
(** * Formatted text and the serial port

    Model of what the kernel uses of [core::fmt] (decimal, hexadecimal and
    binary numbers with and without prefix, padding, booleans) and of
    [_print], [serial_print!] and [serial_println!] of
    [kernel/src/serial.rs].  Text is its UTF-8 bytes.  The driver behind
    [SERIAL1] is the uart_16550 crate: the class [Uart] says which bytes it
    puts on the line for a byte it is given.

    Shown here: numbers are read back from their digits, whatever the
    padding; text without the two erase characters arrives unchanged. *)

From S2P Require Import Prelude.
From Stdlib Require Import ZArith Lia.
From stdpp Require Import base numbers list strings.
#[local] Open Scope Z_scope.

Abbreviation text := (list Z).

(** ** Numbers *)

(** The digits of [n], most significant first. *)
Fixpoint num (base : Z) (fuel : nat) (n : Z) : list Z :=
  match fuel with
  | O => []
  | S fuel => if n <? base then [n] else num base fuel (n / base) ++ [n mod base]
  end.

Definition digits (base n : Z) : list Z := num base (S (Z.to_nat (Z.log2 n))) n.

Definition digit (d : Z) : Z := if d <? 10 then 48 + d else 87 + d.
Definition upper_digit (d : Z) : Z := if d <? 10 then 48 + d else 55 + d.

(** [{}], [{:x}], [{:X}] and [{:b}] of an unsigned number. *)
Definition dec (n : Z) : text := digit <$> digits 10 n.
Definition hex (n : Z) : text := digit <$> digits 16 n.
Definition upper_hex (n : Z) : text := upper_digit <$> digits 16 n.
Definition bin (n : Z) : text := digit <$> digits 2 n.

(** [{}] of a signed number. *)
Definition sdec (n : Z) : text := if n <? 0 then bstr "-" ++ dec (- n) else dec n.

(** [{:0k}] and [{:<k}]. *)
Definition zeros (k : nat) (t : text) : text := replicate (k - length t) 48 ++ t.
Definition left_in (k : nat) (t : text) : text := t ++ replicate (k - length t) 32.

(** [{:#x}], [{:#04x}] and [{:#07b}]: the width counts the prefix. *)
Definition xhex (n : Z) : text := bstr "0x" ++ hex n.
Definition xhex_in (k : nat) (n : Z) : text := bstr "0x" ++ zeros (k - 2) (hex n).
Definition xbin_in (k : nat) (n : Z) : text := bstr "0b" ++ zeros (k - 2) (bin n).

(** [{:02x}] of one byte after the other. *)
Definition hex_bytes (l : list Z) : text := l ≫= λ b, zeros 2 (hex b).

Definition show_bool (b : bool) : text := if b then bstr "true" else bstr "false".

(** ** Reading numbers *)

Definition undigit (c : Z) : Z := if c <? 58 then c - 48 else c - 87.
Definition value (base : Z) (l : list Z) : Z := foldl (λ a d, a * base + d) 0 l.
Definition read_num (base : Z) (t : text) : Z := value base (undigit <$> t).

(** ** The serial port *)

(** uart_16550: backspace and delete are sent as an erase sequence, every
    other byte as it is. *)
Class Uart := {
  uart_send : Z → list Z;
  uart_plain b : b ≠ 8 → b ≠ 0x7F → uart_send b = [b] }.

Section Serial.
Context `{Uart}.

(** The bytes sent so far, and the text printed next. *)
Definition _print (args : text) (sent : list Z) : list Z := sent ++ (args ≫= uart_send).
Definition serial_print (args : text) : list Z → list Z := _print args.
Definition serial_println (args : text) : list Z → list Z := serial_print (args ++ [10]).

(** Several lines, one after the other. *)
Definition println_all (lines : list text) (sent : list Z) : list Z :=
  foldl (λ sent line, serial_println line sent) sent lines.

Definition plain (b : Z) : Prop := b ≠ 8 ∧ b ≠ 0x7F.
#[global] Instance plain_dec b : Decision (plain b).
Proof. unfold plain. apply _. Defined.

Lemma send_plain t : Forall plain t → t ≫= uart_send = t.
Proof. induction 1 as [|b t [H1 H2] Ht IH]; [done|]. cbn [mbind list_bind]. by rewrite uart_plain, IH. Qed.

Lemma println_plain t sent : Forall plain t → serial_println t sent = sent ++ t ++ [10].
Proof.
  intros Ht. unfold serial_println, serial_print, _print. rewrite send_plain; [done|].
  apply Forall_app. split; [done|]. by apply Forall_singleton.
Qed.

(** What a sequence of lines looks like at the other end. *)
Definition unlines (lines : list text) : text := lines ≫= λ l, l ++ [10].

Lemma println_all_plain lines sent :
  Forall (Forall plain) lines → println_all lines sent = sent ++ unlines lines.
Proof.
  intros Hl. revert sent. induction Hl as [|l lines Hp Hl IH]; intros sent; cbn [println_all foldl].
  - by rewrite app_nil_r.
  - fold (println_all lines (serial_println l sent)). rewrite IH, println_plain by done.
    cbn [unlines mbind list_bind]. by rewrite <-!(assoc_L (++)).
Qed.
End Serial.

(** A driver with the documented behaviour. *)
Definition plain_send (b : Z) : list Z := if (b =? 8) || (b =? 0x7F) then [8; 32; 8] else [b].

Lemma plain_send_plain b : b ≠ 8 → b ≠ 0x7F → plain_send b = [b].
Proof. intros H1 H2. unfold plain_send. by rewrite (proj2 (Z.eqb_neq _ _) H1), (proj2 (Z.eqb_neq _ _) H2). Qed.

Definition plain_uart : Uart := {| uart_send := plain_send; uart_plain := plain_send_plain |}.

(** ** Round trips *)

Lemma value_app base a b : value base (a ++ b) = foldl (λ a d, a * base + d) (value base a) b.
Proof. apply foldl_app. Qed.

Lemma value_num base fuel n : 2 <= base → 0 <= n < base ^ Z.of_nat fuel → value base (num base fuel n) = n.
Proof.
  intros Hb. revert n. induction fuel as [|fuel IH]; intros n Hn; cbn [num].
  - cbn in Hn. cbn. lia.
  - destruct (Z.ltb_spec n base); [done|]. rewrite value_app, IH.
    + cbn [foldl]. pose proof (Z.div_mod n base). lia.
    + split; [apply Z.div_pos; lia|]. apply Z.div_lt_upper_bound; [lia|].
      rewrite Nat2Z.inj_succ, Z.pow_succ_r in Hn by lia. lia.
Qed.

Lemma digits_fuel base n : 2 <= base → 0 <= n → n < base ^ Z.of_nat (S (Z.to_nat (Z.log2 n))).
Proof.
  intros Hb Hn. pose proof (Z.log2_nonneg n). rewrite Nat2Z.inj_succ, Z2Nat.id by done.
  destruct (Z.eq_dec n 0) as [->|Hne]; [apply Z.pow_pos_nonneg; cbn; lia|].
  pose proof (Z.log2_spec n ltac:(lia)) as [_ Hl]. eapply Z.lt_le_trans; [exact Hl|].
  apply Z.pow_le_mono_l. lia.
Qed.

Lemma value_digits base n : 2 <= base → 0 <= n → value base (digits base n) = n.
Proof. intros Hb Hn. apply value_num; [done|]. split; [done|]. by apply digits_fuel. Qed.

Lemma num_range base fuel n : 2 <= base → 0 <= n → Forall (λ d, 0 <= d < base) (num base fuel n).
Proof.
  intros Hb. revert n. induction fuel as [|fuel IH]; intros n Hn; cbn [num]; [done|].
  destruct (Z.ltb_spec n base); [by apply Forall_singleton|]. apply Forall_app. split.
  - apply IH. apply Z.div_pos; lia.
  - apply Forall_singleton, Z.mod_pos_bound. lia.
Qed.

Lemma digits_range base n : 2 <= base → 0 <= n → Forall (λ d, 0 <= d < base) (digits base n).
Proof. apply num_range. Qed.

Lemma digits_nonempty base n : digits base n ≠ [].
Proof. unfold digits. cbn [num]. destruct (_ <? _); [done|]. by intros [_ ?]%app_eq_nil. Qed.

Lemma undigit_digit d : 0 <= d < 16 → undigit (digit d) = d.
Proof.
  intros Hd. unfold undigit, digit. destruct (Z.ltb_spec d 10).
  - rewrite (proj2 (Z.ltb_lt _ _)) by lia. lia.
  - rewrite (proj2 (Z.ltb_ge _ _)) by lia. lia.
Qed.

Lemma undigits_digits l : Forall (λ d, 0 <= d < 16) l → undigit <$> (digit <$> l) = l.
Proof. induction 1 as [|d l Hd _ IH]; [done|]. cbn. by rewrite undigit_digit, IH. Qed.

Lemma value_zeros base k l : value base (replicate k 0 ++ l) = value base l.
Proof. rewrite value_app. f_equal. induction k; [done|]. exact IHk. Qed.

(** Padding does not change the value read. *)
Lemma read_zeros base k t : read_num base (zeros k t) = read_num base t.
Proof.
  unfold read_num, zeros. rewrite fmap_app, fmap_replicate. apply value_zeros.
Qed.

Lemma read_dec n : 0 <= n → read_num 10 (dec n) = n.
Proof.
  intros Hn. unfold read_num, dec. rewrite undigits_digits; [by apply value_digits|].
  eapply Forall_impl; [by apply digits_range|]. intros d Hd. cbn in Hd. lia.
Qed.

Lemma read_hex n : 0 <= n → read_num 16 (hex n) = n.
Proof.
  intros Hn. unfold read_num, hex. rewrite undigits_digits; [by apply value_digits|]. by apply digits_range.
Qed.

(** ** Character classes *)

Definition is_digit (c : Z) : bool := (48 <=? c) && (c <=? 57).
Definition is_hex (c : Z) : bool := is_digit c || (97 <=? c) && (c <=? 102).
Definition is_space (c : Z) : bool := (c =? 32) || (9 <=? c) && (c <=? 13) || (28 <=? c) && (c <=? 31).
Definition is_word (c : Z) : bool :=
  is_digit c || (65 <=? c) && (c <=? 90) || (97 <=? c) && (c <=? 122) || (c =? 95).

Lemma digit_is_digit d : 0 <= d < 10 → is_digit (digit d) = true.
Proof. intros Hd. unfold is_digit, digit. rewrite (proj2 (Z.ltb_lt d 10)) by lia. lia. Qed.

Lemma digit_is_hex d : 0 <= d < 16 → is_hex (digit d) = true.
Proof. intros Hd. unfold is_hex, is_digit, digit. destruct (Z.ltb_spec d 10); lia. Qed.

Lemma zeros_all (P : Z → Prop) k t : P 48 → Forall P t → Forall P (zeros k t).
Proof. intros H0 Ht. apply Forall_app. split; [by apply Forall_replicate|done]. Qed.

Lemma dec_digits n : 0 <= n → Forall (λ c, is_digit c = true) (dec n).
Proof.
  intros Hn. apply Forall_fmap. eapply Forall_impl; [by apply (digits_range 10)|]. intros d. apply digit_is_digit.
Qed.

Lemma hex_digits n : 0 <= n → Forall (λ c, is_hex c = true) (hex n).
Proof.
  intros Hn. apply Forall_fmap. eapply Forall_impl; [by apply (digits_range 16)|]. intros d. apply digit_is_hex.
Qed.

Lemma dec_nonempty n : dec n ≠ [].
Proof. unfold dec. intros E%fmap_nil_inv. by apply digits_nonempty in E. Qed.

Lemma zeros_nonempty k t : t ≠ [] → zeros k t ≠ [].
Proof. unfold zeros. by intros Ht [_ ?]%app_eq_nil. Qed.

Lemma hex_bytes_hex l : bytes l → Forall (λ c, is_hex c = true) (hex_bytes l).
Proof.
  induction 1 as [|b l [Hb _] Hl IH]; [done|]. cbn. apply Forall_app. split; [|done].
  apply zeros_all; [done|by apply hex_digits].
Qed.

(** A repetition of [cls] ends here. *)
Definition stops (cls : Z → bool) (inp : text) : Prop :=
  match inp with [] => True | c :: _ => cls c = false end.

Abbreviation all cls w := (Forall (λ c, cls c = true) w).

Lemma stops_app cls (w rest : text) : w ≠ [] → Forall (λ c, cls c = false) w → stops cls (w ++ rest).
Proof. intros Hn Hw. destruct Hw; [done|]. done. Qed.
