(* ===== verification/Persist.v ===== *)
(** * The audit log outside the kernel

    Model of the lines [print_all] of [kernel/src/meal.rs] writes to the
    serial port and of the host script [scripts/meal_persist.py] that
    collects them: the regular expression it searches in every line of the
    captured output, the store it accumulates boots in, and its check of the
    sequence numbers.  The captured output is ASCII where it matters: the
    character classes and line breaks of Python are modelled for ASCII.
    The store's file and what the script prints are in [Collector]; running
    the kernel is left out.

    Shown here: what the script reads is what the kernel logged, entry by
    entry; stored boots get consecutive numbers and pass the check as long
    as no boot logged more entries than the ring holds. *)

From S2P Require Import Prelude Interfaces Crypto Meal Text.
From Stdlib Require Import ZArith Lia.
From stdpp Require Import base numbers list strings.
#[local] Open Scope Z_scope.

(** ** The printed lines *)

Definition line_text (ln : LogLine) : text :=
  bstr "  [" ++ zeros 2 (dec (ln_seq ln)) ++ bstr "] t=" ++ zeros 4 (dec (ln_time ln)) ++ bstr "  "
  ++ left_in 12 (bstr (ln_event ln)) ++ bstr "  actor=" ++ dec (ln_actor ln)
  ++ bstr "  val=" ++ left_in 8 (dec (ln_val ln)) ++ bstr "  chain=" ++ hex_bytes (ln_chain ln) ++ bstr "...".

(** [print_all] with its output. *)
Definition print_all_text `{HashOps} `{Uart} (l : MealLog) (sent : list Z) : outcome (list Z) :=
  lines ← print_all l;
  Ret (println_all (line_text <$> lines) sent).

(** ** Regular expressions

    Sequences of literals and greedy repetitions of a character class,
    matched with backtracking; [Group] repeats at least once and captures. *)

Inductive Item := Lit (s : text) | Star (cls : Z → bool) | Plus (cls : Z → bool) | Group (cls : Z → bool).

(** The longest run of the class first, then shorter ones. *)
Fixpoint many {R} (cls : Z → bool) (k : text → text → option R) (acc inp : text) : option R :=
  match inp with
  | c :: inp' =>
    if cls c then match many cls k (c :: acc) inp' with Some r => Some r | None => k acc inp end
    else k acc inp
  | [] => k acc []
  end.

Fixpoint match_here (re : list Item) (inp : text) : option (list text) :=
  match re with
  | [] => Some []
  | Lit s :: re => if bool_decide (s `prefix_of` inp) then match_here re (drop (length s) inp) else None
  | Star cls :: re => many cls (λ _ inp, match_here re inp) [] inp
  | Plus cls :: re => many cls (λ acc inp, if bool_decide (acc = []) then None else match_here re inp) [] inp
  | Group cls :: re =>
    many cls (λ acc inp, if bool_decide (acc = []) then None else cons (reverse acc) <$> match_here re inp) [] inp
  end.

(** [pat.search(line)]: the leftmost match. *)
Fixpoint search (re : list Item) (inp : text) : option (list text) :=
  match match_here re inp with
  | Some g => Some g
  | None => match inp with [] => None | _ :: inp => search re inp end
  end.

(** ** The script *)

Definition is_break (c : Z) : bool := (10 <=? c) && (c <=? 13) || (28 <=? c) && (c <=? 30).

Fixpoint lines_from (cur inp : text) : list text :=
  match inp with
  | [] => match cur with [] => [] | _ => [cur] end
  | c :: inp =>
    if is_break c then
      cur :: match inp with
             | d :: inp' => if (c =? 13) && (d =? 10) then lines_from [] inp' else lines_from [] inp
             | [] => []
             end
    else lines_from (cur ++ [c]) inp
  end.

Definition splitlines (t : text) : list text := lines_from [] t.

Definition pat : list Item :=
  [Star is_space; Lit (bstr "["); Group is_digit; Lit (bstr "]"); Plus is_space; Lit (bstr "t="); Group is_digit;
   Plus is_space; Group is_word; Plus is_space; Lit (bstr "actor="); Group is_digit;
   Plus is_space; Lit (bstr "val="); Group is_digit; Plus is_space; Lit (bstr "chain="); Group is_hex].

Record PyEntry := mkPyEntry {
  e_seq : Z; e_tick : Z; e_event : text; e_actor : Z; e_value : Z; e_chain : text }.

#[global] Instance PyEntry_eq_dec : EqDecision PyEntry.
Proof. solve_decision. Defined.

Definition entry_of_groups (g : list text) : option PyEntry :=
  match g with
  | [seq; t; name; actor; val; chain] =>
    Some (mkPyEntry (read_num 10 seq) (read_num 10 t) name (read_num 10 actor) (read_num 10 val) chain)
  | _ => None
  end.

Definition parse_meal_entries (log : text) : list PyEntry :=
  omap (λ line, search pat line ≫= entry_of_groups) (splitlines log).

Record PyBoot := mkPyBoot { b_boot : Z; b_entries : list PyEntry; b_count : Z }.
Record Stored := mkStored { global_seq : Z; s_boot : Z; s_entry : PyEntry }.
Record Store := mkStore { boots : list PyBoot; all_entries : list Stored }.

Definition empty_store : Store := mkStore [] [].

(** [save_cmd] on the captured log; [None]: no entries were found. *)
Definition save_cmd (log : text) (store : Store) : option Store :=
  let entries := parse_meal_entries log in
  match entries with
  | [] => None
  | _ =>
    let bn := Z.of_nat (length (boots store)) + 1 in
    let base := Z.of_nat (length (all_entries store)) in
    Some (mkStore (boots store ++ [mkPyBoot bn entries (Z.of_nat (length entries))])
            (all_entries store ++ ((λ e, mkStored (base + e_seq e) bn e) <$> entries)))
  end.

(** [verify_cmd]'s verdict; [None]: there is nothing to verify. *)
Definition seqs_ok (b : PyBoot) : bool :=
  bool_decide (e_seq <$> b_entries b = Z.of_nat <$> seq 0 (length (b_entries b))).
Definition verify_cmd (store : Store) : option bool :=
  match boots store with
  | [] => None
  | _ => Some (forallb seqs_ok (boots store))
  end.

(** ** Matching *)

Lemma many_ok {R} cls (k : text → text → option R) w rest acc r :
  all cls w → stops cls rest → k (reverse w ++ acc) rest = Some r → many cls k acc (w ++ rest) = Some r.
Proof.
  intros Hw Hs. revert acc. induction Hw as [|c w Hc Hw IH]; intros acc Hk.
  - destruct rest as [|c rest]; [done|]. cbn in Hs. cbn [app many]. by rewrite Hs.
  - cbn [app many]. rewrite Hc, IH; [done|]. by rewrite reverse_cons, <-(assoc_L (++)) in Hk.
Qed.

Lemma match_lit s re rest g : match_here re rest = Some g → match_here (Lit s :: re) (s ++ rest) = Some g.
Proof.
  intros Hg. cbn [match_here]. rewrite bool_decide_eq_true_2 by (by apply prefix_app_r). by rewrite drop_app_length.
Qed.

Lemma match_star cls re w rest g :
  all cls w → stops cls rest → match_here re rest = Some g → match_here (Star cls :: re) (w ++ rest) = Some g.
Proof. intros Hw Hs Hg. cbn [match_here]. by apply many_ok. Qed.

Lemma reverse_nonempty (w : text) : w ≠ [] → reverse w ++ [] ≠ [].
Proof. rewrite app_nil_r. intros Hw E. by rewrite <-(reverse_involutive w), E in Hw. Qed.

Lemma match_plus cls re w rest g :
  w ≠ [] → all cls w → stops cls rest → match_here re rest = Some g →
  match_here (Plus cls :: re) (w ++ rest) = Some g.
Proof.
  intros Hn Hw Hs Hg. cbn [match_here]. apply many_ok; [done..|].
  by rewrite bool_decide_eq_false_2 by (by apply reverse_nonempty).
Qed.

Lemma match_group cls re w rest g :
  w ≠ [] → all cls w → stops cls rest → match_here re rest = Some g →
  match_here (Group cls :: re) (w ++ rest) = Some (w :: g).
Proof.
  intros Hn Hw Hs Hg. cbn [match_here]. apply many_ok; [done..|].
  rewrite bool_decide_eq_false_2 by (by apply reverse_nonempty). rewrite Hg. cbn. by rewrite app_nil_r, reverse_involutive.
Qed.

Lemma search_here re inp g : match_here re inp = Some g → search re inp = Some g.
Proof. intros Hg. destruct inp; cbn [search]; by rewrite Hg. Qed.

(** ** One printed line *)

Definition py_of (ln : LogLine) : PyEntry :=
  mkPyEntry (ln_seq ln) (ln_time ln) (bstr (ln_event ln)) (ln_actor ln) (ln_val ln) (hex_bytes (ln_chain ln)).

Record wf_line (ln : LogLine) : Prop := {
  wl_seq : 0 <= ln_seq ln; wl_time : 0 <= ln_time ln; wl_actor : 0 <= ln_actor ln; wl_val : 0 <= ln_val ln;
  wl_event : bstr (ln_event ln) ≠ []; wl_word : all is_word (bstr (ln_event ln));
  wl_chain : bytes (ln_chain ln); wl_some : ln_chain ln ≠ [] }.

Lemma line_text_split ln :
  line_text ln =
  [32; 32] ++ bstr "[" ++ zeros 2 (dec (ln_seq ln)) ++ bstr "]" ++ [32] ++ bstr "t=" ++ zeros 4 (dec (ln_time ln))
  ++ [32; 32] ++ bstr (ln_event ln) ++ (replicate (12 - length (bstr (ln_event ln))) 32 ++ [32; 32])
  ++ bstr "actor=" ++ dec (ln_actor ln) ++ [32; 32] ++ bstr "val=" ++ dec (ln_val ln)
  ++ (replicate (8 - length (dec (ln_val ln))) 32 ++ [32; 32]) ++ bstr "chain=" ++ hex_bytes (ln_chain ln)
  ++ bstr "...".
Proof. unfold line_text, left_in. by rewrite <-!(assoc_L (++)). Qed.

Lemma hex_bytes_nonempty l : l ≠ [] → hex_bytes l ≠ [].
Proof.
  destruct l as [|b l]; [done|]. intros _ E. cbn in E. apply app_eq_nil in E as [E _].
  apply zeros_nonempty in E; [done|]. intros E'%fmap_nil_inv. by apply digits_nonempty in E'.
Qed.

Lemma spaces_ok k : all is_space (replicate k 32 ++ [32; 32]) ∧ replicate k 32 ++ [32; 32] ≠ [].
Proof. split; [|by destruct k]. apply Forall_app. split; [by apply Forall_replicate|by repeat constructor]. Qed.

Lemma not_space_word c : is_word c = true → is_space c = false.
Proof. unfold is_word, is_space, is_digit. lia. Qed.

(** A nonempty run of a class. *)
Definition run (cls : Z → bool) (w : text) : Prop := w ≠ [] ∧ all cls w.

Lemma run_stops cls cls' w rest :
  run cls w → (∀ c, cls c = true → cls' c = false) → stops cls' (w ++ rest).
Proof. intros [Hn Hw] Hc. apply stops_app; [done|]. eapply Forall_impl; [exact Hw|exact Hc]. Qed.

Lemma space_not_digit c : is_space c = true → is_digit c = false.
Proof. unfold is_space, is_digit. lia. Qed.

Lemma space_not_word c : is_space c = true → is_word c = false.
Proof. unfold is_space, is_word, is_digit. lia. Qed.

Lemma zeros_run k n : 0 <= n → run is_digit (zeros k (dec n)).
Proof. intros Hn. split; [apply zeros_nonempty, dec_nonempty|by apply zeros_all, dec_digits]. Qed.

Lemma dec_run n : 0 <= n → run is_digit (dec n).
Proof. intros Hn. split; [apply dec_nonempty|by apply dec_digits]. Qed.

(** A line with the fields of the pattern, and what the pattern finds in it. *)
Lemma search_fields a b ev c d h sp sp2 sp3 sp4 sp5 sp6 rest :
  all is_space sp → Forall (run is_space) [sp2; sp3; sp4; sp5; sp6] → Forall (run is_digit) [a; b; c; d] →
  run is_word ev → run is_hex h → stops is_hex rest →
  search pat (sp ++ bstr "[" ++ a ++ bstr "]" ++ sp2 ++ bstr "t=" ++ b ++ sp3 ++ ev ++ sp4 ++ bstr "actor=" ++ c
              ++ sp5 ++ bstr "val=" ++ d ++ sp6 ++ bstr "chain=" ++ h ++ rest) = Some [a; b; ev; c; d; h].
Proof.
  intros Hsp Hs Hd [En Ew] [Hn Hh] Hr.
  repeat match goal with H : Forall _ (_ :: _) |- _ => apply Forall_cons in H as [[? ?] H] end.
  apply search_here. unfold pat. apply match_star; [done|done|]. apply match_lit.
  apply match_group; [done|done|done|]. apply match_lit. apply match_plus; [done|done|done|]. apply match_lit.
  apply match_group; [done|done|eapply run_stops; [split; done|apply space_not_digit]|].
  apply match_plus; [done|done|by eapply run_stops; [split; done|apply not_space_word]|].
  apply match_group; [done|done|by eapply run_stops; [split; done|apply space_not_word]|].
  apply match_plus; [done|done|done|]. apply match_lit.
  apply match_group; [done|done|by eapply run_stops; [split; done|apply space_not_digit]|].
  apply match_plus; [done|done|done|]. apply match_lit.
  apply match_group; [done|done|by eapply run_stops; [split; done|apply space_not_digit]|].
  apply match_plus; [done|done|done|]. apply match_lit. by apply match_group.
Qed.

Lemma search_line ln :
  wf_line ln → search pat (line_text ln) ≫= entry_of_groups = Some (py_of ln).
Proof.
  intros [H1 H2 H3 H4 He Hw Hb Hs]. rewrite line_text_split.
  pose proof (spaces_ok (12 - length (bstr (ln_event ln)))) as [? ?].
  pose proof (spaces_ok (8 - length (dec (ln_val ln)))) as [? ?].
  rewrite search_fields.
  - cbn [mbind option_bind entry_of_groups]. unfold py_of. by rewrite !read_zeros, !read_dec.
  - by repeat constructor.
  - repeat constructor; done.
  - repeat (apply Forall_cons_2; [by apply zeros_run || by apply dec_run|]). constructor.
  - done.
  - split; [by apply hex_bytes_nonempty|by apply hex_bytes_hex].
  - done.
Qed.

(** ** Lines *)

Abbreviation printable := (λ c : Z, 32 <= c < 127).

Lemma printable_break c : printable c → is_break c = false.
Proof. unfold is_break. lia. Qed.

Lemma word_printable c : is_word c = true → printable c.
Proof. unfold is_word, is_digit. lia. Qed.

Lemma digit_printable c : is_digit c = true → printable c.
Proof. unfold is_digit. lia. Qed.

Lemma hex_printable c : is_hex c = true → printable c.
Proof. unfold is_hex, is_digit. lia. Qed.

Lemma line_printable ln : wf_line ln → Forall printable (line_text ln).
Proof.
  intros [H1 H2 H3 H4 He Hw Hb Hs]. unfold line_text, left_in.
  assert (∀ n, 0 <= n → Forall printable (dec n)) as Hd.
  { intros n Hn. eapply Forall_impl; [by apply dec_digits|apply digit_printable]. }
  assert (∀ k, Forall printable (replicate k 32)) as Hr by (intros k; by apply Forall_replicate).
  assert (∀ k n, 0 <= n → Forall printable (zeros k (dec n))) as Hz by (intros k n Hn; apply (zeros_all printable); [cbn; lia|by apply Hd]).
  repeat match goal with |- Forall _ (_ ++ _) => apply Forall_app_2 end; auto.
  all: try (cbn; repeat constructor; lia).
  - eapply Forall_impl; [exact Hw|apply word_printable].
  - eapply Forall_impl; [by apply hex_bytes_hex|apply hex_printable].
Qed.

Lemma lines_from_line cur l rest :
  Forall (λ c, is_break c = false) l → lines_from cur (l ++ [10] ++ rest) = (cur ++ l) :: lines_from [] rest.
Proof.
  intros Hl. revert cur. induction Hl as [|c l Hc Hl IH]; intros cur.
  - cbn. rewrite app_nil_r. f_equal. by destruct rest.
  - cbn [app lines_from]. rewrite Hc. cbn [app] in IH. by rewrite IH, <-(assoc_L (++)).
Qed.

Lemma splitlines_unlines lines rest :
  Forall (Forall printable) lines → splitlines (unlines lines ++ rest) = lines ++ splitlines rest.
Proof.
  induction 1 as [|l lines Hl _ IH]; [done|]. cbn [unlines mbind list_bind]. rewrite <-!(assoc_L (++)).
  unfold splitlines. rewrite lines_from_line by (eapply Forall_impl; [exact Hl|apply printable_break]).
  cbn [app]. f_equal. exact IH.
Qed.

(** Output so far: nothing, or whole lines. *)
Definition at_line_start (sent : text) : Prop := sent = [] ∨ ∃ t, sent = t ++ [10].

Lemma line_start_unlines sent lines : at_line_start sent → at_line_start (sent ++ unlines lines).
Proof.
  intros Hs. destruct lines as [|l lines _] using rev_ind; [by rewrite app_nil_r|]. right.
  exists (sent ++ unlines lines ++ l). unfold unlines. rewrite bind_app. cbn [mbind list_bind].
  by rewrite app_nil_r, !(assoc_L (++)).
Qed.

Lemma lines_from_app n cur t rest :
  (length t < n)%nat → lines_from cur (t ++ [10] ++ rest) = lines_from cur (t ++ [10]) ++ lines_from [] rest.
Proof.
  revert cur t. induction n as [|n IH]; intros cur t Hn; [lia|]. destruct t as [|c t].
  - cbn. f_equal. by destruct rest.
  - cbn [app lines_from]. cbn in Hn. destruct (is_break c); [|apply IH; lia].
    cbn [app]. f_equal. destruct t as [|d t].
    + cbn [app]. destruct (_ && _); [by destruct rest|]. apply (IH [] []). cbn. lia.
    + cbn [app]. cbn in Hn. destruct (_ && _); [apply IH; lia|]. apply (IH [] (d :: t)). cbn. lia.
Qed.

Lemma splitlines_app sent rest : at_line_start sent → splitlines (sent ++ rest) = splitlines sent ++ splitlines rest.
Proof.
  intros [->|[t ->]]; [done|]. rewrite <-(assoc_L (++)). unfold splitlines. apply (lines_from_app (S (length t))). lia.
Qed.

Lemma parse_app sent rest :
  at_line_start sent → parse_meal_entries (sent ++ rest) = parse_meal_entries sent ++ parse_meal_entries rest.
Proof. intros Hs. unfold parse_meal_entries. by rewrite splitlines_app, omap_app. Qed.

Lemma parse_lines lines rest :
  Forall wf_line lines →
  parse_meal_entries (unlines (line_text <$> lines) ++ rest) = (py_of <$> lines) ++ parse_meal_entries rest.
Proof.
  intros Hl. unfold parse_meal_entries. rewrite splitlines_unlines.
  2: { apply Forall_fmap. eapply Forall_impl; [exact Hl|apply line_printable]. }
  rewrite omap_app. f_equal. induction Hl as [|ln lines Hw _ IH]; [done|]. rewrite !fmap_cons. cbn [omap list_omap]. by rewrite search_line, IH.
Qed.

(** ** The log's lines *)

Section Log.
Context `{ops : HashOps} {laws : HashLaws ops} `{Uart}.

Definition py_entry (e : AuditEntry) : PyEntry :=
  mkPyEntry (sequence e) (timestamp e) (bstr (event_name (event_type e))) (actor e) (value_a e)
    (hex_bytes (take 4 (hash_of e))).

Lemma wf_line_of e : wf_entry e → wf_line (line_of e).
Proof.
  intros [[Hs _] [Ht _] [Ha _] [Hv _] _ _ _]. split; cbn; try done.
  - by destruct (event_type e).
  - destruct (event_type e); by repeat constructor.
  - apply Forall_take, bytes_sha256_fn.
  - pose proof (length_sha256_fn (auth_bytes e)) as Hl. intros E. apply (f_equal length) in E.
    rewrite length_take in E. unfold hash_of in E. rewrite Hl in E. cbn in E. lia.
Qed.

Lemma print_all_text_ok l hist sent :
  log_inv l hist →
  print_all_text l sent = Ret (sent ++ unlines (line_text <$> (line_of <$> window hist))) ∧
  Forall wf_line (line_of <$> window hist).
Proof.
  intros Hl. assert (Forall wf_line (line_of <$> window hist)) as Hw.
  { apply Forall_fmap. eapply Forall_impl; [apply Forall_drop, Hl|apply wf_line_of]. }
  split; [|done]. unfold print_all_text. rewrite print_all_ok by (by eapply log_inv_wf).
  rewrite bind_Ret, (log_inv_present l hist) by done. f_equal. apply println_all_plain.
  apply Forall_fmap. eapply Forall_impl; [exact Hw|]. intros ln Hln. eapply Forall_impl; [by apply line_printable|].
  intros c Hc. cbn in Hc. split; lia.
Qed.
End Log.

(** ** Saving *)

(** The store's invariant: every boot passes the check, numbers consecutive. *)
Definition consistent (store : Store) : Prop :=
  forallb seqs_ok (boots store) = true ∧
  global_seq <$> all_entries store = Z.of_nat <$> seq 0 (length (all_entries store)).

(** Saving output whose entries are numbered from zero. *)
Lemma save_parsed log es store :
  parse_meal_entries log = es → e_seq <$> es = Z.of_nat <$> seq 0 (length es) → es ≠ [] → consistent store →
  ∃ store', save_cmd log store = Some store' ∧ consistent store' ∧
    s_entry <$> all_entries store' = (s_entry <$> all_entries store) ++ es ∧
    length (boots store') = S (length (boots store)).
Proof.
  intros Hp Hs Hne [Hv Hg]. unfold save_cmd. rewrite Hp. destruct es as [|e0 es0] eqn:Ees; [done|]. rewrite <-Ees in *.
  eexists. split; [reflexivity|]. split; [split|split]; cbn [boots all_entries].
  - rewrite forallb_app, Hv. cbn [forallb andb]. rewrite andb_true_r.
    apply bool_decide_eq_true. cbn [b_entries]. by rewrite Hs.
  - rewrite fmap_app, Hg, length_app, length_fmap, seq_app, fmap_app. f_equal.
    rewrite <-list_fmap_compose.
    trans ((λ x, Z.of_nat (length (all_entries store)) + x) <$> (e_seq <$> es)); [by rewrite <-list_fmap_compose|].
    rewrite Hs. set (L := length (all_entries store)).
    replace (seq (0 + L) (length es)) with (Nat.add L <$> seq 0 (length es))
      by (by rewrite fmap_add_seq, Nat.add_comm).
    rewrite <-!list_fmap_compose. apply list_fmap_ext. intros i x _. cbn. lia.
  - rewrite fmap_app. f_equal. rewrite <-list_fmap_compose. apply list_fmap_id.
  - rewrite length_app. cbn. lia.
Qed.

(** ** Properties *)

Section Properties.
Context `{ops : HashOps} {laws : HashLaws ops} `{Uart}.

(** what [print_all] writes after whole lines of any other output, the
    script reads back: exactly the entries of the ring, oldest first, with
    their numbers, times, event names, actors, values and the first four
    bytes of their hashes. *)
Theorem printed_log_parses l hist sent :
  log_inv l hist → at_line_start sent →
  ∃ sent', print_all_text l sent = Ret sent' ∧ at_line_start sent' ∧
    ∀ after, parse_meal_entries (sent' ++ after)
             = parse_meal_entries sent ++ (py_entry <$> window hist) ++ parse_meal_entries after.
Proof.
  intros Hl Hs. destruct (print_all_text_ok l hist sent Hl) as [E Hw]. eexists. split; [exact E|]. split.
  - by apply line_start_unlines.
  - intros after. rewrite <-(assoc_L (++)), parse_app, parse_lines by done. do 2 f_equal.
    by rewrite <-list_fmap_compose.
Qed.

(** The output captured from a boot that logged [hist]: among other output
    without audit lines, whole lines up to [print_all]. *)
Definition captured (log : text) (hist : list AuditEntry) : Prop :=
  ∃ l sent sent' after, log_inv l hist ∧ at_line_start sent ∧ print_all_text l sent = Ret sent' ∧
    parse_meal_entries sent = [] ∧ parse_meal_entries after = [] ∧ log = sent' ++ after.

Lemma captured_parses log hist : captured log hist → parse_meal_entries log = py_entry <$> window hist.
Proof.
  intros (l & sent & sent' & after & Hl & Hs & E & P1 & P2 & ->).
  destruct (print_all_text_ok l hist sent Hl) as [E' Hw]. rewrite E in E'. injection E' as ->.
  rewrite <-(assoc_L (++)), parse_app, parse_lines, P1, P2, app_nil_r by done. by rewrite <-list_fmap_compose.
Qed.

Lemma captured_seq log hist i e :
  captured log hist → window hist !! i = Some e → sequence e = Z.of_nat (length hist - CAPACITY + i).
Proof.
  intros (l & _ & _ & _ & Hl & _) He. unfold window in He. rewrite lookup_drop in He. by eapply li_seq.
Qed.

(** [save_cmd] after each of several boots. *)
Fixpoint save_all (logs : list text) (store : Store) : option Store :=
  match logs with
  | [] => Some store
  | log :: logs => store ← save_cmd log store; save_all logs store
  end.

Lemma captured_seqs log hist :
  captured log hist → (length hist <= CAPACITY)%nat →
  e_seq <$> (py_entry <$> hist) = Z.of_nat <$> seq 0 (length hist).
Proof.
  intros Hc Hl. rewrite <-list_fmap_compose. apply list_eq. intros i. rewrite !list_lookup_fmap.
  destruct (hist !! i) as [e|] eqn:E.
  - pose proof (lookup_lt_Some _ _ _ E). rewrite lookup_seq_lt by done. cbn. f_equal.
    assert (window hist !! i = Some e) as E'.
    { unfold window. by replace (length hist - CAPACITY)%nat with 0%nat by lia. }
    rewrite (captured_seq log hist i e Hc E'). lia.
  - apply lookup_ge_None in E. by rewrite lookup_seq_ge.
Qed.

Lemma save_consistent log hist store :
  captured log hist → (0 < length hist <= CAPACITY)%nat → consistent store →
  ∃ store', save_cmd log store = Some store' ∧ consistent store' ∧
    s_entry <$> all_entries store' = (s_entry <$> all_entries store) ++ (py_entry <$> hist) ∧
    length (boots store') = S (length (boots store)).
Proof.
  intros Hc [H0 Hn] Hs. apply save_parsed; [|by rewrite length_fmap; eapply captured_seqs| |done].
  - rewrite (captured_parses log hist Hc). f_equal. unfold window.
    by replace (length hist - CAPACITY)%nat with 0%nat by lia.
  - intros E. apply fmap_nil_inv in E as ->. cbn in H0. lia.
Qed.

(** Boots that each logged between one and 64 entries, saved one after the
    other: no save fails, the check accepts the store, its entries are the
    logged ones in order and are numbered consecutively. *)
Lemma save_all_accumulates logs hists :
  Forall2 captured logs hists → Forall (λ h, 0 < length h <= CAPACITY)%nat hists → logs ≠ [] →
  ∃ store, save_all logs empty_store = Some store ∧ verify_cmd store = Some true ∧
    s_entry <$> all_entries store = hists ≫= (λ h, py_entry <$> h) ∧
    global_seq <$> all_entries store = Z.of_nat <$> seq 0 (length (all_entries store)).
Proof.
  intros Hc Hb Hne. cut (∀ store0, consistent store0 → ∃ store, save_all logs store0 = Some store ∧ consistent store ∧
    s_entry <$> all_entries store = (s_entry <$> all_entries store0) ++ (hists ≫= λ h, py_entry <$> h) ∧
    length (boots store) = (length (boots store0) + length logs)%nat).
  { intros Hs. destruct (Hs empty_store) as (store & E & [Hv Hg] & He & Hl); [done|]. exists store.
    split; [done|]. split; [|done]. unfold verify_cmd. destruct (boots store); [by destruct logs|]. by rewrite Hv. }
  clear Hne. revert Hb. induction Hc as [|log hist logs hists Hl Hc IH]; intros Hb store0 Hs0.
  - exists store0. cbn. by rewrite app_nil_r, Nat.add_0_r.
  - apply Forall_cons in Hb as [Hh Hb].
    destruct (save_consistent log hist store0 Hl Hh Hs0) as (store1 & E1 & Hs1 & He1 & Hn1).
    destruct (IH Hb store1 Hs1) as (store & E & Hs & He & Hn). exists store. cbn [save_all mbind option_bind].
    rewrite E1. split; [exact E|]. split; [done|]. rewrite He, He1. split; [|cbn [length]; lia].
    cbn. by rewrite <-(assoc_L (++)).
Qed.

(** A boot that logged more than the ring holds is stored, and the check
    then reports a sequence error although the log is intact. *)
Theorem long_boot_rejected log hist store :
  captured log hist → (CAPACITY < length hist)%nat →
  ∃ store', save_cmd log store = Some store' ∧ verify_cmd store' = Some false.
Proof.
  intros Hc Hn. pose proof (captured_parses log hist Hc) as Hp.
  assert (length (window hist) = CAPACITY) as Hw by (rewrite length_window; lia).
  destruct (window hist) as [|e es] eqn:E; [done|].
  pose proof (captured_seq log hist 0 e Hc) as Hs. rewrite E in Hs. specialize (Hs eq_refl).
  unfold save_cmd. rewrite Hp. eexists. split; [reflexivity|].
  unfold verify_cmd. cbn [boots]. destruct (boots store ++ _) eqn:Eb; [by apply app_eq_nil in Eb as [_ ?]|].
  rewrite <-Eb, forallb_app. f_equal. apply andb_false_iff. right. cbn [forallb]. rewrite andb_true_r.
  apply bool_decide_eq_false. cbn [b_entries]. intros Eq. apply (f_equal head) in Eq. cbn in Eq.
  injection Eq as Eq. rewrite Hs in Eq. lia.
Qed.
End Properties.

(** ** Witnesses *)

Definition banner : text := bstr "AXIOM OS booting..." ++ [10].

Lemma banner_start : at_line_start banner.
Proof. right. by eexists. Qed.

Lemma printed_log_parses_witness :
  ∃ sent', @print_all_text (@crypto_ops dev_profile) plain_uart first_log banner = Ret sent' ∧
    parse_meal_entries (sent' ++ [])
    = [@py_entry _ (@crypto_laws dev_profile) first_entry].
Proof.
  destruct (@printed_log_parses _ (@crypto_laws dev_profile) plain_uart first_log [first_entry] banner)
    as (sent' & E & _ & Hp); [apply first_log_inv|apply banner_start|].
  exists sent'. split; [exact E|]. rewrite Hp. reflexivity.
Defined.

Lemma first_captured :
  ∃ log, @captured _ (@crypto_laws dev_profile) plain_uart log [first_entry].
Proof.
  destruct (@print_all_text_ok _ (@crypto_laws dev_profile) plain_uart first_log [first_entry] banner first_log_inv)
    as [E _].
  eexists _, first_log, banner, _, []. split; [apply first_log_inv|]. split; [apply banner_start|].
  split; [exact E|]. by repeat split.
Qed.
