(* ===== verification/Json.v ===== *)
(** * JSON texts

    The part of Python's [json] module that [scripts/meal_persist.py] uses to
    keep its store: [json.dump] with an indentation of two and [json.load],
    for objects, lists, integers and strings of printable ASCII characters
    without quotes and backslashes (the store holds identifiers and
    hexadecimal digits).  Fractions, literals and escapes, which the script
    never writes, are refused by the parser.

    Shown here: loading what was dumped gives it back. *)

From S2P Require Import Prelude Text.
From Stdlib Require Import ZArith Lia.
From stdpp Require Import base numbers list strings.
#[local] Open Scope Z_scope.

Inductive json :=
| JNum (n : Z)
| JStr (s : text)
| JArr (l : list json)
| JObj (l : list (text * json)).

(** ** Writing *)

Definition quote : text := [34].
Definition newline (lvl : nat) : text := 10 :: replicate (2 * lvl) 32.

Fixpoint join (sep : text) (l : list text) : text :=
  match l with
  | [] => []
  | [x] => x
  | x :: l => x ++ sep ++ join sep l
  end.

(** Items on lines of their own, one level deeper. *)
Definition block (lvl : nat) (items : list text) : text :=
  match items with
  | [] => []
  | _ => newline (S lvl) ++ join ([44] ++ newline (S lvl)) items ++ newline lvl
  end.

Fixpoint dump (lvl : nat) (j : json) : text :=
  match j with
  | JNum n => sdec n
  | JStr s => quote ++ s ++ quote
  | JArr l => [91] ++ block lvl (dump (S lvl) <$> l) ++ [93]
  | JObj l => [123] ++ block lvl ((λ '(k, v), quote ++ k ++ quote ++ bstr ": " ++ dump (S lvl) v) <$> l) ++ [125]
  end.

Definition dumps (j : json) : text := dump 0 j.

(** ** Reading *)

Fixpoint span (cls : Z → bool) (inp : text) : text * text :=
  match inp with
  | c :: inp' => if cls c then (c :: (span cls inp').1, (span cls inp').2) else ([], inp)
  | [] => ([], [])
  end.

Definition is_blank (c : Z) : bool := (c =? 32) || (c =? 9) || (c =? 10) || (c =? 13).
Definition is_char (c : Z) : bool := (32 <=? c) && (c <? 127) && negb (c =? 34) && negb (c =? 92).

Definition skip (inp : text) : text := (span is_blank inp).2.

(** The characters up to the closing quote. *)
Definition parse_string (inp : text) : option (text * text) :=
  let '(s, r) := span is_char inp in
  match r with
  | c :: r => if c =? 34 then Some (s, r) else None
  | [] => None
  end.

(** No fraction or exponent follows. *)
Definition whole (n : Z) (r : text) : option (Z * text) :=
  match r with
  | c :: _ => if (c =? 46) || (c =? 101) || (c =? 69) then None else Some (n, r)
  | [] => Some (n, r)
  end.

Definition parse_nat (inp : text) : option (Z * text) :=
  match inp with
  | c :: r =>
    if c =? 48 then whole 0 r else
    if is_digit c then let '(w, r) := span is_digit inp in whole (read_num 10 w) r else None
  | [] => None
  end.

Definition parse_number (inp : text) : option (Z * text) :=
  match inp with
  | c :: r => if c =? 45 then '(n, r) ← parse_nat r; Some (- n, r) else parse_nat inp
  | [] => None
  end.

Fixpoint parse (fuel : nat) (inp : text) : option (json * text) :=
  match fuel, inp with
  | S fuel, c :: r =>
    if c =? 34 then '(s, r) ← parse_string r; Some (JStr s, r) else
    if c =? 91 then
      match skip r with
      | c :: r' => if c =? 93 then Some (JArr [], r') else '(l, r) ← parse_items fuel (skip r); Some (JArr l, r)
      | [] => None
      end else
    if c =? 123 then
      match skip r with
      | c :: r' => if c =? 125 then Some (JObj [], r') else '(l, r) ← parse_fields fuel (skip r); Some (JObj l, r)
      | [] => None
      end else
    '(n, r) ← parse_number inp; Some (JNum n, r)
  | _, _ => None
  end
with parse_items (fuel : nat) (inp : text) : option (list json * text) :=
  match fuel with
  | O => None
  | S fuel =>
    '(v, r) ← parse fuel inp;
    match skip r with
    | c :: r =>
      if c =? 44 then '(l, r) ← parse_items fuel (skip r); Some (v :: l, r) else
      if c =? 93 then Some ([v], r) else None
    | [] => None
    end
  end
with parse_fields (fuel : nat) (inp : text) : option (list (text * json) * text) :=
  match fuel, inp with
  | S fuel, c :: r =>
    if negb (c =? 34) then None else
    '(k, r) ← parse_string r;
    match skip r with
    | c :: r =>
      if negb (c =? 58) then None else
      '(v, r) ← parse fuel (skip r);
      match skip r with
      | c :: r =>
        if c =? 44 then '(l, r) ← parse_fields fuel (skip r); Some ((k, v) :: l, r) else
        if c =? 125 then Some ([(k, v)], r) else None
      | [] => None
      end
    | [] => None
    end
  | _, _ => None
  end.

(** Two calls per character are enough; nothing may follow the value. *)
Definition loads (t : text) : option json :=
  '(j, r) ← parse (2 * length t) (skip t);
  match skip r with [] => Some j | _ => None end.

(** ** What is written and read back *)

(** Induction with a hypothesis for every item. *)
Lemma json_items_ind (P : json → Prop) :
  (∀ n, P (JNum n)) → (∀ s, P (JStr s)) → (∀ l, Forall P l → P (JArr l)) →
  (∀ l, Forall (λ kv, P kv.2) l → P (JObj l)) → ∀ j, P j.
Proof.
  intros Hn Hs Ha Ho. refine (fix F j := _). destruct j as [n|s|l|l]; [apply Hn|apply Hs|apply Ha|apply Ho].
  - induction l as [|j l IH]; [constructor|]. constructor; [apply F|exact IH].
  - induction l as [|[k j] l IH]; [constructor|]. constructor; [apply F|exact IH].
Qed.

(** Strings and keys the dumped text can hold as they are. *)
Fixpoint wf_json (j : json) : Prop :=
  match j with
  | JNum _ => True
  | JStr s => all is_char s
  | JArr l => foldr (λ j P, wf_json j ∧ P) True l
  | JObj l => foldr (λ '(k, v) P, (all is_char k ∧ wf_json v) ∧ P) True l
  end.

(** The calls needed to read a value. *)
Fixpoint cost (j : json) : nat :=
  match j with
  | JNum _ | JStr _ => 1
  | JArr l => 1 + list_sum ((λ j, S (cost j)) <$> l)
  | JObj l => 1 + list_sum ((λ '(_, v), S (cost v)) <$> l)
  end.

Lemma span_ok cls w rest : all cls w → stops cls rest → span cls (w ++ rest) = (w, rest).
Proof.
  intros Hw Hs. induction Hw as [|c w Hc _ IH]; [destruct rest as [|c r]; [done|]; cbn in *; by rewrite Hs|].
  cbn [app span]. by rewrite Hc, IH.
Qed.

Lemma skip_newline lvl r : skip (newline lvl ++ r) = skip r.
Proof. unfold skip, newline. cbn. induction (lvl + (lvl + 0))%nat as [|n IH]; [done|]. exact IH. Qed.

Lemma skip_stops r : stops is_blank r → skip r = r.
Proof. intros Hs. unfold skip. by rewrite (span_ok is_blank [] r (Forall_nil_2 _) Hs : span is_blank r = _). Qed.

Lemma parse_string_ok s r : all is_char s → parse_string (s ++ quote ++ r) = Some (s, r).
Proof. intros Hs. unfold parse_string. by rewrite (span_ok is_char s (quote ++ r)). Qed.

(** A number may end here. *)
Definition ends (r : text) : Prop :=
  match r with [] => True | c :: _ => is_digit c = false ∧ (c =? 46) || (c =? 101) || (c =? 69) = false end.

Lemma whole_ends n r : ends r → whole n r = Some (n, r).
Proof. destruct r as [|c r]; [done|]. intros [_ Hc]. cbn. by rewrite Hc. Qed.

(** Decimal numbers have no leading zeros. *)
Lemma num_head base fuel n : 2 <= base → 0 < n < base ^ Z.of_nat fuel → ∃ d l, num base fuel n = d :: l ∧ 0 < d < base.
Proof.
  intros Hb. revert n. induction fuel as [|fuel IH]; intros n Hn; [cbn in Hn; lia|]. cbn [num].
  destruct (Z.ltb_spec n base); [by exists n, []; split; [|lia]|].
  destruct (IH (n / base)) as (d & l & -> & Hd).
  - split; [apply Z.div_str_pos; lia|]. apply Z.div_lt_upper_bound; [lia|].
    rewrite Nat2Z.inj_succ, Z.pow_succ_r in Hn by lia. lia.
  - by exists d, (l ++ [n mod base]).
Qed.

Lemma dec_head n : 0 < n → ∃ c t, dec n = c :: t ∧ is_digit c = true ∧ c ≠ 48 ∧ c ≠ 45.
Proof.
  intros Hn. destruct (num_head 10 (S (Z.to_nat (Z.log2 n))) n) as (d & l & E & Hd); [lia|split; [done|by apply digits_fuel; lia]|].
  exists (digit d), (digit <$> l). unfold dec, digits. rewrite E. split; [done|]. split; [apply digit_is_digit; lia|].
  unfold digit. destruct (Z.ltb_spec d 10); lia.
Qed.

Lemma parse_nat_ok n r : 0 <= n → ends r → parse_nat (dec n ++ r) = Some (n, r).
Proof.
  intros Hn Hr. destruct (decide (n = 0)) as [->|Hne]; [by apply whole_ends|].
  assert (stops is_digit r) as Hs by (destruct r as [|c r]; [done|by destruct Hr]).
  pose proof (span_ok is_digit (dec n) r (dec_digits n Hn) Hs) as Esp.
  destruct (dec_head n) as (c & t & E & Hc & H0 & _); [lia|]. unfold parse_nat. rewrite E in *. cbn [app] in *.
  rewrite (proj2 (Z.eqb_neq c 48)) by done. rewrite Hc, Esp, <-E, read_dec by done. by apply whole_ends.
Qed.

Lemma parse_number_ok n r : ends r → parse_number (sdec n ++ r) = Some (n, r).
Proof.
  intros Hr. unfold sdec. destruct (Z.ltb_spec n 0).
  - change (bstr "-" ++ dec (- n)) with (45 :: dec (- n)). cbn [app]. unfold parse_number.
    change (45 =? 45) with true. cbn iota beta. rewrite parse_nat_ok by (done || lia).
    cbn [mbind option_bind]. by rewrite Z.opp_involutive.
  - pose proof (parse_nat_ok n r ltac:(lia) Hr) as E. unfold parse_number.
    destruct (decide (n = 0)) as [->|]; [exact E|].
    destruct (dec_head n) as (c & t & Ed & _ & _ & H45); [lia|]. rewrite Ed in *. cbn [app] in *.
    by rewrite (proj2 (Z.eqb_neq c 45)) by done.
Qed.

(** How a value starts: not with a blank or a closing bracket. *)
Definition starts_value (c : Z) : bool := (c =? 34) || (c =? 91) || (c =? 123) || (c =? 45) || is_digit c.

Lemma sdec_head n : ∃ c t, sdec n = c :: t ∧ (c =? 45) || is_digit c = true.
Proof.
  unfold sdec. destruct (Z.ltb_spec n 0); [by eexists _, _|].
  pose proof (dec_digits n ltac:(lia)) as Hd. pose proof (dec_nonempty n). destruct (dec n) as [|c t]; [done|].
  apply Forall_cons in Hd as [Hc _]. exists c, t. split; [done|]. rewrite Hc. apply orb_true_r.
Qed.

Lemma dump_head lvl j : ∃ c t, dump lvl j = c :: t ∧ starts_value c = true.
Proof.
  destruct j as [n|s|l|l]; [|by eexists _, _..].
  destruct (sdec_head n) as (c & t & E & Hc). exists c, t. split; [done|]. unfold starts_value.
  by rewrite <-(orb_assoc _ (c =? 45)), Hc, orb_true_r.
Qed.

Lemma starts_not_blank c : starts_value c = true → is_blank c = false ∧ c ≠ 93 ∧ c ≠ 125.
Proof. unfold starts_value, is_blank, is_digit. lia. Qed.

Lemma skip_dump lvl j r : skip (dump lvl j ++ r) = dump lvl j ++ r.
Proof.
  destruct (dump_head lvl j) as (c & t & -> & Hc%starts_not_blank). apply skip_stops. cbn. apply Hc.
Qed.

(** Reading [dump lvl j] whatever the level, given fuel, up to any rest. *)
Definition reads (j : json) : Prop :=
  ∀ lvl fuel r, (cost j <= fuel)%nat → ends r → parse fuel (dump lvl j ++ r) = Some (j, r).

Lemma ends_newline lvl r : ends (newline lvl ++ r).
Proof. by split. Qed.

Lemma join_cons sep x y l : join sep (x :: y :: l) = x ++ sep ++ join sep (y :: l).
Proof. done. Qed.

(** A joined list starts as its first item does. *)
Lemma join_head sep x l r : ∃ r', join sep (x :: l) ++ r = x ++ r'.
Proof. destruct l as [|y l]; [by exists r|]. rewrite join_cons, <-!(assoc_L (++)). by eexists. Qed.

Lemma skip_join sep x l r c t :
  x = c :: t → is_blank c = false → skip (join sep (x :: l) ++ r) = join sep (x :: l) ++ r.
Proof. intros -> Hc. destruct (join_head sep (c :: t) l r) as [r' ->]. by apply skip_stops. Qed.

Lemma sum_cons n l : list_sum (n :: l) = (n + list_sum l)%nat.
Proof. done. Qed.

Lemma parse_items_ok lvl l x fuel r :
  Forall reads (x :: l) → (list_sum ((λ j, S (cost j)) <$> x :: l) <= fuel)%nat →
  parse_items fuel (join ([44] ++ newline (S lvl)) (dump (S lvl) <$> x :: l) ++ newline lvl ++ [93] ++ r)
  = Some (x :: l, r).
Proof.
  revert x fuel. induction l as [|y l IH]; intros x fuel [Hx Hl]%Forall_cons Hf;
    rewrite fmap_cons, sum_cons in Hf; (destruct fuel as [|fuel]; [lia|]); cbn [parse_items].
  - cbn [fmap list_fmap join]. rewrite Hx by (apply ends_newline || lia). cbn [mbind option_bind].
    rewrite skip_newline. done.
  - rewrite !fmap_cons, join_cons, <-!(assoc_L (++)).
    rewrite Hx by (done || lia). cbn [mbind option_bind].
    change (skip ([44] ++ ?t)) with ([44] ++ t). cbn [app Z.eqb Pos.eqb].
    destruct (dump_head (S lvl) y) as (c & t & E & [Hc _]%starts_not_blank).
    rewrite skip_newline, (skip_join _ _ _ _ c t E Hc).
    pose proof (IH y fuel Hl ltac:(lia)) as Eq. rewrite fmap_cons in Eq. cbn [app] in Eq. by rewrite Eq.
Qed.

Definition field (lvl : nat) (kv : text * json) : text := quote ++ kv.1 ++ quote ++ bstr ": " ++ dump lvl kv.2.

Lemma parse_fields_ok lvl l x fuel r :
  Forall (λ kv, all is_char kv.1 ∧ reads kv.2) (x :: l) →
  (list_sum ((λ kv, S (cost kv.2)) <$> x :: l) <= fuel)%nat →
  parse_fields fuel (join ([44] ++ newline (S lvl)) (field (S lvl) <$> x :: l) ++ newline lvl ++ [125] ++ r)
  = Some (x :: l, r).
Proof.
  assert (∀ v r, skip (bstr ": " ++ dump (S lvl) v ++ r) = bstr ": " ++ dump (S lvl) v ++ r) as Hcolon by done.
  assert (∀ v r, skip (32 :: dump (S lvl) v ++ r) = dump (S lvl) v ++ r) as Hspace.
  { intros v r'. exact (skip_dump (S lvl) v r'). }
  revert x fuel. induction l as [|y l IH]; intros [k v] fuel [[Hk Hx] Hl]%Forall_cons Hf;
    rewrite fmap_cons, sum_cons in Hf; cbn [fst snd] in Hf, Hk, Hx; (destruct fuel as [|fuel]; [lia|]).
  - cbn [fmap list_fmap join]. unfold field. cbn [fst snd]. rewrite <-!(assoc_L (++)).
    change (quote ++ ?t) with (34 :: t) at 1. cbn [parse_fields Z.eqb Pos.eqb negb].
    rewrite (parse_string_ok k _ Hk). cbn [mbind option_bind]. rewrite Hcolon.
    change (bstr ": " ++ ?t) with (58 :: 32 :: t). cbn [Z.eqb Pos.eqb negb]. rewrite Hspace.
    rewrite Hx by (apply ends_newline || lia). cbn [mbind option_bind]. rewrite skip_newline. done.
  - rewrite !fmap_cons, join_cons. unfold field at 1. cbn [fst snd]. rewrite <-!(assoc_L (++)).
    change (quote ++ ?t) with (34 :: t) at 1. cbn [parse_fields Z.eqb Pos.eqb negb].
    rewrite (parse_string_ok k _ Hk). cbn [mbind option_bind]. rewrite Hcolon.
    change (bstr ": " ++ ?t) with (58 :: 32 :: t). cbn [Z.eqb Pos.eqb negb]. rewrite Hspace.
    rewrite Hx by (done || lia). cbn [mbind option_bind].
    change (skip ([44] ++ ?t)) with ([44] ++ t). cbn [app Z.eqb Pos.eqb].
    rewrite skip_newline, (skip_join _ (field (S lvl) y) _ _ 34 (y.1 ++ quote ++ bstr ": " ++ dump (S lvl) y.2)) by done.
    pose proof (IH y fuel Hl ltac:(lia)) as Eq. rewrite fmap_cons in Eq. cbn [app] in Eq. by rewrite Eq.
Qed.

Lemma wf_items l : wf_json (JArr l) ↔ Forall wf_json l.
Proof. induction l as [|j l IH]; [done|]. rewrite Forall_cons, <-IH. done. Qed.

Lemma wf_fields l : wf_json (JObj l) ↔ Forall (λ kv, all is_char kv.1 ∧ wf_json kv.2) l.
Proof. induction l as [|[k j] l IH]; [done|]. rewrite Forall_cons, <-IH. done. Qed.

Lemma dump_fields lvl l : dump lvl (JObj l) = [123] ++ block lvl (field (S lvl) <$> l) ++ [125].
Proof. cbn [dump]. do 3 f_equal. apply list_fmap_ext. by intros i [k v] _. Qed.

Lemma cost_fields l : cost (JObj l) = S (list_sum ((λ kv, S (cost kv.2)) <$> l)).
Proof. cbn [cost]. do 2 f_equal. apply list_fmap_ext. by intros i [k v] _. Qed.

Lemma reads_all j : wf_json j → reads j.
Proof.
  induction j as [n|s|l IH|l IH] using json_items_ind; intros Hw lvl fuel r Hf Hr.
  - destruct fuel as [|fuel]; [cbn in Hf; lia|]. cbn [dump].
    pose proof (parse_number_ok n r Hr) as E. destruct (sdec_head n) as (c & t & Es & Hc). rewrite Es in *. cbn [app parse] in *.
    assert (c ≠ 34 ∧ c ≠ 91 ∧ c ≠ 123) as (H1 & H2 & H3) by (unfold is_digit in Hc; lia).
    rewrite !(proj2 (Z.eqb_neq c _)) by done. by rewrite E.
  - destruct fuel as [|fuel]; [cbn in Hf; lia|]. cbn [dump]. rewrite <-!(assoc_L (++)).
    change (quote ++ ?t) with (34 :: t) at 1. cbn [parse Z.eqb Pos.eqb]. by rewrite parse_string_ok.
  - rewrite wf_items in Hw. cbn [cost] in Hf. destruct fuel as [|fuel]; [lia|].
    destruct l as [|x l]; [done|]. cbn [dump]. rewrite <-!(assoc_L (++)). change ([91] ++ ?t) with (91 :: t).
    cbn [parse Z.eqb Pos.eqb]. rewrite fmap_cons. cbn [block]. rewrite <-!(assoc_L (++)), skip_newline.
    destruct (dump_head (S lvl) x) as (c & t & E & [Hc [H93 _]]%starts_not_blank).
    rewrite (skip_join _ _ _ _ c t E Hc).
    pose proof (parse_items_ok lvl l x fuel r) as Ep. rewrite (fmap_cons (dump _)) in Ep.
    destruct (join_head ([44] ++ newline (S lvl)) (dump (S lvl) x) (dump (S lvl) <$> l) (newline lvl ++ [93] ++ r)) as [r' Ej].
    rewrite Ej, E in *. cbn [app] in *. rewrite (proj2 (Z.eqb_neq c 93)) by done. rewrite Ep; [done| |lia].
    apply Forall_forall. intros y Hy. rewrite Forall_forall in IH, Hw. auto.
  - rewrite wf_fields in Hw. rewrite cost_fields in Hf. rewrite dump_fields. destruct fuel as [|fuel]; [lia|].
    destruct l as [|x l]; [done|]. rewrite <-!(assoc_L (++)). change ([123] ++ ?t) with (123 :: t).
    cbn [parse Z.eqb Pos.eqb]. rewrite fmap_cons. cbn [block]. rewrite <-!(assoc_L (++)), skip_newline.
    rewrite (skip_join _ (field (S lvl) x) _ _ 34 (x.1 ++ quote ++ bstr ": " ++ dump (S lvl) x.2)) by done.
    pose proof (parse_fields_ok lvl l x fuel r) as Ep. rewrite (fmap_cons (field _)) in Ep.
    destruct (join_head ([44] ++ newline (S lvl)) (field (S lvl) x) (field (S lvl) <$> l) (newline lvl ++ [125] ++ r)) as [r' Ej].
    rewrite Ej in *. change (field (S lvl) x ++ r') with (34 :: (x.1 ++ quote ++ bstr ": " ++ dump (S lvl) x.2) ++ r') in *.
    cbn [Z.eqb Pos.eqb]. rewrite Ep; [done| |lia].
    apply Forall_forall. intros y Hy. rewrite Forall_forall in IH, Hw. split; [by apply Hw|apply IH; [done|by apply Hw]].
Qed.

(** ** The fuel is enough *)

Lemma dump_nonempty lvl j : (1 <= length (dump lvl j))%nat.
Proof. destruct (dump_head lvl j) as (c & t & -> & _). cbn. lia. Qed.

(** A block has a line break before every item. *)
Lemma block_length lvl l : (list_sum ((λ t, S (length t)) <$> l) <= length (block lvl l))%nat.
Proof.
  destruct l as [|x l]; [done|]. cbn [block]. rewrite !length_app.
  assert (∀ k, 1 <= length (newline k))%nat as Hn by (intros k; cbn; lia).
  assert (list_sum ((λ t, S (length t)) <$> x :: l) <= S (length (join ([44%Z] ++ newline (S lvl)) (x :: l))))%nat as Hj;
    [|specialize (Hn (S lvl)); lia].
  revert x. induction l as [|y l IH]; intros x; rewrite fmap_cons, sum_cons; [cbn; lia|].
  rewrite join_cons, !length_app. specialize (IH y). specialize (Hn (S lvl)). cbn [length] in *. lia.
Qed.

Lemma sum_double {A} (f g : A → nat) (l : list A) :
  Forall (λ x, f x <= 2 * g x)%nat l → (list_sum ((λ x, S (f x)) <$> l) <= 2 * list_sum ((λ x, S (g x)) <$> l))%nat.
Proof. induction 1 as [|x l Hx _ IH]; [done|]. rewrite !fmap_cons, !sum_cons. lia. Qed.

Lemma cost_bound lvl j : (cost j <= 2 * length (dump lvl j))%nat.
Proof.
  revert lvl. induction j as [n|s|l IH|l IH] using json_items_ind; intros lvl.
  - pose proof (dump_nonempty lvl (JNum n)). cbn [cost]. lia.
  - pose proof (dump_nonempty lvl (JStr s)). cbn [cost]. lia.
  - cbn [cost dump]. rewrite !length_app. cbn [length].
    pose proof (block_length lvl (dump (S lvl) <$> l)) as Hb. rewrite <-list_fmap_compose in Hb.
    pose proof (sum_double cost (λ j, length (dump (S lvl) j)) l) as Hs.
    specialize (Hs (Forall_impl _ _ _ IH (λ j Hj, Hj (S lvl)))). unfold compose in Hb. lia.
  - rewrite cost_fields, dump_fields, !length_app. cbn [length].
    pose proof (block_length lvl (field (S lvl) <$> l)) as Hb. rewrite <-list_fmap_compose in Hb.
    pose proof (sum_double (λ kv, cost kv.2) (λ kv, length (field (S lvl) kv)) l) as Hs. unfold compose in Hb.
    enough (list_sum ((λ kv, S (cost kv.2)) <$> l) <= 2 * list_sum ((λ x, S (length (field (S lvl) x))) <$> l))%nat by lia.
    apply Hs. eapply Forall_impl; [exact IH|]. intros [k v] Hv. specialize (Hv (S lvl)). cbn [snd] in *.
    unfold field. rewrite !length_app. cbn [snd]. lia.
Qed.

(** Loading what was dumped. *)
Lemma loads_dumps j : wf_json j → loads (dumps j) = Some j.
Proof.
  intros Hw. unfold loads, dumps. rewrite <-(app_nil_r (dump 0 j)) at 2. rewrite skip_dump.
  rewrite (reads_all j Hw) by (done || apply cost_bound). done.
Qed.
