(* ===== verification/Collector.v ===== *)
(** * The audit log collector

    The commands of [scripts/meal_persist.py] around the operations of
    [Persist]: the store kept as a JSON file ([load_store], [save_store]),
    and [--save], [--show] and [--verify] with what they print.  A run of the
    script is a function of its arguments, the output captured from the
    kernel and the file; [None] stands for an exception.

    Shown here: a saved store is loaded back, so that the script never raises
    on its own file and the saves of several runs add up as [Persist] says;
    the listing [--show] prints is itself in the format the script reads, and
    reads back as the store's entries. *)

From S2P Require Import Prelude Interfaces Crypto Meal Text Persist Json.
From Stdlib Require Import ZArith Lia.
From stdpp Require Import base numbers list strings.
#[local] Open Scope Z_scope.

Abbreviation s := bstr.

(** ** The store as JSON *)

Definition entry_fields (e : PyEntry) : list (text * json) :=
  [(s "seq", JNum (e_seq e)); (s "tick", JNum (e_tick e)); (s "event", JStr (e_event e));
   (s "actor", JNum (e_actor e)); (s "value", JNum (e_value e)); (s "chain", JStr (e_chain e))].

Definition json_of_boot (b : PyBoot) : json :=
  JObj [(s "boot", JNum (b_boot b)); (s "entries", JArr ((λ e, JObj (entry_fields e)) <$> b_entries b));
        (s "entry_count", JNum (b_count b))].

Definition json_of_stored (e : Stored) : json :=
  JObj ([(s "global_seq", JNum (global_seq e)); (s "boot", JNum (s_boot e))] ++ entry_fields (s_entry e)).

Definition json_of_store (st : Store) : json :=
  JObj [(s "boots", JArr (json_of_boot <$> boots st)); (s "all_entries", JArr (json_of_stored <$> all_entries st))].

(** [d[k]]: of equal keys the last one counts. *)
Definition get (k : text) (j : json) : option json :=
  match j with
  | JObj l => '(_, kv) ← list_find (λ kv, kv.1 = k) (reverse l); Some kv.2
  | _ => None
  end.

Definition as_num (j : json) : option Z := match j with JNum n => Some n | _ => None end.
Definition as_str (j : json) : option text := match j with JStr t => Some t | _ => None end.
Definition as_list (j : json) : option (list json) := match j with JArr l => Some l | _ => None end.

Definition entry_of_json (j : json) : option PyEntry :=
  seq ← get (s "seq") j ≫= as_num;
  tick ← get (s "tick") j ≫= as_num;
  event ← get (s "event") j ≫= as_str;
  actor ← get (s "actor") j ≫= as_num;
  value ← get (s "value") j ≫= as_num;
  chain ← get (s "chain") j ≫= as_str;
  Some (mkPyEntry seq tick event actor value chain).

Definition boot_of_json (j : json) : option PyBoot :=
  boot ← get (s "boot") j ≫= as_num;
  entries ← (get (s "entries") j ≫= as_list) ≫= mapM entry_of_json;
  count ← get (s "entry_count") j ≫= as_num;
  Some (mkPyBoot boot entries count).

Definition stored_of_json (j : json) : option Stored :=
  gs ← get (s "global_seq") j ≫= as_num;
  boot ← get (s "boot") j ≫= as_num;
  e ← entry_of_json j;
  Some (mkStored gs boot e).

Definition store_of_json (j : json) : option Store :=
  bs ← (get (s "boots") j ≫= as_list) ≫= mapM boot_of_json;
  es ← (get (s "all_entries") j ≫= as_list) ≫= mapM stored_of_json;
  Some (mkStore bs es).

(** The file, if there is one.  A file that is not of the form [save_store]
    writes (a field missing, or of another type) is refused here, when it is
    read; the script raises when it first looks the field up. *)
Definition load_store (file : option text) : option Store :=
  match file with
  | None => Some empty_store
  | Some t => loads t ≫= store_of_json
  end.

Definition save_store (st : Store) : text := dumps (json_of_store st).

(** ** The commands

    The numbers the script reads and keeps are not negative. *)

(** What a run prints and the file it leaves. *)
Record Run := mkRun { printed : list text; file_after : option text }.

Definition rule : text := replicate 68 61.

Section Script.
(** The path of the store, printed after a save. *)
Variable STORE : text.

Definition save_main (log : text) (file : option text) : option Run :=
  let booting := s "Booting AXIOM OS (20s)..." in
  match parse_meal_entries log with
  | [] => Some (mkRun [booting; s "ERROR: no MEAL entries found."] file)
  | entries =>
    store ← load_store file;
    let bn := Z.of_nat (length (boots store)) + 1 in
    store' ← save_cmd log store;
    let total := Z.of_nat (length (all_entries store')) in
    Some (mkRun [booting; s "Boot #" ++ dec bn ++ s ": " ++ dec (Z.of_nat (length entries)) ++ s " entries. Total: "
                   ++ dec total ++ s " across " ++ dec bn ++ s " boots. -> " ++ STORE]
            (Some (save_store store')))
  end.

(** One entry of the listing. *)
Definition shown_line (e : Stored) : text :=
  s "  [" ++ zeros 4 (dec (global_seq e)) ++ s "] t=" ++ zeros 4 (dec (e_tick (s_entry e))) ++ s "  "
  ++ left_in 14 (e_event (s_entry e)) ++ s " actor=" ++ dec (e_actor (s_entry e))
  ++ s "  val=" ++ dec (e_value (s_entry e)) ++ s "  chain=" ++ e_chain (s_entry e).

(** The entries, with a line for every new boot. *)
Fixpoint show_entries (cur : option Z) (es : list Stored) : list text :=
  match es with
  | [] => []
  | e :: es =>
    (if bool_decide (cur = Some (s_boot e)) then [] else [s "  --- Boot #" ++ dec (s_boot e) ++ s " ---"])
    ++ [shown_line e] ++ show_entries (Some (s_boot e)) es
  end.

Definition show_cmd (file : option text) : option Run :=
  store ← load_store file;
  match all_entries store with
  | [] => Some (mkRun [s "No entries. Run --save first."] file)
  | ae =>
    Some (mkRun ([s "AXIOM MEAL Accumulated Log  (" ++ dec (Z.of_nat (length ae)) ++ s " entries, "
                    ++ dec (Z.of_nat (length (boots store))) ++ s " boots)"; rule]
                 ++ show_entries None ae ++ [rule]) file)
  end.

Definition verify_line (b : PyBoot) : text :=
  let n := Z.of_nat (length (b_entries b)) in
  if seqs_ok b
  then s "  Boot #" ++ dec (b_boot b) ++ s ": " ++ dec n ++ s " entries, seqs 0.." ++ sdec (n - 1) ++ s "  OK"
  else s "  Boot #" ++ dec (b_boot b) ++ s ": SEQUENCE ERROR".

Definition verify_main (file : option text) : option Run :=
  store ← load_store file;
  Some (mkRun (match verify_cmd store with
    | None => [s "No data. Run --save first."]
    | Some ok =>
      [s "Verifying " ++ dec (Z.of_nat (length (boots store))) ++ s " boot(s), "
         ++ dec (Z.of_nat (length (all_entries store))) ++ s " total entries..."]
      ++ (verify_line <$> boots store)
      ++ [s "Chain integrity: verified by kernel at each boot (PASSED in log).";
          if ok then s "MEAL persistence: ALL OK" else s "ISSUES FOUND"]
    end) file).

(** The script, run with [argv] against a kernel whose output is [log]. *)
Definition meal_persist (argv : list text) (log : text) (file : option text) : option Run :=
  if bool_decide (s "--save" ∈ argv) then save_main log file else
  if bool_decide (s "--show" ∈ argv) then show_cmd file else
  if bool_decide (s "--verify" ∈ argv) then verify_main file else
  Some (mkRun [s "Usage: meal_persist.py [--save|--show|--verify]"] file).

(** [--save] after each of several boots. *)
Fixpoint run_saves (logs : list text) (file : option text) : option (option text) :=
  match logs with
  | [] => Some file
  | log :: logs => r ← meal_persist [s "meal_persist.py"; s "--save"] log file; run_saves logs (file_after r)
  end.
End Script.

(** ** The store and its file *)

Lemma mapM_fmap_id {A B} (f : B → option A) (g : A → B) (l : list A) :
  (∀ x, f (g x) = Some x) → mapM f (g <$> l) = Some l.
Proof. intros Hfg. induction l as [|x l IH]; [done|]. rewrite fmap_cons. cbn [mapM]. by rewrite Hfg, IH. Qed.

Lemma entry_json e : entry_of_json (JObj (entry_fields e)) = Some e.
Proof. by destruct e. Qed.

Lemma boot_json b : boot_of_json (json_of_boot b) = Some b.
Proof.
  destruct b as [n es c]. unfold boot_of_json.
  change (get (s "entries") _) with (Some (JArr ((λ e, JObj (entry_fields e)) <$> es))).
  cbn [mbind option_bind as_list]. rewrite (mapM_fmap_id entry_of_json) by apply entry_json. done.
Qed.

Lemma stored_json e : stored_of_json (json_of_stored e) = Some e.
Proof. by destruct e as [gs n []]. Qed.

Lemma store_json st : store_of_json (json_of_store st) = Some st.
Proof.
  destruct st as [bs es]. unfold store_of_json.
  change (get (s "boots") _) with (Some (JArr (json_of_boot <$> bs))).
  change (get (s "all_entries") _) with (Some (JArr (json_of_stored <$> es))).
  cbn [mbind option_bind as_list].
  rewrite (mapM_fmap_id boot_of_json) by apply boot_json. cbn [mbind option_bind].
  rewrite (mapM_fmap_id stored_of_json) by apply stored_json. done.
Qed.

(** What the regular expression lets through. *)
Record wf_py (e : PyEntry) : Prop := {
  wp_seq : 0 <= e_seq e; wp_tick : 0 <= e_tick e; wp_actor : 0 <= e_actor e; wp_value : 0 <= e_value e;
  wp_event : e_event e ≠ []; wp_word : all is_word (e_event e);
  wp_chain : e_chain e ≠ []; wp_hex : all is_hex (e_chain e) }.

Record wf_stored (e : Stored) : Prop := { ws_seq : 0 <= global_seq e; ws_boot : 0 <= s_boot e; ws_entry : wf_py (s_entry e) }.

Record wf_store (st : Store) : Prop := {
  wt_boots : Forall (λ b, Forall wf_py (b_entries b)) (boots st);
  wt_all : Forall wf_stored (all_entries st) }.

Lemma word_char c : is_word c = true → is_char c = true.
Proof. unfold is_word, is_char, is_digit. lia. Qed.

Lemma hex_char c : is_hex c = true → is_char c = true.
Proof. unfold is_hex, is_char, is_digit. lia. Qed.

Lemma wf_entry_fields e : wf_py e → Forall (λ kv, all is_char kv.1 ∧ wf_json kv.2) (entry_fields e).
Proof.
  intros [_ _ _ _ _ Hw _ Hh].
  repeat (apply Forall_cons_2; [split; [by repeat constructor|cbn [snd wf_json]]|]); try done.
  - eapply Forall_impl; [exact Hw|apply word_char].
  - eapply Forall_impl; [exact Hh|apply hex_char].
Qed.

Lemma wf_json_store st : wf_store st → wf_json (json_of_store st).
Proof.
  intros [Hb Ha]. apply wf_fields.
  repeat (apply Forall_cons_2; [split; [by repeat constructor|cbn [snd]]|]); [..|constructor]; apply wf_items, Forall_fmap.
  - eapply Forall_impl; [exact Hb|]. intros b Hes. apply wf_fields.
    repeat (apply Forall_cons_2; [split; [by repeat constructor|cbn [snd]]|]); try done.
    apply wf_items, Forall_fmap. eapply Forall_impl; [exact Hes|]. intros e He. by apply wf_fields, wf_entry_fields.
  - eapply Forall_impl; [exact Ha|]. intros e [_ _ He]. apply wf_fields, Forall_app_2; [|by apply wf_entry_fields].
    repeat (apply Forall_cons_2; [split; [by repeat constructor|done]|]). constructor.
Qed.

(** Loading a saved store. *)
Lemma load_saved st : wf_store st → load_store (Some (save_store st)) = Some st.
Proof.
  intros Hw. cbn [load_store]. unfold save_store. rewrite loads_dumps by (by apply wf_json_store). apply store_json.
Qed.

(** ** What is parsed is well formed, whatever was captured *)

Lemma many_inv {R} cls (k : text → text → option R) acc inp r :
  many cls k acc inp = Some r → ∃ w rest, all cls w ∧ k (reverse w ++ acc) rest = Some r.
Proof.
  revert acc. induction inp as [|c inp IH]; intros acc; cbn [many]; [intros Hk; by exists [], []|].
  destruct (cls c) eqn:Hc; [|intros Hk; by exists [], (c :: inp)].
  destruct (many cls k (c :: acc) inp) as [r'|] eqn:E.
  - intros [= <-]. destruct (IH _ E) as (w & rest & Hw & Hk). exists (c :: w), rest. split; [by constructor|].
    by rewrite reverse_cons, <-(assoc_L (++)).
  - intros Hk. by exists [], (c :: inp).
Qed.

(** The groups of a match, in order, with their classes. *)
Definition group_class (i : Item) : option (Z → bool) := match i with Group cls => Some cls | _ => None end.

Lemma match_groups re inp g :
  match_here re inp = Some g → Forall2 (λ cls w, w ≠ [] ∧ all cls w) (omap group_class re) g.
Proof.
  revert inp g. induction re as [|[t|cls|cls|cls] re IH]; intros inp g; cbn [match_here omap list_omap group_class].
  - intros [= <-]. constructor.
  - destruct (bool_decide _); [apply IH|done].
  - intros (w & rest & _ & Hk)%many_inv. by apply (IH rest).
  - intros (w & rest & _ & Hk)%many_inv. destruct (bool_decide _); [done|]. by apply (IH rest).
  - intros (w & rest & Hw & Hk)%many_inv. case_bool_decide as Hn; [done|].
    apply fmap_Some in Hk as (g' & Hk & ->). rewrite app_nil_r, reverse_involutive in *. constructor; [|by eapply IH].
    split; [|done]. intros ->. by apply Hn.
Qed.

Lemma search_groups re inp g :
  search re inp = Some g → Forall2 (λ cls w, w ≠ [] ∧ all cls w) (omap group_class re) g.
Proof.
  induction inp as [|c inp IH]; cbn [search]; destruct (match_here re _) as [g'|] eqn:E.
  - intros [= <-]. by eapply match_groups.
  - done.
  - intros [= <-]. by eapply match_groups.
  - exact IH.
Qed.

Lemma value_nonneg l a : 0 <= a → Forall (λ d, 0 <= d) l → 0 <= foldl (λ a d, a * 10 + d) a l.
Proof. intros Ha Hl. revert a Ha. induction Hl as [|d l Hd _ IH]; intros a Ha; [done|]. cbn. apply IH. lia. Qed.

Lemma read_digits_nonneg w : all is_digit w → 0 <= read_num 10 w.
Proof.
  intros Hw. apply value_nonneg; [done|]. apply Forall_fmap. eapply Forall_impl; [exact Hw|].
  intros c. cbn. unfold is_digit, undigit. case_match; lia.
Qed.

Lemma parsed_wf log : Forall wf_py (parse_meal_entries log).
Proof.
  apply Forall_forall. intros e He. unfold parse_meal_entries in He.
  apply list_elem_of_omap in He as (line & _ & E). apply bind_Some in E as (g & Hg%search_groups & Hgs).
  cbn [omap list_omap group_class pat] in Hg.
  repeat match goal with H : Forall2 _ (_ :: _) _ |- _ => apply Forall2_cons_inv_l in H as (? & ? & [? ?] & H & ->) end.
  apply Forall2_nil_inv_l in Hg as ->.
  injection Hgs as <-. split; cbn [e_seq e_tick e_event e_actor e_value e_chain]; try done; by apply read_digits_nonneg.
Qed.

(** ** Saving *)

Lemma save_cmd_wf log st st' : wf_store st → save_cmd log st = Some st' → wf_store st'.
Proof.
  intros [Hb Ha] E. pose proof (parsed_wf log) as Hp. unfold save_cmd in E.
  destruct (parse_meal_entries log) as [|e es] eqn:Ee; [done|]. rewrite <-Ee in *. injection E as <-.
  split; cbn [boots all_entries]; apply Forall_app_2; try done.
  - by constructor.
  - apply Forall_fmap. eapply Forall_impl; [exact Hp|]. intros x Hx. pose proof (wp_seq x Hx).
    split; cbn [global_seq s_boot s_entry compose]; [lia|lia|done].
Qed.

(** [save_cmd], leaving the store as it is when there is nothing to add. *)
Definition saved (st : Store) (log : text) : Store := default st (save_cmd log st).

Section Runs.
Variable STORE : text.

Lemma save_main_ok log file st :
  load_store file = Some st → wf_store st →
  ∃ r, save_main STORE log file = Some r ∧ load_store (file_after r) = Some (saved st log) ∧ wf_store (saved st log).
Proof.
  intros Hl Hw. unfold save_main, saved. destruct (save_cmd log st) as [st'|] eqn:E; unfold save_cmd in E;
    destruct (parse_meal_entries log) as [|e es] eqn:Ee; try done.
  - rewrite Hl. cbn [mbind option_bind]. unfold save_cmd. rewrite Ee. cbn [mbind option_bind].
    assert (wf_store st') as Hw'.
    { apply (save_cmd_wf log st); [done|]. unfold save_cmd. by rewrite Ee. }
    injection E as <-. eexists. split; [done|]. cbn [file_after default]. split; [|done]. by apply load_saved.
  - eexists. split; [done|]. by split.
Qed.

(** A run of [--save] on output whose entries are numbered from zero. *)
Lemma save_run_ok log es file st :
  parse_meal_entries log = es → e_seq <$> es = Z.of_nat <$> seq 0 (length es) → es ≠ [] →
  load_store file = Some st → wf_store st → consistent st →
  ∃ r st', meal_persist STORE [s "meal_persist.py"; s "--save"] log file = Some r ∧
    load_store (file_after r) = Some st' ∧ wf_store st' ∧ consistent st' ∧
    s_entry <$> all_entries st' = (s_entry <$> all_entries st) ++ es.
Proof.
  intros Hp Hs Hne Hl Hw Hc. destruct (save_parsed log es st Hp Hs Hne Hc) as (st' & E & Hc' & He & _).
  destruct (save_main_ok log file st Hl Hw) as (r & Er & Hl' & Hw'). unfold saved in *. rewrite E in *.
  exists r, st'. split; [|done]. unfold meal_persist. by rewrite bool_decide_eq_true_2 by (right; left).
Qed.

Lemma run_saves_ok logs file st :
  load_store file = Some st → wf_store st →
  ∃ file', run_saves STORE logs file = Some file' ∧ load_store file' = Some (foldl saved st logs) ∧
    wf_store (foldl saved st logs).
Proof.
  revert file st. induction logs as [|log logs IH]; intros file st Hl Hw; [by exists file|].
  destruct (save_main_ok log file st Hl Hw) as (r & E & Hl' & Hw').
  destruct (IH (file_after r) (saved st log) Hl' Hw') as (file' & E' & H'). exists file'. split; [|exact H'].
  cbn [run_saves]. unfold meal_persist. rewrite bool_decide_eq_true_2 by (right; left). by rewrite E.
Qed.

Lemma empty_store_wf : wf_store empty_store.
Proof. by split. Qed.

(** Saving one after the other without a failure. *)
Lemma save_all_foldl logs st st' : save_all logs st = Some st' → foldl saved st logs = st'.
Proof.
  revert st. induction logs as [|log logs IH]; intros st; cbn [save_all foldl]; [by intros [= ->]|].
  intros (st1 & E1 & E2)%bind_Some. unfold saved at 2. rewrite E1. by apply IH.
Qed.

(** ** The listing *)

(** The entry a line of the listing stands for: numbered through all boots. *)
Definition renumbered (e : Stored) : PyEntry :=
  mkPyEntry (global_seq e) (e_tick (s_entry e)) (e_event (s_entry e)) (e_actor (s_entry e)) (e_value (s_entry e))
    (e_chain (s_entry e)).

Lemma shown_line_split e :
  shown_line e =
  [32; 32] ++ s "[" ++ zeros 4 (dec (global_seq e)) ++ s "]" ++ [32] ++ s "t=" ++ zeros 4 (dec (e_tick (s_entry e)))
  ++ [32; 32] ++ e_event (s_entry e) ++ (replicate (14 - length (e_event (s_entry e))) 32 ++ [32])
  ++ s "actor=" ++ dec (e_actor (s_entry e)) ++ [32; 32] ++ s "val=" ++ dec (e_value (s_entry e))
  ++ [32; 32] ++ s "chain=" ++ e_chain (s_entry e) ++ [].
Proof. unfold shown_line, left_in. by rewrite app_nil_r, <-!(assoc_L (++)). Qed.

Lemma search_shown e :
  wf_stored e → search pat (shown_line e) ≫= entry_of_groups = Some (renumbered e).
Proof.
  intros [Hgs Hb [H1 H2 H3 H4 He Hw Hc Hh]]. rewrite shown_line_split.
  rewrite search_fields.
  - cbn [mbind option_bind entry_of_groups]. unfold renumbered. by rewrite !read_zeros, !read_dec.
  - by repeat constructor.
  - assert (run is_space (replicate (14 - length (e_event (s_entry e))) 32 ++ [32])).
    { split; [by destruct (14 - _)%nat|apply Forall_app_2; [by apply Forall_replicate|by repeat constructor]]. }
    repeat (apply Forall_cons_2; [first [assumption|split; [done|by repeat constructor]]|]). constructor.
  - repeat (apply Forall_cons_2; [by apply zeros_run || by apply dec_run|]). constructor.
  - done.
  - done.
  - done.
Qed.

(** A line without an opening bracket is not an entry. *)
Lemma match_bracket re inp g : match_here (Star is_space :: Lit (bstr "[") :: re) inp = Some g → 91 ∈ inp.
Proof.
  cbn [match_here].
  assert (∀ acc inp, many is_space (λ _ inp0, if bool_decide (bstr "[" `prefix_of` inp0)
    then match_here re (drop (length (bstr "[")) inp0) else None) acc inp = Some g → 91 ∈ inp) as H; [|apply H].
  clear inp. intros acc inp. revert acc. induction inp as [|c inp IH]; intros acc; cbn [many].
  - by case_bool_decide as Hp; [apply prefix_nil_inv in Hp|].
  - assert ((if bool_decide (bstr "[" `prefix_of` c :: inp) then match_here re (drop (length (bstr "[")) (c :: inp))
      else None) = Some g → 91 ∈ c :: inp) as Hhere.
    { case_bool_decide as Hp; [|done]. destruct Hp as [t Ht]. injection Ht as -> _. intros _. left. }
    destruct (is_space c); [|exact Hhere].
    destruct (many _ _ _ inp) eqn:E; [|exact Hhere]. intros [= ->]. right. by eapply IH.
Qed.

Lemma search_bracket inp g : search pat inp = Some g → 91 ∈ inp.
Proof.
  induction inp as [|c inp IH]; cbn [search]; destruct (match_here pat _) as [g'|] eqn:E; try done.
  - intros _. exact (match_bracket _ _ _ E).
  - intros Hg. right. by apply IH.
Qed.

Lemma no_bracket line : 91 ∉ line → search pat line ≫= entry_of_groups = None.
Proof. intros Hl. destruct (search pat line) as [g|] eqn:E; [|done]. by apply search_bracket in E. Qed.

(** Lines of the listing that are printable, those without brackets. *)
Definition no_entry (line : text) : Prop := Forall printable line ∧ 91 ∉ line.

Lemma no_entry_app a b : no_entry a → no_entry b → no_entry (a ++ b).
Proof. intros [H1 H2] [H3 H4]. split; [by apply Forall_app_2|]. rewrite elem_of_app. tauto. Qed.

Lemma no_entry_dec n : 0 <= n → no_entry (dec n).
Proof.
  intros Hn. pose proof (dec_digits n Hn) as Hd. split; [eapply Forall_impl; [exact Hd|apply digit_printable]|].
  intros H91. rewrite Forall_forall in Hd. by specialize (Hd 91 H91).
Qed.

Lemma no_entry_lit line : forallb (λ c, (32 <=? c) && (c <? 127) && negb (c =? 91)) line = true → no_entry line.
Proof.
  intros Hl. assert (Forall (λ c, printable c ∧ c ≠ 91) line) as H.
  { apply Forall_forall. intros c Hc%list_elem_of_In. rewrite forallb_forall in Hl. specialize (Hl c Hc). lia. }
  split; [eapply Forall_impl; [exact H|by intros c []]|]. intros H91. rewrite Forall_forall in H. by destruct (H 91 H91).
Qed.

Lemma shown_printable e : wf_stored e → Forall printable (shown_line e).
Proof.
  intros [Hgs Hb [H1 H2 H3 H4 He Hw Hc Hh]]. unfold shown_line, left_in.
  assert (∀ n, 0 <= n → Forall printable (dec n)) as Hd by (intros n Hn; by apply no_entry_dec).
  repeat match goal with |- Forall _ (_ ++ _) => apply Forall_app_2 end; auto.
  all: try (apply (zeros_all printable); [cbn; lia|by apply Hd]).
  all: try (by apply Forall_replicate).
  all: try (cbn; repeat constructor; lia).
  - eapply Forall_impl; [exact Hw|apply word_printable].
  - eapply Forall_impl; [exact Hh|apply hex_printable].
Qed.

Abbreviation entry_at := (λ line, search pat line ≫= entry_of_groups).

Lemma show_entries_ok cur es :
  Forall wf_stored es →
  Forall (Forall printable) (show_entries cur es) ∧ omap entry_at (show_entries cur es) = renumbered <$> es.
Proof.
  intros Hes. revert cur. induction Hes as [|e es He _ IH]; intros cur; [done|]. cbn [show_entries].
  destruct (IH (Some (s_boot e))) as [IH1 IH2].
  assert (no_entry (s "  --- Boot #" ++ dec (s_boot e) ++ s " ---")) as [Hp Hb].
  { repeat apply no_entry_app; [by apply no_entry_lit|apply no_entry_dec, He|by apply no_entry_lit]. }
  split.
  - apply Forall_app_2; [case_bool_decide; [constructor|by apply Forall_singleton]|]. constructor; [by apply shown_printable|done].
  - rewrite !omap_app, IH2, fmap_cons.
    assert (omap entry_at (if bool_decide (cur = Some (s_boot e)) then []
      else [s "  --- Boot #" ++ dec (s_boot e) ++ s " ---"]) = []) as ->.
    { case_bool_decide; [done|]. cbn [omap list_omap]. by rewrite no_bracket. }
    cbn [omap list_omap app]. by rewrite search_shown.
Qed.
End Runs.

(** ** Properties *)

(** the collector over its file, starting without one: whatever the kernel
    printed in each of the boots, no run of [--save] raises, and the file
    then holds the store that saving the boots one after the other gives. *)
Theorem collector_refines_store STORE logs :
  ∃ file, run_saves STORE logs None = Some file ∧ load_store file = Some (foldl saved empty_store logs).
Proof.
  destruct (run_saves_ok STORE logs None empty_store eq_refl empty_store_wf) as (file & E & Hl & _). by exists file.
Qed.

(** the listing reads back: after any saves, what [--show] prints, taken as
    a log itself, parses to the entries of the store, numbered through all
    boots. *)
Theorem shown_log_parses STORE logs log :
  ∃ file r, run_saves STORE logs None = Some file ∧
    meal_persist STORE [s "meal_persist.py"; s "--show"] log file = Some r ∧ file_after r = file ∧
    parse_meal_entries (unlines (printed r)) = renumbered <$> all_entries (foldl saved empty_store logs).
Proof.
  destruct (run_saves_ok STORE logs None empty_store eq_refl empty_store_wf) as (file & E & Hl & [_ Hw]).
  set (st := foldl saved empty_store logs) in *. exists file.
  assert (∀ log file, meal_persist STORE [s "meal_persist.py"; s "--show"] log file = show_cmd file) as Hshow by done.
  rewrite Hshow. unfold show_cmd. rewrite Hl. cbn [mbind option_bind].
  destruct (all_entries st) as [|e es] eqn:Ea; [by eexists|]. rewrite <-Ea in *.
  eexists. split; [done|]. split; [done|]. split; [done|]. cbn [printed].
  destruct (show_entries_ok None (all_entries st) Hw) as [Hp Ho].
  assert (no_entry (s "AXIOM MEAL Accumulated Log  (" ++ dec (Z.of_nat (length (all_entries st))) ++ s " entries, "
    ++ dec (Z.of_nat (length (boots st))) ++ s " boots)")) as [H1 H2].
  { repeat apply no_entry_app; first [by apply no_entry_lit|apply no_entry_dec; lia]. }
  assert (no_entry rule) as [R1 R2] by (by apply no_entry_lit).
  unfold parse_meal_entries. rewrite <-(app_nil_r (unlines _)), splitlines_unlines.
  2: { apply Forall_app_2; [by repeat (apply Forall_cons_2; [done|])|]. apply Forall_app_2; [done|by apply Forall_singleton]. }
  change (splitlines []) with (@nil text). rewrite app_nil_r, !omap_app, Ho. cbn [omap list_omap].
  by rewrite !no_bracket, app_nil_r by done.
Qed.

Section Boots.
Context `{ops : HashOps} {laws : HashLaws ops} `{Uart}.

(** C21: from the kernel to the file: boots that each logged between one and 64
    entries, saved one after the other without a file to start from: no run
    raises, the file then holds exactly the logged entries in order, numbered
    consecutively, and [--verify] reports that all is well. *)
Theorem collector_accumulates STORE logs hists log :
  Forall2 captured logs hists → Forall (λ h, 0 < length h <= CAPACITY)%nat hists → logs ≠ [] →
  ∃ file st r, run_saves STORE logs None = Some file ∧ load_store file = Some st ∧
    s_entry <$> all_entries st = hists ≫= (λ h, py_entry <$> h) ∧
    global_seq <$> all_entries st = Z.of_nat <$> seq 0 (length (all_entries st)) ∧
    meal_persist STORE [s "meal_persist.py"; s "--verify"] log file = Some r ∧ file_after r = file ∧
    last (printed r) = Some (s "MEAL persistence: ALL OK").
Proof.
  intros Hc Hb Hne. destruct (save_all_accumulates logs hists Hc Hb Hne) as (st & E & Hv & He & Hg).
  destruct (run_saves_ok STORE logs None empty_store eq_refl empty_store_wf) as (file & Er & Hl & _).
  rewrite (save_all_foldl _ _ _ E) in Hl.
  assert (∀ log file, meal_persist STORE [s "meal_persist.py"; s "--verify"] log file = verify_main file) as Hver by done.
  eexists file, st, _. split; [done|]. split; [done|]. split; [done|]. split; [done|].
  rewrite Hver. unfold verify_main. rewrite Hl. cbn [mbind option_bind]. rewrite Hv. split; [done|]. split; [done|].
  cbn [printed]. rewrite (assoc_L (++)). change [?a; ?b] with ([a] ++ [b]). by rewrite (assoc_L (++)), last_snoc.
Qed.
End Boots.

Lemma collector_accumulates_witness :
  ∃ log file st, run_saves (s "store.json") [log; log] None = Some file ∧ load_store file = Some st ∧
    (global_seq <$> all_entries st) = [0; 1].
Proof.
  destruct first_captured as [log Hl]. exists log.
  destruct (@collector_accumulates _ (@crypto_laws dev_profile) plain_uart (s "store.json") [log; log]
    [[first_entry]; [first_entry]] []) as (file & st & r & E & El & He & Hg & _);
    [by repeat constructor|by repeat constructor; vm_compute|done|].
  exists file, st. split; [exact E|]. split; [exact El|]. rewrite Hg.
  apply (f_equal length) in He. rewrite length_fmap in He. by rewrite He.
Defined.

(** A corrupt file: every command that loads it raises. *)
Example corrupt_file STORE : show_cmd (Some (s "{")) = None ∧ verify_main (Some (s "{")) = None ∧
  meal_persist STORE [s "--verify"] [] (Some (s "[]")) = None.
Proof. split; [|split]; reflexivity. Qed.
