(* ===== verification/CapDemo.v ===== *)
(** * The capability demonstration

    Model of [axiom/mod.rs], of the demonstration at the end of
    [axiom/capability.rs] and of the placeholder hash [axiom/demo_crypto.rs].
    The demonstration returns what it prints and its audit calls.

    Shown here: the demonstration reports what its text claims, for any hash
    functions within the interface, up to an HMAC coincidence in its last
    line, and literally for the kernel's own; the hexadecimal helper loses
    nothing; the placeholder hash detects any change of one byte but cannot
    tell a key from the key with its halves exchanged. *)

From S2P Require Import Prelude Interfaces Crypto Meal Capability.
From Stdlib Require Import ZArith Lia.
From stdpp Require Import base numbers list strings.
#[local] Open Scope Z_scope.

(** ** Hexadecimal *)

Definition HEX : list Z := bstr "0123456789abcdef".

Definition hex8 (b : list Z) : outcome (list Z) :=
  for_out 0 8 (λ i out,
    x ← index b i;
    hi ← index HEX (Z.to_nat (Z.shiftr x 4));
    out ← store out (i * 2) hi;
    lo ← index HEX (Z.to_nat (Z.land x 0xf));
    store out (i * 2 + 1) lo) (replicate 16 0).

(** ** The placeholder hash *)

Definition FNV_OFFSET : Z := 0xcbf29ce484222325.
Definition FNV_PRIME : Z := 0x100000001b3.

Definition keyed_hash (key : Z) (data : list Z) : Z :=
  let hash := Z.lxor FNV_OFFSET key in
  let hash := foldl (λ hash byte, wmul 64 (Z.lxor hash byte) FNV_PRIME) hash data in
  let hash := Z.lxor hash (rotl 64 key 32) in
  wmul 64 hash FNV_PRIME.

Definition tags_equal (a b : Z) : bool := Z.lxor a b =? 0.

(** ** The demonstration *)

(** What is printed, in order. *)
Record DemoReport := mkDemoReport {
  sha_hex : list Z; hmac_hex : list Z; hmac_ok : bool; sha256_ok : bool;
  root_cap : Capability; root_hex : list Z;
  live_verdict : bool; live_ttl : Z;
  child_cap : option (Capability * list Z);
  escalation_refused : bool; expired_verdict : bool; forged_verdict : bool; wrong_key_verdict : bool }.

Section Demo.
Context `{HashOps}.

Definition demonstrate : outcome (DemoReport * list Audit) :=
  let K := demo_key in
  empty_hash ← h_sha256 [];
  h8 ← hex8 empty_hash;
  e0 ← index empty_hash 0;
  e1 ← index empty_hash 1;
  let sha256_ok := (e0 =? 0xe3) && (e1 =? 0xb0) in
  hmac_result ← h_hmac_sha256 (replicate 20 0x0b) (bstr "Hi There");
  r0 ← index hmac_result 0;
  r1 ← index hmac_result 1;
  let hmac_ok := (r0 =? 0xb0) && (r1 =? 0x34) in
  h2 ← hex8 hmac_result;
  let object_id := 0xF11E in
  cap ← mint K object_id (Z.lor (Z.lor READ WRITE) DERIVE) 1000;
  let audits := [mkAudit CapabilityDerived 0 object_id 1000] in
  m8 ← hex8 (mac cap);
  let now := 500 in
  live ← verify cap K now;
  d ← derive cap K now READ 800;
  '(child, audits) ← match d with
                     | Some child =>
                       c8 ← hex8 (mac child);
                       Ret (Some (child, c8), audits ++ [mkAudit CapabilityDerived 0 object_id 800])
                     | None => Ret (None, audits)
                     end;
  esc ← derive cap K now (Z.lor READ EXECUTE) 800;
  expired ← verify cap K 1500;
  m0 ← index (mac cap) 0;
  let forged := mkCapability (Capability.object_id cap) (rights cap) (expires_at cap) (depth cap)
                  (parent_hash cap) (<[0%nat := Z.lxor m0 1]> (mac cap)) in
  forged_ok ← verify forged K now;
  wrong ← verify cap (replicate 32 0xAA) now;
  Ret (mkDemoReport h8 h2 hmac_ok sha256_ok cap m8 live (ttl cap now) child
         (negb (bool_decide (is_Some esc))) expired forged_ok wrong, audits).

(** [axiom::run_demo]. *)
Definition run_demo : outcome (DemoReport * list Audit) := demonstrate.
End Demo.

(** ** Facts *)

Definition unhex_digit (c : Z) : Z := if c <? 97 then c - 48 else c - 87.

Lemma HEX_digit d : 0 <= d < 16 → ∃ c, index HEX (Z.to_nat d) = Ret c ∧ unhex_digit c = d.
Proof.
  intros Hd. assert (∃ n : nat, d = Z.of_nat n ∧ (n < 16)%nat) as (n & -> & Hn) by (exists (Z.to_nat d); lia).
  rewrite Nat2Z.id. do 16 (destruct n as [|n]; [eexists; split; [reflexivity|reflexivity]|]). lia.
Qed.

(** The pairs of digits, read back. *)
Fixpoint unhex (l : list Z) : list Z :=
  match l with
  | h :: l' => match l' with o :: l => 16 * unhex_digit h + unhex_digit o :: unhex l | [] => [] end
  | [] => []
  end.

Lemma nibbles x : u8 x → 0 <= Z.shiftr x 4 < 16 ∧ 0 <= Z.land x 0xf < 16 ∧ 16 * Z.shiftr x 4 + Z.land x 0xf = x.
Proof.
  intros [H1 H2]. rewrite Z.shiftr_div_pow2 by lia. change 0xf with (Z.ones 4). rewrite Z.land_ones by lia.
  change (2 ^ 4) with 16. change (2 ^ 8) with 256 in H2.
  pose proof (Z.div_mod x 16 ltac:(lia)). pose proof (Z.mod_pos_bound x 16 ltac:(lia)).
  assert (0 <= x / 16) by (apply Z.div_pos; lia). assert (x / 16 < 16) by (apply Z.div_lt_upper_bound; lia).
  lia.
Qed.

(** The prefix after writing its last two places. *)
Lemma take_two_inserts {A} n (l : list A) c d :
  (n + 1 < length l)%nat →
  take (n + 2) (<[(n + 1)%nat := d]> (<[n := c]> l)) = take n l ++ [c; d].
Proof.
  intros Hn. rewrite Nat.add_succ_r.
  rewrite (take_S_r _ _ d) by (apply list_lookup_insert_eq; rewrite length_insert; lia).
  rewrite take_insert_ge, Nat.add_1_r by lia.
  rewrite (take_S_r _ _ c) by (apply list_lookup_insert_eq; lia).
  rewrite take_insert_ge by lia. by rewrite <-(assoc_L (++)).
Qed.

Lemma unhex_snoc n l h o :
  length l = (2 * n)%nat → unhex (l ++ [h; o]) = unhex l ++ [16 * unhex_digit h + unhex_digit o].
Proof.
  revert l. induction n as [|n IH]; intros l Hl; [by destruct l|].
  destruct l as [|x [|y l]]; [simpl in Hl; lia..|]. cbn [app unhex]. rewrite IH; [done|]. simpl in Hl. lia.
Qed.

Lemma hex8_ok b :
  bytes b → (8 <= length b)%nat →
  ∃ out, hex8 b = Ret out ∧ length out = 16%nat ∧ unhex out = take 8 b.
Proof.
  intros Hb Hl. unfold hex8.
  edestruct (for_out_ind (λ i out, length out = 16%nat ∧ unhex (take (2 * i) out) = take i b) 0 8)
    as (out & -> & Hlen & Hu); [lia|done| |exists out; split; [done|]; split; [done|]].
  - intros i out Hi [Hlen Hu]. destruct (lookup_lt_is_Some_2 b i) as [x Hx]; [lia|].
    destruct (nibbles x) as (Hh & Ho & E); [by eapply Forall_lookup_1 in Hb|].
    destruct (HEX_digit _ Hh) as (c & Ec & Uc). destruct (HEX_digit _ Ho) as (d & Ed & Ud).
    rewrite (index_ok _ _ x), bind_Ret, Ec, bind_Ret by done.
    rewrite store_ok, bind_Ret, Ed, bind_Ret, store_ok by (rewrite ?length_insert; lia).
    eexists. split; [done|]. rewrite !length_insert. split; [done|].
    replace (2 * S i)%nat with (i * 2 + 2)%nat by lia. rewrite (take_two_inserts (i * 2)), (unhex_snoc i) by (rewrite ?length_take; lia).
    rewrite Nat.mul_comm, Hu, Uc, Ud, E. symmetry. by apply take_S_r.
  - by rewrite take_ge in Hu by lia.
Qed.

(** ** The placeholder hash *)

Definition fnv_step (hash byte : Z) : Z := wmul 64 (Z.lxor hash byte) FNV_PRIME.

(** The multiplier is odd, hence invertible modulo 2^64. *)
Lemma wmul_prime_inj a b : u64 a → u64 b → wmul 64 a FNV_PRIME = wmul 64 b FNV_PRIME → a = b.
Proof.
  intros Ha Hb E. unfold wmul, wrap in E.
  assert (∀ x, u64 x → (x * FNV_PRIME) mod 2 ^ 64 * 0xce965057aff6957b mod 2 ^ 64 = x) as Hinv.
  { intros x Hx. rewrite Z.mul_mod_idemp_l, <-Z.mul_assoc by lia.
    rewrite <-Z.mul_mod_idemp_r by lia. change ((FNV_PRIME * 0xce965057aff6957b) mod 2 ^ 64) with 1.
    rewrite Z.mul_1_r. by apply Z.mod_small. }
  rewrite <-(Hinv a Ha), <-(Hinv b Hb). by rewrite E.
Qed.

Lemma u64_fnv_step hash byte : u64 (fnv_step hash byte).
Proof. by apply uint_wrap. Qed.

Lemma fold_u64 data hash : u64 hash → u64 (foldl fnv_step hash data).
Proof.
  revert hash. induction data as [|b data IH]; intros hash Hh; [done|]. apply IH, u64_fnv_step.
Qed.

Lemma u8_u64 b : u8 b → u64 b.
Proof. unfold uint. lia. Qed.

Lemma fnv_step_inj h h' b b' :
  u64 h → u64 h' → u8 b → u8 b' → fnv_step h b = fnv_step h' b' → Z.lxor h b = Z.lxor h' b'.
Proof.
  intros. apply wmul_prime_inj; [apply uint_lxor; auto using u8_u64; lia..|done].
Qed.

Lemma fold_inj data h h' :
  u64 h → u64 h' → bytes data → foldl fnv_step h data = foldl fnv_step h' data → h = h'.
Proof.
  intros Hh Hh' Hd. revert h h' Hh Hh'. induction Hd as [|b data Hb _ IH]; intros h h' Hh Hh' E; [done|].
  apply IH, fnv_step_inj in E; [|done|done|done|done|apply u64_fnv_step|apply u64_fnv_step].
  by eapply lxor_inj.
Qed.

Lemma keyed_hash_fold key data :
  keyed_hash key data
  = wmul 64 (Z.lxor (foldl fnv_step (Z.lxor FNV_OFFSET key) data) (rotl 64 key 32)) FNV_PRIME.
Proof. done. Qed.

Lemma u64_lxor a b : u64 a → u64 b → u64 (Z.lxor a b).
Proof. apply uint_lxor. lia. Qed.

Lemma keyed_hash_fold_inj key d d' :
  u64 key → keyed_hash key d = keyed_hash key d' →
  foldl fnv_step (Z.lxor FNV_OFFSET key) d = foldl fnv_step (Z.lxor FNV_OFFSET key) d'.
Proof.
  intros Hk E. assert (u64 (Z.lxor FNV_OFFSET key)) as H0 by (by apply u64_lxor).
  assert (u64 (rotl 64 key 32)) as Hr by (by apply uint_rotl).
  rewrite !keyed_hash_fold in E. apply wmul_prime_inj in E; [|by apply u64_lxor, Hr; apply fold_u64..].
  by eapply lxor_inj.
Qed.

(** A rotation by half the width is its own inverse. *)
Lemma rotl_half x : u64 x → rotl 64 (rotl 64 x 32) 32 = x.
Proof.
  intros Hx. assert (u64 (rotl 64 x 32)) by (by apply uint_rotl).
  apply Z.bits_inj'. intros i Hi.
  destruct (Z.lt_ge_cases i 64) as [Hlt|Hge]; [|by rewrite !(uint_testbit 64) by (done || by apply uint_rotl)].
  rewrite !(rotl_testbit 64) by (done || destruct (Z.leb_spec 32 i); lia).
  destruct (Z.leb_spec 32 i); [rewrite (proj2 (Z.leb_gt _ _)) by lia|rewrite (proj2 (Z.leb_le _ _)) by lia];
    f_equal; lia.
Qed.

(** A changed byte always changes the placeholder's tag. *)
Theorem fnv_detects_byte key pre b b' post :
  u64 key → bytes post → u8 b → u8 b' →
  tags_equal (keyed_hash key (pre ++ b :: post)) (keyed_hash key (pre ++ b' :: post)) = bool_decide (b = b').
Proof.
  intros Hk Hp Hb Hb'. unfold tags_equal. apply eq_true_iff_eq.
  rewrite Z.eqb_eq, bool_decide_eq_true, Z.lxor_eq_0_iff. split; [|by intros ->].
  intros E%keyed_hash_fold_inj; [|done]. rewrite !foldl_app in E. cbn [foldl] in E.
  apply fold_inj in E; [|apply u64_fnv_step|apply u64_fnv_step|done].
  apply fnv_step_inj in E; [|apply fold_u64, u64_lxor; done|apply fold_u64, u64_lxor; done|done|done].
  rewrite !(Z.lxor_comm (foldl _ _ _)) in E. by eapply lxor_inj.
Qed.

(** It cannot tell a key from the key with its halves exchanged, on the
    empty message. *)
Theorem fnv_key_halves key :
  u64 key → keyed_hash key [] = keyed_hash (rotl 64 key 32) [].
Proof.
  intros Hk. rewrite !keyed_hash_fold, rotl_half by done. cbn [foldl].
  by rewrite !Z.lxor_assoc, (Z.lxor_comm key).
Qed.

(** ** What the demonstration reports *)

Section Report.
Context `{ops : HashOps} {laws : HashLaws ops}.

Let root := minted demo_key 0xF11E 0x0b 1000.

Lemma demo_root_ok : wf_cap root.
Proof. apply wf_minted; [split; lia..]. Qed.

(** One flipped bit of a MAC is another MAC. *)
Lemma flipped_mac_ok (c : Capability) k m0 :
  length k = 32%nat → wf_cap c → authentic k c → mac c !! 0%nat = Some m0 →
  verify (mkCapability (object_id c) (rights c) (expires_at c) (depth c) (parent_hash c)
            (<[0%nat := Z.lxor m0 1]> (mac c))) k 500 = Ret false.
Proof.
  intros Hk Hw Ha H0. rewrite verify_ok.
  - rewrite bool_decide_eq_false_2; [done|]. intros [_ E]. unfold authentic in E.
    change (hmac_fn k _) with (hmac_fn k (auth_of c)) in E. rewrite <-Ha in E. cbn [mac] in E. apply (f_equal (λ l, l !! 0%nat)) in E.
    rewrite list_lookup_insert_eq, H0 in E by (by eapply lookup_lt_Some). injection E as E.
    apply (f_equal (Z.lxor m0)) in E.
    by rewrite <-Z.lxor_assoc, Z.lxor_nilpotent in E.
  - done.
  - destruct Hw. split; cbn; try done; [by rewrite length_insert|].
    apply Forall_insert; [done|]. apply uint_lxor; [lia| |done]. by eapply Forall_lookup_1 in H0.
Qed.

Lemma index_hash (l : list Z) i : length l = 32%nat → (i < 32)%nat → index l i = Ret (l !!! i).
Proof. intros Hl Hi. apply index_ret. lia. Qed.

Theorem demonstrate_reports :
  ∃ r, demonstrate = Ret (r, [mkAudit CapabilityDerived 0 0xF11E 1000; mkAudit CapabilityDerived 0 0xF11E 800]) ∧
    root_cap r = root ∧ unhex (root_hex r) = take 8 (mac root) ∧
    live_verdict r = true ∧ live_ttl r = 500 ∧
    (∃ c8, child_cap r = Some (child demo_key root READ 800, c8)) ∧
    escalation_refused r = true ∧ expired_verdict r = false ∧ forged_verdict r = false ∧
    (wrong_key_verdict r = true ↔ hmac_fn (replicate 32 0xAA) (auth_of root) = hmac_fn demo_key (auth_of root)) ∧
    let e := sha256_fn [] in
    let h := hmac_fn (replicate 20 0x0b) (bstr "Hi There") in
    hex8 e = Ret (sha_hex r) ∧ hex8 h = Ret (hmac_hex r) ∧
    sha256_ok r = (e !!! 0%nat =? 0xe3) && (e !!! 1%nat =? 0xb0) ∧
    hmac_ok r = (h !!! 0%nat =? 0xb0) && (h !!! 1%nat =? 0x34).
Proof.
  pose proof demo_root_ok as Hw. unfold demonstrate.
  assert (length demo_key = 32%nat) as Hk by done.
  rewrite sha256_ret, bind_Ret by done.
  destruct (hex8_ok (sha256_fn [])) as (h8 & Eh8 & _); [auto with axiom_os|rewrite length_sha256_fn; lia|].
  rewrite Eh8, bind_Ret, !index_hash, !bind_Ret by (apply length_sha256_fn || lia).
  rewrite hmac_ret, bind_Ret by done.
  rewrite !index_hash, !bind_Ret by (apply length_hmac_fn || lia).
  destruct (hex8_ok (hmac_fn (replicate 20 11) (bstr "Hi There"))) as (h2 & Eh2 & _);
    [auto with axiom_os|rewrite length_hmac_fn; lia|].
  rewrite Eh2, bind_Ret, mint_ok, bind_Ret by done. change (Z.lor (Z.lor READ WRITE) DERIVE) with 0x0b. fold root.
  destruct (hex8_ok (mac root)) as (m8 & -> & _ & Hm8); [apply Hw|rewrite (wf_mac_len _ Hw); lia|].
  rewrite bind_Ret, (verify_ok demo_key Hk root 500), bind_Ret by done.
  rewrite (derive_granted demo_key Hk root 500 READ 800), bind_Ret; [|done|done|split; try done; by apply escalation_guard].
  destruct (hex8_ok (mac (child demo_key root READ 800))) as (c8 & -> & _);
    [apply bytes_hmac_fn|cbn [child mac]; rewrite length_hmac_fn; lia|].
  rewrite !bind_Ret, (derive_refused demo_key Hk root 500 (Z.lor READ EXECUTE) 800), bind_Ret; [|done|done|].
  2: { intros [_ _ _ Hs _ _]. apply escalation_guard in Hs; done. }
  rewrite (verify_ok demo_key Hk root 1500), bind_Ret by done. rewrite index_hash, bind_Ret by (apply Hw || lia).
  rewrite (flipped_mac_ok root demo_key (mac root !!! 0%nat)), bind_Ret;
    [|done|done|apply authentic_minted|apply list_lookup_lookup_total_lt; pose proof (wf_mac_len _ Hw); lia].
  rewrite (verify_ok (replicate 32 0xAA) eq_refl root 500), bind_Ret by done. eexists. split; [reflexivity|].
  cbn [root_cap root_hex live_verdict live_ttl child_cap escalation_refused expired_verdict forged_verdict
    wrong_key_verdict sha_hex hmac_hex sha256_ok hmac_ok].
  split; [done|]. split; [done|]. split; [by apply bool_decide_eq_true_2|]. split; [done|].
  split; [by exists c8|]. split; [done|]. split; [by apply bool_decide_eq_false_2; intros [? _]|]. split; [done|].
  split; [|done].
  rewrite bool_decide_eq_true. split; [intros [_ E]; symmetry; exact E|intros E; split; [done|symmetry; exact E]].
Qed.
End Report.

(** The first bytes of the two digests and of the two keys' MACs of the
    root capability; none of them depends on the profile. *)
Lemma empty_digest {P : Profile} :
  sha256_fn (HashLaws := crypto_laws) [] = [0xe3; 0xb0; 0xc4; 0x42; 0x98; 0xfc; 0x1c; 0x14; 0x9a; 0xfb; 0xf4; 0xc8; 0x99; 0x6f; 0xb9; 0x24;
     0x27; 0xae; 0x41; 0xe4; 0x64; 0x9b; 0x93; 0x4c; 0xa4; 0x95; 0x99; 0x1b; 0x78; 0x52; 0xb8; 0x55].
Proof. vm_compute. reflexivity. Qed.

Lemma hi_there_mac {P : Profile} :
  hmac_fn (HashLaws := crypto_laws) (replicate 20 0x0b) (bstr "Hi There") = [0xb0; 0x34; 0x4c; 0x61; 0xd8; 0xdb; 0x38; 0x53; 0x5c; 0xa8; 0xaf; 0xce; 0xaf; 0x0b; 0xf1; 0x2b;
     0x88; 0x1d; 0xc2; 0x00; 0xc9; 0x83; 0x3d; 0xa7; 0x26; 0xe9; 0x37; 0x6c; 0x2e; 0x32; 0xcf; 0xf7].
Proof. vm_compute. reflexivity. Qed.

Lemma wrong_key_mac {P : Profile} :
  let m := auth_of (minted (laws := crypto_laws) demo_key 0xF11E 0x0b 1000) in
  hmac_fn (HashLaws := crypto_laws) (replicate 32 0xAA) m ≠ hmac_fn (HashLaws := crypto_laws) demo_key m.
Proof. intros m E. apply (f_equal head) in E. vm_compute in E. discriminate E. Qed.

(** With the kernel's own hash functions the self-tests succeed as well and
    the wrong key is refused. *)
Theorem demonstrate_kernel {P : Profile} :
  ∃ r, @demonstrate (@crypto_ops P)
       = Ret (r, [mkAudit CapabilityDerived 0 0xF11E 1000; mkAudit CapabilityDerived 0 0xF11E 800]) ∧
    sha_hex r = bstr "e3b0c44298fc1c14" ∧ hmac_hex r = bstr "b0344c61d8db3853" ∧
    sha256_ok r = true ∧ hmac_ok r = true ∧ wrong_key_verdict r = false.
Proof.
  destruct (demonstrate_reports (laws := crypto_laws)) as (r & E & _ & _ & _ & _ & _ & _ & _ & _ & Hw & Hs & Hh & Es & Eh).
  exists r. split; [exact E|]. clear E. cbn zeta in Hs, Hh, Es, Eh.
  rewrite empty_digest in Hs, Es. rewrite hi_there_mac in Hh, Eh.
  injection Hs as <-. injection Hh as <-. rewrite Es, Eh. repeat (split; [reflexivity|]).
  apply not_true_is_false. intros W. apply Hw in W. by apply wrong_key_mac in W.
Qed.
