(* ===== verification/Eipc.v ===== *)
(** * EIPC: encrypted inter-process communication

    Model of [kernel/src/eipc.rs]: the four-slot channel of ciphertexts with
    [enqueue] and [dequeue], the counter nonces, and the demonstration's
    sender, receiver and tamper test over ChaCha20-Poly1305.  The audit calls
    the code makes are returned as a list, in order.

    Shown here: the ring implements a FIFO queue bounded by four for every
    sequence of operations; nonces never repeat; what a sender enqueues the
    receiver decrypts, in order, for any plaintexts that fit; and the whole
    demonstration passes. *)

From S2P Require Import Prelude Interfaces Crypto CryptoAead Poly1305 Meal.
From Stdlib Require Import ZArith Lia.
From stdpp Require Import base numbers list strings.
#[local] Open Scope Z_scope.

(** ** The channel *)

Record EipcMessage := mkEipcMessage {
  sender_id : Z; seq : Z; nonce : list Z; ct : list Z; ct_len : nat; tag : list Z }.

Definition CAP : nat := 4.

Record EipcChannel := mkEipcChannel {
  slots : list (option EipcMessage); head : nat; tail : nat; count : nat }.

Definition new : EipcChannel := mkEipcChannel [None; None; None; None] 0 0 0.

Definition enqueue (ch : EipcChannel) (msg : EipcMessage) : outcome (EipcChannel * bool) :=
  if (CAP <=? count ch)%nat then Ret (ch, false) else
  slots' ← store (slots ch) (tail ch) (Some msg);
  Ret (mkEipcChannel slots' (head ch) ((tail ch + 1) mod CAP) (count ch + 1), true).

Definition dequeue (ch : EipcChannel) : outcome (EipcChannel * option EipcMessage) :=
  if (count ch =? 0)%nat then Ret (ch, None) else
  msg ← index (slots ch) (head ch);
  slots' ← store (slots ch) (head ch) None;
  Ret (mkEipcChannel slots' ((head ch + 1) mod CAP) (tail ch) (count ch - 1), msg).

(** ** Endpoints *)

Definition make_nonce (seq : Z) : list Z := splice 4 (le_bytes 8 seq) (replicate 12 0).

Definition AAD : list Z := bstr "AXIOM-EIPC-v1".

Section Endpoints.
Context `{Profile} `{HashOps}.

Definition cap_chain_hash : outcome (list Z) := h_sha256 (bstr "AXIOM-EIPC-DEMO-CAP-CHAIN-v4").

(** One iteration of the sender's loop: encrypt plaintext number [i],
    enqueue (the result is ignored), log. *)
Definition send (session_key : list Z) (i : nat) (pt : list Z) (s : EipcChannel * list Audit)
    : outcome (EipcChannel * list Audit) :=
  let '(ch, audits) := s in
  let sq := wrap 32 (Z.of_nat (i + 1)) in
  let n := make_nonce sq in
  let ct_buf := replicate 64 0 in
  view ← slice 0 (length pt) ct_buf;
  '(view, tg) ← chacha20_poly1305_seal session_key n AAD pt view;
  ct_buf ← copy_into 0 (length pt) view ct_buf;
  '(ch, _) ← enqueue ch (mkEipcMessage 1 sq n ct_buf (length pt) tg);
  Ret (ch, audits ++ [mkAudit EipcSend 1 sq (Z.of_nat (length pt))]).

Fixpoint send_all (session_key : list Z) (i : nat) (pts : list (list Z))
    (s : EipcChannel * list Audit) : outcome (EipcChannel * list Audit) :=
  match pts with
  | [] => Ret s
  | pt :: pts => s' ← send session_key i pt s; send_all session_key (S i) pts s'
  end.

(** The receiver's state: the channel, whether the loop goes on, the count
    of accepted messages, the verdict, the plaintexts shown, the audit
    calls. *)
Record Receiver := mkReceiver {
  rx_ch : EipcChannel; running : bool; received : Z; all_ok : bool;
  shown : list (list Z); rx_audits : list Audit }.

Definition receive_step (session_key : list Z) (r : Receiver) : outcome Receiver :=
  '(ch, msg) ← dequeue (rx_ch r);
  match msg with
  | None => Ret (mkReceiver ch false (received r) (all_ok r) (shown r) (rx_audits r))
  | Some m =>
    let pt_buf := replicate 64 0 in
    c ← slice 0 (ct_len m) (ct m);
    view ← slice 0 (ct_len m) pt_buf;
    '(ok, view) ← chacha20_poly1305_open session_key (nonce m) AAD c (tag m) view;
    pt_buf ← copy_into 0 (ct_len m) view pt_buf;
    if negb ok then Ret (mkReceiver ch true (received r) false (shown r) (rx_audits r))
    else
      s ← slice 0 (ct_len m) pt_buf;
      received' ← add 32 (received r) 1;
      Ret (mkReceiver ch true received' (all_ok r) (shown r ++ [s])
        (rx_audits r ++ [mkAudit EipcReceive 2 (seq m) (Z.of_nat (ct_len m))]))
  end.

(** The [loop]; a channel holds at most [CAP] messages, so [CAP + 1]
    iterations end it. *)
Definition receive_all (session_key : list Z) (ch : EipcChannel) : outcome Receiver :=
  while_ (CAP + 1) running (receive_step session_key) (mkReceiver ch true 0 true [] []).

Definition tamper_test (session_key : list Z) : outcome bool :=
  let n := make_nonce 99 in
  let pt := bstr "tamper test" in
  view ← slice 0 (length pt) (replicate 64 0);
  '(view, tg) ← chacha20_poly1305_seal session_key n AAD pt view;
  buf ← copy_into 0 (length pt) view (replicate 64 0);
  let buf := <[0%nat := Z.lxor (buf !!! 0%nat) 1]> buf in
  c ← slice 0 (length pt) buf;
  out ← slice 0 (length pt) (replicate 64 0);
  '(ok, _) ← chacha20_poly1305_open session_key n AAD c tg out;
  Ret (negb ok).

Definition plaintexts : list (list Z) :=
  [bstr "Hello AXIOM! (message 1)"; bstr "TCD capability = session."; bstr "Kernel sees: zero bits."].

(** Returns whether the checkpoint line is printed, the plaintexts shown,
    the channel left behind and the audit calls. *)
Definition run_demo (ch : EipcChannel) : outcome (bool * list (list Z) * EipcChannel * list Audit) :=
  cap_hash ← cap_chain_hash;
  session_key ← eipc_session_key cap_hash 1 2;
  '(ch, sent) ← send_all session_key 0 plaintexts (ch, []);
  r ← receive_all session_key ch;
  rejected ← tamper_test session_key;
  let ok := all_ok r && rejected in
  Ret (ok && (received r =? 3), shown r, rx_ch r, sent ++ rx_audits r).
End Endpoints.

(** ** The queue the channel implements *)

Record queue_inv (ch : EipcChannel) (q : list EipcMessage) : Prop := {
  qi_slots : length (slots ch) = CAP;
  qi_head : (head ch < CAP)%nat;
  qi_tail : tail ch = ((head ch + count ch) mod CAP)%nat;
  qi_count : count ch = length q;
  qi_bound : (length q <= CAP)%nat;
  qi_ring : unroll (head ch) (slots ch) = (Some <$> q) ++ replicate (CAP - length q) None;
}.

Lemma new_queue : queue_inv new [].
Proof. split; done || unfold CAP; simpl; lia. Qed.

Lemma enqueue_full ch q m :
  queue_inv ch q → length q = CAP → enqueue ch m = Ret (ch, false).
Proof. intros Hq Hl. unfold enqueue. by rewrite (qi_count _ _ Hq), Hl. Qed.

Lemma enqueue_room ch q m :
  queue_inv ch q → (length q < CAP)%nat →
  ∃ ch', enqueue ch m = Ret (ch', true) ∧ queue_inv ch' (q ++ [m]).
Proof.
  intros [Hs Hh Ht Hc Hb Hr] Hl. unfold enqueue. rewrite (proj2 (Nat.leb_gt _ _)) by lia.
  rewrite store_ok, bind_Ret by (rewrite Hs, Ht; by apply Nat.mod_upper_bound).
  eexists. split; [reflexivity|]. split; cbn [slots head tail count].
  - by rewrite length_insert.
  - done.
  - rewrite Ht, Nat.Div0.add_mod_idemp_l. f_equal. lia.
  - rewrite length_app. simpl. lia.
  - rewrite length_app. simpl. lia.
  - rewrite Ht, <-Hs, unroll_insert, Hr, Hs by lia.
    rewrite insert_app_r_alt by (rewrite length_fmap; lia).
    rewrite length_fmap, Hc, Nat.sub_diag, length_app, fmap_app, <-(assoc_L (++)).
    replace (CAP - length q)%nat with (S (CAP - (length q + 1))) by lia. done.
Qed.

Lemma dequeue_empty ch : queue_inv ch [] → dequeue ch = Ret (ch, None).
Proof. intros Hq. unfold dequeue. by rewrite (qi_count _ _ Hq). Qed.

Lemma dequeue_first ch m q :
  queue_inv ch (m :: q) → ∃ ch', dequeue ch = Ret (ch', Some m) ∧ queue_inv ch' q.
Proof.
  intros [Hs Hh Ht Hc Hb Hr]. unfold dequeue. rewrite Hc. simpl (_ =? _)%nat.
  assert (slots ch !! head ch = Some (Some m)) as Hm.
  { pose proof (unroll_lookup (head ch) (slots ch) 0) as E. rewrite Hr, Hs in E.
    rewrite Nat.add_0_r, Nat.mod_small in E by done. symmetry. apply E; [done|unfold CAP; lia]. }
  rewrite (index_ok _ _ (Some m)), bind_Ret by done. rewrite store_ok, bind_Ret by lia.
  eexists. split; [reflexivity|]. simpl in Hb. split; cbn [slots head tail count].
  - by rewrite length_insert.
  - by apply Nat.mod_upper_bound.
  - rewrite Ht, Nat.Div0.add_mod_idemp_l, Hc. f_equal. simpl. lia.
  - simpl. lia.
  - lia.
  - rewrite Nat.add_1_r, <-Hs, unroll_push, Hr, Hs by lia. simpl.
    rewrite <-(assoc_L (++)), <-replicate_S_end.
    by replace (CAP - length q)%nat with (S (CAP - S (length q))) by lia.
Qed.

(** Operation sequences. *)
Inductive op := Enq (m : EipcMessage) | Deq.
Inductive answer := Accepted (b : bool) | Got (m : option EipcMessage).

Definition exec (ch : EipcChannel) (o : op) : outcome (EipcChannel * answer) :=
  match o with
  | Enq m => '(ch, b) ← enqueue ch m; Ret (ch, Accepted b)
  | Deq => '(ch, m) ← dequeue ch; Ret (ch, Got m)
  end.
Fixpoint exec_all (ch : EipcChannel) (os : list op) : outcome (EipcChannel * list answer) :=
  match os with
  | [] => Ret (ch, [])
  | o :: os =>
    '(ch, a) ← exec ch o;
    '(ch, l) ← exec_all ch os;
    Ret (ch, a :: l)
  end.

(** The bounded queue. *)
Definition spec_step (q : list EipcMessage) (o : op) : list EipcMessage * answer :=
  match o, q with
  | Enq m, _ => if decide (length q < CAP)%nat then (q ++ [m], Accepted true) else (q, Accepted false)
  | Deq, [] => ([], Got None)
  | Deq, m :: q => (q, Got (Some m))
  end.
Fixpoint spec_all (q : list EipcMessage) (os : list op) : list EipcMessage * list answer :=
  match os with
  | [] => (q, [])
  | o :: os => let '(q, a) := spec_step q o in let '(q, l) := spec_all q os in (q, a :: l)
  end.

Lemma exec_simulates ch q o :
  queue_inv ch q →
  ∃ ch', exec ch o = Ret (ch', (spec_step q o).2) ∧ queue_inv ch' (spec_step q o).1.
Proof.
  intros Hq. destruct o as [m|]; simpl.
  - case_decide as Hl.
    + destruct (enqueue_room ch q m Hq Hl) as (ch' & -> & Hq'). by exists ch'.
    + rewrite (enqueue_full ch q m Hq); [by exists ch|]. pose proof (qi_bound _ _ Hq). lia.
  - destruct q as [|m q].
    + rewrite dequeue_empty by done. by exists ch.
    + destruct (dequeue_first ch m q Hq) as (ch' & -> & Hq'). by exists ch'.
Qed.

Lemma exec_all_simulates os ch q :
  queue_inv ch q →
  ∃ ch', exec_all ch os = Ret (ch', (spec_all q os).2) ∧ queue_inv ch' (spec_all q os).1.
Proof.
  revert ch q. induction os as [|o os IH]; intros ch q Hq; [by exists ch|]. simpl.
  destruct (exec_simulates ch q o Hq) as (ch1 & -> & Hq1). simpl.
  destruct (spec_step q o) as [q1 a]. simpl in *. destruct (IH ch1 q1 Hq1) as (ch2 & -> & Hq2).
  destruct (spec_all q1 os) as [q2 l]. by exists ch2.
Qed.

(** ** Messages in flight *)

(** What the sender puts on the channel for plaintext number [i]. *)
Definition sealed_message (key : list Z) (i : nat) (pt : list Z) : EipcMessage :=
  let sq := wrap 32 (Z.of_nat (i + 1)) in
  let c := encrypt key (make_nonce sq) pt in
  mkEipcMessage 1 sq (make_nonce sq) (c ++ replicate (64 - length pt) 0) (length pt)
    (aead_tag key (make_nonce sq) AAD c).

Definition fits_slot (pt : list Z) : Prop := (length pt <= 64)%nat ∧ bytes pt.

Fixpoint imap_from {A B} (f : nat → A → B) (i : nat) (l : list A) : list B :=
  match l with [] => [] | x :: l => f i x :: imap_from f (S i) l end.

Lemma length_imap_from {A B} (f : nat → A → B) i l : length (imap_from f i l) = length l.
Proof. revert i. induction l; intros; simpl; auto. Qed.

Definition sent_audit (i : nat) (pt : list Z) : Audit :=
  mkAudit EipcSend 1 (wrap 32 (Z.of_nat (i + 1))) (Z.of_nat (length pt)).
Definition received_audit (i : nat) (pt : list Z) : Audit :=
  mkAudit EipcReceive 2 (wrap 32 (Z.of_nat (i + 1))) (Z.of_nat (length pt)).

Lemma bytes_AAD : bytes AAD.
Proof. by repeat constructor. Qed.

Lemma small_stream n : (n <= 64)%nat → Z.of_nat n <= max_stream.
Proof. unfold max_stream. lia. Qed.

Section Flight.
Context `{Profile}.
Variable key : list Z.

Lemma send_ok i pt ch audits q :
  fits_slot pt → queue_inv ch q → (length q < CAP)%nat →
  ∃ ch', send key i pt (ch, audits) = Ret (ch', audits ++ [sent_audit i pt]) ∧
    queue_inv ch' (q ++ [sealed_message key i pt]).
Proof.
  intros [Hl Hb] Hq Hroom. unfold send. set (sq := wrap 32 _).
  rewrite (slice_ok 0 (length pt)) by (rewrite length_replicate; lia).
  rewrite bind_Ret, Nat.sub_0_r, drop_0, take_replicate, Nat.min_l by done.
  rewrite seal_ok, bind_Ret;
    [|apply bytes_AAD|done|by apply bytes_replicate|by rewrite length_replicate|by apply small_stream].
  rewrite (drop_ge (replicate _ 0)), app_nil_r by (rewrite length_replicate; lia).
  rewrite copy_into_ok, bind_Ret
    by (rewrite ?length_encrypt, ?length_replicate; lia).
  rewrite splice_zeros by (rewrite length_encrypt; lia). rewrite Nat.sub_0_r, length_encrypt.
  destruct (enqueue_room ch q (sealed_message key i pt) Hq Hroom) as (ch' & Hch & Hq').
  unfold sealed_message in Hch. fold sq in Hch. cbn [replicate app]. rewrite Hch.
  by exists ch'.
Qed.

Lemma send_all_ok pts i ch audits q :
  Forall fits_slot pts → queue_inv ch q → (length q + length pts <= CAP)%nat →
  ∃ ch', send_all key i pts (ch, audits) = Ret (ch', audits ++ imap_from sent_audit i pts) ∧
    queue_inv ch' (q ++ imap_from (sealed_message key) i pts).
Proof.
  intros Hf. revert i ch audits q. induction Hf as [|pt pts Hpt _ IH]; intros i ch audits q Hq Hl.
  - exists ch. simpl. by rewrite !app_nil_r.
  - simpl in Hl. cbn [send_all imap_from].
    destruct (send_ok i pt ch audits q Hpt Hq) as (ch1 & -> & Hq1); [lia|]. rewrite bind_Ret.
    destruct (IH (S i) ch1 (audits ++ [sent_audit i pt]) _ Hq1) as (ch2 & -> & Hq2).
    { rewrite length_app. simpl. lia. }
    exists ch2. by rewrite <-!(assoc_L (++)) in *.
Qed.

Lemma receive_step_ok i pt q r :
  fits_slot pt → queue_inv (rx_ch r) (sealed_message key i pt :: q) →
  0 <= received r < 2 ^ 32 - 1 →
  ∃ ch', queue_inv ch' q ∧
    receive_step key r = Ret (mkReceiver ch' true (received r + 1) (all_ok r) (shown r ++ [pt])
      (rx_audits r ++ [received_audit i pt])).
Proof.
  intros [Hl Hb] Hq Hr. unfold receive_step.
  destruct (dequeue_first _ _ _ Hq) as (ch' & -> & Hq'). rewrite bind_Ret.
  exists ch'. split; [done|]. unfold sealed_message. set (sq := wrap 32 _).
  cbn [ct_len ct nonce tag seq].
  assert (length (encrypt key (make_nonce sq) pt) = length pt) as Hle by apply length_encrypt.
  rewrite (slice_ok 0 (length pt) (_ ++ _)) by (rewrite length_app, Hle; lia).
  rewrite bind_Ret, Nat.sub_0_r, drop_0, take_app_length' by done.
  rewrite (slice_ok 0 (length pt) (replicate 64 0)) by (rewrite length_replicate; lia).
  rewrite bind_Ret, Nat.sub_0_r, drop_0, take_replicate, Nat.min_l by done.
  rewrite open_ok, bind_Ret;
    [|apply bytes_AAD|by apply bytes_encrypt|apply length_le_bytes
     |by rewrite Hle, length_replicate|rewrite Hle; by apply small_stream].
  rewrite decide_True by done. rewrite encrypt_involutive, Hle.
  rewrite (drop_ge (replicate _ 0)), app_nil_r by (rewrite length_replicate; lia).
  rewrite copy_into_ok, bind_Ret by (rewrite ?length_replicate; lia). cbn [negb].
  rewrite splice_zeros by lia. cbn [replicate app].
  rewrite (slice_ok 0 (length pt) (_ ++ _)) by (rewrite length_app; lia).
  rewrite bind_Ret, Nat.sub_0_r, drop_0, take_app_length.
  rewrite add_small, bind_Ret by (split; lia). done.
Qed.

Lemma receive_loop_ok pts i fuel r :
  Forall fits_slot pts → queue_inv (rx_ch r) (imap_from (sealed_message key) i pts) →
  running r = true → 0 <= received r → received r + Z.of_nat (length pts) < 2 ^ 32 →
  (length pts < fuel)%nat →
  ∃ ch', queue_inv ch' [] ∧
    while_ fuel running (receive_step key) r
    = Ret (mkReceiver ch' false (received r + Z.of_nat (length pts)) (all_ok r)
             (shown r ++ pts) (rx_audits r ++ imap_from received_audit i pts)).
Proof.
  intros Hf. revert i fuel r.
  induction Hf as [|pt pts Hpt _ IH]; intros i fuel r Hq Hrun Hr Hmax Hfuel;
    (destruct fuel as [|fuel]; [simpl in Hfuel; lia|]); cbn [while_]; rewrite Hrun.
  - unfold receive_step. rewrite dequeue_empty, !bind_Ret by done. exists (rx_ch r).
    split; [done|]. destruct fuel; cbn [while_ running length imap_from];
    by rewrite Z.add_0_r, !app_nil_r.
  - cbn [imap_from length] in *.
    destruct (receive_step_ok i pt _ r Hpt Hq) as (ch1 & Hq1 & ->); [lia|]. rewrite bind_Ret.
    edestruct (IH (S i) fuel) as (ch2 & Hq2 & ->); [exact Hq1|done|cbn [received]; lia..|].
    exists ch2. split; [done|]. cbn [received all_ok shown rx_audits].
    rewrite <-!(assoc_L (++)).
    by replace (received r + 1 + Z.of_nat (length pts)) with (received r + Z.of_nat (S (length pts))) by lia.
Qed.
End Flight.

(** ** Properties *)

(** C23: the ring implements a FIFO queue of capacity four: for every
    sequence of [enqueue] and [dequeue] calls on a new channel the answers
    are those of the abstract queue (a full queue refuses, an empty one
    gives [None], messages come out in the order they went in), and no call
    panics. *)
Theorem channel_is_fifo os :
  ∃ ch, exec_all new os = Ret (ch, (spec_all [] os).2) ∧ queue_inv ch (spec_all [] os).1.
Proof. apply exec_all_simulates, new_queue. Qed.

(** messages with different sequence numbers are encrypted under
    different nonces. *)
Theorem make_nonce_injective s s' :
  u32 s → u32 s' → length (make_nonce s) = 12%nat ∧ (make_nonce s = make_nonce s' → s = s').
Proof.
  intros Hs Hs'.
  assert (∀ s, make_nonce s = replicate 4 0 ++ le_bytes 8 s) as E by done.
  rewrite !E, length_app, length_le_bytes. split; [done|].
  intros Eq. apply app_inv_head in Eq. unfold uint in *. apply le_bytes_inj in Eq; lia.
Qed.

(** C18: end to end: up to four plaintexts of up to 64 bytes, sent through
    an empty channel, are all accepted by the receiver, which shows exactly
    those plaintexts in that order, counts them, leaves the channel empty
    and logs one send and one receive each; nothing panics and the
    receiver's loop ends. *)
Theorem send_receive `{Profile} key pts ch :
  Forall fits_slot pts → (length pts <= CAP)%nat → queue_inv ch [] →
  ∃ ch1 ch2, send_all key 0 pts (ch, []) = Ret (ch1, imap_from sent_audit 0 pts) ∧
    receive_all key ch1 = Ret (mkReceiver ch2 false (Z.of_nat (length pts)) true pts
                                 (imap_from received_audit 0 pts)) ∧
    queue_inv ch2 [].
Proof.
  intros Hf Hl Hq. unfold CAP in Hl.
  destruct (send_all_ok key pts 0 ch [] [] Hf Hq) as (ch1 & -> & Hq1); [simpl; unfold CAP; lia|].
  edestruct (receive_loop_ok key pts 0 (CAP + 1) (mkReceiver ch1 true 0 true [] []))
    as (ch2 & Hq2 & Hrx); [done|done|done|cbn [received]; unfold CAP; lia..|].
  exists ch1, ch2. split; [done|]. split; [exact Hrx|done].
Qed.

Lemma make_nonce_injective_witness :
  length (make_nonce 1) = 12%nat ∧ (make_nonce 1 = make_nonce 2 → 1 = 2).
Proof. apply (make_nonce_injective 1 2); split; lia. Defined.

Lemma send_receive_witness :
  ∃ ch1 ch2, @send_all dev_profile (replicate 32 1) 0 plaintexts (new, [])
             = Ret (ch1, imap_from sent_audit 0 plaintexts) ∧
    @receive_all dev_profile (replicate 32 1) ch1
    = Ret (mkReceiver ch2 false (Z.of_nat (length plaintexts)) true plaintexts
             (imap_from received_audit 0 plaintexts)) ∧
    queue_inv ch2 [].
Proof.
  apply (@send_receive dev_profile (replicate 32 1) plaintexts new);
    [|vm_compute; lia|apply new_queue].
  repeat constructor; try done; vm_compute; lia.
Defined.

(** the boot demonstration on a fresh channel prints its checkpoint:
    three messages are received with the plaintexts sent, the message with a
    flipped ciphertext bit is rejected, six audit events are logged. *)
Theorem run_demo_passes {P : Profile} :
  ∃ ch, @run_demo P (@crypto_ops P) new
    = Ret (true, plaintexts, ch,
           imap_from sent_audit 0 plaintexts ++ imap_from received_audit 0 plaintexts) ∧
    count ch = 0%nat.
Proof. destruct P as [[] []]; eexists; split; vm_compute; reflexivity. Qed.
