(* ===== verification/Lattice.v ===== *)
(** * The dynamic security lattice

    Model of [kernel/src/lattice.rs]: the dominance matrix over at most eight
    labels, [dominates], the Bell-LaPadula checks [may_read] and
    [may_write], [join], [meet], the axiom check [verify], the default
    lattice, and the demonstration's reconfiguration and broken lattice.

    Shown here: [verify] accepts every lattice and rejects every matrix that
    is no bounded partial order; [meet] is the greatest lower bound whenever
    there is one, [join] the least upper bound when labels are numbered
    upwards; the last two checks of [verify] decide nothing: a verified lattice that is no lattice and a verified
    lattice on which [join] is not least; and that under a verified lattice
    no sequence of permitted reads and writes moves information downwards. *)

From S2P Require Import Prelude Meal.
From Stdlib Require Import ZArith Lia.
From stdpp Require Import base numbers list strings relations.

(** ** Data *)

Definition Label := nat.

Record LatticeNode := mkLatticeNode { name : list Z; level : nat }.

Definition make_name (s : list Z) : list Z :=
  let len := Nat.min (length s) 15 in
  splice 0 (take len s) (replicate 16 0%Z).

Definition name_str (n : LatticeNode) : outcome (list Z) := field_str (name n).

Record SecurityLattice := mkSecurityLattice {
  nodes : list (option LatticeNode);
  dom : list (list bool);
  count : nat;
  bottom : nat;
  top : nat;
}.

(** [lat.dom[i][j]], read and written. *)
Definition dom_at (lat : SecurityLattice) (i j : nat) : outcome bool :=
  row ← index (dom lat) i; index row j.

Definition set_dom (i j : nat) (b : bool) (lat : SecurityLattice) : outcome SecurityLattice :=
  row ← index (dom lat) i;
  row ← store row j b;
  dom' ← store (dom lat) i row;
  Ret (mkSecurityLattice (nodes lat) dom' (count lat) (bottom lat) (top lat)).

Definition set_node (i : nat) (n : LatticeNode) (lat : SecurityLattice) : outcome SecurityLattice :=
  nodes' ← store (nodes lat) i (Some n);
  Ret (mkSecurityLattice nodes' (dom lat) (count lat) (bottom lat) (top lat)).

Definition blank (count bottom top : nat) : SecurityLattice :=
  mkSecurityLattice (replicate 8 None) (replicate 8 (replicate 8 false)) count bottom top.

Definition blp_names : list (list Z) :=
  [bstr "Unclassified"; bstr "Confidential"; bstr "Secret"; bstr "TopSecret"].

Definition default_blp : outcome SecurityLattice :=
  lat ← for_out 0 4 (λ i, set_node i (mkLatticeNode (make_name (blp_names !!! i)) i)) (blank 4 0 3);
  for_out 0 4 (λ i, for_out 0 4 (λ j, set_dom i j (j <=? i)%nat)) lat.

(** ** Operations *)

Definition dominates (lat : SecurityLattice) (a b : Label) : outcome bool :=
  if (count lat <=? a)%nat || (count lat <=? b)%nat then Ret false else dom_at lat a b.

Definition may_read (lat : SecurityLattice) (subject obj : Label) : outcome bool :=
  dominates lat subject obj.

Definition may_write (lat : SecurityLattice) (subject obj : Label) : outcome bool :=
  dominates lat obj subject.

Definition join (lat : SecurityLattice) (a b : Label) : outcome (option Label) :=
  for_first 0 (count lat) (λ i,
    let l := (i mod 256)%nat in
    ub ← and_also (dominates lat l a) (dominates lat l b);
    Ret (if ub : bool then Some l else None)).

Definition meet_step (lat : SecurityLattice) (a b : Label) (i : nat) (best : option Label)
    : outcome (option Label) :=
  let l := (i mod 256)%nat in
  lb ← and_also (dominates lat a l) (dominates lat b l);
  if lb : bool then
    match best with
    | None => Ret (Some l)
    | Some prev => d ← dominates lat l prev; Ret (Some (if d : bool then l else prev))
    end
  else Ret best.

Definition meet (lat : SecurityLattice) (a b : Label) : outcome (option Label) :=
  for_out 0 (count lat) (meet_step lat a b) None.

(** [fail_or r k]: the rest [k] of [verify] runs when the loop [r] did not
    return. *)
Definition fail_or (r : outcome (option string)) (k : outcome (bool * string))
    : outcome (bool * string) :=
  e ← r;
  match e with Some reason => Ret (false, reason) | None => k end.

Definition verify (lat : SecurityLattice) : outcome (bool * string) :=
  let n := count lat in
  fail_or (for_first 0 n (λ i,
    d ← dom_at lat i i;
    Ret (if negb d then Some "reflexivity violated"%string else None)))
  (fail_or (for_first 0 n (λ i, for_first 0 n (λ j,
    c ← (if negb (i =? j)%nat then and_also (dom_at lat i j) (dom_at lat j i) else Ret false);
    Ret (if c : bool then Some "antisymmetry violated"%string else None))))
  (fail_or (for_first 0 n (λ i, for_first 0 n (λ j, for_first 0 n (λ k,
    c ← and_also (dom_at lat i j) (and_also (dom_at lat j k) (negb <$> dom_at lat i k));
    Ret (if c : bool then Some "transitivity violated"%string else None)))))
  (let bot := bottom lat in
   fail_or (for_first 0 n (λ i,
    d ← dom_at lat i bot;
    Ret (if negb d then Some "bottom bound violated"%string else None)))
  (let tp := top lat in
   fail_or (for_first 0 n (λ i,
    d ← dom_at lat tp i;
    Ret (if negb d then Some "top bound violated"%string else None)))
  (fail_or (for_first 0 n (λ i, for_first 0 n (λ j,
    r ← join lat (i mod 256)%nat (j mod 256)%nat;
    Ret (match r with None => Some "join does not exist"%string | Some _ => None end))))
  (fail_or (for_first 0 n (λ i, for_first 0 n (λ j,
    r ← meet lat (i mod 256)%nat (j mod 256)%nat;
    Ret (match r with None => Some "meet does not exist"%string | Some _ => None end))))
  (Ret (true, ""%string)))))))).

(** [unwrap_or("?")] covers an empty slot; a label above seven panics. *)
Definition node_name (lat : SecurityLattice) (l : Label) : outcome (list Z) :=
  slot ← index (nodes lat) l;
  match slot with
  | Some n => name_str n
  | None => Ret (bstr "?")
  end.

(** ** The demonstration *)

(** Step 5: the fifth level is written into the live lattice. *)
Definition reconfigure (lat : SecurityLattice) : outcome SecurityLattice :=
  lat ← set_node 4 (mkLatticeNode (make_name (bstr "TS-SCI")) 4) lat;
  let lat := mkSecurityLattice (nodes lat) (dom lat) 5 (bottom lat) 4 in
  lat ← for_out 0 5 (λ j, set_dom 4 j true) lat;
  for_out 0 4 (λ i, set_dom i 4 false) lat.

(** Step 6. *)
Definition broken_lattice : outcome SecurityLattice :=
  bad ← for_out 0 3 (λ i, set_dom i i true) (blank 3 0 2);
  bad ← set_dom 1 0 true bad;
  bad ← set_dom 2 1 true bad;
  set_dom 2 0 false bad.

Definition checks : list (nat * nat * bool) :=
  [(2, 1, true); (1, 2, true); (1, 2, false); (2, 1, false); (3, 0, true); (0, 3, false)].

Record LatticeDemo := mkLatticeDemo {
  demo_valid : bool * string;
  demo_checks : list (bool * bool);
  demo_joins : list (option Label * option Label);
  demo_reconfigured : bool * string;
  demo_sci : bool * bool;
  demo_broken : bool * string;
  demo_audits : list Audit;
}.

Fixpoint map_out {A B} (f : A → outcome B) (l : list A) : outcome (list B) :=
  match l with
  | [] => Ret []
  | a :: l => b ← f a; r ← map_out f l; Ret (b :: r)
  end.

(** Returns the live lattice after the demonstration and what it printed:
    verdicts, each check's result with the expected one, joins and meets. *)
Definition run_demo (lat : SecurityLattice) : outcome (SecurityLattice * LatticeDemo) :=
  valid ← verify lat;
  cs ← map_out (λ c, let '(s, o, read) := c in
         r ← (if read : bool then may_read lat s o else may_write lat s o);
         Ret (r, if read : bool then (o <=? s)%nat else (s <=? o)%nat)) checks;
  js ← map_out (λ p, ja ← join lat p.1 p.2; ma ← meet lat p.1 p.2; Ret (ja, ma))
         [(1, 2); (0, 3); (2, 2); (0, 0)]%nat;
  lat' ← reconfigure lat;
  ok ← verify lat';
  s43 ← dominates lat' 4 3;
  s34 ← dominates lat' 3 4;
  bad ← broken_lattice;
  verdict ← verify bad;
  Ret (lat', mkLatticeDemo valid cs js ok (s43, s34) verdict
               [mkAudit LatticeReconfigured 0 5 0]).

(** ** The relation the matrix stores *)

Record wf_lat (lat : SecurityLattice) : Prop := {
  wf_rows : length (dom lat) = 8;
  wf_cols : Forall (λ row, length row = 8) (dom lat);
  wf_nodes : length (nodes lat) = 8;
  wf_count : count lat <= 8;
}.

Definition D (lat : SecurityLattice) (i j : nat) : bool :=
  default false (dom lat !! i ≫= λ row, row !! j).

(** Label [a] dominates label [b]. *)
Definition geb (lat : SecurityLattice) (a b : Label) : bool :=
  (a <? count lat)%nat && (b <? count lat)%nat && D lat a b.
Abbreviation ge lat a b := (geb lat a b = true).

Lemma dom_at_ok lat i j : wf_lat lat → i < 8 → j < 8 → dom_at lat i j = Ret (D lat i j).
Proof.
  intros Hw Hi Hj. unfold dom_at, D.
  destruct (lookup_lt_is_Some_2 (dom lat) i) as [row Hr]; [rewrite (wf_rows _ Hw); lia|].
  pose proof (wf_cols _ Hw) as Hc. rewrite Forall_lookup in Hc. specialize (Hc i row Hr).
  destruct (lookup_lt_is_Some_2 row j) as [b Hb]; [lia|].
  rewrite (index_ok _ _ row), bind_Ret, (index_ok _ _ b), Hr by done. simpl. by rewrite Hb.
Qed.

Lemma dominates_ok lat a b : wf_lat lat → dominates lat a b = Ret (geb lat a b).
Proof.
  intros Hw. unfold dominates, geb. pose proof (wf_count _ Hw).
  bool_cases; try done. apply dom_at_ok; [done|lia|lia].
Qed.

Lemma ge_labels lat a b : ge lat a b → a < count lat ∧ b < count lat ∧ D lat a b = true.
Proof. unfold geb. rewrite !andb_true_iff, !Nat.ltb_lt. tauto. Qed.

Lemma geb_D lat a b : a < count lat → b < count lat → geb lat a b = D lat a b.
Proof. intros. unfold geb. bool_cases. done. Qed.

Lemma and_also_ok (x y : bool) : and_also (Ret x) (Ret y) = Ret (x && y).
Proof. by destruct x. Qed.

(** ** Bounded partial orders *)

Record bounded_poset (lat : SecurityLattice) : Prop := {
  bp_refl i : i < count lat → ge lat i i;
  bp_antisym i j : ge lat i j → ge lat j i → i = j;
  bp_trans i j k : ge lat i j → ge lat j k → ge lat i k;
  bp_bottom i : i < count lat → ge lat i (bottom lat);
  bp_top i : i < count lat → ge lat (top lat) i;
}.

Definition is_lub (lat : SecurityLattice) (a b u : Label) : Prop :=
  ge lat u a ∧ ge lat u b ∧ ∀ v, ge lat v a → ge lat v b → ge lat v u.
Definition is_glb (lat : SecurityLattice) (a b g : Label) : Prop :=
  ge lat a g ∧ ge lat b g ∧ ∀ v, ge lat a v → ge lat b v → ge lat g v.

(** ** Join and meet *)

Lemma for_first_find n (f : nat → outcome (option nat)) (t : nat → bool) :
  (∀ i, i < n → f i = Ret (if t i then Some i else None)) →
  (∃ i, i < n ∧ t i = true ∧ (∀ j, j < i → t j = false) ∧ for_first 0 n f = Ret (Some i)) ∨
  ((∀ j, j < n → t j = false) ∧ for_first 0 n f = Ret None).
Proof.
  intros Hf. unfold for_first. rewrite Nat.sub_0_r.
  assert (∀ m lo, lo + m = n → (∀ j, j < lo → t j = false) →
    (∃ i, i < n ∧ t i = true ∧ (∀ j, j < i → t j = false) ∧ first_some (seq lo m) f = Ret (Some i)) ∨
    ((∀ j, j < n → t j = false) ∧ first_some (seq lo m) f = Ret None)) as Hgen; [|apply Hgen; lia].
  induction m as [|m IH]; intros lo Hlo Hbelow; cbn [seq first_some].
  - right. split; [|done]. intros j Hj. apply Hbelow. lia.
  - rewrite Hf, bind_Ret by lia. destruct (t lo) eqn:Ht.
    + left. exists lo. repeat split; [lia|done|done].
    + apply IH; [lia|]. intros j Hj. destruct (decide (j = lo)) as [->|]; [done|]. apply Hbelow. lia.
Qed.

Lemma label_cast n i : n <= 8 → i < n → i mod 256 = i.
Proof. intros. apply Nat.mod_small. lia. Qed.

Lemma join_ok lat a b :
  wf_lat lat →
  (∃ u, ge lat u a ∧ ge lat u b ∧ (∀ j, j < u → ¬ (ge lat j a ∧ ge lat j b)) ∧
        join lat a b = Ret (Some u)) ∨
  ((∀ j, ¬ (ge lat j a ∧ ge lat j b)) ∧ join lat a b = Ret None).
Proof.
  intros Hw. unfold join.
  destruct (for_first_find (count lat) (λ i,
    let l := (i mod 256)%nat in
    ub ← and_also (dominates lat l a) (dominates lat l b);
    Ret (if ub : bool then Some l else None)) (λ i, geb lat i a && geb lat i b))
    as [(u & Hu & Ht & Hb & E)|[Hn E]].
  - intros i Hi. cbn zeta. rewrite (label_cast (count lat)) by (done || apply Hw).
    by rewrite !dominates_ok, and_also_ok, bind_Ret.
  - left. exists u. apply andb_true_iff in Ht as [??]. do 2 (split; [done|]).
    split; [|done]. intros j Hj [Ha Hb']. specialize (Hb j Hj). by rewrite Ha, Hb' in Hb.
  - right. split; [|done]. intros j [Ha Hb]. destruct (ge_labels _ _ _ Ha) as [Hj _].
    specialize (Hn j Hj). by rewrite Ha, Hb in Hn.
Qed.

(** The loop of [meet] keeps some lower bound once it met one, and keeps the
    greatest one, if it exists, from the moment it meets it. *)
Definition meet_inv (lat : SecurityLattice) (a b : Label) (i : nat) (best : option Label) : Prop :=
  (∀ m, best = Some m → ge lat a m ∧ ge lat b m) ∧
  (∀ v, v < i → ge lat a v → ge lat b v → is_Some best) ∧
  (∀ g, g < i → is_glb lat a b g → best = Some g).

Lemma meet_step_ok lat a b i best :
  wf_lat lat → bounded_poset lat → i < count lat → meet_inv lat a b i best →
  ∃ best', meet_step lat a b i best = Ret best' ∧ meet_inv lat a b (S i) best'.
Proof.
  intros Hw Hp Hi (H1 & H2 & H3). unfold meet_step.
  rewrite (label_cast (count lat)) by (done || apply Hw). cbn zeta.
  rewrite !dominates_ok, and_also_ok, bind_Ret by done.
  assert (∀ v, v < S i → v = i ∨ v < i) as Hcase by lia.
  destruct (geb lat a i && geb lat b i) eqn:Hlb.
  - apply andb_true_iff in Hlb as [Ha Hb].
    assert (∀ g, is_glb lat a b g → ge lat g i) as Hgi by (intros g (_ & _ & Hg); auto).
    destruct best as [m|].
    + destruct (H1 m eq_refl) as [Hma Hmb]. rewrite dominates_ok, bind_Ret by done.
      eexists. split; [done|]. split; [|split].
      * intros m' [= <-]. by destruct (geb lat i m).
      * intros. by eexists.
      * intros g Hg Hglb. f_equal. destruct (Hcase g Hg) as [->|Hlt].
        -- destruct Hglb as (_ & _ & Hglb). by rewrite (Hglb m Hma Hmb).
        -- specialize (H3 g Hlt Hglb). injection H3 as ->. specialize (Hgi g Hglb).
           destruct (geb lat i g) eqn:Hig; [|done]. by apply (bp_antisym _ Hp).
    + eexists. split; [done|]. split; [|split].
      * by intros m' [= <-].
      * intros. by eexists.
      * intros g Hg Hglb. destruct (Hcase g Hg) as [->|Hlt]; [done|].
        specialize (H3 g Hlt Hglb). done.
  - eexists. split; [done|].
    assert (¬ (ge lat a i ∧ ge lat b i)) as Hno by (rewrite <-andb_true_iff, Hlb; done).
    split; [|split]; [done| |].
    + intros v Hv Ha Hb. destruct (Hcase v Hv) as [->|Hlt]; [tauto|eauto].
    + intros g Hg Hglb. destruct (Hcase g Hg) as [->|Hlt]; [|auto].
      destruct Hglb as (?&?&_). tauto.
Qed.

Lemma meet_ok lat a b :
  wf_lat lat → bounded_poset lat →
  ∃ best, meet lat a b = Ret best ∧ meet_inv lat a b (count lat) best.
Proof.
  intros Hw Hp. apply (for_out_ind (meet_inv lat a b)); [lia| |].
  - split; [done|split; lia].
  - intros i s Hi. apply meet_step_ok; [done|done|lia].
Qed.

(** ** What [verify] decides *)

(** A loop of [verify] either finds a violation or proves its axiom. *)
Lemma scan1 n (bad : nat → bool) (e : string) f :
  (∀ i, i < n → f i = Ret (if bad i then Some e else None)) →
  (for_first 0 n f = Ret None ∧ ∀ i, i < n → bad i = false) ∨
  (for_first 0 n f = Ret (Some e) ∧ ∃ i, i < n ∧ bad i = true).
Proof.
  intros Hf. rewrite (for_first_if n bad e f Hf). destruct (any_below n bad) eqn:E.
  - right. split; [done|]. apply List.existsb_exists in E as (i & Hi & Hb). apply List.in_seq in Hi.
    exists i. split; [lia|done].
  - left. split; [done|]. by apply any_below_false.
Qed.

Lemma scan2 n (bad : nat → nat → bool) (e : string) f :
  (∀ i j, i < n → j < n → f i j = Ret (if bad i j then Some e else None)) →
  (for_first 0 n (λ i, for_first 0 n (f i)) = Ret None ∧ ∀ i j, i < n → j < n → bad i j = false) ∨
  (for_first 0 n (λ i, for_first 0 n (f i)) = Ret (Some e) ∧ ∃ i j, i < n ∧ j < n ∧ bad i j = true).
Proof.
  intros Hf. destruct (scan1 n (λ i, any_below n (bad i)) e (λ i, for_first 0 n (f i)))
    as [[E Hn]|[E (i & Hi & Hb)]].
  - intros i Hi. apply for_first_if. auto.
  - left. split; [done|]. intros i j Hi. apply any_below_false. auto.
  - right. split; [done|]. apply List.existsb_exists in Hb as (j & Hj & Hb). apply List.in_seq in Hj.
    exists i, j. repeat split; [done|lia|done].
Qed.

Lemma scan3 n (bad : nat → nat → nat → bool) (e : string) f :
  (∀ i j k, i < n → j < n → k < n → f i j k = Ret (if bad i j k then Some e else None)) →
  (for_first 0 n (λ i, for_first 0 n (λ j, for_first 0 n (f i j))) = Ret None ∧
   ∀ i j k, i < n → j < n → k < n → bad i j k = false) ∨
  (for_first 0 n (λ i, for_first 0 n (λ j, for_first 0 n (f i j))) = Ret (Some e) ∧
   ∃ i j k, i < n ∧ j < n ∧ k < n ∧ bad i j k = true).
Proof.
  intros Hf. destruct (scan2 n (λ i j, any_below n (bad i j)) e (λ i j, for_first 0 n (f i j)))
    as [[E Hn]|[E (i & j & Hi & Hj & Hb)]].
  - intros i j Hi Hj. apply for_first_if. auto.
  - left. split; [done|]. intros i j k Hi Hj. apply any_below_false. auto.
  - right. split; [done|]. apply List.existsb_exists in Hb as (k & Hk & Hb). apply List.in_seq in Hk.
    exists i, j, k. repeat split; [done|done|lia|done].
Qed.

(** [decides P r]: the verdict [r] is that of a correct decision of [P]. *)
Definition decides (P : Prop) (r : outcome (bool * string)) : Prop :=
  (P ∧ r = Ret (true, ""%string)) ∨ (¬ P ∧ ∃ why, r = Ret (false, why)).

Lemma decides_fail P e : ¬ P → decides P (Ret (false, e)).
Proof. intros. right. eauto. Qed.

Lemma decides_scan1 P n (bad : nat → bool) e f k :
  (∀ i, i < n → f i = Ret (if bad i then Some e else None)) →
  (∀ i, i < n → bad i = true → ¬ P) → ((∀ i, i < n → bad i = false) → decides P k) →
  decides P (fail_or (for_first 0 n f) k).
Proof.
  intros Hf Hbad Hk. destruct (scan1 n bad e f Hf) as [[-> Hn]|[-> (i & Hi & Hb)]]; simpl; auto.
  eauto using decides_fail.
Qed.

Lemma decides_scan2 P n (bad : nat → nat → bool) e f k :
  (∀ i j, i < n → j < n → f i j = Ret (if bad i j then Some e else None)) →
  (∀ i j, i < n → j < n → bad i j = true → ¬ P) →
  ((∀ i j, i < n → j < n → bad i j = false) → decides P k) →
  decides P (fail_or (for_first 0 n (λ i, for_first 0 n (f i))) k).
Proof.
  intros Hf Hbad Hk. destruct (scan2 n bad e f Hf) as [[-> Hn]|[-> (i & j & Hi & Hj & Hb)]];
    simpl; auto. eauto using decides_fail.
Qed.

Lemma decides_scan3 P n (bad : nat → nat → nat → bool) e f k :
  (∀ i j l, i < n → j < n → l < n → f i j l = Ret (if bad i j l then Some e else None)) →
  (∀ i j l, i < n → j < n → l < n → bad i j l = true → ¬ P) →
  ((∀ i j l, i < n → j < n → l < n → bad i j l = false) → decides P k) →
  decides P (fail_or (for_first 0 n (λ i, for_first 0 n (λ j, for_first 0 n (f i j)))) k).
Proof.
  intros Hf Hbad Hk.
  destruct (scan3 n bad e f Hf) as [[-> Hn]|[-> (i & j & l & Hi & Hj & Hl & Hb)]]; simpl; auto.
  eauto using decides_fail.
Qed.

Section Verify.
Variable lat : SecurityLattice.
Hypothesis Hw : wf_lat lat.
Hypothesis Hbot : bottom lat < count lat.
Hypothesis Htop : top lat < count lat.

Lemma label_small i : i < count lat → i < 8.
Proof. pose proof (wf_count _ Hw). lia. Qed.
#[local] Hint Resolve label_small : core.

(** Once the order is bounded, the join and meet loops find something. *)
Lemma bounded_join i j : bounded_poset lat → i < count lat → j < count lat →
  ∃ u, join lat (i mod 256) (j mod 256) = Ret (Some u).
Proof.
  intros Hp Hi Hj. rewrite !(label_cast (count lat)) by (done || apply Hw).
  destruct (join_ok lat i j Hw) as [(u & _ & _ & _ & ->)|[Hn _]]; [by eauto|].
  destruct (Hn (top lat)). split; by apply (bp_top _ Hp).
Qed.

Lemma bounded_meet i j : bounded_poset lat → i < count lat → j < count lat →
  ∃ u, meet lat (i mod 256) (j mod 256) = Ret (Some u).
Proof.
  intros Hp Hi Hj. rewrite !(label_cast (count lat)) by (done || apply Hw).
  destruct (meet_ok lat i j Hw Hp) as (best & -> & _ & Hsome & _).
  destruct (Hsome (bottom lat)) as [m ->]; [done|by apply (bp_bottom _ Hp)..|]. eauto.
Qed.

(** The first five loops together. *)
Lemma poset_of_checks :
  (∀ i, i < count lat → negb (D lat i i) = false) →
  (∀ i j, i < count lat → j < count lat →
     negb (i =? j)%nat && (D lat i j && D lat j i) = false) →
  (∀ i j k, i < count lat → j < count lat → k < count lat →
     D lat i j && (D lat j k && negb (D lat i k)) = false) →
  (∀ i, i < count lat → negb (D lat i (bottom lat)) = false) →
  (∀ i, i < count lat → negb (D lat (top lat) i) = false) →
  bounded_poset lat.
Proof.
  intros Hrefl Hanti Htrans Hbottom Htp. split.
  - intros i Hi. rewrite geb_D by done. by apply negb_false_iff, Hrefl.
  - intros i j (Hi & Hj & H1)%ge_labels (_ & _ & H2)%ge_labels. specialize (Hanti i j Hi Hj).
    rewrite H1, H2 in Hanti. by apply andb_false_iff in Hanti as [?%negb_false_iff%Nat.eqb_eq|].
  - intros i j k (Hi & Hj & H1)%ge_labels (_ & Hk & H2)%ge_labels. rewrite geb_D by done.
    specialize (Htrans i j k Hi Hj Hk). rewrite H1, H2 in Htrans. by apply negb_false_iff.
  - intros i Hi. rewrite geb_D by done. by apply negb_false_iff, Hbottom.
  - intros i Hi. rewrite geb_D by done. by apply negb_false_iff, Htp.
Qed.

Lemma verify_decides : decides (bounded_poset lat) (verify lat).
Proof.
  unfold verify.
  apply (decides_scan1 _ _ (λ i, negb (D lat i i)) "reflexivity violated"%string).
  { intros i Hi. by rewrite dom_at_ok, bind_Ret by auto. }
  { intros i Hi Hb Hp. pose proof (bp_refl _ Hp i Hi) as Hr. rewrite geb_D in Hr by done.
    by rewrite Hr in Hb. }
  intros Hrefl.
  apply (decides_scan2 _ _ (λ i j, negb (i =? j)%nat && (D lat i j && D lat j i))
           "antisymmetry violated"%string).
  { intros i j Hi Hj. rewrite !dom_at_ok, and_also_ok by auto. by destruct (i =? j)%nat. }
  { intros i j Hi Hj Hb Hp. rewrite <-!geb_D in Hb by done.
    apply andb_true_iff in Hb as [Hne [H1 H2]%andb_true_iff].
    apply negb_true_iff, Nat.eqb_neq in Hne. by apply Hne, (bp_antisym _ Hp). }
  intros Hanti.
  apply (decides_scan3 _ _ (λ i j k, D lat i j && (D lat j k && negb (D lat i k)))
           "transitivity violated"%string).
  { intros i j k Hi Hj Hk. rewrite !dom_at_ok by auto. simpl.
    by destruct (D lat i j), (D lat j k). }
  { intros i j k Hi Hj Hk Hb Hp. rewrite <-!geb_D in Hb by done.
    apply andb_true_iff in Hb as [H1 [H2 H3]%andb_true_iff].
    by rewrite (bp_trans _ Hp i j k) in H3. }
  intros Htrans. cbv zeta.
  apply (decides_scan1 _ _ (λ i, negb (D lat i (bottom lat))) "bottom bound violated"%string).
  { intros i Hi. by rewrite dom_at_ok, bind_Ret by auto. }
  { intros i Hi Hb Hp. pose proof (bp_bottom _ Hp i Hi) as Hr. rewrite geb_D in Hr by done.
    by rewrite Hr in Hb. }
  intros Hbottom.
  apply (decides_scan1 _ _ (λ i, negb (D lat (top lat) i)) "top bound violated"%string).
  { intros i Hi. by rewrite dom_at_ok, bind_Ret by auto. }
  { intros i Hi Hb Hp. pose proof (bp_top _ Hp i Hi) as Hr. rewrite geb_D in Hr by done.
    by rewrite Hr in Hb. }
  intros Htp.
  pose proof (poset_of_checks Hrefl Hanti Htrans Hbottom Htp) as Hp.
  apply (decides_scan2 _ _ (λ _ _, false) "join does not exist"%string); [|done|].
  { intros i j Hi Hj. by destruct (bounded_join i j Hp Hi Hj) as [u ->]. }
  intros _.
  apply (decides_scan2 _ _ (λ _ _, false) "meet does not exist"%string); [|done|].
  { intros i j Hi Hj. by destruct (bounded_meet i j Hp Hi Hj) as [u ->]. }
  intros _. by left.
Qed.
End Verify.

(** ** Reconfiguration *)

(** [lat'] is [lat] with the matrix changed to [d], labels aside. *)
Record redomed (lat lat' : SecurityLattice) (d : nat → nat → bool) : Prop := {
  rd_wf : wf_lat lat';
  rd_count : count lat' = count lat;
  rd_bottom : bottom lat' = bottom lat;
  rd_top : top lat' = top lat;
  rd_dom i j : D lat' i j = d i j;
}.

Lemma set_dom_ok lat i j b :
  wf_lat lat → i < 8 → j < 8 →
  ∃ lat', set_dom i j b lat = Ret lat' ∧
    redomed lat lat' (λ x y, if decide (x = i ∧ y = j) then b else D lat x y).
Proof.
  intros Hw Hi Hj. unfold set_dom.
  destruct (lookup_lt_is_Some_2 (dom lat) i) as [row Hr]; [rewrite (wf_rows _ Hw); lia|].
  pose proof (wf_cols _ Hw) as Hc. pose proof (Forall_lookup_1 _ _ _ _ Hc Hr) as Hrow. simpl in Hrow.
  rewrite (index_ok _ _ row), bind_Ret, store_ok, bind_Ret by (done || lia).
  rewrite store_ok, bind_Ret by (rewrite (wf_rows _ Hw); lia).
  eexists. split; [reflexivity|]. split; [|done..|].
  - split; cbn [dom nodes count]; try apply Hw.
    + rewrite length_insert. apply Hw.
    + apply Forall_insert; [done|]. by rewrite length_insert.
  - intros x y. unfold D. cbn [dom]. destruct (decide (x = i)) as [->|Hx].
    + rewrite list_lookup_insert_eq by (rewrite (wf_rows _ Hw); lia). rewrite Hr. simpl.
      destruct (decide (y = j)) as [->|Hy].
      * by rewrite list_lookup_insert_eq, decide_True by (done || lia).
      * by rewrite list_lookup_insert_ne, decide_False by (done || tauto).
    + by rewrite list_lookup_insert_ne, decide_False by (done || tauto).
Qed.

Lemma redomed_trans a b c d e :
  redomed a b d → redomed b c e → redomed a c e.
Proof. intros [] [?????]. split; congruence. Qed.

Lemma redomed_ext a b d e : redomed a b d → (∀ i j, d i j = e i j) → redomed a b e.
Proof. intros [] Hde. split; try done. intros. by rewrite rd_dom0. Qed.

(** A loop of matrix assignments. *)
Lemma set_dom_loop lat n (row col : nat → nat) b :
  wf_lat lat → (∀ i, i < n → row i < 8 ∧ col i < 8) →
  ∃ lat', for_out 0 n (λ i, set_dom (row i) (col i) b) lat = Ret lat' ∧
    redomed lat lat' (λ x y, if any_below n (λ i, (x =? row i)%nat && (y =? col i)%nat)
                             then b else D lat x y).
Proof.
  intros Hw Hrc.
  apply (for_out_ind (λ k l, redomed lat l (λ x y,
    if any_below k (λ i, (x =? row i)%nat && (y =? col i)%nat) then b else D lat x y))); [lia| |].
  - by split.
  - intros i s [_ Hi] Hs. destruct (Hrc i Hi) as [Hri Hci].
    destruct (set_dom_ok s (row i) (col i) b (rd_wf _ _ _ Hs) Hri Hci) as (s' & -> & Hs').
    exists s'. split; [done|]. eapply redomed_ext; [by eapply redomed_trans|]. intros x y.
    unfold any_below. rewrite seq_S, List.existsb_app. simpl. rewrite orb_false_r.
    rewrite (rd_dom _ _ _ Hs). unfold any_below.
    destruct (Nat.eqb_spec x (row i)), (Nat.eqb_spec y (col i)); simpl;
      (case_decide; [|try (exfalso; tauto)]); rewrite ?orb_true_r, ?orb_false_r; try done; tauto.
Qed.

(** The matrix after the fifth level was added. *)
Lemma reconfigure_ok lat :
  wf_lat lat →
  ∃ lat', reconfigure lat = Ret lat' ∧ wf_lat lat' ∧ count lat' = 5 ∧ bottom lat' = bottom lat ∧
    top lat' = 4 ∧
    ∀ i j, i < 5 → j < 5 →
      D lat' i j = if decide (i = 4) then true else if decide (j = 4) then false else D lat i j.
Proof.
  intros Hw. unfold reconfigure, set_node.
  rewrite store_ok, !bind_Ret by (rewrite (wf_nodes _ Hw); lia).
  set (lat1 := mkSecurityLattice _ _ _ _ _).
  assert (wf_lat lat1) as Hw1.
  { destruct Hw. split; [done|done| |simpl; lia]. simpl. by rewrite length_insert. }
  destruct (set_dom_loop lat1 5 (λ _, 4) (λ j, j) true Hw1) as (lat2 & -> & Hr2); [lia|].
  rewrite bind_Ret.
  destruct (set_dom_loop lat2 4 (λ i, i) (λ _, 4) false (rd_wf _ _ _ Hr2)) as (lat3 & E3 & Hr3); [lia|].
  exists lat3. split; [exact E3|]. split; [apply Hr3|]. destruct Hr3 as [_ -> -> -> Hd3].
  destruct Hr2 as [_ -> -> -> Hd2]. do 3 (split; [done|]). intros i j Hi Hj.
  rewrite Hd3, Hd2. unfold any_below. simpl.
  do 5 (destruct i as [|i]; [do 5 (destruct j as [|j]; [done|]); lia|]). lia.
Qed.

(** ** Information flow *)

(** One flow step: some subject reads object [o] and writes object [o']. *)
Definition flow_step (lat : SecurityLattice) (o o' : Label) : Prop :=
  ∃ s, may_read lat s o = Ret true ∧ may_write lat s o' = Ret true.

Lemma flow_step_up lat o o' :
  wf_lat lat → bounded_poset lat → flow_step lat o o' → ge lat o' o.
Proof.
  intros Hw Hp (s & Hr & Hwr). unfold may_read, may_write in *.
  rewrite dominates_ok in Hr, Hwr by done. simplify_out. by apply (bp_trans _ Hp o' s o).
Qed.

(** ** Properties *)

(** A lattice of six labels: bottom 0, then 1 and 2, then 3 and 4 both above
    both of them, top 5. *)
Definition bowtie : SecurityLattice :=
  mkSecurityLattice (replicate 8 None)
    [[true; false; false; false; false; false; false; false];
     [true; true; false; false; false; false; false; false];
     [true; false; true; false; false; false; false; false];
     [true; true; true; true; false; false; false; false];
     [true; true; true; false; true; false; false; false];
     [true; true; true; true; true; true; false; false];
     replicate 8 false; replicate 8 false] 6 0 5.

(** Three labels numbered downwards: 0 is the top, 2 the bottom. *)
Definition inverted : SecurityLattice :=
  mkSecurityLattice (replicate 8 None)
    [[true; true; true; false; false; false; false; false];
     [false; true; true; false; false; false; false; false];
     [false; false; true; false; false; false; false; false];
     replicate 8 false; replicate 8 false; replicate 8 false; replicate 8 false; replicate 8 false]
    3 2 0.

Lemma bowtie_wf : wf_lat bowtie.
Proof. split; [done| |done|simpl; lia]. by repeat constructor. Qed.

Lemma inverted_wf : wf_lat inverted.
Proof. split; [done| |done|simpl; lia]. by repeat constructor. Qed.

(** [verify] is a decision procedure for bounded partial orders: it
    never panics, answers (true, "") exactly when dominance among the labels
    in use is reflexive, antisymmetric and transitive and the named bottom
    and top bound it, and (false, reason) otherwise. *)
Theorem verify_exact lat :
  wf_lat lat → bottom lat < count lat → top lat < count lat →
  (bounded_poset lat ∧ verify lat = Ret (true, ""%string)) ∨
  (¬ bounded_poset lat ∧ ∃ why, verify lat = Ret (false, why)).
Proof. apply verify_decides. Qed.

Lemma verify_exact_witness :
  (bounded_poset bowtie ∧ verify bowtie = Ret (true, ""%string)) ∨
  (¬ bounded_poset bowtie ∧ ∃ why, verify bowtie = Ret (false, why)).
Proof. apply (verify_exact bowtie bowtie_wf); simpl; lia. Defined.

(** in an accepted lattice [meet] returns the greatest lower bound of
    its arguments whenever they have one. *)
Theorem meet_is_glb lat a b g :
  wf_lat lat → bottom lat < count lat → top lat < count lat → verify lat = Ret (true, ""%string) →
  is_glb lat a b g → meet lat a b = Ret (Some g).
Proof.
  intros Hw Hb Ht Hv Hg. destruct (verify_decides lat Hw Hb Ht) as [[Hp _]|[_ [why E]]]; [|congruence].
  destruct (meet_ok lat a b Hw Hp) as (best & -> & _ & _ & Hbest). f_equal. apply Hbest; [|done].
  destruct Hg as ((_ & Hlt & _)%ge_labels & _). done.
Qed.

Lemma meet_is_glb_witness : meet bowtie 1 2 = Ret (Some 0).
Proof.
  apply (meet_is_glb bowtie 1 2 0 bowtie_wf); [simpl; lia|simpl; lia|vm_compute; reflexivity|].
  split; [done|split; [done|]].
  intros v Hv. destruct (ge_labels _ _ _ Hv) as (_ & Hlt & _). simpl in Hlt.
  do 6 (destruct v as [|v]; [done|]). lia.
Defined.

(** in a matrix whose labels are numbered upwards (a label dominates no
    higher-numbered one), accepted by [verify] or not, [join] returns the least upper bound
    whenever there is one. *)
Theorem join_is_lub lat a b u :
  wf_lat lat → (∀ i j, ge lat i j → j <= i) → is_lub lat a b u → join lat a b = Ret (Some u).
Proof.
  intros Hw Hup (Hua & Hub & Hleast).
  destruct (join_ok lat a b Hw) as [(v & Hva & Hvb & Hfirst & ->)|[Hn _]]; [|by destruct (Hn u)].
  do 2 f_equal. assert (u <= v) by auto.
  destruct (decide (u < v)) as [Hlt|]; [|lia]. by destruct (Hfirst u Hlt).
Qed.

Lemma join_is_lub_witness : join bowtie 0 1 = Ret (Some 1).
Proof.
  apply (join_is_lub bowtie 0 1 1 bowtie_wf).
  - intros i j Hij. destruct (ge_labels _ _ _ Hij) as (Hi & Hj & _). simpl in Hi, Hj.
    do 6 (destruct i as [|i]; [do 6 (destruct j as [|j]; [done || lia|]); lia|]). lia.
  - split; [done|split; [done|]].
    intros v _ Hv. done.
Defined.

(** All seven axioms of the file's header, the last two with their documented
    meaning: every two labels have a least upper and a greatest lower bound. *)
Record is_lattice (lat : SecurityLattice) : Prop := {
  il_poset : bounded_poset lat;
  il_join a b : a < count lat → b < count lat → ∃ u, is_lub lat a b u;
  il_meet a b : a < count lat → b < count lat → ∃ g, is_glb lat a b g;
}.

Definition numbered_upwards (lat : SecurityLattice) : Prop := ∀ i j, ge lat i j → j <= i.


(** the join and meet checks of [verify] establish less than they
    name: it accepts an order in which labels 1 and 2 have no least upper
    bound, and an order (numbered downwards) on which [join] of a label with
    itself is not that label. *)
Theorem verify_accepts_non_lattice :
  verify bowtie = Ret (true, ""%string) ∧ (∀ u, ¬ is_lub bowtie 1 2 u) ∧
  verify inverted = Ret (true, ""%string) ∧
  is_lub inverted 2 2 2 ∧ join inverted 2 2 = Ret (Some 0).
Proof.
  split; [vm_compute; reflexivity|]. split.
  - intros u (Hu1 & Hu2 & Hl). pose proof (Hl 3 eq_refl eq_refl) as H3.
    pose proof (Hl 4 eq_refl eq_refl) as H4. destruct (ge_labels _ _ _ Hu1) as (Hlt & _).
    simpl in Hlt. do 6 (destruct u as [|u]; [discriminate|]). lia.
  - split; [vm_compute; reflexivity|]. split; [|vm_compute; reflexivity].
    split; [done|]. split; [done|]. by intros v.
Qed.

(** C4: under an accepted lattice no chain of permitted reads and writes,
    by any subjects in any order, carries information from an object to one
    that does not dominate it. *)
Theorem no_downward_flow lat o o' :
  wf_lat lat → bottom lat < count lat → top lat < count lat → verify lat = Ret (true, ""%string) →
  o < count lat → rtc (flow_step lat) o o' → dominates lat o' o = Ret true.
Proof.
  intros Hw Hb Ht Hv Ho Hf. destruct (verify_decides lat Hw Hb Ht) as [[Hp _]|[_ [why E]]]; [|congruence].
  rewrite dominates_ok by done. f_equal.
  assert (∀ x, ge lat x o → rtc (flow_step lat) x o' → ge lat o' o) as Hgen.
  { clear Hf. intros x Hx Hr. revert Hx. induction Hr as [|x y z Hxy _ IH]; intros Hx; [done|].
    apply IH. apply flow_step_up in Hxy; [|done|done]. by apply (bp_trans _ Hp y x o). }
  apply (Hgen o); [by apply (bp_refl _ Hp)|done].
Qed.

Lemma no_downward_flow_witness : dominates bowtie 3 1 = Ret true.
Proof.
  apply (no_downward_flow bowtie 1 3 bowtie_wf); [simpl; lia|simpl; lia|vm_compute; reflexivity|simpl; lia|].
  apply rtc_once. exists 1. split; reflexivity.
Defined.

(** the default lattice is the four-level Bell-LaPadula chain: reads go
    down, writes go up, join is the maximum, meet the minimum, labels out of
    range get nothing, and [verify] accepts it. *)
Theorem default_blp_spec :
  ∃ lat, default_blp = Ret lat ∧ verify lat = Ret (true, ""%string) ∧
    ∀ a b, may_read lat a b = Ret ((a <? 4) && (b <? 4) && (b <=? a))%nat ∧
      may_write lat a b = Ret ((a <? 4) && (b <? 4) && (a <=? b))%nat ∧
      (a < 4 → b < 4 → join lat a b = Ret (Some (Nat.max a b)) ∧
                       meet lat a b = Ret (Some (Nat.min a b))).
Proof.
  eexists. split; [vm_compute; reflexivity|]. split; [vm_compute; reflexivity|].
  intros a b. unfold may_read, may_write, dominates. cbn [count].
  do 4 (destruct a as [|a]; [do 4 (destruct b as [|b]; [vm_compute; done|]); done || (split; [done|split; [done|lia]])|]).
  do 4 (destruct b as [|b]; [split; [done|split; [done|lia]]|]). split; [done|split; [done|lia]].
Qed.

(** adding the fifth level to any accepted four-label lattice gives an
    accepted lattice in which the new label dominates all and is dominated
    by none of the old ones, and every decision about old labels is as it
    was. *)
Theorem reconfigure_preserves lat :
  wf_lat lat → bottom lat < 4 → top lat < 4 → count lat = 4 → verify lat = Ret (true, ""%string) →
  ∃ lat', reconfigure lat = Ret lat' ∧ verify lat' = Ret (true, ""%string) ∧
    (∀ a b, a < 4 → b < 4 → dominates lat' a b = dominates lat a b) ∧
    (∀ a, a < 4 → dominates lat' 4 a = Ret true ∧ dominates lat' a 4 = Ret false).
Proof.
  intros Hw Hb Ht Hc Hv. rewrite <-Hc in Hb, Ht.
  destruct (verify_decides lat Hw Hb Ht) as [[Hp _]|[_ [why E]]]; [|congruence].
  destruct (reconfigure_ok lat Hw) as (lat' & -> & Hw' & Hc' & Hb' & Ht' & Hd).
  assert (∀ a b, a < 5 → b < 5 →
    geb lat' a b = if decide (a = 4) then true else if decide (b = 4) then false else geb lat a b) as Hg.
  { intros a b Ha' Hb''. rewrite geb_D, Hd by (rewrite ?Hc'; lia).
    do 2 (case_decide; [done|]). symmetry. apply geb_D; lia. }
  assert (∀ a b, ge lat' a b → a < 5 ∧ b < 5) as Hlt.
  { intros a b (?&?&_)%ge_labels. lia. }
  exists lat'. split; [done|].
  split; [|split].
  - destruct (verify_decides lat' Hw') as [[_ E]|[Hno _]]; [lia|lia|done|]. destruct Hno. split.
    + intros i Hi. rewrite Hg by lia. repeat (case_decide; [done|]). apply (bp_refl _ Hp). lia.
    + intros i j Hij Hji. destruct (Hlt _ _ Hij). rewrite Hg in Hij, Hji by lia.
      repeat case_decide; subst; try done. by apply (bp_antisym _ Hp).
    + intros i j k Hij Hjk. destruct (Hlt _ _ Hij), (Hlt _ _ Hjk). rewrite Hg in * by lia.
      repeat case_decide; subst; try done. by apply (bp_trans _ Hp i j k).
    + intros i Hi. rewrite Hg, Hb' by lia. do 2 (case_decide; [done || lia|]).
      apply (bp_bottom _ Hp). lia.
    + intros i Hi. rewrite Hg, Ht' by lia. by rewrite decide_True.
  - intros a b Ha' Hb''. rewrite !dominates_ok, Hg by (done || lia).
    by rewrite !decide_False by lia.
  - intros a Ha'. rewrite !dominates_ok, !Hg by (done || lia). by rewrite decide_True, decide_False, decide_True by lia.
Qed.

(** The bowtie without its upper half: a diamond of four labels. *)
Definition diamond : SecurityLattice :=
  mkSecurityLattice (nodes bowtie) (dom bowtie) 4 0 3.

Lemma diamond_wf : wf_lat diamond.
Proof. destruct bowtie_wf; split; [done|done|done|simpl; lia]. Qed.

(** A statement on two labels of the diamond, checked label by label. *)
Lemma diamond_labels (P : nat → Prop) : P 0 → P 1 → P 2 → P 3 → ∀ a, a < count diamond → P a.
Proof. intros ? ? ? ? a Ha. do 4 (destruct a as [|a]; [done|]). simpl in Ha. lia. Qed.

Ltac diamond_bound :=
  split; [done|]; split; [done|];
  let v := fresh in let Hv := fresh in
  intros v Hv; pose proof (ge_labels _ _ _ Hv) as (? & ? & _); revert Hv;
  pattern v; apply diamond_labels; [..|assumption]; done.

Lemma diamond_lattice : is_lattice diamond.
Proof.
  split.
  - destruct (verify_decides diamond diamond_wf) as [[Hp _]|[_ [why E]]]; [simpl; lia|simpl; lia|exact Hp|].
    discriminate E.
  - intros a b Ha. revert b. pattern a. revert a Ha. apply diamond_labels; apply diamond_labels.
    all: first [exists 0; diamond_bound|exists 1; diamond_bound|exists 2; diamond_bound|exists 3; diamond_bound].
  - intros a b Ha. revert b. pattern a. revert a Ha. apply diamond_labels; apply diamond_labels.
    all: first [exists 0; diamond_bound|exists 1; diamond_bound|exists 2; diamond_bound|exists 3; diamond_bound].
Qed.


Lemma reconfigure_preserves_witness :
  ∃ lat', reconfigure diamond = Ret lat' ∧ verify lat' = Ret (true, ""%string) ∧
    (∀ a b, a < 4 → b < 4 → dominates lat' a b = dominates diamond a b) ∧
    (∀ a, a < 4 → dominates lat' 4 a = Ret true ∧ dominates lat' a 4 = Ret false).
Proof.
  apply (reconfigure_preserves diamond);
    [apply diamond_wf|simpl; lia|simpl; lia|done|].
  vm_compute. reflexivity.
Defined.

(** the boot demonstration: the default lattice is valid, every access
    check has the expected result, the fifth level is accepted and ordered
    as printed, and the lattice with a missing transitive edge is rejected
    for that reason. *)
Theorem lattice_demo :
  ∃ lat', (lat ← default_blp; run_demo lat) = Ret (lat', mkLatticeDemo
    (true, ""%string)
    [(true, true); (false, false); (true, true); (false, false); (true, true); (true, true)]
    [(Some 2, Some 1); (Some 3, Some 0); (Some 2, Some 2); (Some 0, Some 0)]
    (true, ""%string) (true, false) (false, "transitivity violated"%string)
    [mkAudit LatticeReconfigured 0 5 0]).
Proof. eexists. vm_compute. reflexivity. Qed.

(** Every label in use of the default lattice prints under its own name. *)
Theorem default_blp_names :
  (lat ← default_blp; map_out (node_name lat) [0; 1; 2; 3; 4])
  = Ret (blp_names ++ [bstr "?"]).
Proof. by vm_compute. Qed.
