(* ===== verification/Ztdf.v ===== *)
(** * ZTDF: the zero-trust driver framework

    Model of [kernel/src/ztdf.rs]: driver specifications (memory regions,
    interrupts, system calls), the checker's [step], and the
    demonstration's three drivers with their audit calls.

    Shown here: for a specification without an operation budget, the loops
    that drive a driver carry out exactly the operations before the first one
    the specification does not permit, end with the fault naming that one and
    make the documented audit entry; the operation budget of a specification
    is never consulted, so a driver with one runs past it; and what happens to
    a region that ends at the top of the address space. *)

From S2P Require Import Prelude Meal Lattice.
From Stdlib Require Import ZArith Lia.
From stdpp Require Import base numbers list strings.
#[local] Open Scope Z_scope.

(** ** Specifications *)

Record MmioRegion := mkMmioRegion { start : Z; len : Z }.

Record DriverSpec := mkDriverSpec {
  driver_id : Z;
  dname : list Z;
  mmio : list (option MmioRegion);
  allowed_irqs : list (option Z);
  allowed_syscalls : list (option Z);
  op_budget : Z;
}.

Definition make_name (s : list Z) : list Z :=
  let len := Nat.min (length s) 15 in
  splice 0 (take len s) (replicate 16 0).

Definition name_str (s : DriverSpec) : outcome (list Z) := field_str (dname s).

Inductive DriverResult :=
  | Ok | FaultMmio (addr : Z) | FaultIrq (irq : Z) | FaultSyscall (nr : Z) | Stopped.

#[global] Instance DriverResult_eq_dec : EqDecision DriverResult.
Proof. solve_decision. Defined.

Inductive DriverOp :=
  | MmioRead (addr : Z) | MmioWrite (addr : Z) | HandleIrq (irq : Z) | Syscall (nr : Z) | Exit.

#[global] Instance DriverOp_eq_dec : EqDecision DriverOp.
Proof. solve_decision. Defined.

Record ZtdfChecker := mkZtdfChecker { spec : DriverSpec; ops_done : Z }.

(** [iter().flatten().any(f)]. *)
Fixpoint flatten_any {A} (f : A → outcome bool) (l : list (option A)) : outcome bool :=
  match l with
  | [] => Ret false
  | None :: l => flatten_any f l
  | Some a :: l => f a ≫= λ b : bool, if b then Ret true else flatten_any f l
  end.

Section Checker.
Context `{Profile}.

Definition contains (r : MmioRegion) (addr : Z) : outcome bool :=
  if start r <=? addr then
    e ← add 64 (start r) (len r);
    Ret (addr <? e)
  else Ret false.

Definition mmio_allowed (s : DriverSpec) (addr : Z) : outcome bool :=
  flatten_any (λ r, contains r addr) (mmio s).

Definition irq_allowed (s : DriverSpec) (irq : Z) : outcome bool :=
  flatten_any (λ i, Ret (i =? irq)) (allowed_irqs s).

Definition syscall_allowed (s : DriverSpec) (nr : Z) : outcome bool :=
  flatten_any (λ n, Ret (n =? nr)) (allowed_syscalls s).

Definition new (s : DriverSpec) : ZtdfChecker := mkZtdfChecker s 0.

(** The counting tail of [step]. *)
Definition count_op (c : ZtdfChecker) : outcome (ZtdfChecker * DriverResult) :=
  n ← add 32 (ops_done c) 1;
  Ret (mkZtdfChecker (spec c) n, Ok).

Definition step (c : ZtdfChecker) (op : DriverOp) : outcome (ZtdfChecker * DriverResult) :=
  match op with
  | MmioRead addr | MmioWrite addr =>
    ok ← mmio_allowed (spec c) addr;
    if negb ok then Ret (c, FaultMmio addr) else count_op c
  | HandleIrq irq =>
    ok ← irq_allowed (spec c) irq;
    if negb ok then Ret (c, FaultIrq irq) else count_op c
  | Syscall nr =>
    ok ← syscall_allowed (spec c) nr;
    if negb ok then Ret (c, FaultSyscall nr) else count_op c
  | Exit => Ret (c, Stopped)
  end.

(** ** The demonstration's loops

    [drive react ops c]: step through [ops]; [react] gives the audit calls
    made on a result and whether the loop breaks.  Returns the checker, the
    last result and the audit calls. *)
Fixpoint drive (react : ZtdfChecker → DriverResult → list Audit * bool) (ops : list DriverOp)
    (c : ZtdfChecker) : outcome (ZtdfChecker * DriverResult * list Audit) :=
  match ops with
  | [] => Ret (c, Ok, [])
  | op :: ops =>
    '(c, r) ← step c op;
    let '(audits, stop) := react c r in
    if stop : bool then Ret (c, r, audits)
    else '(c, r, rest) ← drive react ops c; Ret (c, r, audits ++ rest)
  end.

Definition uart_spec : DriverSpec :=
  mkDriverSpec 1 (make_name (bstr "uart-com1"))
    [Some (mkMmioRegion 0x3F8 8); None; None; None]
    [Some 4; None; None; None]
    [Some 1; Some 2; None; None; None; None; None; None] 0.
Definition uart_ops : list DriverOp :=
  [HandleIrq 4; MmioRead 0x3F8; MmioWrite 0x3F8; Syscall 1; Exit].
Definition uart_react (c : ZtdfChecker) (r : DriverResult) : list Audit * bool :=
  match r with
  | Ok => ([], false)
  | Stopped => ([mkAudit DriverStopped (driver_id (spec c)) (ops_done c) 0], true)
  | _ => ([], true)
  end.

Definition mal_spec : DriverSpec :=
  mkDriverSpec 2 (make_name (bstr "mal-driver"))
    [Some (mkMmioRegion 0x1000 0x100); None; None; None]
    [Some 5; None; None; None]
    [Some 0; None; None; None; None; None; None; None] 0.
Definition mal_ops : list DriverOp := [MmioRead 0x1000; MmioWrite 0xFEE00000].
Definition mal_react (c : ZtdfChecker) (r : DriverResult) : list Audit * bool :=
  match r with
  | Ok => ([], false)
  | FaultMmio addr => ([mkAudit DriverFaultMmio (driver_id (spec c)) addr (ops_done c)], true)
  | _ => ([], true)
  end.

Definition esc_spec : DriverSpec :=
  mkDriverSpec 3 (make_name (bstr "esc-driver"))
    [None; None; None; None] [None; None; None; None]
    [Some 0; None; None; None; None; None; None; None] 0.
Definition esc_ops : list DriverOp := [Syscall 0; Syscall 8].
Definition esc_react (c : ZtdfChecker) (r : DriverResult) : list Audit * bool :=
  match r with
  | Ok => ([], false)
  | FaultSyscall nr => ([mkAudit DriverFaultSyscall (driver_id (spec c)) nr (ops_done c)], true)
  | _ => ([], true)
  end.

Definition loaded (s : DriverSpec) : Audit := mkAudit DriverLoaded (driver_id s) 0 0.

(** Returns the three last results and all audit calls. *)
Definition run_demo : outcome (list DriverResult * list Audit) :=
  '(_, r1, a1) ← drive uart_react uart_ops (new uart_spec);
  '(_, r2, a2) ← drive mal_react mal_ops (new mal_spec);
  '(_, r3, a3) ← drive esc_react esc_ops (new esc_spec);
  Ret ([r1; r2; r3], loaded uart_spec :: a1 ++ loaded mal_spec :: a2 ++ loaded esc_spec :: a3).
End Checker.

(** ** What a specification permits *)

(** The region as a set of addresses. *)
Definition in_region (r : MmioRegion) (addr : Z) : Prop := start r <= addr < start r + len r.

(** The regions, interrupts and system calls of the specification. *)
Definition listed (s : DriverSpec) (op : DriverOp) : Prop :=
  match op with
  | MmioRead addr | MmioWrite addr => ∃ r, Some r ∈ mmio s ∧ in_region r addr
  | HandleIrq irq => Some irq ∈ allowed_irqs s
  | Syscall nr => Some nr ∈ allowed_syscalls s
  | Exit => False
  end.

(** The bounds of the file's header: the lists, and at most [op_budget]
    operations, where 0 stands for no limit; [n] operations are done. *)
Definition permitted (s : DriverSpec) (n : nat) (op : DriverOp) : Prop :=
  listed s op ∧ (op_budget s = 0 ∨ Z.of_nat n < op_budget s).

Definition refusal (op : DriverOp) : DriverResult :=
  match op with
  | MmioRead addr | MmioWrite addr => FaultMmio addr
  | HandleIrq irq => FaultIrq irq
  | Syscall nr => FaultSyscall nr
  | Exit => Stopped
  end.

(** No region reaches the end of the address space. *)
Definition regions_fit (s : DriverSpec) : Prop :=
  ∀ r, Some r ∈ mmio s → 0 <= start r ∧ 0 <= len r ∧ start r + len r < 2 ^ 64.

Lemma flatten_any_ok {A} (P : A → Prop) f (l : list (option A)) :
  (∀ a, Some a ∈ l → ∃ b : bool, f a = Ret b ∧ (b = true ↔ P a)) →
  ∃ b : bool, flatten_any f l = Ret b ∧ (b = true ↔ ∃ a, Some a ∈ l ∧ P a).
Proof.
  induction l as [|[a|] l IH]; intros Hf.
  - exists false. split; [done|]. split; [done|]. intros (a & Ha & _). by apply not_elem_of_nil in Ha.
  - destruct (Hf a) as (b & Eb & Hb); [left|].
    destruct IH as (b' & Eb' & Hb'); [intros; apply Hf; by right|].
    cbn [flatten_any]. rewrite Eb, bind_Ret. destruct b.
    + exists true. split; [done|]. split; [|done]. intros _. exists a. split; [left|by apply Hb].
    + exists b'. split; [done|]. rewrite Hb'. split.
      * intros (x & Hx & HP). exists x. split; [by right|done].
      * intros (x & [[= ->]|Hx]%elem_of_cons & HP); [by apply Hb in HP|eauto].
  - destruct IH as (b' & Eb' & Hb'); [intros; apply Hf; by right|].
    exists b'. split; [done|]. rewrite Hb'. split; intros (x & Hx & HP); exists x.
    + split; [by right|done].
    + apply elem_of_cons in Hx as [?|?]; done.
Qed.

Lemma contains_ok `{Profile} r addr :
  0 <= start r → 0 <= len r → start r + len r < 2 ^ 64 →
  ∃ b : bool, contains r addr = Ret b ∧ (b = true ↔ in_region r addr).
Proof.
  intros. unfold contains, in_region. destruct (Z.leb_spec (start r) addr).
  - rewrite add_small, bind_Ret by (split; lia). eexists. split; [done|]. rewrite Z.ltb_lt. lia.
  - exists false. split; [done|]. split; [done|lia].
Qed.

Lemma listed_ok (x : Z) l :
  ∃ b : bool, flatten_any (λ i, Ret (i =? x)) l = Ret b ∧ (b = true ↔ Some x ∈ l).
Proof.
  destruct (flatten_any_ok (λ i, i = x) (λ i, Ret (i =? x)) l) as (b & E & Hb).
  - intros a _. exists (a =? x). split; [done|]. by rewrite Z.eqb_eq.
  - exists b. split; [done|]. rewrite Hb. split; [by intros (? & ? & ->)|eauto].
Qed.

(** The guard of each operation. *)
Lemma guard_ok `{Profile} c op :
  regions_fit (spec c) → op ≠ Exit →
  ∃ b : bool, (b = true ↔ listed (spec c) op) ∧
    step c op = if b then count_op c else Ret (c, refusal op).
Proof.
  intros Hfit Hne. destruct op as [addr|addr|irq|nr|]; [..|done].
  1,2: destruct (flatten_any_ok (λ r, in_region r addr) (λ r, contains r addr) (mmio (spec c)))
         as (b & E & Hb); [intros r Hr; apply contains_ok; by apply Hfit|];
       exists b; split; [done|]; simpl; unfold mmio_allowed; rewrite E; by destruct b.
  - destruct (listed_ok irq (allowed_irqs (spec c))) as (b & E & Hb). exists b. split; [done|].
    simpl. unfold irq_allowed. rewrite E. by destruct b.
  - destruct (listed_ok nr (allowed_syscalls (spec c))) as (b & E & Hb). exists b. split; [done|].
    simpl. unfold syscall_allowed. rewrite E. by destruct b.
Qed.

Lemma step_ok `{Profile} c op :
  regions_fit (spec c) → 0 <= ops_done c < 2 ^ 32 - 1 →
  (listed (spec c) op ∧ step c op = Ret (mkZtdfChecker (spec c) (ops_done c + 1), Ok)) ∨
  (¬ listed (spec c) op ∧ step c op = Ret (c, refusal op)).
Proof.
  intros Hfit Hn. destruct (decide (op = Exit)) as [->|Hne]; [right; by split; [intros []|]|].
  destruct (guard_ok c op Hfit Hne) as (b & Hb & ->). destruct b.
  - left. split; [by apply Hb|]. unfold count_op. by rewrite add_small by (split; lia).
  - right. split; [|done]. intros Hp. by apply Hb in Hp.
Qed.

(** A driver prints under the name it was registered with, cut to fifteen
    characters. *)
Lemma name_roundtrip s i r q y b :
  name_chars s → name_str (mkDriverSpec i (make_name s) r q y b) = Ret (take 15 s).
Proof. apply field_str_name. Qed.

(** ** Runs *)

Lemma refusal_not_ok op : refusal op ≠ Ok.
Proof. by destruct op. Qed.

(** [o] is the end of a run of [ops] under [s]: the checker counted the
    operations [ran], all permitted; either all were carried out, or the next
    one is not permitted, the result names it, and [logged] are the audit
    calls made. *)
Definition confined (s : DriverSpec) (ops : list DriverOp) (logged : DriverOp → Z → list Audit)
    (o : outcome (ZtdfChecker * DriverResult * list Audit)) : Prop :=
  ∃ ran r audits, o = Ret (mkZtdfChecker s (Z.of_nat (length ran)), r, audits) ∧
    (∀ i op, ran !! i = Some op → permitted s i op) ∧
    ((ran = ops ∧ r = Ok ∧ audits = []) ∨
     ∃ op rest, ops = ran ++ op :: rest ∧ ¬ permitted s (length ran) op ∧ r = refusal op ∧
       audits = logged op (Z.of_nat (length ran))).

(** A loop that goes on exactly after [Ok], silently. *)
Definition breaks (react : ZtdfChecker → DriverResult → list Audit * bool)
    (s : DriverSpec) (logged : DriverOp → Z → list Audit) : Prop :=
  (∀ c, react c Ok = ([], false)) ∧ ∀ n op, react (mkZtdfChecker s n) (refusal op) = (logged op n, true).

Lemma drive_ok `{Profile} react s logged ops n :
  breaks react s logged → regions_fit s → Z.of_nat n + Z.of_nat (length ops) < 2 ^ 32 →
  ∃ ran r audits, drive react ops (mkZtdfChecker s (Z.of_nat n))
      = Ret (mkZtdfChecker s (Z.of_nat (n + length ran)), r, audits) ∧ Forall (listed s) ran ∧
    ((ran = ops ∧ r = Ok ∧ audits = []) ∨
     ∃ op rest, ops = ran ++ op :: rest ∧ ¬ listed s op ∧ r = refusal op ∧
       audits = logged op (Z.of_nat (n + length ran))).
Proof.
  intros [Hok Hbreak] Hfit. revert n. induction ops as [|op ops IH]; intros n Hn.
  - exists [], Ok, []. rewrite Nat.add_0_r. split; [done|]. split; [constructor|]. by left.
  - cbn [length] in Hn. cbn [drive].
    destruct (step_ok (mkZtdfChecker s (Z.of_nat n)) op Hfit) as [[Hp ->]|[Hp ->]];
      [cbn [ops_done]; lia|..]; cbn [spec ops_done] in *; rewrite bind_Ret.
    + rewrite Hok. destruct (IH (S n)) as (ran & r & au & E & Hd & Hr); [lia|].
      replace (Z.of_nat n + 1) with (Z.of_nat (S n)) by lia. rewrite E, bind_Ret.
      exists (op :: ran), r, au. cbn [length]. replace (n + S (length ran))%nat with (S n + length ran)%nat by lia.
      split; [done|]. split; [by constructor|].
      destruct Hr as [(-> & -> & ->)|(o & rest & -> & Ho & -> & ->)]; [by left|right; by exists o, rest].
    + rewrite Hbreak. exists [], (refusal op), (logged op (Z.of_nat n)). cbn [length]. rewrite Nat.add_0_r.
      split; [done|]. split; [constructor|]. right. by exists op, ops.
Qed.

Lemma drive_confined `{Profile} react s logged ops :
  breaks react s logged → op_budget s = 0 → regions_fit s → Z.of_nat (length ops) < 2 ^ 32 →
  confined s ops logged (drive react ops (new s)).
Proof.
  intros Hb H0 Hfit Hn. destruct (drive_ok react s logged ops 0 Hb Hfit) as (ran & r & au & E & Hd & Hr); [lia|].
  exists ran, r, au. split; [exact E|]. split.
  - intros i op Hi. split; [|by left]. by apply (Forall_lookup_1 _ _ _ _ Hd Hi).
  - destruct Hr as [Hr|(op & rest & -> & Ho & -> & ->)]; [by left|right].
    exists op, rest. split; [done|]. split; [by intros [? _]|done].
Qed.

(** ** Properties *)

(** What each of the three loops of the demonstration logs when it ends. *)
Definition uart_logged (s : DriverSpec) (op : DriverOp) (n : Z) : list Audit :=
  match op with Exit => [mkAudit DriverStopped (driver_id s) n 0] | _ => [] end.
Definition mal_logged (s : DriverSpec) (op : DriverOp) (n : Z) : list Audit :=
  match op with MmioRead addr | MmioWrite addr => [mkAudit DriverFaultMmio (driver_id s) addr n] | _ => [] end.
Definition esc_logged (s : DriverSpec) (op : DriverOp) (n : Z) : list Audit :=
  match op with Syscall nr => [mkAudit DriverFaultSyscall (driver_id s) nr n] | _ => [] end.



(** A driver with a budget of one operation carries out two. *)
Lemma over_budget_runs :
  let s := mkDriverSpec 1 (make_name (bstr "uart-com1")) [] [] [Some 1] 1 in
  @drive dev_profile uart_react [Syscall 1; Syscall 1] (new s) = Ret (mkZtdfChecker s 2, Ok, []) ∧
  ¬ permitted s 1 (Syscall 1).
Proof. split; [reflexivity|]. intros [_ [H|H]]; cbn in H; lia. Qed.

(** the operation budget bounds nothing: two specifications that differ
    only in [op_budget] give the same result for every operation in every
    state. *)
Theorem op_budget_ignored `{Profile} id nm regions irqs calls budget budget' n op :
  snd <$> step (mkZtdfChecker (mkDriverSpec id nm regions irqs calls budget) n) op
  = snd <$> step (mkZtdfChecker (mkDriverSpec id nm regions irqs calls budget') n) op.
Proof.
  destruct op as [addr|addr|irq|nr|]; simpl; unfold mmio_allowed, irq_allowed, syscall_allowed;
    simpl; try done;
    match goal with |- context [flatten_any ?f ?l] => destruct (flatten_any f l) as [[]| |] end;
    simpl; try done; unfold count_op; simpl; by destruct (add 32 n 1).
Qed.

(** a region that ends exactly at 2^64 is unusable: its own addresses
    make the dev build panic and are refused by the release build, because
    [start + len] is computed in 64 bits. *)
Theorem region_at_top_of_memory r addr :
  0 <= start r → start r + len r = 2 ^ 64 → in_region r addr →
  @contains dev_profile r addr = Panic ∧ @contains release_profile r addr = Ret false.
Proof.
  intros Hs He [H1 H2]. unfold contains, add, checked. rewrite He.
  rewrite (proj2 (Z.leb_le _ _)) by done. split; [done|].
  assert (wrap 64 (2 ^ 64) = 0) as -> by done. simpl. f_equal. apply Z.ltb_ge. lia.
Qed.

Lemma region_at_top_of_memory_witness :
  let r := mkMmioRegion (2 ^ 64 - 4096) 4096 in
  @contains dev_profile r (2 ^ 64 - 1) = Panic ∧ @contains release_profile r (2 ^ 64 - 1) = Ret false.
Proof.
  apply (region_at_top_of_memory (mkMmioRegion (2 ^ 64 - 4096) 4096) (2 ^ 64 - 1));
    [done|done|split; done].
Defined.

(** the boot demonstration: the UART driver stops cleanly after four
    operations, the other two are terminated at their first forbidden
    operation, and six audit events record it. *)
Theorem ztdf_demo `{Profile} :
  run_demo = Ret ([Stopped; FaultMmio 0xFEE00000; FaultSyscall 8],
    [mkAudit DriverLoaded 1 0 0; mkAudit DriverStopped 1 4 0;
     mkAudit DriverLoaded 2 0 0; mkAudit DriverFaultMmio 2 0xFEE00000 1;
     mkAudit DriverLoaded 3 0 0; mkAudit DriverFaultSyscall 3 8 1]).
Proof. destruct H as [[] []]; vm_compute; reflexivity. Qed.
