(* ===== verification/Machine.v ===== *)
(** * Machine memory

    Memory as a map from addresses to cells (bytes or 64-bit words, as the
    component that uses it says), with the raw-pointer operations the kernel
    uses: loads, [ptr::write_bytes] and [rep stosb], [copy_nonoverlapping],
    slices made from raw parts.  Unwritten cells read as 0.  Also: programs as
    partial functions from addresses to bytes. *)

From S2P Require Import Prelude.
From Stdlib Require Import ZArith Lia.
From stdpp Require Import base numbers list gmap.
#[local] Open Scope Z_scope.

Abbreviation Memory := (gmap Z Z).

Definition load (m : Memory) (a : Z) : Z := default 0 (m !! a).

(** [n] cells from [p] on set to [v], in increasing order. *)
Fixpoint fill (n : nat) (p v : Z) (m : Memory) : Memory :=
  match n with
  | O => m
  | S n => fill n (p + 1) v (<[p := v]> m)
  end.

(** The cells of [l] written from [p] on. *)
Fixpoint write_at (p : Z) (l : list Z) (m : Memory) : Memory :=
  match l with
  | [] => m
  | x :: l => write_at (p + 1) l (<[p := x]> m)
  end.

(** [slice::from_raw_parts(p, n)]. *)
Definition read_at (m : Memory) (p : Z) (n : nat) : list Z :=
  (λ i, load m (p + Z.of_nat i)) <$> seq 0 n.

Lemma load_insert_eq m a v : load (<[a := v]> m) a = v.
Proof. unfold load. by rewrite lookup_insert_eq. Qed.

Lemma load_insert_ne m a b v : a ≠ b → load (<[a := v]> m) b = load m b.
Proof. intros. unfold load. by rewrite lookup_insert_ne. Qed.

Lemma load_fill n p v m a :
  load (fill n p v m) a = if decide (p <= a < p + Z.of_nat n) then v else load m a.
Proof.
  revert p m. induction n as [|n IH]; intros p m; cbn [fill]; [by rewrite decide_False by lia|].
  rewrite IH. destruct (decide (p = a)) as [->|Hne].
  - rewrite decide_False, load_insert_eq, decide_True by lia. done.
  - rewrite load_insert_ne by done. do 2 case_decide; try done; lia.
Qed.

Lemma load_write_at l p m a :
  load (write_at p l m) a
  = if decide (p <= a < p + Z.of_nat (length l)) then l !!! Z.to_nat (a - p) else load m a.
Proof.
  revert p m. induction l as [|x l IH]; intros p m; cbn [write_at length]; [by rewrite decide_False by lia|].
  rewrite IH. destruct (decide (p = a)) as [->|Hne].
  - rewrite decide_False, load_insert_eq, decide_True, Z.sub_diag by lia. done.
  - rewrite load_insert_ne by done. do 2 case_decide; try done; try lia.
    by replace (Z.to_nat (a - p)) with (S (Z.to_nat (a - (p + 1)))) by lia.
Qed.

Lemma length_read_at m p n : length (read_at m p n) = n.
Proof. unfold read_at. by rewrite length_fmap, length_seq. Qed.

Lemma lookup_read_at m p n i :
  (i < n)%nat → read_at m p n !! i = Some (load m (p + Z.of_nat i)).
Proof. intros. unfold read_at. by rewrite list_lookup_fmap, lookup_seq_lt. Qed.

Lemma read_at_ext m m' p n :
  (∀ a, p <= a < p + Z.of_nat n → load m' a = load m a) → read_at m' p n = read_at m p n.
Proof.
  intros E. apply list_eq_same_length with n; [apply length_read_at..|].
  intros i x y Hi Hx Hy. rewrite lookup_read_at in Hx, Hy by done.
  rewrite E in Hx by lia. congruence.
Qed.

Lemma read_write_at m p l : read_at (write_at p l m) p (length l) = l.
Proof.
  apply list_eq_same_length with (length l); [done|apply length_read_at|].
  intros i x y Hi Hx Hy. rewrite lookup_read_at in Hx by done. injection Hx as <-.
  rewrite load_write_at, decide_True by lia.
  replace (Z.to_nat (p + Z.of_nat i - p)) with i by lia. by apply list_lookup_total_correct.
Qed.

Lemma read_fill m p v n : read_at (fill n p v m) p n = replicate n v.
Proof.
  apply list_eq_same_length with n; [apply length_replicate|apply length_read_at|].
  intros i x y Hi Hx Hy. rewrite lookup_read_at in Hx by done. injection Hx as <-.
  rewrite load_fill, decide_True by lia. by apply lookup_replicate in Hy as [-> _].
Qed.

(** ** Machine code *)

(** Sign extension of immediate operands. *)
Definition sext8 (b : Z) : Z := if b <? 128 then b else b - 256.
Definition sext32 (x : Z) : Z := if x <? 2 ^ 31 then x else x - 2 ^ 32.

(** [o'] answers whatever [o] answers; decoders are monotone in the code they
    read. *)
Definition answers {A} (o' o : option A) : Prop := ∀ r, o = Some r → o' = Some r.

Lemma answers_refl {A} (o : option A) : answers o o.
Proof. by intros r. Qed.

Lemma answers_bind {A B} (o' o : option A) (k' k : A → option B) :
  answers o' o → (∀ x, answers (k' x) (k x)) → answers (o' ≫= k') (o ≫= k).
Proof. intros Ho Hk r (x & Hx & Hr)%bind_Some. rewrite (Ho x Hx). by apply Hk. Qed.

Lemma answers_if {A} (b : bool) (o1' o1 o2' o2 : option A) :
  answers o1' o1 → answers o2' o2 → answers (if b then o1' else o2') (if b then o1 else o2).
Proof. by destruct b. Qed.

(** [code'] knows at least the bytes of [code]. *)
Definition knows (code' code : Z → option Z) : Prop := ∀ a, answers (code' a) (code a).

(** Closes [answers (decode code' a) (decode code a)]. *)
Ltac decoder_knows :=
  repeat first [ assumption | apply answers_refl | apply answers_if
               | apply answers_bind; [|intros ?] ].

(** A program at [base] and nothing else. *)
Definition prog_at (base : Z) (prog : list Z) (a : Z) : option Z :=
  if a <? base then None else prog !! Z.to_nat (a - base).

Lemma prog_at_Some base prog a b :
  prog_at base prog a = Some b →
  base <= a < base + Z.of_nat (length prog) ∧ prog !! Z.to_nat (a - base) = Some b.
Proof.
  unfold prog_at. destruct (Z.ltb_spec a base); [done|]. intros Hl.
  pose proof (lookup_lt_Some _ _ _ Hl). split; [lia|done].
Qed.
