(* ===== verification/Task.v ===== *)
(** * Tasks, their budgets and the context switch

    Model of [kernel/src/task.rs] and of [kernel/src/context_switch.s]: the
    leakage accounting [ScbaState], the task constructors, which lay out the
    first context of a task on its stack, and the register-by-register switch
    that consumes it.  Memory is a map from addresses to 64-bit words; the
    address the heap returned for a stack is an argument.

    Shown here: a fresh task starts at its entry point with interrupts
    enabled, and a task that was switched away from resumes after its call
    with every callee-saved register, its flags and its stack pointer as they
    were, as long as nobody wrote to its frame. *)

From S2P Require Import Prelude Machine.
From Stdlib Require Import ZArith Lia.
From stdpp Require Import base numbers list gmap.
#[local] Open Scope Z_scope.

(** ** Leakage budgets *)

Record ScbaState := mkScbaState {
  budget_max : Z; budget_consumed : Z; fence_count : Z; throttle_count : Z; epoch : Z }.

Definition scba_new (budget_max : Z) : ScbaState := mkScbaState budget_max 0 0 0 0.

Section Budget.
Context `{Profile}.

Definition tick (s : ScbaState) : outcome (ScbaState * bool) :=
  n ← add 64 (budget_consumed s) 1;
  Ret (mkScbaState (budget_max s) n (fence_count s) (throttle_count s) (epoch s),
       budget_max s <=? n).

Definition reset_epoch (s : ScbaState) : outcome ScbaState :=
  f ← add 64 (fence_count s) 1;
  e ← add 64 (epoch s) 1;
  Ret (mkScbaState (budget_max s) 0 f (throttle_count s) e).
End Budget.

(** ** Tasks *)

Inductive TaskState := Ready | Running.

#[global] Instance TaskState_eq_dec : EqDecision TaskState.
Proof. solve_decision. Defined.

(** [stack] is the heap block of the stack: address and size. *)
Record Task := mkTask {
  id : Z; state : TaskState; rsp : Z; stack : Z * Z; scba : ScbaState }.

(** [alloc::vec![0u8; size]] at [base]. *)
Definition zeroed (base size : Z) (m : Memory) : Memory :=
  filter (λ kv, ¬ (base <= kv.1 < base + size)) m.

(** The saved context, lowest address first. *)
Record InitCtx := mkInitCtx {
  c_r15 : Z; c_r14 : Z; c_r13 : Z; c_r12 : Z; c_rbx : Z; c_rbp : Z; c_rflags : Z; c_rip : Z }.

Definition write_ctx (p : Z) (c : InitCtx) (m : Memory) : Memory :=
  <[p + 56 := c_rip c]> (<[p + 48 := c_rflags c]> (<[p + 40 := c_rbp c]> (<[p + 32 := c_rbx c]>
    (<[p + 24 := c_r12 c]> (<[p + 16 := c_r13 c]> (<[p + 8 := c_r14 c]> (<[p := c_r15 c]> m))))))).

Definition read_ctx (m : Memory) (p : Z) : InitCtx :=
  mkInitCtx (load m p) (load m (p + 8)) (load m (p + 16)) (load m (p + 24)) (load m (p + 32))
    (load m (p + 40)) (load m (p + 48)) (load m (p + 56)).

Section Constructors.
Context `{Profile}.

(** [base] is where the allocator put the stack. *)
Definition new_with_budget (tid entry stack_size budget_max base : Z) (m : Memory)
    : outcome (Task * Memory) :=
  let m := zeroed base stack_size m in
  stack_top ← add 64 base stack_size;
  let ctx_size := 64 in
  p ← sub 64 stack_top ctx_size;
  ctx_ptr ← sub 64 p 128;
  let m := write_ctx ctx_ptr (mkInitCtx 0 0 0 0 0 0 0x200 entry) m in
  Ret (mkTask tid Ready ctx_ptr (base, stack_size) (scba_new budget_max), m).

Definition new_idle (tid base : Z) (m : Memory) : Task * Memory :=
  (mkTask tid Running 0 (base, 4096) (scba_new (2 ^ 64 - 1)), zeroed base 4096 m).
End Constructors.

(** ** The context switch *)

Record Cpu := mkCpu {
  r_rsp : Z; r_rip : Z; r_rflags : Z; r_rbp : Z; r_rbx : Z;
  r_r12 : Z; r_r13 : Z; r_r14 : Z; r_r15 : Z }.

(** The context [context_switch] pushes for the caller: the registers and,
    above them, the return address the call instruction pushed. *)
Definition pushed (c : Cpu) (ret : Z) : InitCtx :=
  mkInitCtx (r_r15 c) (r_r14 c) (r_r13 c) (r_r12 c) (r_rbx c) (r_rbp c) (r_rflags c) ret.

(** [call context_switch(rdi, rsi)] from [c], with return address [ret]:
    eight pushes, [mov %rsp, ( %rdi )], [mov %rsi, %rsp], seven pops, [ret].
    Memory is addressed by 64-bit words: [rdi] and the stack pointers are the
    8-byte aligned addresses the compiler and [Task::new] give them, so that
    two words overlap only when they are the same. *)
Definition context_switch (rdi rsi ret : Z) (s : Cpu * Memory) : Cpu * Memory :=
  let '(c, m) := s in
  let sp := r_rsp c - 64 in
  let m := write_ctx sp (pushed c ret) m in
  let m := <[rdi := sp]> m in
  let x := read_ctx m rsi in
  (mkCpu (rsi + 64) (c_rip x) (c_rflags x) (c_rbp x) (c_rbx x) (c_r12 x) (c_r13 x) (c_r14 x) (c_r15 x),
   m).

(** ** Facts *)

Lemma read_write_ctx m p c : read_ctx (write_ctx p c m) p = c.
Proof.
  unfold read_ctx, write_ctx. destruct c. f_equal;
    repeat first [rewrite load_insert_eq|rewrite load_insert_ne by lia]; done.
Qed.

(** Two memories that agree on the eight words of a frame. *)
Definition same_frame (p : Z) (m m' : Memory) : Prop :=
  ∀ k, 0 <= k < 8 → load m' (p + 8 * k) = load m (p + 8 * k).

Lemma read_ctx_same p m m' : same_frame p m m' → read_ctx m' p = read_ctx m p.
Proof.
  intros Hs. unfold read_ctx.
  pose proof (Hs 0 ltac:(lia)) as E0. rewrite Z.add_0_r in E0.
  f_equal; [done|apply (Hs 1)|apply (Hs 2)|apply (Hs 3)|apply (Hs 4)|apply (Hs 5)|apply (Hs 6)
           |apply (Hs 7)]; lia.
Qed.

Lemma same_frame_insert p m m' a v :
  same_frame p m m' → (∀ k, 0 <= k < 8 → a ≠ p + 8 * k) → same_frame p m (<[a := v]> m').
Proof. intros Hs Ha k Hk. rewrite load_insert_ne by auto. by apply Hs. Qed.

Lemma same_frame_write_ctx p q c m m' :
  same_frame p m m' → (∀ k l, 0 <= k < 8 → 0 <= l < 8 → q + 8 * l ≠ p + 8 * k) →
  same_frame p m (write_ctx q c m').
Proof.
  intros Hs Hd. unfold write_ctx.
  pose proof (λ l Hl k Hk, Hd k l Hk Hl) as Hd'.
  repeat (apply same_frame_insert; [|]); try done.
  - intros k Hk. pose proof (Hd' 0 ltac:(lia) k Hk). lia.
  - apply (Hd' 1); lia.
  - apply (Hd' 2); lia.
  - apply (Hd' 3); lia.
  - apply (Hd' 4); lia.
  - apply (Hd' 5); lia.
  - apply (Hd' 6); lia.
  - apply (Hd' 7); lia.
Qed.

(** ** Properties *)

(** C27: a task that was switched away from resumes as if the call had
    returned: whatever ran in between, provided it left the saved frame
    alone and the second switch does not push over it, switching to the
    saved stack pointer restores every callee-saved register, the flags and
    the stack pointer, at the return address. *)
Theorem context_switch_resumes c m rdi rsi ret c2 m2 rdi2 ret2 :
  let sp := r_rsp c - 64 in
  (∀ k, 0 <= k < 8 → rdi ≠ sp + 8 * k) →
  same_frame sp (context_switch rdi rsi ret (c, m)).2 m2 →
  load m2 rdi = load (context_switch rdi rsi ret (c, m)).2 rdi →
  (∀ k, 0 <= k < 8 → rdi2 ≠ sp + 8 * k) →
  (∀ k l, 0 <= k < 8 → 0 <= l < 8 → r_rsp c2 - 64 + 8 * l ≠ sp + 8 * k) →
  (context_switch rdi2 (load m2 rdi) ret2 (c2, m2)).1
  = mkCpu (r_rsp c) ret (r_rflags c) (r_rbp c) (r_rbx c) (r_r12 c) (r_r13 c) (r_r14 c) (r_r15 c).
Proof.
  intros sp Hrdi Hsame Hptr Hrdi2 Hpush. rewrite Hptr.
  unfold context_switch in *. cbn [fst snd] in *.
  change (r_rsp c - 64) with sp in Hsame |- *. rewrite load_insert_eq.
  rewrite (read_ctx_same sp (write_ctx sp (pushed c ret) m)).
  - rewrite read_write_ctx. unfold pushed, sp. cbn. f_equal. lia.
  - apply same_frame_insert; [|done]. apply same_frame_write_ctx; [|done].
    intros k Hk. rewrite (Hsame k Hk). apply load_insert_ne. by apply Hrdi.
Qed.

Lemma context_switch_resumes_witness :
  let c := mkCpu 0x1000 0x10 0x202 1 2 3 4 5 6 in
  let c2 := mkCpu 0x3000 0x20 0x202 9 9 9 9 9 9 in
  let m2 := (context_switch 0x500 0x2000 0x77 (c, ∅)).2 in
  (context_switch 0x508 (load m2 0x500) 0x88 (c2, m2)).1 = mkCpu 0x1000 0x77 0x202 1 2 3 4 5 6.
Proof.
  apply (context_switch_resumes (mkCpu 0x1000 0x10 0x202 1 2 3 4 5 6) ∅ 0x500 0x2000 0x77
           (mkCpu 0x3000 0x20 0x202 9 9 9 9 9 9)); simpl; [lia|done|done|lia|lia].
Defined.

(** a new task's first switch enters its entry point with interrupts
    enabled (rflags = 0x200) and cleared registers, 128 bytes below the top
    of its own stack; the constructor does not fail for any stack inside the
    address space of at least 192 bytes. *)
Theorem new_task_starts `{Profile} tid entry size budget base m :
  0 <= base → 192 <= size → base + size < 2 ^ 64 →
  ∃ t m', new_with_budget tid entry size budget base m = Ret (t, m') ∧
    state t = Ready ∧ scba t = scba_new budget ∧
    base <= rsp t ∧ rsp t + 64 + 128 = base + size ∧
    ∀ c rdi ret, (∀ k, 0 <= k < 8 → rdi ≠ rsp t + 8 * k) →
      (∀ k l, 0 <= k < 8 → 0 <= l < 8 → r_rsp c - 64 + 8 * l ≠ rsp t + 8 * k) →
      (context_switch rdi (rsp t) ret (c, m')).1 = mkCpu (base + size - 128) entry 0x200 0 0 0 0 0 0.
Proof.
  intros Hb Hs Ht. unfold new_with_budget. rewrite add_small, bind_Ret by (split; lia).
  rewrite sub_small, bind_Ret by (split; lia). rewrite sub_small, bind_Ret by (split; lia).
  eexists _, _. split; [reflexivity|]. cbn [state scba rsp]. do 2 (split; [done|]).
  split; [lia|]. split; [lia|]. intros c rdi ret Hrdi Hpush. unfold context_switch. cbn [fst].
  set (p := base + size - 64 - 128) in *. set (ctx := mkInitCtx 0 0 0 0 0 0 0x200 entry).
  rewrite (read_ctx_same p (write_ctx p ctx (zeroed base size m))).
  - rewrite read_write_ctx. cbn. f_equal. unfold p. lia.
  - apply same_frame_insert; [|done]. by apply same_frame_write_ctx.
Qed.

Lemma new_task_starts_witness :
  ∃ t m', @new_with_budget dev_profile 1 0x400000 4096 64 0x100000 ∅ = Ret (t, m') ∧
    state t = Ready ∧ scba t = scba_new 64 ∧
    0x100000 <= rsp t ∧ rsp t + 64 + 128 = 0x100000 + 4096 ∧
    ∀ c rdi ret, (∀ k, 0 <= k < 8 → rdi ≠ rsp t + 8 * k) →
      (∀ k l, 0 <= k < 8 → 0 <= l < 8 → r_rsp c - 64 + 8 * l ≠ rsp t + 8 * k) →
      (context_switch rdi (rsp t) ret (c, m')).1
      = mkCpu (0x100000 + 4096 - 128) 0x400000 0x200 0 0 0 0 0 0.
Proof. apply (@new_task_starts dev_profile 1 0x400000 4096 64 0x100000 ∅); lia. Defined.
