(* ===== verification/Scheduler.v ===== *)
(** * The SCBA scheduler

    Model of [kernel/src/scheduler.rs] and of the timer interrupt that calls
    it ([timer_interrupt_handler] of [kernel/src/interrupts.rs]): round-robin
    choice of the next task, per-task leakage budgets with a fence when one
    is used up.  The pointer to the old task's saved stack pointer is
    represented by the index of the task.

    Shown here: the search for the next task always ends; with one running
    task among at least two, every tick switches to the next one in order and
    keeps exactly one running; and the accounting theorem: a task's fences
    times its budget plus what it has consumed in the current epoch is the
    number of ticks charged to it, and the latter stays below the budget. *)

From S2P Require Import Prelude Task.
From Stdlib Require Import ZArith Lia.
From stdpp Require Import base numbers list.
#[local] Open Scope Z_scope.

Record ScbaStats := mkScbaStats { total_fences : Z; total_switches : Z }.

Record Scheduler := mkScheduler { tasks : list Task; current : nat; stats : ScbaStats }.

Definition new : Scheduler := mkScheduler [] 0 (mkScbaStats 0 0).

Definition add_task (s : Scheduler) (t : Task) : Scheduler :=
  mkScheduler (tasks s ++ [t]) (current s) (stats s).

Definition task_count (s : Scheduler) : nat := length (tasks s).

Definition with_state (st : TaskState) (t : Task) : Task :=
  mkTask (id t) st (rsp t) (stack t) (scba t).
Definition with_scba (sc : ScbaState) (t : Task) : Task :=
  mkTask (id t) (state t) (rsp t) (stack t) sc.

Section Operations.
Context `{Profile}.

(** The round-robin [loop]: [Some next] is the break, [None] the return. *)
Fixpoint find_next (fuel : nat) (ts : list Task) (start next_idx : nat) : outcome (option nat) :=
  match fuel with
  | O => NoFuel
  | S fuel =>
    t ← index ts next_idx;
    if decide (state t = Ready) then Ret (Some next_idx) else
    let next_idx := ((next_idx + 1) mod length ts)%nat in
    if (next_idx =? start)%nat then Ret None else find_next fuel ts start next_idx
  end.

(** Lines "tick the current task's SCBA budget": the account, the counters
    and whether a fence is due. *)
Definition charge (st : ScbaStats) (sc : ScbaState) : outcome (ScbaState * ScbaStats * bool) :=
  '(sc, exhausted) ← tick sc;
  if exhausted : bool then
    sc ← reset_epoch sc;
    f ← add 64 (total_fences st) 1;
    Ret (sc, mkScbaStats f (total_switches st), true)
  else Ret (sc, st, false).

(** Lines "round-robin", with the old task already marked ready. *)
Definition choose (ts : list Task) (old_idx : nat) (st : ScbaStats) (need_fence : bool)
    : outcome (Scheduler * option (nat * Z * bool)) :=
  let start := ((old_idx + 1) mod length ts)%nat in
  found ← find_next (length ts) ts start start;
  match found with
  | None => Ret (mkScheduler ts old_idx st, None)
  | Some next_idx =>
    if (next_idx =? old_idx)%nat then Ret (mkScheduler ts old_idx st, None) else
    t ← index ts next_idx;
    let ts := <[next_idx := with_state Running t]> ts in
    n ← add 64 (total_switches st) 1;
    Ret (mkScheduler ts next_idx (mkScbaStats (total_fences st) n),
         Some (old_idx, rsp t, need_fence))
  end.

Definition prepare_switch (s : Scheduler) : outcome (Scheduler * option (nat * Z * bool)) :=
  if (length (tasks s) <? 2)%nat then Ret (s, None) else
  let old_idx := current s in
  t ← index (tasks s) old_idx;
  '(sc, st, need_fence) ← charge (stats s) (scba t);
  let ts := <[old_idx := with_state Ready (with_scba sc t)]> (tasks s) in
  choose ts old_idx st need_fence.

Definition scba_snapshot (s : Scheduler) : list (Z * Z * Z) :=
  (λ i, match tasks s !! (i + 1)%nat with
        | Some t => (budget_consumed (scba t), fence_count (scba t), epoch (scba t))
        | None => (0, 0, 0)
        end) <$> seq 0 3.

(** What [perform_switch] executes. *)
Inductive Instr := Lfence | Mfence | Switch (old_rsp_ptr : nat) (new_rsp : Z).

Definition perform_switch (old_rsp_ptr : nat) (new_rsp : Z) (need_fence : bool) : list Instr :=
  (if need_fence then [Lfence; Mfence] else []) ++ [Switch old_rsp_ptr new_rsp].

(** The timer interrupt: count the tick, acknowledge, switch unless the
    scheduler's lock is held.  Returns the ticks, the scheduler and the
    instructions executed (the write of 0x20 to port 0x20 first). *)
Inductive Event := Eoi (port value : Z) | Exec (i : Instr).

Definition timer_interrupt_handler (ticks : Z) (locked : bool) (s : Scheduler)
    : outcome (Z * Scheduler * list Event) :=
  let ticks := wadd 64 ticks 1 in
  '(s, switch) ← (if locked then Ret (s, None) else prepare_switch s);
  match switch with
  | Some (old_ptr, new_rsp, need_fence) =>
    Ret (ticks, s, Eoi 0x20 0x20 :: (Exec <$> perform_switch old_ptr new_rsp need_fence))
  | None => Ret (ticks, s, [Eoi 0x20 0x20])
  end.
End Operations.

(** ** The search *)

Definition is_ready (ts : list Task) (i : nat) : Prop := ∃ t, ts !! i = Some t ∧ state t = Ready.

Lemma find_next_ok ts start m d :
  let n := length ts in
  (start < n)%nat → (d + m = n)%nat → (0 < m)%nat → is_ready ts ((start + (n - 1)) mod n)%nat →
  ∃ e, find_next m ts start ((start + d) mod n)%nat = Ret (Some ((start + e) mod n)%nat) ∧
    (d <= e < n)%nat ∧ is_ready ts ((start + e) mod n)%nat ∧
    ∀ k, (d <= k < e)%nat → ¬ is_ready ts ((start + k) mod n)%nat.
Proof.
  intros n Hst. revert d. induction m as [|m IH]; intros d Hd Hm Hlast; [lia|]. cbn [find_next].
  destruct (lookup_lt_is_Some_2 ts ((start + d) mod n)%nat) as [t Ht];
    [apply Nat.mod_upper_bound; lia|].
  rewrite (index_ok _ _ t), bind_Ret by done. case_decide as Hr.
  - exists d. split; [done|]. split; [lia|]. split; [by exists t|lia].
  - assert (d ≠ n - 1)%nat as Hne.
    { intros ->. destruct Hlast as (t' & Ht' & Hr'). congruence. }
    fold n. rewrite Nat.Div0.add_mod_idemp_l.
    replace (start + d + 1)%nat with (start + S d)%nat by lia.
    rewrite (proj2 (Nat.eqb_neq _ _)).
    + destruct (IH (S d)) as (e & -> & He & Hre & Hmin); [lia|lia|done|].
      exists e. split; [done|]. split; [lia|]. split; [done|]. intros k Hk.
      destruct (decide (k = d)) as [->|]; [|apply Hmin; lia]. intros (t' & Ht' & Hr'). congruence.
    + intros E. assert (S d = 0)%nat; [|lia]. apply (ring_slot_inj n start); [lia|lia|].
      by rewrite Nat.add_0_r, (Nat.mod_small start).
Qed.

(** ** The invariants *)

Record sched_inv (s : Scheduler) : Prop := {
  si_current : (current s < length (tasks s))%nat;
  si_running i t : tasks s !! i = Some t → (state t = Running ↔ i = current s);
}.

(** Ticks charged to a task since it was created. *)
Definition charged (t : Task) : Z :=
  fence_count (scba t) * budget_max (scba t) + budget_consumed (scba t).

Definition budget_ok (t : Task) : Prop :=
  0 < budget_max (scba t) < 2 ^ 64 ∧ 0 <= budget_consumed (scba t) < budget_max (scba t).

(** Counters leave room for [k] more increments. *)
Record room (k : Z) (s : Scheduler) : Prop := {
  rm_task i t : tasks s !! i = Some t →
    0 <= fence_count (scba t) ∧ fence_count (scba t) + k < 2 ^ 64 ∧
    0 <= epoch (scba t) ∧ epoch (scba t) + k < 2 ^ 64;
  rm_fences : 0 <= total_fences (stats s) ∧ total_fences (stats s) + k < 2 ^ 64;
  rm_switches : 0 <= total_switches (stats s) ∧ total_switches (stats s) + k < 2 ^ 64;
}.

(** What one tick does to a task's account. *)
Definition tick_account (sc : ScbaState) : ScbaState * bool :=
  if budget_max sc <=? budget_consumed sc + 1
  then (mkScbaState (budget_max sc) 0 (fence_count sc + 1) (throttle_count sc) (epoch sc + 1), true)
  else (mkScbaState (budget_max sc) (budget_consumed sc + 1) (fence_count sc) (throttle_count sc)
          (epoch sc), false).

Lemma tick_account_charged t :
  budget_ok t →
  let t' := with_scba (tick_account (scba t)).1 t in budget_ok t' ∧ charged t' = charged t + 1.
Proof.
  unfold budget_ok, charged, tick_account. intros Hb.
  destruct (Z.leb_spec (budget_max (scba t)) (budget_consumed (scba t) + 1)); simpl; nia.
Qed.

(** The counters after a tick, before the switch is counted. *)
Definition fence_stats (st : ScbaStats) (fence : bool) : ScbaStats :=
  mkScbaStats (total_fences st + (if fence then 1 else 0)) (total_switches st).

(** The task table after a switch from [old] to [next]. *)
Definition switched (ts : list Task) (old next : nat) (t u : Task) : list Task :=
  <[next := with_state Running u]>
    (<[old := with_state Ready (with_scba (tick_account (scba t)).1 t)]> ts).

Section Steps.
Context `{Profile}.

Lemma charge_ok k s i t :
  0 <= k → room (k + 1) s → tasks s !! i = Some t → budget_ok t →
  let '(sc, fence) := tick_account (scba t) in
  charge (stats s) (scba t) = Ret (sc, fence_stats (stats s) fence, fence).
Proof.
  intros Hk Hroom Ht [Hb1 Hb2]. destruct (rm_task _ _ Hroom _ _ Ht) as (?&?&?&?).
  destruct (rm_fences _ _ Hroom). unfold charge, tick, tick_account.
  rewrite (add_small 64 (budget_consumed (scba t)) 1), !bind_Ret by (split; lia).
  destruct (Z.leb_spec (budget_max (scba t)) (budget_consumed (scba t) + 1)).
  - unfold reset_epoch. cbn [fence_count epoch budget_max throttle_count].
    rewrite !add_small by (split; lia). done.
  - unfold fence_stats. rewrite Z.add_0_r. by destruct (stats s).
Qed.

Lemma next_ne n i : (2 <= n)%nat → (i < n)%nat → ((i + 1) mod n ≠ i)%nat.
Proof.
  intros Hn Hi E. assert (1 = 0)%nat; [|lia]. apply (ring_slot_inj n i); [lia|lia|].
  by rewrite Nat.add_0_r, (Nat.mod_small i).
Qed.

(** When the task after the old one is ready, it is chosen. *)
Lemma choose_next ts old st fence u :
  let next := ((old + 1) mod length ts)%nat in
  (2 <= length ts)%nat → (old < length ts)%nat → ts !! next = Some u → state u = Ready →
  0 <= total_switches st → total_switches st + 1 < 2 ^ 64 →
  choose ts old st fence
  = Ret (mkScheduler (<[next := with_state Running u]> ts) next
           (mkScbaStats (total_fences st) (total_switches st + 1)), Some (old, rsp u, fence)).
Proof.
  intros next Hn Hold Hu Hr H0 H1. unfold choose. fold next.
  assert (find_next (length ts) ts next next = Ret (Some next)) as ->.
  { destruct (length ts) as [|m]; [lia|]. cbn [find_next].
    by rewrite (index_ok _ _ u), bind_Ret, decide_True. }
  rewrite bind_Ret, (proj2 (Nat.eqb_neq _ _)) by (by apply next_ne).
  rewrite (index_ok _ _ u), bind_Ret by done. by rewrite add_small, bind_Ret by (split; lia).
Qed.

Lemma prepare_switch_ok s k t u :
  let n := length (tasks s) in
  let next := ((current s + 1) mod n)%nat in
  sched_inv s → (2 <= n)%nat → 0 <= k → room (k + 1) s →
  tasks s !! current s = Some t → budget_ok t → tasks s !! next = Some u →
  let fence := (tick_account (scba t)).2 in
  prepare_switch s
  = Ret (mkScheduler (switched (tasks s) (current s) next t u) next
           (mkScbaStats (total_fences (fence_stats (stats s) fence)) (total_switches (stats s) + 1)),
         Some (current s, rsp u, fence)).
Proof.
  intros n next Hinv Hn Hk Hroom Ht Hb Hu fence. unfold prepare_switch. fold n.
  pose proof (si_current _ Hinv) as Hcur. destruct (rm_switches _ _ Hroom).
  rewrite (proj2 (Nat.ltb_ge _ _)) by lia. rewrite (index_ok _ _ t), bind_Ret by done.
  pose proof (charge_ok k s _ t Hk Hroom Ht Hb) as Hc. unfold fence, switched.
  destruct (tick_account (scba t)) as [sc f]. rewrite Hc, bind_Ret. cbn [fst snd].
  pose proof (next_ne n (current s) Hn Hcur) as Hne.
  rewrite (choose_next _ _ _ _ u); rewrite ?length_insert; fold n next; try done.
  - by rewrite list_lookup_insert_ne.
  - destruct (state u) eqn:E; [done|]. by apply (si_running _ Hinv next u) in E.
  - simpl. lia.
Qed.

(** One tick: what it does to every task. *)
Record ticked (k : Z) (s s' : Scheduler) : Prop := {
  tk_inv : sched_inv s';
  tk_len : length (tasks s') = length (tasks s);
  tk_current : current s' = ((current s + 1) mod length (tasks s))%nat;
  tk_room : room k s';
  tk_task i t : tasks s !! i = Some t → budget_ok t →
    ∃ t', tasks s' !! i = Some t' ∧ budget_ok t' ∧ rsp t' = rsp t ∧
      budget_max (scba t') = budget_max (scba t) ∧
      charged t' = charged t + (if decide (i = current s) then 1 else 0);
}.

Lemma switched_lookup ts old next t u i x :
  old ≠ next → (old < length ts)%nat → (next < length ts)%nat → ts !! i = Some x →
  ts !! old = Some t → ts !! next = Some u →
  switched ts old next t u !! i = Some (
    if decide (i = next) then with_state Running x
    else if decide (i = old) then with_state Ready (with_scba (tick_account (scba x)).1 x) else x).
Proof.
  intros Hne Ho Hn Hx Ht Hu. unfold switched.
  destruct (decide (i = next)) as [->|Hin].
  - rewrite list_lookup_insert_eq by (by rewrite length_insert). congruence.
  - rewrite list_lookup_insert_ne by done. destruct (decide (i = old)) as [->|Hio].
    + rewrite list_lookup_insert_eq by done. congruence.
    + by rewrite list_lookup_insert_ne.
Qed.

Lemma tick_account_room k sc :
  0 <= fence_count sc ∧ fence_count sc + (k + 1) < 2 ^ 64 ∧ 0 <= epoch sc ∧ epoch sc + (k + 1) < 2 ^ 64 →
  let sc' := (tick_account sc).1 in
  0 <= fence_count sc' ∧ fence_count sc' + k < 2 ^ 64 ∧ 0 <= epoch sc' ∧ epoch sc' + k < 2 ^ 64.
Proof. unfold tick_account. case_match; simpl; lia. Qed.

Lemma prepare_switch_ticked s k :
  sched_inv s → (2 <= length (tasks s))%nat → 0 <= k → room (k + 1) s → Forall budget_ok (tasks s) →
  ∃ s' new_rsp fence, prepare_switch s = Ret (s', Some (current s, new_rsp, fence)) ∧ ticked k s s'.
Proof.
  intros Hinv Hn Hk Hroom Hb. pose proof (si_current _ Hinv) as Hcur.
  set (next := ((current s + 1) mod length (tasks s))%nat).
  assert (next < length (tasks s))%nat as Hnext by (apply Nat.mod_upper_bound; lia).
  pose proof (next_ne _ _ Hn Hcur) as Hne. fold next in Hne.
  destruct (lookup_lt_is_Some_2 _ _ Hcur) as [t Ht]. destruct (lookup_lt_is_Some_2 _ _ Hnext) as [u Hu].
  pose proof (Forall_lookup_1 _ _ _ _ Hb Ht) as Hbt.
  rewrite (prepare_switch_ok s k t u) by done. fold next.
  assert (∀ i, (∃ x, switched (tasks s) (current s) next t u !! i = Some x) →
    ∃ x, tasks s !! i = Some x) as Hdom.
  { intros i [x Hx]. apply lookup_lt_is_Some_2. apply lookup_lt_Some in Hx. unfold switched in Hx.
    by rewrite !length_insert in Hx. }
  eexists _, _, _. split; [reflexivity|]. split; cbn [tasks current stats].
  - split; cbn [tasks current]; [unfold switched; by rewrite !length_insert|]. intros i x' Hx'.
    destruct (Hdom i) as [x Hx]; [by eauto|].
    rewrite (switched_lookup _ _ _ _ _ _ x) in Hx' by done. injection Hx' as <-.
    pose proof (si_running _ Hinv i x Hx) as Hr. repeat case_decide; simpl; split; try done.
    by intros ?%Hr.
  - unfold switched. by rewrite !length_insert.
  - done.
  - split; cbn [tasks stats total_fences total_switches fence_stats].
    + intros i x' Hx'. destruct (Hdom i) as [x Hx]; [by eauto|].
      rewrite (switched_lookup _ _ _ _ _ _ x) in Hx' by done. injection Hx' as <-.
      pose proof (rm_task _ _ Hroom i x Hx) as Hrm.
      repeat case_decide; cbn [scba with_state with_scba]; [lia|by apply tick_account_room|lia].
    + pose proof (rm_fences _ _ Hroom). destruct (tick_account (scba t)).2; lia.
    + pose proof (rm_switches _ _ Hroom). lia.
  - intros i x Hx Hbx. eexists. split; [by apply switched_lookup|].
    destruct (tick_account_charged x Hbx) as [Hb' Hc'].
    repeat case_decide; subst; try done; cbn [rsp scba with_state].
    + repeat split; try apply Hbx. by rewrite Z.add_0_r.
    + split; [done|]. split; [done|]. split; [|exact Hc']. unfold tick_account. by case_match.
    + repeat split; try apply Hbx. lia.
Qed.
End Steps.

(** ** Many ticks *)

Fixpoint run `{Profile} (k : nat) (s : Scheduler) : outcome (Scheduler * list (option (nat * Z * bool))) :=
  match k with
  | O => Ret (s, [])
  | S k =>
    '(s, r) ← prepare_switch s;
    '(s, l) ← run k s;
    Ret (s, r :: l)
  end.

(** How many of the next [k] ticks, from task [c] of [n] on, are charged to
    task [i]. *)
Fixpoint ticks_of (n c k i : nat) : Z :=
  match k with
  | O => 0
  | S k => (if decide (i = c) then 1 else 0) + ticks_of n ((c + 1) mod n) k i
  end.

Lemma budget_ok_ticked `{Profile} k s s' :
  ticked k s s' → Forall budget_ok (tasks s) → Forall budget_ok (tasks s').
Proof.
  intros Ht Hb. apply Forall_lookup. intros i x' Hx'.
  destruct (lookup_lt_is_Some_2 (tasks s) i) as [x Hx].
  { rewrite <-(tk_len _ _ _ Ht). by eapply lookup_lt_Some. }
  destruct (tk_task _ _ _ Ht i x Hx) as (x1 & Hx1 & Hb1 & _); [by eapply Forall_lookup_1|].
  congruence.
Qed.

Lemma ticks_run_ok `{Profile} k s :
  sched_inv s → (2 <= length (tasks s))%nat → room (Z.of_nat k) s → Forall budget_ok (tasks s) →
  ∃ s' l, run k s = Ret (s', l) ∧ sched_inv s' ∧ Forall is_Some l ∧
    length (tasks s') = length (tasks s) ∧
    current s' = ((current s + k) mod length (tasks s))%nat ∧
    ∀ i t, tasks s !! i = Some t → ∃ t', tasks s' !! i = Some t' ∧ budget_ok t' ∧
      budget_max (scba t') = budget_max (scba t) ∧
      charged t' = charged t + ticks_of (length (tasks s)) (current s) k i.
Proof.
  revert s. induction k as [|k IH]; intros s Hinv Hn Hroom Hb.
  - exists s, []. pose proof (si_current _ Hinv). split; [done|]. split; [done|].
    split; [constructor|]. split; [done|]. split; [by rewrite Nat.add_0_r, Nat.mod_small|].
    intros i t Ht. exists t. split; [done|]. split; [by eapply Forall_lookup_1|].
    split; [done|]. simpl. lia.
  - destruct (prepare_switch_ticked s (Z.of_nat k)) as (s1 & r1 & f1 & E1 & Ht1); [done|done|lia| |done|].
    { by replace (Z.of_nat k + 1) with (Z.of_nat (S k)) by lia. }
    pose proof (tk_len _ _ _ Ht1) as Hlen.
    destruct (IH s1) as (s2 & l & E2 & Hinv2 & Hl & Hlen2 & Hc2 & Hacc);
      [apply Ht1|lia|apply Ht1|by eapply budget_ok_ticked|].
    exists s2, (Some (current s, r1, f1) :: l). cbn [run]. rewrite E1, bind_Ret, E2.
    split; [done|]. split; [done|]. split; [by constructor|]. split; [lia|]. split.
    + rewrite Hc2, (tk_current _ _ _ Ht1), Hlen, Nat.Div0.add_mod_idemp_l. f_equal. lia.
    + intros i t Ht. destruct (tk_task _ _ _ Ht1 i t Ht) as (t1 & Hl1 & _ & _ & Hm1 & Hc1);
        [by eapply Forall_lookup_1|].
      destruct (Hacc i t1 Hl1) as (t2 & Hl2 & Hb2 & Hm2 & Hc2').
      exists t2. split; [done|]. split; [done|]. split; [congruence|]. cbn [ticks_of].
      rewrite Hc2', Hc1, Hlen, (tk_current _ _ _ Ht1). lia.
Qed.

(** ** Sequences of timer interrupts

    An interrupt that arrives while the scheduler's lock is held skips the
    switch; the list says for each interrupt whether it does. *)
Fixpoint interrupts `{Profile} (locks : list bool) (ticks : Z) (s : Scheduler)
    : outcome (Z * Scheduler * list Event) :=
  match locks with
  | [] => Ret (ticks, s, [])
  | l :: locks =>
    '(ticks, s, e) ← timer_interrupt_handler ticks l s;
    '(ticks, s, es) ← interrupts locks ticks s;
    Ret (ticks, s, e ++ es)
  end.

Definition unlocked (locks : list bool) : nat := length (filter (λ l, l = false) locks).

(** The tasks move on with the interrupts that find the lock free. *)
Lemma interrupts_run `{Profile} locks ticks s s' l :
  run (unlocked locks) s = Ret (s', l) →
  ∃ ticks' es, interrupts locks ticks s = Ret (ticks', s', es) ∧
    (0 <= ticks < 2 ^ 64 → ticks' = (ticks + Z.of_nat (length locks)) mod 2 ^ 64).
Proof.
  revert ticks s l. induction locks as [|b locks IH]; intros ticks s l Hr.
  - injection Hr as <- _. eexists _, _. split; [done|]. intros. simpl.
    rewrite Z.add_0_r. symmetry. by apply Z.mod_small.
  - assert (∃ s1 l1 e, timer_interrupt_handler ticks b s = Ret (wadd 64 ticks 1, s1, e) ∧
      run (unlocked locks) s1 = Ret (s', l1)) as (s1 & l1 & e & E1 & Hr1).
    { unfold timer_interrupt_handler. destruct b; [by eexists _, _, _|].
      cbn [unlocked filter list_filter decide] in Hr.
      change (run (S (unlocked locks)) s = Ret (s', l)) in Hr. cbn [run] in Hr.
      apply bind_Ret_inv in Hr as ([s1 r] & -> & Hr). rewrite bind_Ret.
      apply bind_Ret_inv in Hr as ([s2 l1] & Hr & E2). injection E2 as -> _.
      destruct r as [[[? ?] ?]|]; by eexists _, _, _. }
    destruct (IH (wadd 64 ticks 1) s1 l1 Hr1) as (ticks' & es & E2 & Ht).
    exists ticks', (e ++ es). cbn [interrupts]. rewrite E1, bind_Ret, E2. split; [done|].
    intros Hb. rewrite Ht by (apply Z.mod_pos_bound; lia). unfold wadd, wrap.
    rewrite Zplus_mod_idemp_l, length_cons. f_equal. lia.
Qed.

(** Cutting a sequence of interrupts where the [d]-th switch has happened. *)
Lemma unlocked_split locks d :
  (d <= unlocked locks)%nat → ∃ pre post, locks = pre ++ post ∧ unlocked pre = d.
Proof.
  revert d. induction locks as [|b locks IH]; intros d Hd.
  - exists [], []. split; [done|]. unfold unlocked in *. simpl in *. lia.
  - destruct d as [|d]; [by exists [], (b :: locks)|]. destruct b.
    + destruct (IH (S d)) as (pre & post & -> & Hp); [done|]. by exists (true :: pre), post.
    + destruct (IH d) as (pre & post & -> & Hp); [unfold unlocked in *; simpl in Hd; lia|].
      exists (false :: pre), post. split; [done|]. unfold unlocked in *. simpl. lia.
Qed.

(** ** Properties *)

(** round robin: from a state with exactly the current task running,
    among at least two, every tick of the timer switches; after [k] ticks the
    current task is the [k]-th after the first one in cyclic order and is
    again the only running one.  No tick panics and the search ends. *)
Theorem round_robin `{Profile} k s :
  sched_inv s → (2 <= length (tasks s))%nat → room (Z.of_nat k) s → Forall budget_ok (tasks s) →
  ∃ s' l, run k s = Ret (s', l) ∧ Forall is_Some l ∧ sched_inv s' ∧
    current s' = ((current s + k) mod length (tasks s))%nat.
Proof.
  intros Hinv Hn Hroom Hb. destruct (ticks_run_ok k s) as (s' & l & ? & ? & ? & _ & ? & _); [done..|].
  by exists s', l.
Qed.

(** C6: the side-channel budget theorem: after any number of ticks, for
    every task, fences times budget plus consumption is the number of ticks
    charged to it, and the consumption since its last fence is strictly
    below its budget: a fence comes at least every [budget_max] ticks, and
    not earlier. *)
Theorem scba_budget `{Profile} k s i t :
  sched_inv s → (2 <= length (tasks s))%nat → room (Z.of_nat k) s → Forall budget_ok (tasks s) →
  tasks s !! i = Some t → charged t = 0 →
  ∃ s' l t', run k s = Ret (s', l) ∧ tasks s' !! i = Some t' ∧
    let n := ticks_of (length (tasks s)) (current s) k i in
    fence_count (scba t') = n / budget_max (scba t) ∧
    budget_consumed (scba t') = n mod budget_max (scba t).
Proof.
  intros Hinv Hn Hroom Hb Ht H0. destruct (ticks_run_ok k s) as (s' & l & E & _ & _ & _ & _ & Hacc); [done..|].
  destruct (Hacc i t Ht) as (t' & Ht' & [Hb1 Hb2] & Hm & Hc). exists s', l, t'.
  split; [done|]. split; [done|]. unfold charged in Hc at 1. rewrite H0, Z.add_0_l in Hc.
  cbv zeta. rewrite <-Hc, <-Hm. split.
  - rewrite Z.div_add_l by lia. rewrite Z.div_small; lia.
  - rewrite Z.add_comm, Z.mod_add by lia. by rewrite Z.mod_small.
Qed.

(** Every other slot of the table is met within one round. *)
Lemma ring_distance n c j :
  (c < n)%nat → (j < n)%nat → j ≠ c → ∃ k, (k < n - 1)%nat ∧ ((c + 1 + k) mod n = j)%nat.
Proof.
  intros Hc Hj Hne. destruct (decide (c < j)%nat).
  - exists (j - c - 1)%nat. split; [lia|]. replace (c + 1 + (j - c - 1))%nat with j by lia.
    by apply Nat.mod_small.
  - exists (n - c - 1 + j)%nat. split; [lia|]. replace (c + 1 + (n - c - 1 + j))%nat with (j + 1 * n)%nat by lia.
    by rewrite Nat.Div0.mod_add, Nat.mod_small.
Qed.

Lemma ring_last n c : (c < n)%nat → ((c + 1 + (n - 1)) mod n = c)%nat.
Proof.
  intros Hc. replace (c + 1 + (n - 1))%nat with (c + 1 * n)%nat by lia.
  by rewrite Nat.Div0.mod_add, Nat.mod_small.
Qed.

Lemma ring_other n c k : (c < n)%nat → (k < n - 1)%nat → ((c + 1 + k) mod n ≠ c)%nat.
Proof.
  intros Hc Hk E. assert ((c + 1 + k) mod n = (c + 1 + (n - 1)) mod n)%nat as E' by (by rewrite ring_last).
  apply ring_slot_inj in E'; lia.
Qed.

(** Slot [(c + 1 + e) mod n] is the first one after [c] with a ready task. *)
Definition first_ready (ts : list Task) (c e : nat) (u : Task) : Prop :=
  let n := length ts in
  (e < n - 1)%nat ∧ ts !! ((c + 1 + e) mod n)%nat = Some u ∧ state u = Ready ∧
  ∀ k t, (k < e)%nat → ts !! ((c + 1 + k) mod n)%nat = Some t → state t ≠ Ready.

Definition none_ready (ts : list Task) (c : nat) : Prop :=
  ∀ j t, j ≠ c → ts !! j = Some t → state t ≠ Ready.

(** What the search makes of the table in which the old task is ready. *)
Lemma search_result ts c t :
  (c < length ts)%nat →
  let ts' := <[c := with_state Ready t]> ts in
  let start := ((c + 1) mod length ts)%nat in
  (∃ e u, find_next (length ts) ts' start start = Ret (Some ((c + 1 + e) mod length ts)%nat) ∧
     first_ready ts c e u) ∨
  (find_next (length ts) ts' start start = Ret (Some c) ∧ none_ready ts c).
Proof.
  intros Hc ts' start. set (n := length ts) in *.
  assert (length ts' = n) as Hlen by apply length_insert.
  assert (start < n)%nat as Hst by (apply Nat.mod_upper_bound; lia).
  assert (∀ k, (start + k) mod n = (c + 1 + k) mod n)%nat as Hshift
    by (intros k; apply Nat.Div0.add_mod_idemp_l).
  assert (∀ k, (k < n - 1)%nat → ((c + 1 + k) mod n ≠ c)%nat) as Hother by (intros k; by apply ring_other).
  destruct (find_next_ok ts' start n 0) as (e & He & Hlt & (u & Hu & Hr) & Hskip); try (rewrite ?Hlen; lia).
  { rewrite Hlen, Hshift, ring_last by done. eexists. unfold ts'. by rewrite list_lookup_insert_eq. }
  rewrite Hlen in *. rewrite Nat.add_0_r, (Nat.mod_small start), Hshift in He by done. rewrite Hshift in Hu.
  assert (∀ k x, (k < e)%nat → (k < n - 1)%nat → ts !! ((c + 1 + k) mod n)%nat = Some x → state x ≠ Ready) as Hsk.
  { intros k x Hk Hk' Hx Hrx. apply (Hskip k); [lia|]. exists x. rewrite Hshift. unfold ts'.
    by rewrite list_lookup_insert_ne by (symmetry; by apply Hother). }
  destruct (decide (e = n - 1)%nat) as [->|Hne].
  - right. rewrite He, ring_last by done. split; [done|]. intros j x Hj Hx.
    pose proof (lookup_lt_Some _ _ _ Hx) as Hjn. destruct (ring_distance n c j Hc Hjn Hj) as (k & Hk & <-).
    by apply (Hsk k).
  - left. exists e, u. split; [done|]. split; [fold n; lia|]. fold n. split; [|split; [done|]].
    + unfold ts' in Hu. by rewrite list_lookup_insert_ne in Hu by (symmetry; apply Hother; lia).
    + intros k x Hk. apply Hsk; lia.
Qed.

(** C26: whatever states the tasks are in, [prepare_switch] returns.  When a
    task other than the current one is ready, it switches to the first such
    task after the current one: that task becomes current and running, its
    stack pointer is the one to load, and the old task is left ready.
    Otherwise, and only then, it answers [None] and the current task stays. *)
Theorem prepare_switch_terminates `{Profile} s :
  (current s < length (tasks s))%nat → room 1 s → Forall budget_ok (tasks s) →
  ∃ s' r, prepare_switch s = Ret (s', r) ∧
    ((∃ e u old fence, let next_idx := ((current s + 1 + e) mod length (tasks s))%nat in
        first_ready (tasks s) (current s) e u ∧ r = Some (current s, rsp u, fence) ∧
        current s' = next_idx ∧ tasks s' !! next_idx = Some (with_state Running u) ∧
        tasks s' !! current s = Some old ∧ state old = Ready) ∨
     (none_ready (tasks s) (current s) ∧ r = None ∧ current s' = current s)).
Proof.
  intros Hcur Hroom Hb. unfold prepare_switch. set (n := length (tasks s)) in *.
  destruct (Nat.ltb_spec n 2) as [Hn|Hn].
  { eexists _, _. split; [done|]. right. split; [|done]. intros j t Hj Ht. apply lookup_lt_Some in Ht. lia. }
  destruct (lookup_lt_is_Some_2 _ _ Hcur) as [t Ht]. pose proof (Forall_lookup_1 _ _ _ _ Hb Ht) as Hbt.
  rewrite (index_ok _ _ t), bind_Ret by done.
  pose proof (charge_ok 0 s _ t ltac:(lia) Hroom Ht Hbt) as Hc.
  destruct (tick_account (scba t)) as [sc f]. rewrite Hc, bind_Ret. unfold choose. rewrite length_insert. fold n.
  destruct (search_result (tasks s) (current s) (with_scba sc t) Hcur) as [(e & u & He & Hf)|[He Hnone]];
    fold n in He; rewrite He, bind_Ret.
  - pose proof Hf as (Hlt & Hu & Hr & _). fold n in Hlt, Hu.
    pose proof (ring_other n (current s) e Hcur Hlt) as Hne.
    rewrite (proj2 (Nat.eqb_neq _ _) Hne).
    rewrite (index_ok _ _ u), bind_Ret by (by rewrite list_lookup_insert_ne).
    destruct (rm_switches _ _ Hroom). cbn [total_switches fence_stats].
    rewrite add_small, bind_Ret by (split; lia). eexists _, _. split; [done|]. left.
    eexists e, u, _, _. cbn [current tasks]. split; [done|]. split; [done|]. split; [done|].
    split; [rewrite list_lookup_insert_eq; [done|]|].
    + rewrite length_insert. apply Nat.mod_upper_bound. lia.
    + rewrite list_lookup_insert_ne, list_lookup_insert_eq by done. done.
  - rewrite Nat.eqb_refl. eexists _, _. split; [done|]. by right.
Qed.

(** C34: no starvation: whatever interrupts find the scheduler locked, as
    soon as as many as there are tasks, less one, have found it free, every
    task has had its turn: among the interrupts there is a first stretch after
    which task [i] is the current one, is running, and no interrupt of the
    stretch panicked.  Every interrupt counts in [TICKS], locked or not. *)
Theorem every_task_scheduled `{Profile} locks ticks s i :
  sched_inv s → (2 <= length (tasks s))%nat → room (Z.of_nat (length (tasks s))) s →
  Forall budget_ok (tasks s) → 0 <= ticks < 2 ^ 64 →
  (i < length (tasks s))%nat → (length (tasks s) <= S (unlocked locks))%nat →
  ∃ pre post s' es t,
    locks = pre ++ post ∧ (unlocked pre < length (tasks s))%nat ∧
    interrupts pre ticks s = Ret ((ticks + Z.of_nat (length pre)) mod 2 ^ 64, s', es) ∧
    current s' = i ∧ tasks s' !! i = Some t ∧ state t = Running.
Proof.
  intros Hinv Hn Hroom Hb Htk Hi Hl. pose proof (si_current _ Hinv) as Hc.
  set (n := length (tasks s)) in *. set (d := ((i + n - current s) mod n)%nat).
  assert (d < n)%nat as Hd by (apply Nat.mod_upper_bound; lia).
  destruct (unlocked_split locks d) as (pre & post & -> & Hp); [lia|].
  destruct (ticks_run_ok d s) as (s' & l & Hr & Hinv' & _ & Hlen & Hcur & _); [done|done| |done|].
  { destruct Hroom as [Hr1 Hr2 Hr3]. split; [|lia..]. intros j t Ht. specialize (Hr1 j t Ht). lia. }
  fold n in Hlen, Hcur. unfold d in Hcur. rewrite Nat.Div0.add_mod_idemp_r in Hcur.
  replace (current s + (i + n - current s))%nat with (i + 1 * n)%nat in Hcur by lia.
  rewrite Nat.Div0.mod_add, Nat.mod_small in Hcur by done.
  rewrite <-Hp in Hr. destruct (interrupts_run pre ticks s s' l Hr) as (ticks' & es & E & Ht).
  destruct (lookup_lt_is_Some_2 (tasks s') i) as [t Hti]; [lia|].
  exists pre, post, s', es, t. rewrite E, Ht by done. repeat split; [lia|done|done|].
  by apply (si_running _ Hinv' i t Hti).
Qed.

(** Three tasks, the first one running. *)
Definition demo_sched : Scheduler :=
  mkScheduler [mkTask 0 Running 0 (0, 0) (scba_new 4); mkTask 1 Ready 0x1000 (0, 0) (scba_new 2);
               mkTask 2 Ready 0x2000 (0, 0) (scba_new 3)] 0 (mkScbaStats 0 0).

Lemma demo_sched_inv : sched_inv demo_sched.
Proof.
  split; [simpl; lia|]. intros i t Ht.
  do 3 (destruct i as [|i]; [injection Ht as <-; simpl; split; done|]). done.
Qed.

Lemma demo_sched_room : room (Z.of_nat 7) demo_sched.
Proof.
  split; [|simpl; lia..]. intros i t Ht.
  do 3 (destruct i as [|i]; [injection Ht as <-; simpl; lia|]). done.
Qed.

Lemma demo_sched_budget : Forall budget_ok (tasks demo_sched).
Proof. repeat constructor; simpl; lia. Qed.

Lemma round_robin_witness :
  ∃ s' l, @run dev_profile 7 demo_sched = Ret (s', l) ∧ Forall is_Some l ∧ sched_inv s' ∧
    current s' = ((0 + 7) mod 3)%nat.
Proof.
  apply (@round_robin dev_profile 7 demo_sched demo_sched_inv);
    [simpl; lia|apply demo_sched_room|apply demo_sched_budget].
Defined.

Lemma scba_budget_witness :
  ∃ s' l t', @run dev_profile 7 demo_sched = Ret (s', l) ∧ tasks s' !! 1%nat = Some t' ∧
    let n := ticks_of (length (tasks demo_sched)) (current demo_sched) 7 1 in
    fence_count (scba t') = n / 2 ∧ budget_consumed (scba t') = n mod 2.
Proof.
  apply (@scba_budget dev_profile 7 demo_sched 1 (mkTask 1 Ready 0x1000 (0, 0) (scba_new 2))
           demo_sched_inv);
    [simpl; lia|apply demo_sched_room|apply demo_sched_budget|reflexivity|reflexivity].
Defined.

Lemma prepare_switch_terminates_witness :
  ∃ s' r, @prepare_switch dev_profile demo_sched = Ret (s', r) ∧
    ((∃ e u old fence, let next_idx := ((0 + 1 + e) mod 3)%nat in
        first_ready (tasks demo_sched) 0 e u ∧ r = Some (0%nat, rsp u, fence) ∧
        current s' = next_idx ∧ tasks s' !! next_idx = Some (with_state Running u) ∧
        tasks s' !! 0%nat = Some old ∧ state old = Ready) ∨
     (none_ready (tasks demo_sched) 0 ∧ r = None ∧ current s' = 0%nat)).
Proof.
  apply (@prepare_switch_terminates dev_profile demo_sched);
    [simpl; lia| |apply demo_sched_budget].
  split; [|simpl; lia..]. intros i t Ht.
  do 3 (destruct i as [|i]; [injection Ht as <-; simpl; lia|]). done.
Defined.

(** The last task's turn comes although the lock is held at two interrupts. *)
Lemma every_task_scheduled_witness :
  ∃ pre post s' es t,
    [true; false; true; false] = pre ++ post ∧ (unlocked pre < 3)%nat ∧
    @interrupts dev_profile pre 5 demo_sched = Ret ((5 + Z.of_nat (length pre)) mod 2 ^ 64, s', es) ∧
    current s' = 2%nat ∧ tasks s' !! 2%nat = Some t ∧ state t = Running.
Proof.
  apply (@every_task_scheduled dev_profile [true; false; true; false] 5 demo_sched 2 demo_sched_inv);
    [simpl; lia| |apply demo_sched_budget|lia|simpl; lia|vm_compute; lia].
  destruct demo_sched_room as [Hr1 Hr2 Hr3]. split; [|simpl in *; lia..].
  intros j t Ht. specialize (Hr1 j t Ht). simpl in *. lia.
Defined.
