(* ===== verification/Net.v ===== *)
(** * The network layer

    Model of [kernel/src/net.rs]: Ethernet, IPv4 and UDP header parsing, the
    frame classifier, the frame builder of EIPC over UDP, and the network
    card's driver specification with its checked start-up sequence.

    Shown here: the parsers and the classifier never panic, on any bytes;
    an Ethernet header survives serialising and parsing, both ways; a frame
    built for transmission is classified as UDP and parses back to the
    addresses, ports and payload it was built from, with the length fields
    truncated to 16 bits; and a header length field below five makes the
    IPv4 parser return part of the header as payload. *)

From S2P Require Import Prelude Meal Ztdf.
From Stdlib Require Import ZArith Lia.
From stdpp Require Import base numbers list strings.
#[local] Open Scope Z_scope.

(** ** Ethernet *)

Definition MacAddr := list Z.
Definition BROADCAST : MacAddr := replicate 6 0xFF.
Definition ZERO : MacAddr := replicate 6 0x00.
Definition is_broadcast (m : MacAddr) : bool := bool_decide (m = BROADCAST).

Inductive EtherType := IPv4 | ARP | IPv6 | OtherEther (v : Z).

#[global] Instance EtherType_eq_dec : EqDecision EtherType.
Proof. solve_decision. Defined.

Definition ethertype_from_u16 (v : Z) : EtherType :=
  if v =? 0x0800 then IPv4 else if v =? 0x0806 then ARP else if v =? 0x86DD then IPv6
  else OtherEther v.

Record EtherFrame := mkEtherFrame { eth_dst : MacAddr; eth_src : MacAddr; ethertype : EtherType }.

Definition parse_ether (b : list Z) : outcome (option (EtherFrame * list Z)) :=
  if (length b <? 14)%nat then Ret None else
  dst ← slice 0 6 b;
  src ← slice 6 12 b;
  b12 ← index b 12;
  b13 ← index b 13;
  let et := ethertype_from_u16 (of_be [b12; b13]) in
  rest ← slice 14 (length b) b;
  Ret (Some (mkEtherFrame dst src et, rest)).

Definition ethertype_to_u16 (et : EtherType) : Z :=
  match et with IPv4 => 0x0800 | ARP => 0x0806 | IPv6 => 0x86DD | OtherEther v => v end.

Definition serialize_ether (f : EtherFrame) (dst_buf : list Z) : outcome (list Z) :=
  b ← copy_into 0 6 (eth_dst f) dst_buf;
  b ← copy_into 6 12 (eth_src f) b;
  copy_into 12 14 (be_bytes 2 (ethertype_to_u16 (ethertype f))) b.

(** ** IPv4 *)

Definition Ipv4Addr := list Z.
Definition LOOPBACK : Ipv4Addr := [127; 0; 0; 1].
Definition IP_BROADCAST : Ipv4Addr := [255; 255; 255; 255].

Inductive IpProto := ICMP | TCP | UDP | OtherProto (v : Z).

Definition proto_from_u8 (v : Z) : IpProto :=
  if v =? 1 then ICMP else if v =? 6 then TCP else if v =? 17 then UDP else OtherProto v.

Record Ipv4Header := mkIpv4Header {
  version_ihl : Z; dscp_ecn : Z; total_len : Z; ip_id : Z; flags_frag : Z; ttl : Z;
  protocol : IpProto; ip_checksum : Z; ip_src : Ipv4Addr; ip_dst : Ipv4Addr }.

(** [u16::from_be_bytes([b[i], b[i + 1]])]. *)
Definition be16_at (b : list Z) (i : nat) : outcome Z :=
  x ← index b i;
  y ← index b (i + 1);
  Ret (of_be [x; y]).

Definition parse_ipv4 (b : list Z) : outcome (option (Ipv4Header * list Z)) :=
  if (length b <? 20)%nat then Ret None else
  b0 ← index b 0;
  let ihl := (Z.to_nat (Z.land b0 0xF) * 4)%nat in
  if (length b <? ihl)%nat then Ret None else
  b1 ← index b 1;
  tl ← be16_at b 2;
  i ← be16_at b 4;
  ff ← be16_at b 6;
  b8 ← index b 8;
  b9 ← index b 9;
  ck ← be16_at b 10;
  src ← slice 12 16 b;
  dst ← slice 16 20 b;
  rest ← slice ihl (length b) b;
  Ret (Some (mkIpv4Header b0 b1 tl i ff b8 (proto_from_u8 b9) ck src dst, rest)).

(** ** UDP *)

Record UdpHeader := mkUdpHeader { src_port : Z; dst_port : Z; udp_length : Z; udp_checksum : Z }.

Definition parse_udp (b : list Z) : outcome (option (UdpHeader * list Z)) :=
  if (length b <? 8)%nat then Ret None else
  sp ← be16_at b 0;
  dp ← be16_at b 2;
  l ← be16_at b 4;
  ck ← be16_at b 6;
  rest ← slice 8 (length b) b;
  Ret (Some (mkUdpHeader sp dp l ck, rest)).

(** ** The classifier *)

Definition process_frame (frame_bytes : list Z) : outcome string :=
  e ← parse_ether frame_bytes;
  match e with
  | None => Ret "invalid frame"%string
  | Some (eth, payload) =>
    match ethertype eth with
    | ARP => Ret "ARP"%string
    | IPv4 =>
      i ← parse_ipv4 payload;
      match i with
      | None => Ret "invalid IPv4"%string
      | Some (ip, ip_payload) =>
        match protocol ip with
        | UDP =>
          u ← parse_udp ip_payload;
          match u with
          | None => Ret "invalid UDP"%string
          | Some _ => Ret "UDP datagram"%string
          end
        | ICMP => Ret "ICMP"%string
        | TCP => Ret "TCP (not supported)"%string
        | OtherProto _ => Ret "unknown IP proto"%string
        end
      end
    | _ => Ret "unknown ethertype"%string
    end
  end.

(** ** Transmission *)

Definition QEMU_MAC : list Z := [0x52; 0x54; 0x00; 0x12; 0x34; 0x56].

(** The frame [transmit_eipc_udp] builds; the source then drops it. *)
Definition transmit_eipc_udp (src_ip dst_ip : list Z) (src_port dst_port : Z) (payload : list Z)
    : outcome (list Z) :=
  let total := (14 + 20 + 8 + length payload)%nat in
  let frame := replicate total 0 in
  frame ← copy_into 0 6 (replicate 6 0xFF) frame;
  frame ← copy_into 6 12 QEMU_MAC frame;
  frame ← copy_into 12 14 (be_bytes 2 0x0800) frame;
  frame ← store frame 14 0x45;
  frame ← copy_into 16 18 (be_bytes 2 (wrap 16 (Z.of_nat (20 + 8 + length payload)))) frame;
  frame ← store frame 22 64;
  frame ← store frame 23 17;
  frame ← copy_into 26 30 src_ip frame;
  frame ← copy_into 30 34 dst_ip frame;
  frame ← copy_into 34 36 (be_bytes 2 src_port) frame;
  frame ← copy_into 36 38 (be_bytes 2 dst_port) frame;
  frame ← copy_into 38 40 (be_bytes 2 (wrap 16 (Z.of_nat (8 + length payload)))) frame;
  copy_into 42 (42 + length payload) payload frame.

(** ** The network card *)

(** A descriptor of a VirtIO queue, and the bits its driver negotiates; the
    driver that would use them is not written yet. *)
Record VirtqDesc := mkVirtqDesc { vd_addr : Z; vd_len : Z; vd_flags : Z; vd_next : Z }.

Definition VIRTIO_STATUS_ACKNOWLEDGE : Z := 1.
Definition VIRTIO_STATUS_DRIVER : Z := 2.
Definition VIRTIO_STATUS_DRIVER_OK : Z := 4.
Definition VIRTIO_STATUS_FEATURES_OK : Z := 8.
Definition VIRTIO_NET_F_MAC : Z := Z.shiftl 1 5.
Definition VIRTIO_NET_F_STATUS : Z := Z.shiftl 1 16.
Definition VIRTIO_NET_F_CTRL_VQ : Z := Z.shiftl 1 17.

(** [#[repr(C)]] on a little-endian machine: no padding. *)
Definition desc_bytes (d : VirtqDesc) : list Z :=
  le_bytes 8 (vd_addr d) ++ le_bytes 4 (vd_len d) ++ le_bytes 2 (vd_flags d) ++ le_bytes 2 (vd_next d).

Definition virtio_net_driver_spec : DriverSpec :=
  mkDriverSpec 10 (splice 0 (bstr "virtio-net0") (replicate 16 0))
    [Some (mkMmioRegion 0xFEBC0000 0x1000); None; None; None]
    [Some 11; None; None; None]
    [Some 1; Some 2; Some 12; Some 13; None; None; None; None] 0.

Definition init_ops : list DriverOp :=
  [MmioRead 0xFEBC0000; MmioRead 0xFEBC0004; MmioWrite 0xFEBC0014; HandleIrq 11; Syscall 1].

(** The start-up loop breaks on anything but [Ok]; only a fault clears [ok]. *)
Definition nic_react (c : ZtdfChecker) (r : DriverResult) : list Audit * bool :=
  match r with Ok => ([], false) | _ => ([], true) end.

Definition register_nic_with_ztdf `{Profile} : outcome (bool * list Audit) :=
  '(_, r, _) ← drive nic_react init_ops (Ztdf.new virtio_net_driver_spec);
  Ret (match r with Ok | Stopped => true | _ => false end,
       [mkAudit DriverLoaded (driver_id virtio_net_driver_spec) 0 0]).

(** The synthetic frame of the demonstration. *)
Definition demo_frame : outcome (list Z) :=
  let frame := replicate 42 0 in
  frame ← copy_into 0 6 (replicate 6 0xFF) frame;
  frame ← copy_into 6 12 QEMU_MAC frame;
  frame ← copy_into 12 14 (be_bytes 2 0x0800) frame;
  frame ← store frame 14 0x45;
  frame ← store frame 15 0x00;
  frame ← copy_into 16 18 (be_bytes 2 28) frame;
  frame ← store frame 22 64;
  frame ← store frame 23 17;
  frame ← copy_into 26 30 [10; 0; 2; 15] frame;
  frame ← copy_into 30 34 [10; 0; 2; 2] frame;
  frame ← copy_into 34 36 (be_bytes 2 1234) frame;
  frame ← copy_into 36 38 (be_bytes 2 53) frame;
  copy_into 38 40 (be_bytes 2 8) frame.

(** The values the demonstration prints: the driver's name, the class of the
    synthetic frame, whether the card's start-up sequence was accepted, and
    the frame it builds for transmission; and its audit calls. *)
Record NetDemo := mkNetDemo {
  nic_name : list Z; parsed_as : string; nic_ok : bool; tx : list Z; net_audits : list Audit }.

Definition dummy_ct : list Z := [0x48; 0x70; 0x0d; 0x95; 0xf5; 0x68; 0x30; 0x91].

Definition run_demo `{Profile} : outcome NetDemo :=
  n ← name_str virtio_net_driver_spec;
  frame ← demo_frame;
  result ← process_frame frame;
  '(ok, audits) ← register_nic_with_ztdf;
  f ← transmit_eipc_udp [10; 0; 2; 15] [10; 0; 2; 2] 49152 5000 dummy_ct;
  Ret (mkNetDemo n result ok f audits).

(** ** What the parsers read *)

Definition be16 (b : list Z) (i : nat) : Z := of_be (take 2 (drop i b)).

(** [uncons n b]: the first [n] elements of a list at least that long, named. *)
Tactic Notation "uncons" integer(n) hyp(b) :=
  do n (destruct b as [|? b]; [simpl in *; lia|]).

Lemma parse_ether_ok b :
  (14 <= length b)%nat →
  parse_ether b = Ret (Some (mkEtherFrame (take 6 b) (take 6 (drop 6 b))
    (ethertype_from_u16 (be16 b 12)), drop 14 b)).
Proof.
  intros Hl. unfold parse_ether. rewrite (proj2 (Nat.ltb_ge _ _)) by done.
  rewrite (slice_ok 14) by lia. uncons 14 b. rewrite take_ge; [done|]. rewrite length_drop. simpl. lia.
Qed.

Lemma parse_ether_short b : (length b < 14)%nat → parse_ether b = Ret None.
Proof. intros Hl. unfold parse_ether. by rewrite (proj2 (Nat.ltb_lt _ _)). Qed.

(** The header length field, in bytes. *)
Definition ihl (b : list Z) : nat := (Z.to_nat (Z.land (b !!! 0%nat) 0xF) * 4)%nat.

Lemma parse_ipv4_ok b :
  (20 <= length b)%nat → (ihl b <= length b)%nat →
  parse_ipv4 b = Ret (Some (mkIpv4Header (b !!! 0%nat) (b !!! 1%nat) (be16 b 2) (be16 b 4) (be16 b 6)
    (b !!! 8%nat) (proto_from_u8 (b !!! 9%nat)) (be16 b 10) (take 4 (drop 12 b)) (take 4 (drop 16 b)),
    drop (ihl b) b)).
Proof.
  intros Hl Hi. unfold parse_ipv4. rewrite (proj2 (Nat.ltb_ge _ _)) by done.
  assert (index b 0 = Ret (b !!! 0%nat)) as -> by (by uncons 1 b). rewrite bind_Ret. cbv zeta.
  change (Z.to_nat (Z.land (b !!! 0%nat) 0xF) * 4)%nat with (ihl b).
  rewrite (proj2 (Nat.ltb_ge _ _)) by done. rewrite (slice_ok (ihl b)) by lia.
  rewrite (take_ge (drop (ihl b) b)) by (rewrite length_drop; lia).
  set (h := ihl b) in *. clearbody h. uncons 20 b. done.
Qed.

Lemma parse_ipv4_refused b :
  (length b < 20)%nat ∨ (length b < ihl b)%nat → parse_ipv4 b = Ret None.
Proof.
  intros Hl. unfold parse_ipv4. destruct (Nat.ltb_spec (length b) 20); [done|].
  assert (index b 0 = Ret (b !!! 0%nat)) as -> by (by uncons 1 b). rewrite bind_Ret. cbv zeta.
  change (Z.to_nat (Z.land (b !!! 0%nat) 0xF) * 4)%nat with (ihl b).
  by rewrite (proj2 (Nat.ltb_lt _ _)) by lia.
Qed.

Lemma parse_udp_ok b :
  (8 <= length b)%nat →
  parse_udp b = Ret (Some (mkUdpHeader (be16 b 0) (be16 b 2) (be16 b 4) (be16 b 6), drop 8 b)).
Proof.
  intros Hl. unfold parse_udp. rewrite (proj2 (Nat.ltb_ge _ _)) by done.
  rewrite (slice_ok 8) by lia. rewrite (take_ge (drop 8 b)) by (rewrite length_drop; lia).
  uncons 8 b. done.
Qed.

Lemma parse_udp_short b : (length b < 8)%nat → parse_udp b = Ret None.
Proof. intros Hl. unfold parse_udp. by rewrite (proj2 (Nat.ltb_lt _ _)). Qed.

(** ** Building and classifying *)

Lemma serialize_ether_ok f buf :
  length (eth_dst f) = 6%nat → length (eth_src f) = 6%nat → (14 <= length buf)%nat →
  serialize_ether f buf
  = Ret (eth_dst f ++ eth_src f ++ be_bytes 2 (ethertype_to_u16 (ethertype f)) ++ drop 14 buf).
Proof.
  destruct f as [dst src et]. simpl eth_dst. simpl eth_src. simpl ethertype. intros Hd Hs Hl.
  do 7 (destruct dst as [|? dst]; try discriminate).
  do 7 (destruct src as [|? src]; try discriminate). uncons 14 buf. reflexivity.
Qed.

(** The three headers of a transmitted frame. *)
Definition tx_ip (src_ip dst_ip : list Z) (n : nat) : list Z :=
  [0x45; 0] ++ be_bytes 2 (wrap 16 (Z.of_nat (20 + 8 + n))) ++ [0; 0; 0; 0; 64; 17; 0; 0]
    ++ src_ip ++ dst_ip.
Definition tx_udp (sp dp : Z) (n : nat) : list Z :=
  be_bytes 2 sp ++ be_bytes 2 dp ++ be_bytes 2 (wrap 16 (Z.of_nat (8 + n))) ++ [0; 0].
Definition tx_frame (src_ip dst_ip : list Z) (sp dp : Z) (payload : list Z) : list Z :=
  replicate 6 0xFF ++ QEMU_MAC ++ [0x08; 0x00] ++ tx_ip src_ip dst_ip (length payload)
    ++ tx_udp sp dp (length payload) ++ payload.

Lemma transmit_ok src_ip dst_ip sp dp payload :
  length src_ip = 4%nat → length dst_ip = 4%nat →
  transmit_eipc_udp src_ip dst_ip sp dp payload = Ret (tx_frame src_ip dst_ip sp dp payload).
Proof.
  intros Hs Hd. do 5 (destruct src_ip as [|? src_ip]; try discriminate).
  do 5 (destruct dst_ip as [|? dst_ip]; try discriminate).
  set (hdr := replicate 6 0xFF ++ QEMU_MAC ++ [0x08; 0x00] ++ tx_ip [z; z0; z1; z2] [z3; z4; z5; z6] (length payload)
    ++ tx_udp sp dp (length payload)).
  assert (transmit_eipc_udp [z; z0; z1; z2] [z3; z4; z5; z6] sp dp payload
    = copy_into 42 (42 + length payload) payload (hdr ++ replicate (length payload) 0)) as -> by reflexivity.
  assert (length hdr = 42%nat) as Hh by reflexivity.
  rewrite copy_into_ok by (rewrite ?length_app, ?length_replicate, ?Hh; lia).
  rewrite <-(app_nil_r (replicate _ 0)), splice_app by (rewrite ?length_replicate; done).
  unfold hdr, tx_frame. rewrite app_nil_r. by rewrite <-!(assoc_L (++)).
Qed.

(** The classification as a function of the bytes. *)
Definition classify (b : list Z) : string :=
  if decide (length b < 14)%nat then "invalid frame"
  else match ethertype_from_u16 (be16 b 12) with
  | ARP => "ARP"
  | IPv4 =>
    let p := drop 14 b in
    if decide (length p < 20 ∨ length p < ihl p)%nat then "invalid IPv4"
    else match proto_from_u8 (p !!! 9%nat) with
    | UDP => if decide (length p < ihl p + 8)%nat then "invalid UDP" else "UDP datagram"
    | ICMP => "ICMP"
    | TCP => "TCP (not supported)"
    | OtherProto _ => "unknown IP proto"
    end
  | _ => "unknown ethertype"
  end%string.

Lemma process_frame_ok b : process_frame b = Ret (classify b).
Proof.
  unfold process_frame, classify. case_decide as Hl; [by rewrite parse_ether_short|].
  rewrite parse_ether_ok, bind_Ret by lia. cbn [ethertype].
  destruct (ethertype_from_u16 (be16 b 12)); try done. cbv zeta. case_decide as Hp.
  - by rewrite parse_ipv4_refused.
  - rewrite parse_ipv4_ok, bind_Ret by lia. cbn [protocol].
    destruct (proto_from_u8 _); try done. case_decide as Hu.
    + by rewrite parse_udp_short by (rewrite length_drop; lia).
    + by rewrite parse_udp_ok by (rewrite length_drop; lia).
Qed.

(** ** Properties *)

(** any byte string is classified without a panic, by its lengths, its
    EtherType, its header length field and its protocol byte alone. *)
Theorem process_frame_total b :
  process_frame b = Ret (classify b).
Proof. apply process_frame_ok. Qed.

(** An EtherType value the parser can produce. *)
Definition canonical (et : EtherType) : Prop :=
  match et with OtherEther v => u16 v ∧ v ≠ 0x0800 ∧ v ≠ 0x0806 ∧ v ≠ 0x86DD | _ => True end.

Lemma from_to_u16 et : canonical et → ethertype_from_u16 (ethertype_to_u16 et) = et.
Proof.
  destruct et as [| | |v]; try done. intros (_ & H1 & H2 & H3). simpl. unfold ethertype_from_u16.
  by rewrite (proj2 (Z.eqb_neq _ _) H1), (proj2 (Z.eqb_neq _ _) H2), (proj2 (Z.eqb_neq _ _) H3).
Qed.

(** serialising an Ethernet header into a buffer and parsing the buffer
    gives the header back, with the rest of the buffer as payload. *)
Theorem ether_roundtrip f buf :
  length (eth_dst f) = 6%nat → length (eth_src f) = 6%nat → canonical (ethertype f) →
  (14 <= length buf)%nat →
  (b ← serialize_ether f buf; parse_ether b) = Ret (Some (f, drop 14 buf)).
Proof.
  intros Hd Hs Hc Hl. rewrite serialize_ether_ok, bind_Ret by done.
  destruct f as [dst src et]. cbn [eth_dst eth_src ethertype] in *.
  do 7 (destruct dst as [|? dst]; try discriminate).
  do 7 (destruct src as [|? src]; try discriminate).
  rewrite parse_ether_ok by (simpl; lia).
  change (be16 _ 12) with (of_be (be_bytes 2 (ethertype_to_u16 et))).
  rewrite of_be_bytes, from_to_u16; [done|done|].
  destruct et; simpl; try lia. destruct Hc as [[??] _]. lia.
Qed.

Lemma ether_roundtrip_witness :
  let f := mkEtherFrame BROADCAST QEMU_MAC (OtherEther 0x1234) in
  (b ← serialize_ether f (replicate 16 7); parse_ether b) = Ret (Some (f, drop 14 (replicate 16 7))).
Proof.
  apply (ether_roundtrip (mkEtherFrame BROADCAST QEMU_MAC (OtherEther 0x1234)) (replicate 16 7));
    [done|done|repeat split; done|simpl; lia].
Defined.

(** C30: a frame built by [transmit_eipc_udp] is classified as a UDP
    datagram and its three headers parse to what it was built from: the
    addresses, the ports and exactly the ciphertext; the two length fields
    are the true lengths modulo 2^16. *)
Theorem transmit_parses src_ip dst_ip sp dp payload :
  length src_ip = 4%nat → length dst_ip = 4%nat → u16 sp → u16 dp →
  ∃ frame eth ip udp ip_bytes udp_bytes,
    transmit_eipc_udp src_ip dst_ip sp dp payload = Ret frame ∧
    process_frame frame = Ret "UDP datagram"%string ∧
    parse_ether frame = Ret (Some (eth, ip_bytes)) ∧ eth_dst eth = BROADCAST ∧
    parse_ipv4 ip_bytes = Ret (Some (ip, udp_bytes)) ∧ ip_src ip = src_ip ∧ ip_dst ip = dst_ip ∧
    total_len ip = wrap 16 (Z.of_nat (28 + length payload)) ∧
    parse_udp udp_bytes = Ret (Some (udp, payload)) ∧
    src_port udp = sp ∧ dst_port udp = dp ∧
    udp_length udp = wrap 16 (Z.of_nat (8 + length payload)).
Proof.
  intros Hs Hd Hsp Hdp.
  assert (∀ v, u16 v → of_be (be_bytes 2 v) = v) as Hbe by (intros v [??]; apply of_be_bytes; lia).
  do 5 (destruct src_ip as [|? src_ip]; try discriminate).
  do 5 (destruct dst_ip as [|? dst_ip]; try discriminate).
  eexists _, _, _, _, _, _. split; [by apply transmit_ok|].
  assert (∀ n, u16 (wrap 16 n)) as Hw by (intros; apply uint_wrap; lia).
  split; [rewrite process_frame_ok; reflexivity|].
  split; [apply parse_ether_ok; simpl; lia|]. split; [reflexivity|].
  split; [apply parse_ipv4_ok; [simpl; lia|apply Nat.le_trans with 20%nat; [done|simpl; lia]]|].
  split; [reflexivity|]. split; [reflexivity|]. split; [apply Hbe, Hw|].
  split; [apply parse_udp_ok; simpl; lia|].
  split; [by apply Hbe|]. split; [by apply Hbe|apply Hbe, Hw].
Qed.

Lemma transmit_parses_witness :
  ∃ frame eth ip udp ip_bytes udp_bytes,
    transmit_eipc_udp [10; 0; 2; 15] [10; 0; 2; 2] 49152 5000 [0x48; 0x70] = Ret frame ∧
    process_frame frame = Ret "UDP datagram"%string ∧
    parse_ether frame = Ret (Some (eth, ip_bytes)) ∧ eth_dst eth = BROADCAST ∧
    parse_ipv4 ip_bytes = Ret (Some (ip, udp_bytes)) ∧ ip_src ip = [10; 0; 2; 15] ∧
    ip_dst ip = [10; 0; 2; 2] ∧ total_len ip = wrap 16 (Z.of_nat (28 + 2)) ∧
    parse_udp udp_bytes = Ret (Some (udp, [0x48; 0x70])) ∧
    src_port udp = 49152 ∧ dst_port udp = 5000 ∧ udp_length udp = wrap 16 (Z.of_nat (8 + 2)).
Proof.
  apply (transmit_parses [10; 0; 2; 15] [10; 0; 2; 2] 49152 5000 [0x48; 0x70]); done || split; lia.
Defined.

(** the IPv4 parser does not enforce the minimum header length: a
    packet whose header length field is below five is accepted and its
    payload starts inside the twenty header bytes it was parsed from. *)
Theorem ipv4_short_header_accepted b :
  (20 <= length b)%nat → (ihl b < 20)%nat →
  ∃ hdr, parse_ipv4 b = Ret (Some (hdr, drop (ihl b) b)) ∧
    (length b - 20 < length (drop (ihl b) b))%nat.
Proof.
  intros Hl Hi. eexists. split; [apply parse_ipv4_ok; lia|]. rewrite length_drop. lia.
Qed.

Lemma ipv4_short_header_accepted_witness :
  ∃ hdr, parse_ipv4 (0x40 :: replicate 27 0) = Ret (Some (hdr, 0x40 :: replicate 27 0)) ∧
    (length (0x40 :: replicate 27 0) - 20 < length (0x40 :: replicate 27 0))%nat.
Proof.
  apply (ipv4_short_header_accepted (0x40 :: replicate 27 0)); vm_compute; lia.
Defined.

(** the demonstration: the network card's start-up sequence is within its
    own driver specification, the synthetic frame is a UDP datagram, the
    transmitted one carries the ciphertext and is one too, and the only event
    logged is the driver's registration. *)
Theorem net_demo `{Profile} :
  ∃ d, run_demo = Ret d ∧ nic_name d = bstr "virtio-net0" ∧
    parsed_as d = "UDP datagram"%string ∧ nic_ok d = true ∧
    process_frame (tx d) = Ret "UDP datagram"%string ∧ drop 42 (tx d) = dummy_ct ∧
    net_audits d = [mkAudit DriverLoaded 10 0 0].
Proof. destruct H as [[] []]; eexists; (split; [vm_compute; reflexivity|]); done. Qed.

(** The 16 bytes of a descriptor determine it. *)
Theorem desc_bytes_inj d d' :
  u64 (vd_addr d) → u32 (vd_len d) → u16 (vd_flags d) → u16 (vd_next d) →
  u64 (vd_addr d') → u32 (vd_len d') → u16 (vd_flags d') → u16 (vd_next d') →
  desc_bytes d = desc_bytes d' → d = d'.
Proof.
  destruct d as [a l f n], d' as [a' l' f' n']. cbn [vd_addr vd_len vd_flags vd_next].
  intros Ha Hl Hf Hn Ha' Hl' Hf' Hn' E. unfold desc_bytes in E. cbn [vd_addr vd_len vd_flags vd_next] in E.
  apply app_inj_1 in E as [E1 E]; [|by rewrite !length_le_bytes].
  apply app_inj_1 in E as [E2 E]; [|by rewrite !length_le_bytes].
  apply app_inj_1 in E as [E3 E4]; [|by rewrite !length_le_bytes].
  apply (f_equal of_le) in E1, E2, E3, E4. rewrite !of_le_small in E1, E2, E3, E4 by done. by subst.
Qed.
