(* ===== verification/LogBuffer.v ===== *)
(** * The static log ring buffer

    Model of [kernel/src/log_buffer.rs]: 64 slots, a write head bumped by
    [push] and a read head advanced by [drain], both 64-bit counters that are
    never reduced.  [drain]'s callback is modelled by the list of entries it
    is called with.

    Shown here: as long as the reader is at most 64 entries behind, [drain]
    hands out exactly the oldest unread entries, in order; when it is further
    behind, the overwritten entries are lost and the newer ones that took
    their slots are handed out in their place, and again in their own. *)

From S2P Require Import Prelude.
From Stdlib Require Import ZArith Lia.
From stdpp Require Import base numbers list.
#[local] Open Scope Z_scope.

Definition LOG_CAPACITY : nat := 64.

Inductive LogKind := Empty | ScbaStatus.

#[global] Instance LogKind_eq_dec : EqDecision LogKind.
Proof. solve_decision. Defined.

Record LogEntry := mkLogEntry { kind : LogKind; la : Z; lb : Z }.

(** The three statics. *)
Record LogState := mkLogState { ENTRIES : list LogEntry; WRITE_HEAD : Z; READ_HEAD : Z }.

Definition initial : LogState := mkLogState (replicate LOG_CAPACITY (mkLogEntry Empty 0 0)) 0 0.

(** [x as usize % LOG_CAPACITY]. *)
Definition slot (x : Z) : nat := Z.to_nat (x mod Z.of_nat LOG_CAPACITY).

Definition push (s : LogState) (e : LogEntry) : outcome LogState :=
  let idx := slot (WRITE_HEAD s) in
  let head := wadd 64 (WRITE_HEAD s) 1 in
  entries ← store (ENTRIES s) idx e;
  Ret (mkLogState entries head (READ_HEAD s)).

(** The loop of [drain]: [out] is what the callback was called with. *)
Fixpoint drain_loop (fuel max count : nat) (s : LogState) (out : list LogEntry)
    : outcome (LogState * list LogEntry * nat) :=
  match fuel with
  | O => NoFuel
  | S fuel =>
    if (max <=? count)%nat then Ret (s, out, count) else
    let r := READ_HEAD s in
    let w := WRITE_HEAD s in
    if w <=? r then Ret (s, out, count) else
    entry ← index (ENTRIES s) (slot r);
    if decide (kind entry = Empty) then Ret (s, out, count) else
    drain_loop fuel max (S count) (mkLogState (ENTRIES s) w (wadd 64 r 1)) (out ++ [entry])
  end.

Definition drain (s : LogState) (max : nat) : outcome (LogState * list LogEntry * nat) :=
  drain_loop (S max) max 0 s [].

(** ** The history behind the ring *)

Record log_inv (s : LogState) (hist : list LogEntry) (r : nat) : Prop := {
  lg_len : length (ENTRIES s) = LOG_CAPACITY;
  lg_write : WRITE_HEAD s = Z.of_nat (length hist);
  lg_read : READ_HEAD s = Z.of_nat r;
  lg_le : (r <= length hist)%nat;
  lg_kind : Forall (λ e, kind e ≠ Empty) hist;
  lg_slot k e : hist !! k = Some e → (length hist <= k + LOG_CAPACITY)%nat →
    ENTRIES s !! (k mod LOG_CAPACITY)%nat = Some e;
}.

Lemma slot_nat n : slot (Z.of_nat n) = (n mod LOG_CAPACITY)%nat.
Proof. unfold slot. by rewrite <-Nat2Z.inj_mod, Nat2Z.id. Qed.

Lemma slot_lt x : (slot x < LOG_CAPACITY)%nat.
Proof.
  unfold slot. pose proof (Z.mod_pos_bound x (Z.of_nat LOG_CAPACITY)). unfold LOG_CAPACITY in *. lia.
Qed.

Lemma initial_inv : log_inv initial [] 0.
Proof. split; done || (simpl; lia). Qed.

Lemma wadd_succ n : Z.of_nat n < 2 ^ 64 - 1 → wadd 64 (Z.of_nat n) 1 = Z.of_nat (S n).
Proof. intros. unfold wadd. rewrite wrap_small by (split; lia). lia. Qed.

Lemma push_ok s hist r e :
  log_inv s hist r → kind e ≠ Empty → Z.of_nat (length hist) < 2 ^ 64 - 1 →
  ∃ s', push s e = Ret s' ∧ log_inv s' (hist ++ [e]) r.
Proof.
  intros [Hl Hw Hr Hle Hk Hs] He Hb. unfold push. rewrite Hw, slot_nat.
  rewrite store_ok, bind_Ret by (rewrite Hl; by apply Nat.mod_upper_bound).
  eexists. split; [reflexivity|]. rewrite wadd_succ by done.
  split; cbn [ENTRIES WRITE_HEAD READ_HEAD]; rewrite ?length_insert, ?length_app; simpl length;
    try done; try lia.
  - apply Forall_app. split; [done|by constructor].
  - intros k x Hx Hk'. apply lookup_app_Some in Hx as [Hx|[Hge Hx]].
    + pose proof (lookup_lt_Some _ _ _ Hx) as Hlt. rewrite list_lookup_insert_ne; [apply Hs; [done|lia]|].
      intros E. assert (k - (length hist - LOG_CAPACITY) = LOG_CAPACITY)%nat; [|lia].
      pose proof (Nat.div_mod_eq (length hist) LOG_CAPACITY).
      pose proof (Nat.div_mod_eq k LOG_CAPACITY). unfold LOG_CAPACITY in *. lia.
    + apply list_lookup_singleton_Some in Hx as [Hx ->].
      replace k with (length hist) by lia. apply list_lookup_insert_eq.
      rewrite Hl. by apply Nat.mod_upper_bound.
Qed.

Lemma drain_loop_ok hist max fuel count s r out :
  log_inv s hist r → (length hist <= r + LOG_CAPACITY)%nat → Z.of_nat (length hist) < 2 ^ 64 →
  (count <= max)%nat → (max < count + fuel)%nat →
  let n := Nat.min (max - count) (length hist - r) in
  ∃ s', drain_loop fuel max count s out = Ret (s', out ++ take n (drop r hist), (count + n)%nat) ∧
    log_inv s' hist (r + n)%nat.
Proof.
  revert count s r out. induction fuel as [|fuel IH]; intros count s r out Hi Hcap Hb Hc Hf n; [lia|].
  cbn [drain_loop]. pose proof Hi as [Hl Hw Hr Hle Hk Hs].
  destruct (Nat.leb_spec max count).
  { assert (n = 0%nat) as -> by lia. exists s. rewrite take_0, app_nil_r, !Nat.add_0_r. done. }
  rewrite Hw, Hr. destruct (Z.leb_spec (Z.of_nat (length hist)) (Z.of_nat r)).
  { assert (n = 0%nat) as -> by lia. exists s. rewrite take_0, app_nil_r, !Nat.add_0_r. done. }
  destruct (lookup_lt_is_Some_2 hist r) as [e He]; [lia|].
  rewrite slot_nat, (index_ok _ _ e), bind_Ret by (apply Hs; [done|lia]).
  rewrite decide_False by exact (Forall_lookup_1 _ _ _ _ Hk He).
  rewrite wadd_succ by lia.
  destruct (IH (S count) (mkLogState (ENTRIES s) (Z.of_nat (length hist)) (Z.of_nat (S r))) (S r)
              (out ++ [e])) as (s' & -> & Hi'); [|lia|done|lia|lia|].
  { split; cbn [ENTRIES WRITE_HEAD READ_HEAD]; try done. lia. }
  set (n' := Nat.min (max - S count) (length hist - S r)) in *.
  assert (n = S n') as -> by lia. exists s'. split.
  - rewrite <-(assoc_L (++)), (drop_S hist e r) by done. cbn [take app]. by replace (S count + n')%nat with (count + S n')%nat by lia.
  - by replace (r + S n')%nat with (S r + n')%nat by lia.
Qed.

Fixpoint push_all (s : LogState) (es : list LogEntry) : outcome LogState :=
  match es with [] => Ret s | e :: es => s' ← push s e; push_all s' es end.

Lemma push_all_ok es s hist r :
  log_inv s hist r → Forall (λ e, kind e ≠ Empty) es →
  Z.of_nat (length hist + length es) < 2 ^ 64 →
  ∃ s', push_all s es = Ret s' ∧ log_inv s' (hist ++ es) r.
Proof.
  intros Hi Hk. revert s hist Hi. induction Hk as [|e es He _ IH]; intros s hist Hi Hb.
  - exists s. by rewrite app_nil_r.
  - simpl in Hb. destruct (push_ok s hist r e) as (s1 & E & H1); [done|done|lia|].
    cbn [push_all]. rewrite E, bind_Ret.
    destruct (IH s1 (hist ++ [e]) H1) as (s2 & -> & H2); [rewrite length_app; simpl; lia|].
    exists s2. by rewrite <-(assoc_L (++)) in H2.
Qed.

(** ** Properties *)

(** no loss below capacity: after any pushes, when at most 64 entries
    are unread, [drain] calls its callback with exactly the oldest unread
    entries, as many as asked for, in the order they were pushed. *)
Theorem drain_fifo s hist r max :
  log_inv s hist r → (length hist <= r + LOG_CAPACITY)%nat → Z.of_nat (length hist) < 2 ^ 64 →
  let n := Nat.min max (length hist - r) in
  ∃ s', drain s max = Ret (s', take n (drop r hist), n) ∧ log_inv s' hist (r + n)%nat.
Proof.
  intros Hi Hc Hb. destruct (drain_loop_ok hist max (S max) 0 s r []) as (s' & E & Hi'); [done..|lia|lia|].
  rewrite Nat.sub_0_r in *. by exists s'.
Qed.

Definition status (i : nat) : LogEntry := mkLogEntry ScbaStatus (Z.of_nat i) 0.

Lemma drain_fifo_witness :
  ∃ s', (s ← push_all initial [status 1; status 2; status 3]; drain s 2)
        = Ret (s', [status 1; status 2], 2%nat) ∧
    log_inv s' [status 1; status 2; status 3] 2.
Proof.
  destruct (push_all_ok [status 1; status 2; status 3] initial [] 0 initial_inv) as (s & -> & Hi);
    [by repeat constructor|done|]. rewrite bind_Ret.
  apply (drain_fifo s [status 1; status 2; status 3] 0 2 Hi); [vm_compute; lia|done].
Defined.

(** an overrun duplicates: after 65 pushes with no reading, the first
    entry is lost and the 65th is handed out twice. *)
Theorem drain_overrun :
  ∃ s' , (s ← push_all initial (status <$> seq 0 65); drain s 65)
    = Ret (s', status 64 :: (status <$> seq 1 64), 65%nat).
Proof. eexists. vm_compute. reflexivity. Qed.
