(* ===== verification/Vmz.v ===== *)
(** * VMZ: verified memory zeroing

    Model of [kernel/src/vmz.rs] over byte memory: [zero_region] (the
    [rep stosb] loop), [verify_zeroed] and the demonstration.

    Shown here: zeroing clears exactly the region, the check then succeeds,
    and what is left does not depend on what the region held; the check
    itself finds the first nonzero byte. *)

From S2P Require Import Prelude Interfaces Crypto Meal Machine.
From Stdlib Require Import ZArith Lia.
From stdpp Require Import base numbers list gmap.
#[local] Open Scope Z_scope.

(** [rep stosb] with AL = 0; the fence orders stores and changes none. *)
Definition zero_region (m : Memory) (ptr : Z) (len : nat) : Memory := fill len ptr 0 m.

Fixpoint first_nonzero (i : nat) (l : list Z) : bool * nat * Z :=
  match l with
  | [] => (true, 0%nat, 0)
  | b :: l => if negb (b =? 0) then (false, i, b) else first_nonzero (S i) l
  end.

Definition verify_zeroed (m : Memory) (ptr : Z) (len : nat) : bool * nat * Z :=
  first_nonzero 0 (read_at m ptr len).

Definition SECRET_LEN : nat := 64.

Definition secret : list Z :=
  (λ i, wadd 8 (wmul 8 (wrap 8 (Z.of_nat i)) 0xA5) 0x3C) <$> seq 0 SECRET_LEN.

(** [addr] is where the heap put the buffer.  Returns the memory, whether
    the checkpoint is printed, and the audit call. *)
Definition run_demo `{HashOps} (m : Memory) (addr : Z) : outcome (Memory * bool * list Audit) :=
  let m := write_at addr secret m in
  secret_hash ← h_sha256 (read_at m addr SECRET_LEN);
  let m := zero_region m addr SECRET_LEN in
  let '(clean, bad_off, bad_val) := verify_zeroed m addr SECRET_LEN in
  zero_hash ← h_sha256 (read_at m addr SECRET_LEN);
  let hashes_differ := negb (bool_decide (secret_hash = zero_hash)) in
  Ret (m, clean && hashes_differ, [mkAudit MemoryZeroed 0 addr (Z.of_nat SECRET_LEN)]).

Lemma first_nonzero_ok l i :
  (first_nonzero i l = (true, 0%nat, 0) ∧ Forall (eq 0) l) ∨
  ∃ k b, l !! k = Some b ∧ b ≠ 0 ∧ first_nonzero i l = (false, (i + k)%nat, b) ∧
    Forall (eq 0) (take k l).
Proof.
  revert i. induction l as [|x l IH]; intros i; [left; by split|]. cbn [first_nonzero].
  destruct (Z.eqb_spec x 0) as [->|Hx]; cbn [negb].
  - destruct (IH (S i)) as [[E Hl]|(k & b & Hb & Hne & E & Hl)].
    + left. split; [done|by constructor].
    + right. exists (S k), b. split; [done|]. split; [done|].
      split; [rewrite E; do 2 f_equal; lia|by constructor].
  - right. exists 0%nat, x. rewrite Nat.add_0_r. by repeat split.
Qed.

Lemma first_nonzero_zeros n i : first_nonzero i (replicate n 0) = (true, 0%nat, 0).
Proof. revert i. induction n as [|n IH]; intros i; [done|]. apply IH. Qed.

(** ** Properties *)

(** [verify_zeroed] answers true exactly when every byte of the region
    is zero, and otherwise reports the offset and value of the first nonzero
    byte. *)
Theorem verify_zeroed_exact m ptr len :
  (verify_zeroed m ptr len = (true, 0%nat, 0) ∧
   ∀ a, ptr <= a < ptr + Z.of_nat len → load m a = 0) ∨
  ∃ k b, (k < len)%nat ∧ load m (ptr + Z.of_nat k) = b ∧ b ≠ 0 ∧
    verify_zeroed m ptr len = (false, k, b) ∧
    ∀ j, (j < k)%nat → load m (ptr + Z.of_nat j) = 0.
Proof.
  unfold verify_zeroed. destruct (first_nonzero_ok (read_at m ptr len) 0)
    as [[E Hl]|(k & b & Hb & Hne & E & Hl)].
  - left. split; [done|]. intros a Ha. rewrite Forall_lookup in Hl.
    symmetry. apply (Hl (Z.to_nat (a - ptr))).
    rewrite lookup_read_at by lia. do 2 f_equal. lia.
  - right. exists k, b. pose proof (lookup_lt_Some _ _ _ Hb) as Hk. rewrite length_read_at in Hk.
    rewrite lookup_read_at in Hb by done. injection Hb as Hb. do 4 (split; [done|]).
    intros j Hj. rewrite Forall_lookup in Hl. symmetry. apply (Hl j).
    rewrite lookup_take_lt, lookup_read_at by lia. done.
Qed.

(** C33: zeroing erases: afterwards the check succeeds, every address
    outside the region reads as before, and two memories that differ only
    inside the region (two secrets) read the same everywhere. *)
Theorem zeroing_erases m m' ptr len :
  (∀ a, ¬ (ptr <= a < ptr + Z.of_nat len) → load m a = load m' a) →
  verify_zeroed (zero_region m ptr len) ptr len = (true, 0%nat, 0) ∧
  (∀ a, ¬ (ptr <= a < ptr + Z.of_nat len) → load (zero_region m ptr len) a = load m a) ∧
  (∀ a, load (zero_region m ptr len) a = load (zero_region m' ptr len) a).
Proof.
  intros E. unfold zero_region, verify_zeroed. split; [|split].
  - rewrite read_fill. apply first_nonzero_zeros.
  - intros a Ha. by rewrite load_fill, decide_False.
  - intros a. rewrite !load_fill. case_decide; auto.
Qed.

Lemma zeroing_erases_witness :
  let m := write_at 0x1000 [1; 2; 3] ∅ in
  let m' := write_at 0x1000 [9; 9; 9] ∅ in
  verify_zeroed (zero_region m 0x1000 3) 0x1000 3 = (true, 0%nat, 0) ∧
  (∀ a, ¬ (0x1000 <= a < 0x1000 + Z.of_nat 3) → load (zero_region m 0x1000 3) a = load m a) ∧
  (∀ a, load (zero_region m 0x1000 3) a = load (zero_region m' 0x1000 3) a).
Proof.
  apply (zeroing_erases (write_at 0x1000 [1; 2; 3] ∅) (write_at 0x1000 [9; 9; 9] ∅) 0x1000 3).
  intros a Ha. by rewrite !load_write_at, !decide_False by done.
Defined.

(** the boot demonstration prints its checkpoint wherever the heap put
    the buffer: the secret's digest differs from that of the zeroed buffer,
    and one event is logged. *)
Theorem vmz_demo {P : Profile} m addr :
  @run_demo (@crypto_ops P) m addr
  = Ret (zero_region (write_at addr secret m) addr SECRET_LEN, true,
         [mkAudit MemoryZeroed 0 addr 64]).
Proof.
  unfold run_demo, zero_region, verify_zeroed.
  assert (read_at (write_at addr secret m) addr SECRET_LEN = secret) as -> by apply read_write_at.
  rewrite read_fill, first_nonzero_zeros. set (s := h_sha256 secret). set (z := h_sha256 (replicate SECRET_LEN 0)).
  destruct P as [[] []]; vm_compute in s, z; unfold s, z; rewrite !bind_Ret;
  by rewrite bool_decide_eq_false_2 by discriminate.
Qed.
