(* ===== verification/Frames.v ===== *)
(** * The boot frame allocator

    Model of [BootInfoFrameAllocator] of [kernel/src/memory.rs].  The memory
    map comes from the boot loader; the rounding of an address to its frame
    ([PhysFrame::containing_address(PhysAddr::new(a))]) belongs to the x86_64
    crate and is a parameter, of which only the documented behaviour on
    52-bit addresses is used.

    Shown here: for a page-aligned memory map with disjoint usable regions
    the allocator hands out every 4 KiB frame that lies in a usable region
    exactly once, region after region and upwards in each, and then [None]
    for ever. *)

From S2P Require Import Prelude.
From Stdlib Require Import ZArith Lia.
From stdpp Require Import base numbers list.
#[local] Open Scope Z_scope.

Definition PAGE : Z := 4096.

(** A region of the boot loader's map; [usable] is [kind == Usable]. *)
Record MemoryRegion := mkMemoryRegion { r_start : Z; r_end : Z; usable : bool }.

Record BootInfoFrameAllocator := mkAllocator { memory_regions : list MemoryRegion; next : nat }.

Definition init (regions : list MemoryRegion) : BootInfoFrameAllocator := mkAllocator regions 0.

(** [(start..end).step_by(4096)]. *)
Definition step_by (r : MemoryRegion) : list Z :=
  (λ i, r_start r + 4096 * Z.of_nat i) <$> seq 0 (Z.to_nat ((r_end r - r_start r + 4095) / 4096)).

(** The addresses [usable_frames] maps over, in order. *)
Definition usable_addrs (regions : list MemoryRegion) : list Z :=
  mjoin (step_by <$> filter (λ r, usable r = true) regions).

Section Allocator.
(** [PhysFrame::containing_address(PhysAddr::new(a))]: the frame's start. *)
Variable frame_containing : Z → outcome Z.

(** [usable_frames().nth(n)]: the iterator rounds every address it passes. *)
Fixpoint nth_frame (addrs : list Z) (n : nat) : outcome (option Z) :=
  match addrs with
  | [] => Ret None
  | a :: addrs =>
    f ← frame_containing a;
    match n with O => Ret (Some f) | S n => nth_frame addrs n end
  end.

Definition allocate_frame (al : BootInfoFrameAllocator)
    : outcome (BootInfoFrameAllocator * option Z) :=
  frame ← nth_frame (usable_addrs (memory_regions al)) (next al);
  Ret (mkAllocator (memory_regions al) (next al + 1), frame).

(** [k] allocations in a row. *)
Fixpoint allocate_many (k : nat) (al : BootInfoFrameAllocator)
    : outcome (BootInfoFrameAllocator * list (option Z)) :=
  match k with
  | O => Ret (al, [])
  | S k =>
    '(al, f) ← allocate_frame al;
    '(al, fs) ← allocate_many k al;
    Ret (al, f :: fs)
  end.
End Allocator.

(** ** Well-formed memory maps *)

Record wf_region (r : MemoryRegion) : Prop := {
  rg_start : r_start r mod 4096 = 0;
  rg_end : r_end r mod 4096 = 0;
  rg_low : 0 <= r_start r <= r_end r;
  rg_high : r_end r <= 2 ^ 52;
}.

(** Usable regions are page-aligned, in the physical address space, and
    pairwise disjoint. *)
Definition wf_map (regions : list MemoryRegion) : Prop :=
  Forall (λ r, usable r = true → wf_region r) regions ∧
  ∀ i j r r', i ≠ j → regions !! i = Some r → regions !! j = Some r' →
    usable r = true → usable r' = true → r_end r <= r_start r' ∨ r_end r' <= r_start r.

(** The 4 KiB frame at [f] lies wholly in the region. *)
Definition inside (r : MemoryRegion) (f : Z) : Prop :=
  f mod 4096 = 0 ∧ r_start r <= f ∧ f + 4096 <= r_end r.

Definition in_usable (regions : list MemoryRegion) (j : nat) (f : Z) : Prop :=
  ∃ r, regions !! j = Some r ∧ usable r = true ∧ inside r f.

(** The stride reaches exactly the frames of the region. *)
Lemma elem_of_step_by r f : wf_region r → f ∈ step_by r ↔ inside r f.
Proof.
  intros [H1 H2 H3 H4]. unfold step_by, inside. rewrite list_elem_of_fmap.
  pose proof (Z.div_mod (r_start r) 4096). pose proof (Z.div_mod (r_end r) 4096).
  pose proof (Z.div_mod (r_end r - r_start r + 4095) 4096).
  pose proof (Z.mod_pos_bound (r_end r - r_start r + 4095) 4096). split.
  - intros (i & -> & Hi). apply elem_of_seq in Hi as [_ Hi]. split; [|lia].
    rewrite Z.mul_comm, Z.mod_add by lia. done.
  - intros (Hm & Hlo & Hhi). pose proof (Z.div_mod f 4096).
    exists (Z.to_nat (f / 4096 - r_start r / 4096)). rewrite elem_of_seq. lia.
Qed.

Lemma NoDup_step_by r : NoDup (step_by r).
Proof.
  apply NoDup_fmap_2_strong; [|apply NoDup_seq].
  intros x y _ _ E. lia.
Qed.

Lemma wf_map_cons r regions : wf_map (r :: regions) → wf_map regions.
Proof.
  intros [Hf Hd]. inversion Hf; subst. split; [done|].
  intros i j x y Hij Hx Hy. apply (Hd (S i) (S j)); [lia|done|done].
Qed.

Lemma usable_addrs_cons r regions :
  usable_addrs (r :: regions)
  = (if usable r then step_by r else []) ++ usable_addrs regions.
Proof.
  unfold usable_addrs. rewrite filter_cons. destruct (usable r) eqn:E.
  - by rewrite decide_True.
  - by rewrite decide_False.
Qed.

Lemma wf_map_head r regions : wf_map (r :: regions) → usable r = true → wf_region r.
Proof. intros [Hf _]. inversion Hf; auto. Qed.

(** The iterator passes over exactly the frames of the usable regions. *)
Lemma elem_of_usable_addrs regions f :
  wf_map regions → f ∈ usable_addrs regions ↔ ∃ j, in_usable regions j f.
Proof.
  induction regions as [|r regions IH]; intros Hw.
  - split; [by intros Hf%not_elem_of_nil|]. by intros (j & r & Hj & _).
  - rewrite usable_addrs_cons, elem_of_app, IH by (by eapply wf_map_cons). split.
    + intros [Hf|(j & r' & Hj)]; [|by exists (S j), r'].
      destruct (usable r) eqn:Hu; [|by apply not_elem_of_nil in Hf].
      exists 0%nat, r. split; [done|]. split; [done|]. apply elem_of_step_by; [|done]. by eapply wf_map_head.
    + intros ([|j] & r' & Hj & Hu & Hin); [left|right; by exists j, r'].
      injection Hj as <-. rewrite Hu. apply elem_of_step_by; [by eapply wf_map_head|done].
Qed.

(** Frame [f] comes before [f']: in an earlier region, or below it in the
    same one. *)
Definition precedes (regions : list MemoryRegion) (f f' : Z) : Prop :=
  ∃ j j', in_usable regions j f ∧ in_usable regions j' f' ∧ ((j < j')%nat ∨ j = j' ∧ f < f').

Lemma precedes_cons r regions f f' : precedes regions f f' → precedes (r :: regions) f f'.
Proof.
  intros (j & j' & Hj & Hj' & Ho). exists (S j), (S j'). split; [exact Hj|]. split; [exact Hj'|]. lia.
Qed.

Lemma usable_addrs_ordered regions i i' f f' :
  wf_map regions → usable_addrs regions !! i = Some f → usable_addrs regions !! i' = Some f' →
  (i < i')%nat → precedes regions f f'.
Proof.
  revert i i'. induction regions as [|r regions IH]; intros i i' Hw Hi Hi' Hlt; [done|].
  rewrite usable_addrs_cons in Hi, Hi'. pose proof (wf_map_cons _ _ Hw) as Hw'.
  assert (∀ g, g ∈ (if usable r then step_by r else []) → in_usable (r :: regions) 0 g) as Hhead.
  { intros g Hg. destruct (usable r) eqn:Hu; [|by apply not_elem_of_nil in Hg].
    exists r. split; [done|]. split; [done|]. apply elem_of_step_by; [|done]. by eapply wf_map_head. }
  apply lookup_app_Some in Hi as [Hi|[Hl Hi]], Hi' as [Hi'|[Hl' Hi']].
  - exists 0%nat, 0%nat. split; [by apply Hhead; eapply list_elem_of_lookup_2|].
    split; [by apply Hhead; eapply list_elem_of_lookup_2|]. right. split; [done|].
    destruct (usable r); [|done]. unfold step_by in Hi, Hi'.
    apply list_lookup_fmap_Some in Hi as (x & -> & [-> _]%lookup_seq), Hi' as (x' & -> & [-> _]%lookup_seq). lia.
  - pose proof (list_elem_of_lookup_2 _ _ _ Hi') as (j & Hj)%elem_of_usable_addrs; [|done].
    exists 0%nat, (S j). split; [by apply Hhead; eapply list_elem_of_lookup_2|]. split; [exact Hj|]. lia.
  - apply lookup_lt_Some in Hi'. lia.
  - apply precedes_cons. eapply IH; [done|exact Hi|exact Hi'|lia].
Qed.

Lemma NoDup_usable_addrs regions : wf_map regions → NoDup (usable_addrs regions).
Proof.
  induction regions as [|r regions IH]; intros Hw; [constructor|].
  rewrite usable_addrs_cons. apply NoDup_app. split; [|split].
  - destruct (usable r); [apply NoDup_step_by|constructor].
  - intros f Hf Hf'. destruct (usable r) eqn:Hu; [|by apply not_elem_of_nil in Hf].
    apply elem_of_usable_addrs in Hf' as (i & r' & Hi & Hu' & Hin'); [|by eapply wf_map_cons].
    apply elem_of_step_by in Hf; [|by eapply wf_map_head]. destruct Hw as [_ Hd].
    destruct (Hd 0%nat (S i) r r' ltac:(lia) eq_refl Hi Hu Hu'); unfold inside in *; lia.
  - by eapply IH, wf_map_cons.
Qed.

(** ** What the allocator hands out *)

Section Laws.
Variable frame_containing : Z → outcome Z.
Hypothesis frame_containing_ok : ∀ a, 0 <= a < 2 ^ 52 → frame_containing a = Ret (a - a mod 4096).

Lemma nth_frame_ok addrs n :
  Forall (λ a, a mod 4096 = 0 ∧ 0 <= a < 2 ^ 52) addrs →
  nth_frame frame_containing addrs n = Ret (addrs !! n).
Proof.
  intros Hf. revert n. induction Hf as [|a addrs [Ha Hr] _ IH]; intros n; [done|]. cbn [nth_frame].
  rewrite frame_containing_ok, bind_Ret, Ha, Z.sub_0_r by done. destruct n; [done|apply IH].
Qed.

Lemma usable_addrs_aligned regions :
  wf_map regions → Forall (λ a, a mod 4096 = 0 ∧ 0 <= a < 2 ^ 52) (usable_addrs regions).
Proof.
  intros Hw. apply Forall_forall. intros f Hf.
  apply elem_of_usable_addrs in Hf as (i & r & Hi & Hu & Hin); [|done].
  destruct Hw as [Hw _]. pose proof (Forall_lookup_1 _ _ _ _ Hw Hi Hu) as [].
  unfold inside in *. split; [apply Hin|lia].
Qed.

Lemma allocate_frame_ok al :
  wf_map (memory_regions al) →
  allocate_frame frame_containing al
  = Ret (mkAllocator (memory_regions al) (next al + 1), usable_addrs (memory_regions al) !! next al).
Proof.
  intros Hw. unfold allocate_frame. by rewrite nth_frame_ok by (by apply usable_addrs_aligned).
Qed.

Lemma allocate_many_ok k al :
  wf_map (memory_regions al) →
  allocate_many frame_containing k al
  = Ret (mkAllocator (memory_regions al) (next al + k),
         (λ i, usable_addrs (memory_regions al) !! i) <$> seq (next al) k).
Proof.
  revert al. induction k as [|k IH]; intros al Hw; cbn [allocate_many].
  - rewrite Nat.add_0_r. by destruct al.
  - rewrite allocate_frame_ok, bind_Ret, IH by done. cbn [memory_regions next].
    rewrite Nat.add_1_r. cbn [seq fmap list_fmap]. rewrite bind_Ret.
    by replace (S (next al) + k)%nat with (next al + S k)%nat by lia.
Qed.
End Laws.

(** ** Properties *)

(** C32: the contract of a frame allocator: for a page-aligned memory map
    with disjoint usable regions there is one list of frames, without
    repetition, that holds a frame exactly when it is page-aligned and lies in
    a usable region, ordered by region and then by address; [k] allocations
    answer its first [k] frames in order, and [None] past its end. *)
Theorem frames_issued_once frame_containing regions :
  (∀ a, 0 <= a < 2 ^ 52 → frame_containing a = Ret (a - a mod 4096)) → wf_map regions →
  ∃ frames, NoDup frames ∧
    (∀ f, f ∈ frames ↔ ∃ j, in_usable regions j f) ∧
    (∀ i i' f f', frames !! i = Some f → frames !! i' = Some f' → (i < i')%nat → precedes regions f f') ∧
    ∀ k, allocate_many frame_containing k (init regions)
         = Ret (mkAllocator regions k, (λ i, frames !! i) <$> seq 0 k).
Proof.
  intros Hfc Hw. exists (usable_addrs regions). split; [by apply NoDup_usable_addrs|].
  split; [intros f; by apply elem_of_usable_addrs|].
  split; [intros i i' f f' Hi Hi'; by eapply usable_addrs_ordered|].
  intros k. by rewrite allocate_many_ok.
Qed.

Definition round_down (a : Z) : outcome Z := Ret (a - a mod 4096).

Definition demo_map : list MemoryRegion :=
  [mkMemoryRegion 0x1000 0x3000 true; mkMemoryRegion 0x3000 0x9000 false;
   mkMemoryRegion 0x9000 0xA000 true].

Lemma demo_map_wf : wf_map demo_map.
Proof.
  split.
  - repeat constructor; try done; simpl; lia.
  - intros [|[|[|i]]] [|[|[|j]]] r r' Hij Hi Hj; try done; simpl in Hi, Hj; simplify_eq; simpl;
      try done; lia.
Qed.

Lemma frames_issued_once_witness :
  ∃ frames, NoDup frames ∧
    (∀ f, f ∈ frames ↔ ∃ j, in_usable demo_map j f) ∧
    (∀ i i' f f', frames !! i = Some f → frames !! i' = Some f' → (i < i')%nat → precedes demo_map f f') ∧
    ∀ k, allocate_many round_down k (init demo_map)
         = Ret (mkAllocator demo_map k, (λ i, frames !! i) <$> seq 0 k).
Proof. apply (frames_issued_once round_down demo_map); [done|apply demo_map_wf]. Defined.
