(* ===== verification/Paging.v ===== *)
(** * The page mapper interface and the kernel heap

    The ELF loader, the user-space set-up and the heap initialisation of
    [kernel/src/allocator.rs] map pages through the [Mapper] and
    [FrameAllocator] traits of the x86_64 crate.  [Paging] lists the calls
    they make, on a state that holds the page tables and the frame allocator
    together (a mapping may itself allocate frames for tables);
    [PagingLaws] is what those traits document: a frame is handed out at most
    once, mapping a page that is already mapped fails, and a successful
    mapping adds that page and changes no other.  [boot_paging] is an
    instance built on the boot allocator of [Frames], with tables outside the
    frames it hands out.  [virt_offset] is the addition of [VirtAddr], which
    panics when the sum is not a canonical address.

    Shown here: when [init_heap] succeeds, every page of the heap is mapped
    writable to a frame of its own that was not in use before, and no earlier
    mapping changed. *)

From S2P Require Import Prelude Frames.
From Stdlib Require Import ZArith Lia.
From stdpp Require Import base numbers list gmap.
#[local] Open Scope Z_scope.

Record PageFlags := mkPageFlags {
  PRESENT : bool; WRITABLE : bool; USER_ACCESSIBLE : bool; NO_EXECUTE : bool }.

#[global] Instance PageFlags_eq_dec : EqDecision PageFlags.
Proof. solve_decision. Defined.

(** Rounding down to a multiple. *)
Lemma mod_down x m : 0 < m → (x - x mod m) mod m = 0.
Proof. intros Hm. rewrite Zminus_mod_idemp_r, Z.sub_diag. by apply Z.mod_0_l; lia. Qed.

Lemma mod_down_le x y m : 0 < m → x <= y → x - x mod m <= y - y mod m.
Proof.
  intros Hm Hxy. pose proof (Z.div_mod x m). pose proof (Z.div_mod y m).
  pose proof (Z.div_le_mono x y m Hm Hxy). nia.
Qed.

Lemma aligned_diff x y m : 0 < m → x mod m = 0 → y mod m = 0 → x - y = m * ((x - y) / m).
Proof.
  intros Hm Hx Hy. pose proof (Z.div_mod (x - y) m). rewrite Zminus_mod, Hx, Hy in *.
  rewrite Z.mod_0_l in * by lia. lia.
Qed.

Class Paging := {
  Pt : Type;
  (** [frame_allocator.allocate_frame()]: the frame's start address. *)
  alloc : Pt → outcome (Pt * option Z);
  (** [mapper.map_to(page, frame, flags, frame_allocator)]: success or not. *)
  map_to : Pt → Z → Z → PageFlags → Pt * bool;
  (** [Page::containing_address(VirtAddr::new(a))]: the page's start. *)
  page_containing : Z → outcome Z;
  (** [a + b] of a [VirtAddr] and a [u64]. *)
  virt_offset : Z → Z → outcome Z;
}.

Class PagingLaws (P : Paging) := {
  pt_inv : Pt → Prop;
  issued : Pt → gset Z;
  mapping : Pt → gmap Z (Z * PageFlags);
  (** The end of physical memory. *)
  mem_top : Z;
  alloc_ret s : pt_inv s →
    ∃ s' r, alloc s = Ret (s', r) ∧ pt_inv s' ∧ mapping s' = mapping s ∧ issued s ⊆ issued s' ∧
      ∀ f, r = Some f → (f ∉ issued s) ∧ f ∈ issued s' ∧ f mod PAGE = 0 ∧ 0 <= f < mem_top;
  map_to_ok s page frame fl s' : pt_inv s → map_to s page frame fl = (s', true) →
    pt_inv s' ∧ mapping s !! page = None ∧
    mapping s' = <[page := (frame, fl)]> (mapping s) ∧ issued s ⊆ issued s';
  map_to_fails s page frame fl s' : pt_inv s → map_to s page frame fl = (s', false) →
    pt_inv s' ∧ mapping s' = mapping s ∧ issued s ⊆ issued s';
  page_containing_value a p : page_containing a = Ret p → p = a - a mod PAGE;
  page_containing_fuel a : page_containing a ≠ NoFuel;
  page_containing_ret a : 0 <= a < 2 ^ 47 → page_containing a = Ret (a - a mod PAGE);
  virt_offset_value a b c : virt_offset a b = Ret c → c = a + b;
  virt_offset_fuel a b : virt_offset a b ≠ NoFuel;
  virt_offset_ret a b : 0 <= a → 0 <= b → a + b < 2 ^ 47 → virt_offset a b = Ret (a + b);
}.

(** ** The heap *)

Definition HEAP_START : Z := 0x444444440000.
Definition HEAP_SIZE : Z := 8 * 1024 * 1024.

Inductive HeapError := FrameAllocationFailed | MapFailed.

Section Heap.
Context `{Paging}.

(** One page of the loop. *)
Definition map_heap_page (page : Z) (s : Pt) : outcome (Pt + (Pt * HeapError)) :=
  '(s, frame) ← alloc s;
  match frame with
  | None => Ret (inr (s, FrameAllocationFailed))
  | Some f =>
    let '(s, ok) := map_to s page f (mkPageFlags true true false false) in
    if ok : bool then Ret (inl s) else Ret (inr (s, MapFailed))
  end.

(** Returns the new state and [None] on success (the allocator is then given
    the region). *)
Definition init_heap (s : Pt) : outcome (Pt * option HeapError) :=
  let heap_start := HEAP_START in
  let heap_end := heap_start + HEAP_SIZE - 1 in
  start_page ← page_containing heap_start;
  end_page ← page_containing heap_end;
  let n := Z.to_nat ((end_page - start_page) / PAGE + 1) in
  r ← loop_ret ((λ i, start_page + PAGE * Z.of_nat i) <$> seq 0 n) map_heap_page s;
  match r with
  | inl s => Ret (s, None)
  | inr (s, e) => Ret (s, Some e)
  end.
End Heap.

(** ** Facts about mapping one page after another *)

Section Facts.
Context `{P : Paging} {laws : PagingLaws P}.

(** [s'] extends [s]: nothing mapped before changed, nothing issued was
    taken back. *)
Definition extends (s s' : Pt) : Prop :=
  mapping s ⊆ mapping s' ∧ issued s ⊆ issued s'.

#[global] Instance extends_preorder : PreOrder extends.
Proof. split; [by intros s|]. intros s t u [H1 H2] [H3 H4]. split; by etrans. Qed.

Lemma extends_eq s s' : mapping s' = mapping s → issued s ⊆ issued s' → extends s s'.
Proof. intros E Hi. split; [by rewrite E|done]. Qed.

(** [page] was mapped to a frame that was not in use in [s]. *)
Definition fresh_page (s s' : Pt) (fl : PageFlags) (page : Z) : Prop :=
  ∃ f, mapping s' !! page = Some (f, fl) ∧ (f ∉ issued s) ∧ f ∈ issued s' ∧ f mod PAGE = 0.

Lemma fresh_page_mono s0 s s' s1 fl page :
  extends s0 s → extends s' s1 → fresh_page s s' fl page → fresh_page s0 s1 fl page.
Proof.
  intros [_ H0] [H1 H2] (f & Hm & Hn & Hi & Ha). exists f. split; [by eapply lookup_weaken|].
  split; [set_solver|]. split; [set_solver|done].
Qed.

Lemma page_containing_post a : a mod PAGE = 0 → post (λ p, p = a) (page_containing a).
Proof.
  intros Ha. pose proof (page_containing_value a) as Hpc. pose proof (page_containing_fuel a).
  destruct (page_containing a) as [p| |]; simpl; try done. rewrite (Hpc p eq_refl), Ha. lia.
Qed.

Lemma virt_offset_post a b : post (λ c, c = a + b) (virt_offset a b).
Proof.
  pose proof (virt_offset_value a b) as Hv. pose proof (virt_offset_fuel a b).
  destruct (virt_offset a b) as [c| |]; simpl; try done. by apply Hv.
Qed.

(** Allocate a frame and map [page] to it: the step the heap, the ELF loader
    and the user stack share. *)
Lemma alloc_map s s1 f page fl s2 :
  pt_inv s → alloc s = Ret (s1, Some f) → map_to s1 page f fl = (s2, true) →
  pt_inv s2 ∧ extends s s2 ∧ fresh_page s s2 fl page ∧ mapping s !! page = None ∧
  mapping s2 !! page = Some (f, fl) ∧ (f ∉ issued s) ∧ f mod PAGE = 0.
Proof.
  intros Hs Ha Hm. destruct (alloc_ret s Hs) as (s' & r & E & Hs' & Em & Hi & Hf).
  rewrite Ha in E. injection E as <- <-. destruct (Hf f eq_refl) as (Hn & Hin & Hal & _).
  destruct (map_to_ok _ _ _ _ _ Hs' Hm) as (Hs2 & Hnone & Em2 & Hi2). rewrite Em in *.
  assert (mapping s2 !! page = Some (f, fl)) as Hp by (by rewrite Em2, lookup_insert_eq).
  repeat split; try done.
  - rewrite Em2. by apply insert_subseteq.
  - set_solver.
  - exists f. set_solver.
Qed.

Lemma map_heap_page_ok page s :
  pt_inv s →
  (∃ s', map_heap_page page s = Ret (inl s') ∧ pt_inv s' ∧ extends s s' ∧
     fresh_page s s' (mkPageFlags true true false false) page) ∨
  (∃ s' e, map_heap_page page s = Ret (inr (s', e)) ∧ pt_inv s' ∧ extends s s').
Proof.
  intros Hs. unfold map_heap_page.
  destruct (alloc_ret s Hs) as (s1 & r & E & Hs1 & Em & Hi & _). rewrite E, bind_Ret.
  destruct r as [f|]; [|right; eexists _, _; repeat split; try done; by rewrite Em].
  destruct (map_to s1 page f _) as [s2 []] eqn:Hm.
  - left. exists s2. destruct (alloc_map s s1 f page _ s2 Hs E Hm) as (? & ? & ? & _). done.
  - right. destruct (map_to_fails _ _ _ _ _ Hs1 Hm) as (? & Em2 & ?).
    eexists _, _. split; [done|]. split; [done|]. split; [by rewrite Em2, Em|set_solver].
Qed.

Lemma heap_loop_ok pages s :
  pt_inv s →
  (∃ s', loop_ret pages map_heap_page s = Ret (inl s') ∧ pt_inv s' ∧ extends s s' ∧
     Forall (fresh_page s s' (mkPageFlags true true false false)) pages) ∨
  (∃ s' e, loop_ret pages map_heap_page s = Ret (inr (s', e)) ∧ pt_inv s' ∧ extends s s').
Proof.
  revert s. induction pages as [|page pages IH]; intros s Hs; cbn [loop_ret].
  - left. exists s. by repeat split.
  - destruct (map_heap_page_ok page s Hs) as [(s1 & -> & Hs1 & He1 & Hf1)|(s1 & e & -> & Hs1 & He1)];
      rewrite bind_Ret; [|right; by eauto].
    destruct (IH s1 Hs1) as [(s2 & -> & Hs2 & He2 & Hf2)|(s2 & e & -> & Hs2 & He2)].
    + left. exists s2. split; [done|]. split; [done|]. split; [by etrans|]. constructor.
      * by apply (fresh_page_mono s s s1).
      * eapply Forall_impl; [done|]. intros p. by apply fresh_page_mono.
    + right. exists s2, e. split; [done|]. split; [done|]. by etrans.
Qed.
End Facts.

(** The pages of the heap. *)
Definition heap_pages : list Z := (λ i, HEAP_START + PAGE * Z.of_nat i) <$> seq 0 2048.

Lemma init_heap_eq `{P : Paging} {laws : PagingLaws P} s :
  init_heap s = (r ← loop_ret heap_pages map_heap_page s;
                 match r with inl s => Ret (s, None) | inr (s, e) => Ret (s, Some e) end).
Proof.
  unfold init_heap. rewrite !page_containing_ret, !bind_Ret by (split; done). done.
Qed.

Lemma heap_page_listed a :
  HEAP_START <= a < HEAP_START + HEAP_SIZE → a - a mod PAGE ∈ heap_pages.
Proof.
  intros Ha. apply list_elem_of_fmap. exists (Z.to_nat ((a - HEAP_START) / PAGE)).
  assert (HEAP_START = PAGE * 0x444444440) as E by done.
  assert (HEAP_SIZE = PAGE * 2048) as E' by done. unfold PAGE in *.
  assert ((a - HEAP_START) / 4096 = a / 4096 - 0x444444440) as Hd.
  { rewrite E. replace (a - 4096 * 0x444444440) with (a + (- 0x444444440) * 4096) by lia.
    rewrite Z.div_add by lia. lia. }
  pose proof (Z.div_mod a 4096).
  assert (0x444444440 <= a / 4096) by (apply Z.div_le_lower_bound; lia).
  assert (a / 4096 < 0x444444440 + 2048) by (apply Z.div_lt_upper_bound; lia).
  rewrite Hd. split; [rewrite Z2Nat.id; lia|]. apply elem_of_seq. lia.
Qed.

(** The addition of [VirtAddr] as the x86_64 crate documents it. *)
Definition canonical_add (a b : Z) : outcome Z :=
  let c := a + b in
  if (0 <=? c) && (c <? 2 ^ 47) || (2 ^ 64 - 2 ^ 47 <=? c) && (c <? 2 ^ 64) then Ret c else Panic.

Lemma canonical_add_value a b c : canonical_add a b = Ret c → c = a + b.
Proof. unfold canonical_add. case_match; [by intros [= <-]|done]. Qed.

Lemma canonical_add_fuel a b : canonical_add a b ≠ NoFuel.
Proof. unfold canonical_add. by case_match. Qed.

Lemma canonical_add_ret a b : 0 <= a → 0 <= b → a + b < 2 ^ 47 → canonical_add a b = Ret (a + b).
Proof.
  intros. unfold canonical_add. by rewrite (proj2 (Z.leb_le 0 _)), (proj2 (Z.ltb_lt _ (2 ^ 47))) by lia.
Qed.

(** ** The boot-time instance

    The page tables as a map; table frames come from elsewhere.  The frame
    allocator is that of [memory.rs]. *)

Record BootPt := mkBootPt {
  bp_alloc : BootInfoFrameAllocator; bp_map : gmap Z (Z * PageFlags) }.

#[export] Instance boot_paging : Paging := {|
  Pt := BootPt;
  alloc s :=
    '(al, f) ← allocate_frame round_down (bp_alloc s);
    Ret (mkBootPt al (bp_map s), f);
  map_to s page frame fl :=
    match bp_map s !! page with
    | Some _ => (s, false)
    | None => (mkBootPt (bp_alloc s) (<[page := (frame, fl)]> (bp_map s)), true)
    end;
  page_containing a := if a <? 2 ^ 47 then Ret (a - a mod PAGE) else Panic;
  virt_offset := canonical_add;
|}.

(** A machine with at most a terabyte of memory. *)
Definition boot_top : Z := 2 ^ 40.

Definition boot_inv (s : BootPt) : Prop :=
  wf_map (memory_regions (bp_alloc s)) ∧
  Forall (λ r, r_end r <= boot_top) (memory_regions (bp_alloc s)).

Lemma usable_addrs_below regions i f :
  wf_map regions → Forall (λ r, r_end r <= boot_top) regions → usable_addrs regions !! i = Some f →
  0 <= f < boot_top.
Proof.
  intros Hw Ht Hf. pose proof (list_elem_of_lookup_2 _ _ _ Hf) as (j & r & Hj & Hu & Hin)%elem_of_usable_addrs; [|done].
  pose proof (Forall_lookup_1 _ _ _ _ Ht Hj) as Hr. destruct Hw as [Hw _].
  destruct (Forall_lookup_1 _ _ _ _ Hw Hj Hu). unfold inside in Hin. cbn in Hr. lia.
Qed.

Definition boot_issued (s : BootPt) : gset Z :=
  list_to_set (take (next (bp_alloc s)) (usable_addrs (memory_regions (bp_alloc s)))).

#[export] Instance boot_paging_laws : PagingLaws boot_paging.
Proof.
  refine (Build_PagingLaws boot_paging boot_inv boot_issued bp_map boot_top _ _ _ _ _ _
    canonical_add_value canonical_add_fuel canonical_add_ret);
    unfold boot_inv, boot_issued.
  - intros [[regions n] m] [Hw Ht]. cbn in Hw, Ht. cbn [alloc boot_paging bp_alloc bp_map].
    rewrite allocate_frame_ok, bind_Ret by done. cbn [memory_regions next].
    eexists _, _. split; [done|]. cbn [bp_alloc bp_map memory_regions next].
    split; [done|]. split; [done|].
    assert (∀ f, f ∈ take n (usable_addrs regions) → f ∈ take (n + 1) (usable_addrs regions)) as Hsub.
    { intros f (i & Hi)%list_elem_of_lookup. apply lookup_take_Some in Hi as [Hi Hlt].
      apply list_elem_of_lookup. exists i. apply lookup_take_Some. split; [done|lia]. }
    split; [set_solver|]. intros f Hf. rewrite !elem_of_list_to_set. split; [|split; [|split]].
    + intros (i & Hi)%list_elem_of_lookup. apply lookup_take_Some in Hi as [Hi Hlt].
      pose proof (NoDup_lookup _ _ _ f (NoDup_usable_addrs _ Hw) Hi Hf). lia.
    + apply list_elem_of_lookup. exists n. apply lookup_take_Some. split; [done|lia].
    + pose proof (usable_addrs_aligned _ Hw) as Ha. by apply (Forall_lookup_1 _ _ _ _ Ha Hf).
    + by apply (usable_addrs_below regions n).
  - intros s page frame fl s' Hw. cbn [map_to boot_paging].
    destruct (bp_map s !! page) eqn:E; [done|]. intros [= <-]. done.
  - intros s page frame fl s' Hw. cbn [map_to boot_paging].
    destruct (bp_map s !! page) eqn:E; [|done]. intros [= <-]. done.
  - intros a p. cbn [page_containing boot_paging]. destruct (a <? 2 ^ 47); [|done]. by intros [= <-].
  - intros a. cbn [page_containing boot_paging]. by destruct (a <? 2 ^ 47).
  - intros a Ha. cbn [page_containing boot_paging]. by rewrite (proj2 (Z.ltb_lt _ _)) by lia.
Defined.

(** 16 MiB of usable memory from 1 MiB on, nothing mapped. *)
Definition boot_start : BootPt := mkBootPt (init [mkMemoryRegion 0x100000 0x1100000 true]) ∅.

Lemma boot_start_inv : @pt_inv boot_paging boot_paging_laws boot_start.
Proof.
  split; [split; [by repeat constructor; simpl|]; intros [|i] [|j] r r' Hij Hi Hj; done|].
  by repeat constructor.
Qed.

(** ** Properties *)

(** [init_heap] never panics; if it succeeds, each of the 2048 pages of
    the 8 MiB heap is mapped present and writable to a page-aligned frame
    that was not in use before; in any case no earlier mapping is changed. *)
Theorem init_heap_maps `{P : Paging} {laws : PagingLaws P} s :
  pt_inv s →
  ∃ s' r, init_heap s = Ret (s', r) ∧ pt_inv s' ∧ extends s s' ∧
    (r = None → ∀ a, HEAP_START <= a < HEAP_START + HEAP_SIZE →
       fresh_page s s' (mkPageFlags true true false false) (a - a mod PAGE)).
Proof.
  intros Hs. rewrite init_heap_eq.
  destruct (heap_loop_ok heap_pages s Hs) as [(s' & -> & ? & ? & Hf)|(s' & e & -> & ? & ?)];
    rewrite bind_Ret; eexists _, _; (split; [done|]); (split; [done|]); (split; [done|]); [|done].
  intros _ a Ha. rewrite Forall_forall in Hf. by apply Hf, heap_page_listed.
Qed.

(** With frames left and the pages unmapped, the boot instance succeeds. *)
Lemma boot_heap_loop pages (s : BootPt) :
  boot_inv s → NoDup pages → (∀ p, p ∈ pages → bp_map s !! p = None) →
  (next (bp_alloc s) + length pages <= length (usable_addrs (memory_regions (bp_alloc s))))%nat →
  ∃ s' : BootPt, loop_ret pages (@map_heap_page boot_paging) s = Ret (inl s').
Proof.
  revert s. induction pages as [|p pages IH]; intros s Hw Hn Hfree Hlen; [by exists s|].
  apply NoDup_cons in Hn as [Hp Hn]. cbn [length] in Hlen. cbn [loop_ret].
  destruct (lookup_lt_is_Some_2 (usable_addrs (memory_regions (bp_alloc s))) (next (bp_alloc s))) as [f Hf];
    [lia|].
  assert (@map_heap_page boot_paging p s = Ret (inl (mkBootPt
    (mkAllocator (memory_regions (bp_alloc s)) (next (bp_alloc s) + 1))
    (<[p := (f, mkPageFlags true true false false)]> (bp_map s))))) as ->.
  { unfold map_heap_page. cbn [alloc map_to boot_paging].
    rewrite allocate_frame_ok, bind_Ret, bind_Ret, Hf by (done || apply Hw). cbn [bp_map bp_alloc].
    by rewrite Hfree by set_solver. }
  rewrite bind_Ret. apply IH; [done|done| |cbn [bp_alloc next memory_regions]; lia].
  intros q Hq. cbn [bp_map]. rewrite lookup_insert_ne by (intros ->; done). apply Hfree. set_solver.
Qed.

Lemma boot_heap : ∃ s', @init_heap boot_paging boot_start = Ret (s', None).
Proof.
  rewrite init_heap_eq. destruct (boot_heap_loop heap_pages boot_start) as [s' ->].
  - apply boot_start_inv.
  - apply NoDup_fmap_2_strong; [|apply NoDup_seq]. intros x y _ _ E. unfold PAGE in E. lia.
  - intros p _. apply lookup_empty.
  - apply Nat.leb_le. vm_compute. reflexivity.
  - by exists s'.
Qed.

Lemma init_heap_maps_witness :
  ∃ s', @init_heap boot_paging boot_start = Ret (s', None) ∧ extends boot_start s' ∧
    ∀ a, HEAP_START <= a < HEAP_START + HEAP_SIZE →
      fresh_page boot_start s' (mkPageFlags true true false false) (a - a mod PAGE).
Proof.
  destruct (@init_heap_maps boot_paging boot_paging_laws boot_start boot_start_inv)
    as (s' & r & E & _ & He & Hf).
  destruct boot_heap as [s2 E2]. rewrite E2 in E. injection E as <- <-.
  exists s2. split; [exact E2|]. split; [exact He|]. exact (Hf eq_refl).
Defined.
