(* ===== verification/Elf.v ===== *)
(** * The ELF loader

    Model of [kernel/src/elf_loader.rs]: header validation, the program
    header table, page flags, and the page-by-page mapping and copying of
    the loadable segments.  Pages are mapped through the [Paging] interface;
    memory is the kernel's window on physical memory, at [phys_offset].

    Shown here: the loader always ends; on success every address of every
    loadable segment is backed by a user page with the flags its program
    header asks for, mapped to a frame that was free before, holding the
    file's bytes followed by zeros; memory outside the new frames and
    existing mappings are untouched, also on errors.  A program header table
    at the very end of a file with a small entry size makes the loader panic
    instead of returning an error. *)

From S2P Require Import Prelude Machine Frames Paging.
From Stdlib Require Import ZArith Lia.
From stdpp Require Import base numbers list gmap.
#[local] Open Scope Z_scope.

Definition ELFMAG : list Z := [0x7f; 0x45; 0x4c; 0x46].
Definition ELFCLASS64 : Z := 2.
Definition ELFDATA2LSB : Z := 1.
Definition EM_X86_64 : Z := 62.
Definition ET_EXEC : Z := 2.
Definition PT_LOAD : Z := 1.
Definition PF_X : Z := 1.
Definition PF_W : Z := 2.

Inductive ElfError :=
  | TooShort | BadMagic | NotElf64 | NotLittleEndian | NotX86_64 | NotExecutable
  | BadPhOffset | SegmentOutOfBounds | PageMapFailed | FrameAllocFailed.

#[global] Instance ElfError_eq_dec : EqDecision ElfError.
Proof. solve_decision. Defined.

(** [uN::from_le_bytes(bytes[a..a+n].try_into().unwrap())]. *)
Definition le_at `{Profile} (bytes : list Z) (off a b : Z) : outcome Z :=
  lo ← add 64 off a;
  hi ← add 64 off b;
  l ← sliceZ lo hi bytes;
  Ret (of_le l).

(** A program header, the fields the loader reads. *)
Record Phdr := mkPhdr {
  p_flags : Z; p_offset : Z; p_vaddr : Z; p_filesz : Z; p_memsz : Z; p_align : Z }.

Definition page_flags (flags : Z) : PageFlags :=
  mkPageFlags true (negb (Z.land flags PF_W =? 0)) true (Z.land flags PF_X =? 0).

Section Loader.
Context `{Profile} `{Paging}.

Abbreviation St := (Pt * Memory)%type.

(** One page: allocate, map, zero, copy. *)
Definition load_page (phys_offset : Z) (h : Phdr) (seg_data : list Z) (vpage : Z) (st : St)
    : outcome (St + (St * ElfError)) :=
  let '(s, m) := st in
  '(s, frame) ← alloc s;
  match frame with
  | None => Ret (inr (s, m, FrameAllocFailed))
  | Some f =>
    page ← page_containing vpage;
    let '(s, ok) := map_to s page f (page_flags (p_flags h)) in
    if negb ok then Ret (inr (s, m, PageMapFailed)) else
    kv ← virt_offset phys_offset f;
    let m := fill 4096 kv 0 m in
    let page_start := vpage in
    page_end ← add 64 vpage 4096;
    let copy_start := Z.max (p_vaddr h) page_start in
    file_end ← add 64 (p_vaddr h) (p_filesz h);
    let copy_end := Z.min file_end page_end in
    if copy_start <? copy_end then
      let src_off := copy_start - p_vaddr h in
      let dst_off := copy_start - page_start in
      let len := copy_end - copy_start in
      src ← sliceZ src_off (Z.of_nat (length seg_data)) seg_data;
      Ret (inl (s, write_at (kv + dst_off) (take (Z.to_nat len) src) m))
    else Ret (inl (s, m))
  end.

(** The [while] loop over the pages of a segment. *)
Fixpoint load_pages (fuel : nat) (phys_offset : Z) (h : Phdr) (seg_data : list Z)
    (end_page vpage : Z) (st : St) : outcome (St + (St * ElfError)) :=
  if end_page <=? vpage then Ret (inl st) else
  match fuel with
  | O => NoFuel
  | S fuel =>
    r ← load_page phys_offset h seg_data vpage st;
    match r with
    | inl st =>
      v ← add 64 vpage 4096;
      load_pages fuel phys_offset h seg_data end_page v st
    | inr e => Ret (inr e)
    end
  end.

(** [x & !0xFFF]. *)
Definition page_down (x : Z) : Z := Z.land x (bnot 64 0xFFF).

Definition read_phdr (bytes : list Z) (off : Z) : outcome Phdr :=
  fl ← le_at bytes off 4 8;
  o ← le_at bytes off 8 16;
  va ← le_at bytes off 16 24;
  fsz ← le_at bytes off 32 40;
  msz ← le_at bytes off 40 48;
  al ← le_at bytes off 48 56;
  Ret (mkPhdr fl o va fsz msz al).

(** A PT_LOAD segment, from the bounds check on. *)
Definition load_segment (bytes : list Z) (phys_offset : Z) (h : Phdr) (st : St)
    : outcome (St + (St * ElfError)) :=
  seg_end ← add 64 (p_offset h) (p_filesz h);
  if Z.of_nat (length bytes) <? seg_end then Ret (inr (st, SegmentOutOfBounds)) else
  seg_data ← sliceZ (p_offset h) seg_end bytes;
  let start_page := page_down (p_vaddr h) in
  end_addr ← add 64 (p_vaddr h) (p_memsz h);
  e ← add 64 end_addr 0xFFF;
  let end_page := page_down e in
  load_pages (Z.to_nat ((end_page - start_page) / 4096)) phys_offset h seg_data end_page start_page st.

(** The body of the program header loop. *)
Definition load_phdr (bytes : list Z) (phys_offset e_phoff e_phentsize : Z) (i : nat) (st : St)
    : outcome (St + (St * ElfError)) :=
  k ← mul 64 (Z.of_nat i) e_phentsize;
  off ← add 64 e_phoff k;
  fin ← add 64 off e_phentsize;
  if Z.of_nat (length bytes) <? fin then Ret (inr (st, BadPhOffset)) else
  ty ← le_at bytes off 0 4;
  if negb (ty =? PT_LOAD) then Ret (inl st) else
  h ← read_phdr bytes off;
  load_segment bytes phys_offset h st.

(** The header checks, in order: the first error, or the entry point, the
    table offset, entry size and count. *)
Definition check_header (bytes : list Z) : outcome ((Z * Z * Z * Z) + ElfError) :=
  if (length bytes <? 64)%nat then Ret (inr TooShort) else
  mag ← slice 0 4 bytes;
  if negb (bool_decide (mag = ELFMAG)) then Ret (inr BadMagic) else
  b4 ← index bytes 4;
  if negb (b4 =? ELFCLASS64) then Ret (inr NotElf64) else
  b5 ← index bytes 5;
  if negb (b5 =? ELFDATA2LSB) then Ret (inr NotLittleEndian) else
  e_type ← slice 16 18 bytes;
  e_machine ← slice 18 20 bytes;
  if negb (of_le e_machine =? EM_X86_64) then Ret (inr NotX86_64) else
  if negb (of_le e_type =? ET_EXEC) then Ret (inr NotExecutable) else
  e_entry ← slice 24 32 bytes;
  e_phoff ← slice 32 40 bytes;
  e_phentsize ← slice 54 56 bytes;
  e_phnum ← slice 56 58 bytes;
  Ret (inl (of_le e_entry, of_le e_phoff, of_le e_phentsize, of_le e_phnum)).

Definition load_elf (bytes : list Z) (phys_offset : Z) (st : St) : outcome (St * (Z + ElfError)) :=
  c ← check_header bytes;
  match c with
  | inr e => Ret (st, inr e)
  | inl (e_entry, e_phoff, e_phentsize, e_phnum) =>
    r ← loop_ret (seq 0 (Z.to_nat e_phnum)) (load_phdr bytes phys_offset e_phoff e_phentsize) st;
    match r with
    | inl st => Ret (st, inl e_entry)
    | inr (st, e) => Ret (st, inr e)
    end
  end.
End Loader.

(** ** What loading leaves behind *)

Section Shape.
Context `{P : Paging} {laws : PagingLaws P}.
Variable phys : Z.

Abbreviation St := (@Pt P * Memory)%type.

(** Memory may change only inside aligned frames issued since. *)
Record grows (st st' : St) : Prop := {
  gr_inv : pt_inv st'.1;
  gr_ext : extends st.1 st'.1;
  gr_mem a : (∀ f, f ∈ issued st'.1 → f ∉ issued st.1 → f mod PAGE = 0 →
               ¬ (phys + f <= a < phys + f + PAGE)) → load st'.2 a = load st.2 a;
}.

Lemma grows_refl st : pt_inv st.1 → grows st st.
Proof. by split. Qed.

Lemma grows_trans st st1 st2 : grows st st1 → grows st1 st2 → grows st st2.
Proof.
  intros [Hi1 He1 Hm1] [Hi2 He2 Hm2]. split; [done|by etrans|]. intros a Ha.
  destruct He1 as [_ He1], He2 as [_ He2].
  rewrite Hm2, Hm1; [done|..]; intros f Hf Hn; apply Ha; set_solver.
Qed.

(** The bytes of a page of a segment. *)
Definition content (h : Phdr) (seg : list Z) (vpage o : Z) : Z :=
  let a := vpage + o in
  if decide (p_vaddr h <= a < p_vaddr h + p_filesz h) then seg !!! Z.to_nat (a - p_vaddr h) else 0.

(** The permissions a program header asks for, by the bits of its flags word:
    bit 0 is execute, bit 1 write. *)
Definition permissions (flags : Z) : PageFlags :=
  {| PRESENT := true; USER_ACCESSIBLE := true;
     WRITABLE := Z.testbit flags 1; NO_EXECUTE := negb (Z.testbit flags 0) |}.

Lemma land_bit x n : 0 <= n → (Z.land x (2 ^ n) =? 0) = negb (Z.testbit x n).
Proof.
  intros Hn. destruct (Z.eqb_spec (Z.land x (2 ^ n)) 0) as [E|E].
  - apply (f_equal (λ z, Z.testbit z n)) in E. rewrite Z.land_spec, Z.pow2_bits_true, andb_true_r in E by done.
    by rewrite E, Z.bits_0.
  - destruct (Z.testbit x n) eqn:Hb; [done|]. destruct E. apply Z.bits_inj'. intros i Hi.
    rewrite Z.land_spec, Z.bits_0, Z.pow2_bits_eqb by done.
    destruct (Z.eqb_spec n i) as [<-|]; [by rewrite Hb|by rewrite andb_false_r].
Qed.

(** The flags the loader builds are those. *)
Lemma page_flags_permissions flags : page_flags flags = permissions flags.
Proof.
  unfold page_flags, permissions. change PF_W with (2 ^ 1). change PF_X with (2 ^ 0).
  by rewrite !land_bit, negb_involutive.
Qed.

(** [vpage] is mapped to a frame not issued in [s0] and holds its content. *)
Definition placed (s0 : Pt) (st : St) (h : Phdr) (seg : list Z) (vpage : Z) : Prop :=
  ∃ f, mapping st.1 !! vpage = Some (f, permissions (p_flags h)) ∧ (f ∉ issued s0) ∧ f ∈ issued st.1 ∧
    f mod PAGE = 0 ∧ ∀ o, 0 <= o < PAGE → load st.2 (phys + f + o) = content h seg vpage o.

Lemma aligned_apart f g : f mod PAGE = 0 → g mod PAGE = 0 → f ≠ g → f + PAGE <= g ∨ g + PAGE <= f.
Proof.
  unfold PAGE. intros Hf Hg Hne. pose proof (Z.div_mod f 4096). pose proof (Z.div_mod g 4096).
  destruct (Z.lt_trichotomy (f / 4096) (g / 4096)) as [?|[?|?]]; lia.
Qed.

Lemma placed_grows s0 st st' h seg vpage :
  placed s0 st h seg vpage → grows st st' → placed s0 st' h seg vpage.
Proof.
  intros (f & Hm & Hn & Hi & Ha & Hc) [Hinv [He1 He2] Hmem]. exists f.
  split; [by eapply lookup_weaken|]. split; [done|]. split; [set_solver|]. split; [done|].
  intros o Ho. rewrite Hmem; [by apply Hc|]. intros g Hg Hng Hag Hin.
  assert (f ≠ g) as Hfg by (intros ->; done). destruct (aligned_apart f g Ha Hag Hfg); lia.
Qed.

Lemma placed_mono s0 s1 st h seg vpage :
  extends s0 s1 → placed s1 st h seg vpage → placed s0 st h seg vpage.
Proof. intros [_ He] (f & ? & ? & ? & ? & ?). exists f. repeat split; try done. set_solver. Qed.

(** The copy puts the file's bytes where they belong. *)
Lemma copied_content h seg vpage kv src o m :
  0 <= p_filesz h → Z.of_nat (length seg) = p_filesz h → 0 <= o < PAGE →
  let copy_start := Z.max (p_vaddr h) vpage in
  let copy_end := Z.min (p_vaddr h + p_filesz h) (vpage + 4096) in
  copy_start < copy_end → src = drop (Z.to_nat (copy_start - p_vaddr h)) seg →
  load (write_at (kv + (copy_start - vpage)) (take (Z.to_nat (copy_end - copy_start)) src)
          (fill 4096 kv 0 m)) (kv + o) = content h seg vpage o.
Proof.
  intros H0 Hl Ho cs ce Hlt ->. unfold PAGE, content in *. rewrite load_write_at.
  rewrite length_take, length_drop.
  replace (Z.of_nat (Z.to_nat (ce - cs) `min` (length seg - Z.to_nat (cs - p_vaddr h)))) with (ce - cs) by lia.
  case_decide as Hin.
  - rewrite decide_True by lia. rewrite !list_lookup_total_alt, lookup_take_lt, lookup_drop by lia.
    f_equal. f_equal. lia.
  - rewrite load_fill, decide_True by lia. rewrite decide_False by lia. done.
Qed.

(** [& !0xFFF] rounds down to a page. *)
Lemma page_down_mod x : 0 <= x < 2 ^ 64 → page_down x = x - x mod PAGE.
Proof.
  intros Hx. apply (land_down 12 x); [lia|done].
Qed.

(** What a segment's program header promises: each of its [p_memsz]
    addresses lies in a page mapped with the header's permissions to a frame that
    was free before, and reads as the file's byte, or 0 beyond [p_filesz]. *)
Definition segment_loaded (bytes : list Z) (h : Phdr) (s0 : Pt) (st : St) : Prop :=
  ∀ a, p_vaddr h <= a < p_vaddr h + p_memsz h →
    ∃ f, mapping st.1 !! (a - a mod PAGE) = Some (f, permissions (p_flags h)) ∧ (f ∉ issued s0) ∧
      f ∈ issued st.1 ∧ f mod PAGE = 0 ∧
      load st.2 (phys + f + a mod PAGE)
      = if decide (a < p_vaddr h + p_filesz h)
        then bytes !!! Z.to_nat (p_offset h + (a - p_vaddr h)) else 0.

Definition wf_phdr (h : Phdr) : Prop :=
  0 <= p_offset h ∧ 0 <= p_vaddr h < 2 ^ 64 ∧ 0 <= p_filesz h ∧ 0 <= p_memsz h.

Lemma segment_grows bytes h s0 s1 st st' :
  extends s0 s1 → grows st st' → segment_loaded bytes h s1 st → segment_loaded bytes h s0 st'.
Proof.
  intros [_ He] [_ [Hm Hi] Hmem] Hseg a Ha. destruct (Hseg a Ha) as (f & Hf & Hn & Hif & Hal & Hc).
  exists f. split; [by eapply lookup_weaken|]. split; [set_solver|]. split; [set_solver|]. split; [done|].
  rewrite <-Hc. apply Hmem. intros g Hg Hng Hag Hin.
  assert (f ≠ g) as Hfg by (intros ->; done). pose proof (Z.mod_pos_bound a PAGE).
  destruct (aligned_apart f g Hal Hag Hfg); unfold PAGE in *; lia.
Qed.

(** The [n]-byte little-endian field of [bytes] at [a]. *)
Definition field (bytes : list Z) (a : Z) (n : nat) : Z := of_le (take n (drop (Z.to_nat a) bytes)).

Lemma field_range bs a n : bytes bs → 0 <= field bs a n < 256 ^ Z.of_nat n.
Proof.
  intros Hb. unfold field.
  pose proof (of_le_range (take n (drop (Z.to_nat a) bs)) ltac:(by apply Forall_take, Forall_drop)) as Hr.
  rewrite length_take in Hr.
  pose proof (Z.pow_le_mono_r 256 (Z.of_nat (n `min` length (drop (Z.to_nat a) bs))) (Z.of_nat n)). lia.
Qed.

(** The program header at [off] and entry [i] of the table. *)
Definition phdr_at (bytes : list Z) (off : Z) : Phdr :=
  mkPhdr (field bytes (off + 4) 4) (field bytes (off + 8) 8) (field bytes (off + 16) 8)
    (field bytes (off + 32) 8) (field bytes (off + 40) 8) (field bytes (off + 48) 8).
Definition phdr_off (bytes : list Z) (i : nat) : Z :=
  field bytes 32 8 + Z.of_nat i * field bytes 54 2.

Lemma phdr_at_wf bs off : bytes bs → wf_phdr (phdr_at bs off).
Proof.
  intros Hb. pose proof (field_range bs (off + 8) 8 Hb). pose proof (field_range bs (off + 16) 8 Hb).
  pose proof (field_range bs (off + 32) 8 Hb). pose proof (field_range bs (off + 40) 8 Hb).
  unfold wf_phdr. cbn. lia.
Qed.

End Shape.

(** ** The loader meets them *)

Section Proofs.
Context `{Prof : Profile} `{P : Paging} {laws : PagingLaws P}.
Hypothesis checks : overflow_checks = true.
Variable phys : Z.

Abbreviation St := (@Pt P * Memory)%type.

Lemma post_add a b : post (λ c, c = a + b ∧ 0 <= c < 2 ^ 64) (add 64 a b).
Proof. by apply post_checked. Qed.

Lemma load_page_post h seg vpage st :
  pt_inv st.1 → vpage mod PAGE = 0 → 0 <= p_filesz h → Z.of_nat (length seg) = p_filesz h →
  post (λ r, match r with
    | inl st' => grows phys st st' ∧ placed phys st.1 st' h seg vpage
    | inr (st', _) => grows phys st st'
    end) (load_page phys h seg vpage st).
Proof.
  destruct st as [s m]. intros Hs Hv H0 Hl. unfold load_page. simpl in Hs.
  destruct (alloc_ret s Hs) as (s1 & r & E & Hs1 & Em & Hi & _). rewrite E, bind_Ret.
  assert (grows phys (s, m) (s1, m)) as Hg1 by (split; [done|by apply extends_eq|done]).
  destruct r as [f|]; [|done].
  apply post_bind with (λ p, p = vpage); [by apply page_containing_post|].
  intros ? ->. rewrite page_flags_permissions. destruct (map_to s1 vpage f (permissions (p_flags h))) as [s2 []] eqn:Hm; cbn [negb].
  - destruct (alloc_map s s1 f vpage _ s2 Hs E Hm) as (Hs2 & He2 & Hfp & Hnone & Hmap & Hfresh & Hal).
    assert (f ∈ issued s2) as Hfi by (destruct Hfp as (g & Hg & _ & Hgi & _); congruence).
    assert (∀ m', (∀ a, ¬ (phys + f <= a < phys + f + PAGE) → load m' a = load m a) →
      (∀ o, 0 <= o < PAGE → load m' (phys + f + o) = content h seg vpage o) →
      grows phys (s, m) (s2, m') ∧ placed phys s (s2, m') h seg vpage) as Hdone.
    { intros m' Hout Hin. split; [|by exists f]. split; [done|done|]. intros a Ha. apply Hout. by apply Ha. }
    eapply post_bind; [apply virt_offset_post|]. intros ? ->.
    eapply post_bind; [apply post_add|]. intros ? [-> _].
    eapply post_bind; [apply post_add|]. intros ? [-> _].
    case_match eqn:Hc.
    + apply Z.ltb_lt in Hc. eapply post_bind; [apply post_sliceZ|]. intros src (Hr1 & _ & Hsrc).
      apply Hdone.
      * intros a Ha. unfold PAGE in Ha. rewrite load_write_at, load_fill, !decide_False; [done|lia|].
        rewrite length_take. lia.
      * intros o Ho. apply copied_content; [done|done|done|done|].
        rewrite Hsrc, take_ge by (rewrite length_drop; lia). done.
    + apply Z.ltb_ge in Hc. apply Hdone.
      * intros a Ha. unfold PAGE in Ha. by rewrite load_fill, decide_False by lia.
      * intros o Ho. unfold content, PAGE in *. rewrite load_fill, decide_True by lia.
        by rewrite decide_False by lia.
  - destruct (map_to_fails _ _ _ _ _ Hs1 Hm) as (? & Em2 & ?). simpl.
    split; [done|apply extends_eq; [by simpl; rewrite Em2|set_solver]|done].
Qed.

(** The loop over the pages of a segment. *)
Lemma load_pages_post fuel h seg end_page vpage st :
  end_page - vpage <= 4096 * Z.of_nat fuel → vpage mod PAGE = 0 →
  pt_inv st.1 → 0 <= p_filesz h → Z.of_nat (length seg) = p_filesz h →
  post (λ r, match r with
    | inl st' => grows phys st st' ∧
        ∀ v, v mod PAGE = 0 → vpage <= v < end_page → placed phys st.1 st' h seg v
    | inr (st', _) => grows phys st st'
    end) (load_pages fuel phys h seg end_page vpage st).
Proof.
  intros Hf Hv Hs H0 Hl. revert vpage st Hf Hv Hs.
  induction fuel as [|fuel IH]; intros vpage st Hf Hv Hs; cbn [load_pages];
    (destruct (Z.leb_spec end_page vpage); [split; [by apply grows_refl|lia]|]); [lia|].
  eapply post_bind; [by apply load_page_post|]. intros [st1|[st1 e]]; [|done]. intros [Hg Hp].
  eapply post_bind; [apply post_add|]. intros ? [-> _].
  eapply post_mono; [apply IH|].
  - lia.
  - unfold PAGE in *. by rewrite <-Zplus_mod_idemp_r, Z.mod_same, Z.add_0_r by lia.
  - apply Hg.
  - intros [st2|[st2 e]]; [|by apply grows_trans]. intros [Hg2 Hp2]. split; [by eapply grows_trans|].
    intros v Hva Hvr. destruct (decide (v = vpage)) as [->|Hne]; [by eapply placed_grows|].
    eapply placed_mono; [apply Hg|]. apply Hp2; [done|].
    assert (vpage + PAGE <= v ∨ v + PAGE <= vpage) by (apply aligned_apart; done).
    unfold PAGE in *. lia.
Qed.

Lemma load_segment_post bytes h st :
  pt_inv st.1 → wf_phdr h →
  post (λ r, match r with
    | inl st' => grows phys st st' ∧ segment_loaded phys bytes h st.1 st'
    | inr (st', _) => grows phys st st'
    end) (load_segment bytes phys h st).
Proof.
  intros Hs (Ho & Hv & Hf & Hms). unfold load_segment.
  eapply post_bind; [apply post_add|]. intros ? [-> _].
  case_match; [by apply grows_refl|].
  eapply post_bind; [apply post_sliceZ|]. intros seg (_ & Hlen & Hseg).
  eapply post_bind; [apply post_add|]. intros ? [-> _].
  eapply post_bind; [apply post_add|]. intros ? [-> He].
  rewrite !page_down_mod by lia.
  set (e := p_vaddr h + p_memsz h + 4095) in *.
  assert (length seg = Z.to_nat (p_filesz h)) as Hl by (subst seg; rewrite length_take, length_drop; lia).
  assert ((e - e mod PAGE) mod PAGE = 0) as Hea by (apply mod_down; unfold PAGE; lia).
  assert ((p_vaddr h - p_vaddr h mod PAGE) mod PAGE = 0) as Hsa by (apply mod_down; unfold PAGE; lia).
  eapply post_mono; [apply load_pages_post; try done; try lia|].
  - pose proof (aligned_diff _ _ PAGE ltac:(unfold PAGE; lia) Hea Hsa). unfold PAGE in *. lia.
  - intros [st'|[st' er]]; [|done]. intros [Hg Hp]. split; [done|]. intros a Ha.
    pose proof (Z.mod_pos_bound a PAGE). pose proof (Z.mod_pos_bound e PAGE).
    destruct (Hp (a - a mod PAGE)) as (f & Hm & Hn & Hif & Hal & Hc).
    + apply mod_down. unfold PAGE. lia.
    + pose proof (mod_down_le (p_vaddr h) a PAGE). unfold PAGE in *. lia.
    + exists f. do 4 (split; [done|]). rewrite Hc by (unfold PAGE in *; lia). unfold content.
      replace (a - a mod PAGE + a mod PAGE) with a by lia.
      destruct (decide (a < _)) as [Hin|Hin]; [rewrite decide_True by lia|by rewrite decide_False by lia].
      rewrite Hseg, !list_lookup_total_alt, lookup_take_lt, lookup_drop by lia. f_equal. f_equal. lia.
Qed.

Lemma le_at_post bs off a b :
  0 <= off → 0 <= a <= b → post (λ c, c = field bs (off + a) (Z.to_nat (b - a))) (le_at bs off a b).
Proof.
  intros Ho Hab. unfold le_at.
  eapply post_bind; [apply post_add|]. intros ? [-> _].
  eapply post_bind; [apply post_add|]. intros ? [-> _].
  eapply post_bind; [apply post_sliceZ|]. intros ? (_ & _ & ->).
  simpl. unfold field. do 3 f_equal. lia.
Qed.

Lemma read_phdr_post bs off : 0 <= off → post (λ h, h = phdr_at bs off) (read_phdr bs off).
Proof.
  intros Ho. unfold read_phdr.
  repeat (eapply post_bind; [apply le_at_post; lia|]; intros ? ->). done.
Qed.

Lemma load_phdr_post bs i st :
  bytes bs → pt_inv st.1 →
  post (λ r, match r with
    | inl st' => grows phys st st' ∧
        (field bs (phdr_off bs i) 4 = PT_LOAD → segment_loaded phys bs (phdr_at bs (phdr_off bs i)) st.1 st')
    | inr (st', _) => grows phys st st'
    end) (load_phdr bs phys (field bs 32 8) (field bs 54 2) i st).
Proof.
  intros Hb Hs. unfold load_phdr.
  pose proof (field_range bs 32 8 Hb). pose proof (field_range bs 54 2 Hb).
  eapply post_bind; [by apply post_checked|]. intros ? [-> _].
  eapply post_bind; [apply post_add|]. intros ? [-> _]. fold (phdr_off bs i).
  eapply post_bind; [apply post_add|]. intros ? [-> _].
  assert (0 <= phdr_off bs i) by (unfold phdr_off; nia).
  case_match; [by apply grows_refl|].
  eapply post_bind; [apply le_at_post; lia|]. rewrite Z.add_0_r. intros ? ->.
  change (Z.to_nat (4 - 0)) with 4%nat.
  destruct (Z.eqb_spec (field bs (phdr_off bs i) 4) PT_LOAD) as [E|E]; cbn [negb].
  - eapply post_bind; [by apply read_phdr_post|]. intros ? ->.
    eapply post_mono; [by apply load_segment_post, phdr_at_wf|]. intros [st'|[st' e]]; [|done].
    by intros [? ?].
  - split; [by apply grows_refl|done].
Qed.

(** The table: all loadable segments of the first [n] entries. *)
Lemma load_phdrs_post bs n st :
  bytes bs → pt_inv st.1 →
  post (λ r, match r with
    | inl st' => grows phys st st' ∧ ∀ i, (i < n)%nat →
        field bs (phdr_off bs i) 4 = PT_LOAD → segment_loaded phys bs (phdr_at bs (phdr_off bs i)) st.1 st'
    | inr (st', _) => grows phys st st'
    end) (loop_ret (seq 0 n) (load_phdr bs phys (field bs 32 8) (field bs 54 2)) st).
Proof.
  intros Hb Hs.
  eapply post_mono; [apply (post_loop_ret
    (λ pre st', grows phys st st' ∧ ∀ i, i ∈ pre →
       field bs (phdr_off bs i) 4 = PT_LOAD → segment_loaded phys bs (phdr_at bs (phdr_off bs i)) st.1 st')
    (λ x : St * ElfError, grows phys st x.1))|].
  - split; [by apply grows_refl|]. set_solver.
  - intros pre i suf st1 _ [Hg Hp].
    eapply post_mono; [apply load_phdr_post; [done|apply Hg]|].
    intros [st2|[st2 e]]; [|by apply grows_trans]. intros [Hg2 Hi]. split; [by eapply grows_trans|].
    intros j [Hj| ->%list_elem_of_singleton]%elem_of_app Hl.
    + by eapply segment_grows; [reflexivity| |apply Hp].
    + eapply segment_grows; [apply Hg|by apply grows_refl, Hg2|by apply Hi].
  - intros [st'|[st' e]]; [|done]. intros [Hg Hp]. split; [done|].
    intros i Hi. apply Hp, elem_of_seq. lia.
Qed.
End Proofs.

(** The header of a 64-bit little-endian executable for x86-64 (ELF-64
    specification: class 2, data 1, machine 62, type 2). *)
Definition valid_header (bytes : list Z) : Prop :=
  (64 <= length bytes)%nat ∧ take 4 bytes = [0x7f; 0x45; 0x4c; 0x46] ∧ bytes !!! 4%nat = 2 ∧
  bytes !!! 5%nat = 1 ∧ field bytes 18 2 = 62 ∧ field bytes 16 2 = 2.

#[local] Ltac reject := eexists; split; [reflexivity|cbv beta iota; tauto].

Lemma check_header_ok bytes :
  ∃ r, check_header bytes = Ret r ∧
    match r with
    | inl (e, off, sz, n) => valid_header bytes ∧ e = field bytes 24 8 ∧ off = field bytes 32 8 ∧
        sz = field bytes 54 2 ∧ n = field bytes 56 2
    | inr _ => ¬ valid_header bytes
    end.
Proof.
  unfold check_header, valid_header, ELFMAG, ELFCLASS64, ELFDATA2LSB, EM_X86_64, ET_EXEC.
  destruct (Nat.ltb_spec (length bytes) 64); [eexists; split; [done|]; intros [? _]; lia|].
  rewrite !slice_ok, !index_ret, bind_Ret by lia.
  change (take (4 - 0) (drop 0 bytes)) with (take 4 bytes).
  destruct (bool_decide_reflect (take 4 bytes = [0x7f; 0x45; 0x4c; 0x46])); [|by reject].
  cbn [negb]. rewrite bind_Ret.
  destruct (Z.eqb_spec (bytes !!! 4%nat) 2); [|by reject].
  cbn [negb]. rewrite bind_Ret.
  destruct (Z.eqb_spec (bytes !!! 5%nat) 1); [|by reject].
  cbn [negb]. rewrite !bind_Ret. 
  change (of_le (take (20 - 18) (drop 18 bytes))) with (field bytes 18 2).
  change (of_le (take (18 - 16) (drop 16 bytes))) with (field bytes 16 2).
  destruct (Z.eqb_spec (field bytes 18 2) 62); [|by reject].
  destruct (Z.eqb_spec (field bytes 16 2) 2); [|by reject].
  cbn [negb]. eexists. split; [done|]. done.
Qed.

(** A successful load of the file [bs] with entry point [e]. *)
Definition loaded `{P : Paging} {laws : PagingLaws P} (phys : Z) (bs : list Z) (st st' : Pt * Memory) (e : Z)
    : Prop :=
  valid_header bs ∧ e = field bs 24 8 ∧
  ∀ i, Z.of_nat i < field bs 56 2 → field bs (phdr_off bs i) 4 = 1 →
    segment_loaded phys bs (phdr_at bs (phdr_off bs i)) st.1 st'.

Lemma load_elf_post `{Profile} `{P : Paging} {laws : PagingLaws P} bs phys st :
  overflow_checks = true → bytes bs → pt_inv st.1 →
  post (λ '(st', r), grows phys st st' ∧ ∀ e, r = inl e → loaded phys bs st st' e) (load_elf bs phys st).
Proof.
  intros Hc Hb Hs. destruct (check_header_ok bs) as (r0 & E0 & H0). unfold load_elf. rewrite E0, bind_Ret.
  destruct r0 as [[[[e0 off] sz] n]|er]; [|split; [by apply grows_refl|]; intros e [=]].
  destruct H0 as (Hv & -> & -> & -> & ->).
  eapply post_bind; [apply (load_phdrs_post Hc phys bs (Z.to_nat (field bs 56 2)) st Hb Hs)|].
  intros [st1|[st1 e1]] Hp; [|split; [done|]; intros e [=]].
  destruct Hp as [Hg Hp]. split; [done|]. intros e [= <-]. do 2 (split; [done|]).
  intros i Hi. apply Hp. lia.
Qed.

(** ** A small executable

    One loadable segment: 8 bytes of the file at 0x400ffc, 16 bytes of
    memory, read and execute; it straddles two pages. *)
Definition sample_header (phentsize phnum : Z) : list Z :=
  ELFMAG ++ [ELFCLASS64; ELFDATA2LSB; 1; 0] ++ replicate 8 0 ++
  le_bytes 2 ET_EXEC ++ le_bytes 2 EM_X86_64 ++ le_bytes 4 1 ++
  le_bytes 8 0x400ffc ++ le_bytes 8 64 ++ le_bytes 8 0 ++ le_bytes 4 0 ++
  le_bytes 2 64 ++ le_bytes 2 phentsize ++ le_bytes 2 phnum ++ replicate 6 0.
Definition sample_phdr (vaddr filesz memsz : Z) : list Z :=
  le_bytes 4 PT_LOAD ++ le_bytes 4 (4 + PF_X) ++ le_bytes 8 120 ++ le_bytes 8 vaddr ++ le_bytes 8 vaddr ++
  le_bytes 8 filesz ++ le_bytes 8 memsz ++ le_bytes 8 4096.
Definition sample_elf : list Z :=
  sample_header 56 1 ++ sample_phdr 0x400ffc 8 16 ++ [0x90; 0x90; 0x90; 0x90; 0xeb; 0xfe; 0xc3; 0xcc].

Definition sample_phys : Z := 0x8000000000.

(** Loading it, on a machine with free memory. *)
Definition sample_load (elf : list Z) := @load_elf dev_profile boot_paging elf sample_phys (boot_start, ∅).

Lemma sample_bytes : bytes sample_elf.
Proof. repeat (constructor; [done|]). constructor. Qed.

Lemma sample_loads : ∃ st', sample_load sample_elf = Ret (st', inl 0x400ffc).
Proof.
  assert (match sample_load sample_elf with Ret (_, inl e) => e =? 0x400ffc | _ => false end = true) as E
    by (vm_compute; reflexivity).
  destruct (sample_load sample_elf) as [[st' [e|]]| |]; try done.
  apply Z.eqb_eq in E as ->. by exists st'.
Qed.

(** ** Properties *)

(** C12: loading an ELF file, with overflow checks on, never runs out of the
    page loop's fuel; whatever it returns, no existing mapping is changed and
    memory is written only in page-aligned frames allocated by this call.
    If it returns an entry point, the header is that of a static
    little-endian x86-64 ELF-64 executable, the entry point is [e_entry], and
    for each loadable entry of the program header table all [p_memsz]
    addresses are in user pages with exactly the header's write and execute
    permissions, on frames that were free before, and read as the file's
    bytes followed by zeros. *)
Theorem load_elf_correct `{Profile} `{P : Paging} {laws : PagingLaws P} bs phys st :
  overflow_checks = true → bytes bs → pt_inv st.1 →
  load_elf bs phys st ≠ NoFuel ∧
  ∀ st' r, load_elf bs phys st = Ret (st', r) →
    grows phys st st' ∧ ∀ e, r = inl e → loaded phys bs st st' e.
Proof.
  intros Hc Hb Hs. pose proof (load_elf_post bs phys st Hc Hb Hs) as Hp.
  split; [by eapply post_fuel|]. intros st' r E. by rewrite E in Hp.
Qed.

Lemma load_elf_correct_witness :
  ∃ st', sample_load sample_elf = Ret (st', inl 0x400ffc) ∧
    segment_loaded sample_phys sample_elf (mkPhdr 5 120 0x400ffc 8 16 4096) boot_start st'.
Proof.
  destruct sample_loads as [st' E]. exists st'. split; [exact E|].
  destruct (@load_elf_correct dev_profile boot_paging boot_paging_laws sample_elf sample_phys (boot_start, ∅)
    eq_refl sample_bytes boot_start_inv) as [_ Hl].
  destruct (Hl _ _ E) as [_ Hok]. destruct (Hok _ eq_refl) as (_ & _ & Hseg).
  apply (Hseg 0%nat); reflexivity.
Defined.

(** The entry size is not checked: a table entry shorter than the 56 bytes
    the loader reads, at the end of the file, makes it panic instead of
    returning [BadPhOffset]. *)
Theorem short_phdr_panics : sample_load (sample_header 8 1 ++ take 8 (sample_phdr 0 0 0)) = Panic.
Proof. vm_compute. reflexivity. Qed.

(** Without overflow checks a segment whose end wraps around the address
    space is accepted and not loaded at all; with them the loader panics. *)
Theorem wrapping_segment_skipped :
  let elf := sample_header 56 1 ++ sample_phdr (2 ^ 64 - 4096) 0 8192 in
  @load_elf release_profile boot_paging elf sample_phys (boot_start, ∅) = Ret (boot_start, ∅, inl 0x400ffc) ∧
  sample_load elf = Panic.
Proof. vm_compute. split; reflexivity. Qed.
