(* ===== verification/ElfTotal.v ===== *)
(** * The ELF loader without panics

    [Elf] shows what a load leaves behind when it returns.  Here: for which
    files it always returns.  The conditions ([sane_file], [sane_segment])
    are that table entries have at least the 56 bytes of a program header,
    that the end of the table, and for each loadable segment the end of its
    file range and of its file image in memory, are 64-bit numbers, and that
    the segment ends at least a page below the middle of the address space;
    and that the window on physical memory lies in the lower half.  Such a
    file is loaded or refused with an error value, whatever else it contains:
    truncated tables, segments outside the file, overlapping segments,
    exhausted memory.  Conditions are needed: [short_phdr_panics] and
    [wrapping_segment_skipped] of [Elf] and [overflowing_offset_panics] break
    one each. *)

From S2P Require Import Prelude Machine Frames Paging Elf.
From Stdlib Require Import ZArith Lia.
From stdpp Require Import base numbers list gmap.
#[local] Open Scope Z_scope.

(** ** Running without a panic *)

Definition calm {A} (o : outcome A) : Prop := o ≠ Panic.

Lemma calm_Ret {A} (a : A) : calm (Ret a).
Proof. done. Qed.

Lemma calm_bind {A B} (m : outcome A) (f : A → outcome B) :
  calm m → (∀ a, m = Ret a → calm (f a)) → calm (m ≫= f).
Proof. intros Hm Hf. destruct m; [by apply Hf|done|done]. Qed.

Lemma calm_post {A} (Q : A → Prop) m : calm m → post Q m → ∃ a, m = Ret a ∧ Q a.
Proof. intros Hm Hq. destruct m; [by eauto|done|done]. Qed.

(** Under an invariant the body keeps, a loop is calm when its body is. *)
Lemma calm_loop_ret {A St R} (J : St → Prop) l (body : A → St → outcome (St + R)) s :
  J s → (∀ a s, a ∈ l → J s → calm (body a s) ∧ post (λ r, match r with inl s' => J s' | inr _ => True end) (body a s)) →
  calm (loop_ret l body s).
Proof.
  revert s. induction l as [|a l IH]; intros s Hs Hb; [done|]. cbn [loop_ret].
  destruct (Hb a s) as [Hc Hp]; [left|done|].
  destruct (calm_post _ _ Hc Hp) as (r & -> & Hr). rewrite bind_Ret. destruct r as [s'|x]; [|done].
  apply IH; [done|]. intros. apply Hb; [by right|done].
Qed.

(** ** The conditions *)

Definition sane_segment (h : Phdr) : Prop :=
  p_offset h + p_filesz h < 2 ^ 64 ∧ p_vaddr h + p_filesz h < 2 ^ 64 ∧ p_vaddr h + p_memsz h <= 2 ^ 47 - 4096.

Record sane_file (bs : list Z) : Prop := {
  sf_bytes : bytes bs;
  sf_entsize : 56 <= field bs 54 2;
  sf_table : field bs 32 8 + field bs 56 2 * field bs 54 2 < 2 ^ 64;
  sf_segments i : Z.of_nat i < field bs 56 2 → field bs (phdr_off bs i) 4 = PT_LOAD →
    sane_segment (phdr_at bs (phdr_off bs i));
}.

Section Calm.
Context `{Prof : Profile} `{P : Paging} {laws : PagingLaws P}.
Hypothesis checks : overflow_checks = true.
Variable phys : Z.
Hypothesis window : 0 <= phys ∧ phys + mem_top <= 2 ^ 47.

Lemma sliceZ_ok {A} a b (l : list A) :
  0 <= a <= b → b <= Z.of_nat (length l) → sliceZ a b l = Ret (take (Z.to_nat (b - a)) (drop (Z.to_nat a) l)).
Proof. intros. unfold sliceZ. by rewrite !(proj2 (Z.leb_le _ _)) by lia. Qed.

Lemma load_page_calm h seg vpage st :
  pt_inv st.1 → 0 <= vpage < 2 ^ 47 - 4096 → 0 <= p_vaddr h → p_vaddr h + p_filesz h < 2 ^ 64 →
  0 <= p_filesz h → Z.of_nat (length seg) = p_filesz h → calm (load_page phys h seg vpage st).
Proof.
  destruct st as [s m]. intros Hs Hv H0 Hf H1 Hl. unfold load_page. simpl in Hs.
  destruct (alloc_ret s Hs) as (s1 & r & -> & _ & _ & _ & Hfr). rewrite bind_Ret. destruct r as [f|]; [|done].
  destruct (Hfr f eq_refl) as (_ & _ & _ & Hft).
  rewrite page_containing_ret, bind_Ret by lia.
  destruct (map_to s1 _ f _) as [s2 []]; cbn [negb]; [|done].
  rewrite virt_offset_ret, bind_Ret by lia.
  rewrite (add_small 64 vpage), bind_Ret by (split; lia).
  rewrite (add_small 64 (p_vaddr h)), bind_Ret by (split; lia).
  case_match eqn:Hc; [|done]. apply Z.ltb_lt in Hc. rewrite sliceZ_ok, bind_Ret by lia. done.
Qed.

Lemma load_pages_calm fuel h seg end_page vpage st :
  pt_inv st.1 → vpage mod PAGE = 0 → 0 <= vpage → end_page <= 2 ^ 47 - 4096 → 0 <= p_vaddr h →
  p_vaddr h + p_filesz h < 2 ^ 64 → 0 <= p_filesz h → Z.of_nat (length seg) = p_filesz h →
  calm (load_pages fuel phys h seg end_page vpage st).
Proof.
  revert vpage st. induction fuel as [|fuel IH]; intros vpage st Hs Hv H0 He Hva Hf H1 Hl; cbn [load_pages];
    (destruct (Z.leb_spec end_page vpage); [done|]); [done|].
  assert (calm (load_page phys h seg vpage st)) as Hc by (apply load_page_calm; done || lia).
  destruct (calm_post _ _ Hc (load_page_post checks phys h seg vpage st Hs Hv H1 Hl)) as (r & -> & Hr).
  rewrite bind_Ret. destruct r as [st1|x]; [|done]. destruct Hr as [Hg _].
  rewrite add_small, bind_Ret by (split; lia). apply IH; try done; try lia; [apply Hg|].
  unfold PAGE in *. by rewrite <-Zplus_mod_idemp_r, Z.mod_same, Z.add_0_r by lia.
Qed.

Lemma load_segment_calm bs h st :
  pt_inv st.1 → wf_phdr h → sane_segment h → calm (load_segment bs phys h st).
Proof.
  intros Hs (Ho & Hv & Hf & Hms) (S1 & S2 & S3). unfold load_segment.
  rewrite (add_small 64 (p_offset h)), bind_Ret by (split; lia).
  destruct (Z.ltb_spec (Z.of_nat (length bs)) (p_offset h + p_filesz h)); [done|].
  rewrite sliceZ_ok, bind_Ret by lia. cbv zeta.
  rewrite (add_small 64 (p_vaddr h)), bind_Ret by (split; lia).
  rewrite (add_small 64 (p_vaddr h + p_memsz h)), bind_Ret by (split; lia).
  rewrite !page_down_mod by lia.
  pose proof (Z.mod_pos_bound (p_vaddr h) PAGE ltac:(done)).
  pose proof (Z.mod_le (p_vaddr h) PAGE ltac:(lia) ltac:(done)).
  pose proof (Z.mod_pos_bound (p_vaddr h + p_memsz h + 0xFFF) PAGE ltac:(done)) as Hm.
  apply load_pages_calm; try lia; try done.
  - by apply mod_down.
  - assert (2 ^ 47 - 4096 = PAGE * (2 ^ 35 - 1)) as E by done.
    pose proof (Z.div_mod (p_vaddr h + p_memsz h + 0xFFF) PAGE ltac:(done)).
    assert ((p_vaddr h + p_memsz h + 0xFFF) / PAGE < 2 ^ 35) by (apply Z.div_lt_upper_bound; unfold PAGE in *; lia).
    unfold PAGE in *. lia.
  - rewrite length_take, length_drop. lia.
Qed.

Lemma le_at_calm bs off a b :
  0 <= off → 0 <= a <= b → off + b <= Z.of_nat (length bs) → off + b < 2 ^ 64 → calm (le_at bs off a b).
Proof.
  intros. unfold le_at. rewrite (add_small 64 off a), bind_Ret by (split; lia).
  rewrite (add_small 64 off b), bind_Ret by (split; lia). by rewrite sliceZ_ok, bind_Ret by lia.
Qed.

Lemma read_phdr_calm bs off :
  0 <= off → off + 56 <= Z.of_nat (length bs) → off + 56 < 2 ^ 64 → calm (read_phdr bs off).
Proof.
  intros. unfold read_phdr. repeat (apply calm_bind; [apply le_at_calm; lia|intros ? _]). done.
Qed.

Lemma load_phdr_calm bs i st :
  sane_file bs → Z.of_nat i < field bs 56 2 → pt_inv st.1 →
  calm (load_phdr bs phys (field bs 32 8) (field bs 54 2) i st).
Proof.
  intros [Hb He Ht Hseg] Hi Hs. unfold load_phdr. pose proof (field_range bs 32 8 Hb).
  set (n := field bs 56 2) in *. set (z := field bs 54 2) in *.
  assert (Z.of_nat i * z + z <= n * z) as Hz by nia.
  rewrite (mul_small 64), bind_Ret by (split; nia).
  rewrite (add_small 64 (field bs 32 8)), bind_Ret by (split; nia).
  assert (field bs 32 8 + Z.of_nat i * z = phdr_off bs i) as -> by done.
  assert (0 <= phdr_off bs i ∧ phdr_off bs i + z < 2 ^ 64) as Hoff by (unfold phdr_off; fold z; nia).
  rewrite (add_small 64 (phdr_off bs i)), bind_Ret by (split; lia).
  destruct (Z.ltb_spec (Z.of_nat (length bs)) (phdr_off bs i + z)); [done|].
  destruct (calm_post _ _ (le_at_calm bs (phdr_off bs i) 0 4 ltac:(lia) ltac:(lia) ltac:(lia) ltac:(lia))
    (le_at_post checks bs (phdr_off bs i) 0 4 ltac:(lia) ltac:(lia))) as (ty & -> & Hty).
  rewrite bind_Ret. rewrite Z.add_0_r in Hty. change (Z.to_nat (4 - 0)) with 4%nat in Hty.
  destruct (Z.eqb_spec ty PT_LOAD) as [E|]; cbn [negb]; [|done].
  destruct (calm_post _ _ (read_phdr_calm bs (phdr_off bs i) ltac:(lia) ltac:(lia) ltac:(lia))
    (read_phdr_post checks bs (phdr_off bs i) ltac:(lia))) as (h & -> & ->). rewrite bind_Ret.
  apply load_segment_calm; [done|by apply phdr_at_wf|]. apply Hseg; congruence.
Qed.

Lemma load_elf_calm bs st : sane_file bs → pt_inv st.1 → calm (load_elf bs phys st).
Proof.
  intros Hf Hs. destruct (check_header_ok bs) as (r0 & E0 & H0). unfold load_elf. rewrite E0, bind_Ret.
  destruct r0 as [[[[e0 off] sz] n]|er]; [|done]. destruct H0 as (_ & -> & -> & -> & ->).
  apply calm_bind; [|intros [|[? ?]] _; done].
  apply (calm_loop_ret (λ st, pt_inv st.1)); [done|]. intros i st1 Hi%elem_of_seq Hs1.
  pose proof (field_range bs 56 2 (sf_bytes _ Hf)). split; [apply load_phdr_calm; [done|lia|done]|].
  eapply post_mono; [by apply load_phdr_post; [|apply Hf|]|]. intros [st2|[st2 e]]; [|done].
  intros [Hg _]. apply Hg.
Qed.
End Calm.

(** ** Properties *)

(** C39: error behaviour of the loader, with overflow checks on and the
    window on physical memory in the lower half: a file whose table entries
    have at least 56 bytes, whose table ends below 2^64, and whose loadable
    segments have [p_offset + p_filesz] and [p_vaddr + p_filesz] below 2^64
    and [p_vaddr + p_memsz] at most 2^47 - 4096, never makes it panic: the
    load returns, with the entry point of a completely loaded file or with an
    error value; and it is an error value, with nothing changed, for every
    file whose header is not that of a 64-bit little-endian x86-64
    executable. *)
Theorem load_elf_returns `{Profile} `{P : Paging} {laws : PagingLaws P} bs phys st :
  overflow_checks = true → 0 <= phys → phys + mem_top <= 2 ^ 47 → sane_file bs → pt_inv st.1 →
  ∃ st' r, load_elf bs phys st = Ret (st', r) ∧
    match r with
    | inl e => loaded phys bs st st' e
    | inr _ => grows phys st st'
    end ∧ (¬ valid_header bs → ∃ err, r = inr err ∧ st' = st).
Proof.
  intros Hc Hp0 Hp1 Hf Hs.
  destruct (calm_post _ _ (load_elf_calm Hc phys (conj Hp0 Hp1) bs st Hf Hs) (load_elf_post bs phys st Hc (sf_bytes _ Hf) Hs))
    as ([st' r] & E & Hg & Hl).
  exists st', r. split; [done|]. split; [destruct r; [by apply Hl|done]|]. intros Hv.
  destruct (check_header_ok bs) as (r0 & E0 & H0). unfold load_elf in E. rewrite E0, bind_Ret in E.
  destruct r0 as [[[[e0 off] sz] n]|er]; [by destruct H0|]. injection E as <- <-. by exists er.
Qed.

(** The sample file with its only segment moved outside the file. *)
Definition outside_elf : list Z :=
  sample_header 56 1 ++ le_bytes 4 PT_LOAD ++ le_bytes 4 5 ++ le_bytes 8 5000 ++ le_bytes 8 0x400000
    ++ le_bytes 8 0x400000 ++ le_bytes 8 16 ++ le_bytes 8 16 ++ le_bytes 8 4096.

Lemma outside_sane : sane_file outside_elf.
Proof.
  split.
  - apply bytes_forallb. vm_compute. reflexivity.
  - vm_compute. discriminate.
  - vm_compute. reflexivity.
  - intros i Hi _. assert (i = 0%nat) as -> by (change (field outside_elf 56 2) with 1 in Hi; lia).
    vm_compute. repeat split; discriminate.
Qed.

Lemma load_elf_returns_witness :
  ∃ st' r, sample_load outside_elf = Ret (st', r) ∧ r = inr SegmentOutOfBounds.
Proof.
  destruct (@load_elf_returns dev_profile boot_paging boot_paging_laws outside_elf sample_phys (boot_start, ∅)
    eq_refl ltac:(done) ltac:(done) outside_sane boot_start_inv) as (st' & r & E & _).
  exists st', r. split; [exact E|].
  assert (match sample_load outside_elf with Ret (_, inr SegmentOutOfBounds) => true | _ => false end = true) as Eb
    by (vm_compute; reflexivity).
  unfold sample_load in Eb. rewrite E in Eb. destruct r as [|[]]; try discriminate Eb. reflexivity.
Defined.

(** A segment whose file range ends beyond 2^64 makes the loader panic in both
    profiles: by the overflow check, or by the slice it then takes. *)
Theorem overflowing_offset_panics :
  let elf := sample_header 56 1 ++ le_bytes 4 PT_LOAD ++ le_bytes 4 5 ++ le_bytes 8 (2 ^ 64 - 8) ++ le_bytes 8 0x400000
    ++ le_bytes 8 0x400000 ++ le_bytes 8 16 ++ le_bytes 8 16 ++ le_bytes 8 4096 in
  sample_load elf = Panic ∧ @load_elf release_profile boot_paging elf sample_phys (boot_start, ∅) = Panic.
Proof. vm_compute. split; reflexivity. Qed.
