(* ===== verification/User.v ===== *)
(** * User space set-up

    Model of [kernel/src/user.rs]: loading the embedded executable with the
    hand-coded program as a fallback, mapping the user stack, the exit
    notification and the frame [enter] builds for [iretq].  The embedded
    executable is an argument of [setup]; [hello_elf] is the one in the
    repository.

    Shown here: [setup] returns an entry point only with a zeroed, writable,
    non-executable user stack on a fresh frame and with either the whole
    executable loaded or the fallback program in place; the shipped
    executable loads. *)

From S2P Require Import Prelude Meal Machine Frames Paging Elf.
From Stdlib Require Import ZArith Lia.
From stdpp Require Import base numbers list gmap.
#[local] Open Scope Z_scope.

Definition USER_CODE_VIRT : Z := 0x400000000000.
Definition USER_STACK_TOP : Z := 0x500000000000.

(** The hand-coded program. *)
Definition USER_PROGRAM : list Z :=
  [0x48; 0x31; 0xC0;
   0x0F; 0x05;
   0x48; 0xC7; 0xC0; 0x09; 0x00; 0x00; 0x00;
   0x0F; 0x05;
   0x48; 0xC7; 0xC0; 0x0B; 0x00; 0x00; 0x00;
   0x48; 0x31; 0xFF;
   0x0F; 0x05;
   0xEB; 0xFE].

(** [notify_exit(code)]: the new value of [USER_EXITED] and the audit call. *)
Definition notify_exit (code : Z) : bool * Audit := (true, mkAudit ProcessExited 3 code 0).

Section Setup.
Context `{Profile} `{Paging}.

(** [frame_alloc.allocate_frame().expect(..)], the page at [va], and
    [mapper.map_to(..).expect(..)]. *)
Definition expect_page (va : Z) (fl : PageFlags) (s : Pt) : outcome (Pt * Z) :=
  '(s, frame) ← alloc s;
  match frame with
  | None => Panic
  | Some f =>
    page ← page_containing va;
    let '(s, ok) := map_to s page f fl in
    if ok : bool then Ret (s, f) else Panic
  end.

Definition fallback_flags : PageFlags := mkPageFlags true true true false.
Definition stack_flags : PageFlags := mkPageFlags true true true true.

(** The [Err] arm: the hand-coded program in a page of breakpoints. *)
Definition load_fallback (phys_offset : Z) (st : Pt * Memory) : outcome (Pt * Memory * Z) :=
  let '(s, m) := st in
  '(s, f) ← expect_page USER_CODE_VIRT fallback_flags s;
  dst ← virt_offset phys_offset f;
  let m := fill 4096 dst 0xCC m in
  let m := write_at dst USER_PROGRAM m in
  Ret (s, m, USER_CODE_VIRT).

Definition setup (elf_program : list Z) (phys_offset : Z) (st : Pt * Memory)
    : outcome (Pt * Memory * Z) :=
  '(st, r) ← load_elf elf_program phys_offset st;
  '(s, m, entry) ← match r with
                   | inl ep => Ret (st, ep)
                   | inr _ => load_fallback phys_offset st
                   end;
  stack_va ← sub 64 USER_STACK_TOP 4096;
  '(s, f) ← expect_page stack_va stack_flags s;
  kv ← virt_offset phys_offset f;
  let m := fill 4096 kv 0 m in
  Ret (s, m, entry).
End Setup.

(** The words [enter] pushes, lowest address first, with the selectors the
    descriptor table gives. *)
Record IretFrame := mkIretFrame { i_rip : Z; i_cs : Z; i_rflags : Z; i_rsp : Z; i_ss : Z }.

Definition enter (user_code_selector user_data_selector entry : Z) : IretFrame :=
  mkIretFrame entry user_code_selector 0x202 USER_STACK_TOP user_data_selector.

(** ** What [setup] leaves behind *)

Section Proofs.
Context `{P : Paging} {laws : PagingLaws P}.
Variable phys : Z.

Abbreviation St := (@Pt P * Memory)%type.

(** The page at [va] is mapped with [fl] to a frame that was free in [s0] and
    reads as [byte]. *)
Definition page_holds (s0 : Pt) (st : St) (va : Z) (fl : PageFlags) (byte : Z → Z) : Prop :=
  ∃ f, mapping st.1 !! va = Some (f, fl) ∧ (f ∉ issued s0) ∧ f ∈ issued st.1 ∧ f mod PAGE = 0 ∧
    ∀ o, 0 <= o < PAGE → load st.2 (phys + f + o) = byte o.

Lemma page_holds_mono s0 s1 st st' va fl byte :
  extends s0 s1 → grows phys st st' → page_holds s1 st va fl byte → page_holds s0 st' va fl byte.
Proof.
  intros [_ He] [_ [Hm Hi] Hmem] (f & Hf & Hn & Hif & Hal & Hc).
  exists f. split; [by eapply lookup_weaken|]. split; [set_solver|]. split; [set_solver|]. split; [done|].
  intros o Ho. rewrite <-Hc by done. apply Hmem. intros g Hg Hng Hag Hin.
  assert (f ≠ g) as Hfg by (intros ->; done).
  destruct (aligned_apart f g Hal Hag Hfg); unfold PAGE in *; lia.
Qed.

(** Mapping one page and writing to its frame only. *)
Lemma expect_page_post va fl s m (write : Z → Memory) (byte : Z → Z) :
  pt_inv s → va mod PAGE = 0 →
  (∀ f a, ¬ (phys + f <= a < phys + f + PAGE) → load (write f) a = load m a) →
  (∀ f o, 0 <= o < PAGE → load (write f) (phys + f + o) = byte o) →
  post (λ '(s', f), grows phys (s, m) (s', write f) ∧ page_holds s (s', write f) va fl byte)
    (expect_page va fl s).
Proof.
  intros Hs Hva Hout Hin. unfold expect_page.
  destruct (alloc_ret s Hs) as (s1 & r & E & Hs1 & Em & Hi & _). rewrite E, bind_Ret.
  destruct r as [f|]; [|done]. apply post_bind with (λ p, p = va); [by apply page_containing_post|].
  intros ? ->. destruct (map_to s1 va f fl) as [s2 []] eqn:Hm; [|done].
  destruct (alloc_map s s1 f va _ s2 Hs E Hm) as (Hs2 & He2 & (g & Hg & _ & Hgi & _) & _ & Hmap & Hn & Hal).
  assert (g = f) as -> by congruence. simpl. split.
  - split; [done|done|]. intros a Ha. apply Hout. by apply Ha.
  - exists f. do 4 (split; [done|]). apply Hin.
Qed.

Definition fallback_byte (o : Z) : Z :=
  if decide (o < Z.of_nat (length USER_PROGRAM)) then USER_PROGRAM !!! Z.to_nat o else 0xCC.

Lemma load_fallback_post st :
  pt_inv st.1 →
  post (λ '(st', entry), entry = USER_CODE_VIRT ∧ grows phys st st' ∧
      page_holds st.1 st' USER_CODE_VIRT fallback_flags fallback_byte)
    (load_fallback phys st).
Proof.
  destruct st as [s m]. intros Hs. unfold load_fallback.
  eapply post_bind; [apply (expect_page_post USER_CODE_VIRT fallback_flags s m
    (λ f, write_at (phys + f) USER_PROGRAM (fill 4096 (phys + f) 0xCC m)) fallback_byte Hs)|].
  - done.
  - intros f a Ha. unfold PAGE in Ha. rewrite load_write_at, load_fill, !decide_False; [done|lia|].
    change (length USER_PROGRAM) with 28%nat. lia.
  - intros f o Ho. unfold PAGE in Ho. unfold fallback_byte. rewrite load_write_at, load_fill.
    destruct (decide (o < _)).
    + rewrite decide_True by lia. do 2 f_equal. lia.
    + by rewrite decide_False, decide_True by lia.
  - intros [s' f] [Hg Hp]. eapply post_bind; [apply virt_offset_post|]. intros ? ->. done.
Qed.
End Proofs.

(** ** The executable of the repository

    [userspace/hello.elf]: its non-zero stretches, over zeros. *)

Definition patch (l : list Z) (p : nat * list Z) : list Z := splice p.1 p.2 l.

Definition hello_elf : list Z := foldl patch (replicate 4600 0)
  [(0%nat, [127; 69; 76; 70; 2; 1; 1]);
   (16%nat, [2; 0; 62; 0; 1]);
   (29%nat, [64; 0; 0; 64; 0; 0; 0; 0; 0; 0; 0; 184; 16]);
   (52%nat, [64; 0; 56; 0; 1; 0; 64; 0; 5; 0; 4; 0; 1; 0; 0; 0; 5; 0; 0; 0; 0; 16]);
   (85%nat, [64; 0; 0; 0; 0; 0; 0; 0; 64; 0; 0; 28; 0; 0; 0; 0; 0; 0; 0; 28]);
   (113%nat, [16]);
   (4096%nat, [72; 49; 192; 15; 5; 72; 199; 192; 9; 0; 0; 0; 15; 5; 72; 137; 199; 72; 199; 192; 11; 0;
     0; 0; 15; 5; 235; 254]);
   (4152%nat, [1; 0; 0; 0; 4; 0; 241; 255]);
   (4176%nat, [9; 0; 0; 0; 0; 0; 1; 0; 26; 0; 0; 0; 0; 64]);
   (4200%nat, [15; 0; 0; 0; 16; 0; 1; 0; 0; 0; 0; 0; 0; 64]);
   (4225%nat, [104; 101; 108; 108; 111; 46; 111; 0; 46; 115; 112; 105; 110; 0; 95; 115; 116; 97; 114;
     116; 0; 0; 46; 115; 121; 109; 116; 97; 98; 0; 46; 115; 116; 114; 116; 97; 98; 0; 46; 115; 104; 115;
     116; 114; 116; 97; 98; 0; 46; 116; 101; 120; 116]);
   (4344%nat, [27; 0; 0; 0; 1; 0; 0; 0; 6]);
   (4365%nat, [64; 0; 0; 0; 16; 0; 0; 0; 0; 0; 0; 28]);
   (4392%nat, [1]);
   (4408%nat, [1; 0; 0; 0; 2]);
   (4432%nat, [32; 16; 0; 0; 0; 0; 0; 0; 96; 0; 0; 0; 0; 0; 0; 0; 3; 0; 0; 0; 3; 0; 0; 0; 8; 0; 0; 0;
     0; 0; 0; 0; 24; 0; 0; 0; 0; 0; 0; 0; 9; 0; 0; 0; 3]);
   (4496%nat, [128; 16; 0; 0; 0; 0; 0; 0; 22]);
   (4520%nat, [1]);
   (4536%nat, [17; 0; 0; 0; 3]);
   (4560%nat, [150; 16; 0; 0; 0; 0; 0; 0; 33]);
   (4584%nat, [1])].

Lemma hello_bytes : bytes hello_elf.
Proof. apply bytes_forallb. vm_compute. reflexivity. Qed.

(** [setup] with that file on a machine with free memory. *)
Definition boot_setup : outcome (BootPt * Memory * Z) :=
  @setup dev_profile boot_paging hello_elf sample_phys (boot_start, ∅).

Lemma boot_setup_entry : ∃ st, boot_setup = Ret (st, USER_CODE_VIRT).
Proof.
  assert (match boot_setup with Ret (_, e) => e =? USER_CODE_VIRT | _ => false end = true) as E
    by (vm_compute; reflexivity).
  destruct boot_setup as [[st e]| |]; [|discriminate|discriminate].
  apply Z.eqb_eq in E as ->. exists st. reflexivity.
Qed.

(** What user space looks like after [setup]. *)
Record user_ready `{P : Paging} {laws : PagingLaws P} (phys : Z) (elf : list Z) (st st' : Pt * Memory)
    (entry : Z) : Prop := {
  ur_grows : grows phys st st';
  ur_stack : page_holds phys st.1 st' (USER_STACK_TOP - PAGE) stack_flags (λ _, 0);
  ur_code : loaded phys elf st st' entry ∨
    (entry = USER_CODE_VIRT ∧ page_holds phys st.1 st' USER_CODE_VIRT fallback_flags fallback_byte);
}.

Lemma loaded_grows `{P : Paging} {laws : PagingLaws P} phys bs st st1 st2 e :
  grows phys st1 st2 → loaded phys bs st st1 e → loaded phys bs st st2 e.
Proof.
  intros Hg (Hv & He & Hs). do 2 (split; [done|]). intros i Hi Hl.
  eapply segment_grows; [reflexivity|done|by apply Hs].
Qed.

Lemma setup_post `{Profile} `{P : Paging} {laws : PagingLaws P} elf phys st :
  overflow_checks = true → bytes elf → pt_inv st.1 →
  post (λ '(st', entry), user_ready phys elf st st' entry) (setup elf phys st).
Proof.
  intros Hc Hb Hs. unfold setup. eapply post_bind; [by apply load_elf_post|]. intros [st1 r] [Hg1 Hl].
  assert (pt_inv st1.1) as Hs1 by apply Hg1.
  apply post_bind with (λ '(st2, entry), grows phys st st2 ∧ (loaded phys elf st st2 entry ∨
    (entry = USER_CODE_VIRT ∧ page_holds phys st.1 st2 USER_CODE_VIRT fallback_flags fallback_byte))).
  { destruct r as [ep|er]; [split; [done|left; by apply Hl]|].
    eapply post_mono; [by apply load_fallback_post|]. intros [st2 e] (-> & Hg2 & Hp).
    split; [by eapply grows_trans|]. right. split; [done|].
    eapply page_holds_mono; [apply Hg1|by apply grows_refl, Hg2|done]. }
  intros [[s m] entry] [Hg2 Hcode].
  eapply post_bind; [by apply post_checked|]. intros ? [-> _].
  eapply post_bind; [apply (expect_page_post phys (USER_STACK_TOP - 4096) stack_flags s m
    (λ f, fill 4096 (phys + f) 0 m) (λ _, 0)); [apply Hg2|done| |]|].
  - intros f a Ha. unfold PAGE in Ha. by rewrite load_fill, decide_False by lia.
  - intros f o Ho. unfold PAGE in Ho. by rewrite load_fill, decide_True by lia.
  - intros [s' f] [Hg3 Hp]. eapply post_bind; [apply virt_offset_post|]. intros ? ->. split.
    + by eapply grows_trans.
    + eapply page_holds_mono; [apply Hg2|by apply grows_refl, Hg3|done].
    + destruct Hcode as [Hcode|[-> Hcode]]; [left; by eapply loaded_grows|right; split; [done|]].
      eapply page_holds_mono; [reflexivity|done|done].
Qed.

(** ** Properties *)

(** [setup] ends; when it returns an entry point, no earlier mapping
    has changed and only new frames were written; the page below the stack
    top is a zeroed user page, writable and not executable, on a frame that
    was free; and either the executable is loaded completely with its own
    entry point, or the entry point is that of the hand-coded program, which
    starts its page and is followed by breakpoints. *)
Theorem setup_correct `{Profile} `{P : Paging} {laws : PagingLaws P} elf phys st :
  overflow_checks = true → bytes elf → pt_inv st.1 →
  setup elf phys st ≠ NoFuel ∧
  ∀ st' entry, setup elf phys st = Ret (st', entry) → user_ready phys elf st st' entry.
Proof.
  intros Hc Hb Hs. pose proof (setup_post elf phys st Hc Hb Hs) as Hp.
  split; [by eapply post_fuel|]. intros st' entry E. by rewrite E in Hp.
Qed.

Lemma setup_correct_witness :
  ∃ st', boot_setup = Ret (st', USER_CODE_VIRT) ∧
    @user_ready boot_paging boot_paging_laws sample_phys hello_elf (boot_start, ∅) st' USER_CODE_VIRT.
Proof.
  destruct boot_setup_entry as [st' E]. exists st'. split; [exact E|].
  apply (@setup_correct dev_profile boot_paging boot_paging_laws hello_elf sample_phys (boot_start, ∅)
    eq_refl hello_bytes boot_start_inv). exact E.
Defined.

(** The hand-coded program has 28 bytes, not the 29 of the comments. *)
Lemma user_program_length : length USER_PROGRAM = 28%nat.
Proof. reflexivity. Qed.
