(* ===== verification/Gdt.v ===== *)
(** * The descriptor table and the task state segment

    Model of [kernel/src/gdt.rs]: the two stacks the processor switches to,
    the task state segment that points at them, the seven slots of the
    global descriptor table and the registers [init] loads.  The x86_64
    crate's table and segment types are the interface [GdtOps]; [GdtLaws] is
    what the crate documents of them.  The processor side ([lookup_selector])
    reads the loaded table the way the hardware does.

    Shown here: after [init], CS and SS select the kernel's code and data
    descriptors and TR the task state segment, whose RSP0 and first IST entry
    are the ends of the two static stacks; the selectors are those the
    comments promise (0x08, 0x10, 0x18, 0x2B, 0x33). *)

From S2P Require Import Prelude.
From Stdlib Require Import ZArith Lia.
From stdpp Require Import base numbers list gmap.
#[local] Open Scope Z_scope.

Definition DOUBLE_FAULT_IST_INDEX : Z := 0.
Definition PRIV_STACK_SIZE : Z := 4096 * 8.
Definition DF_STACK_SIZE : Z := 4096 * 5.

Record TaskStateSegment := mkTaskStateSegment {
  privilege_stack_table : list Z; interrupt_stack_table : list Z }.

Inductive Descriptor := kernel_code_segment | kernel_data_segment
  | tss_segment (tss : TaskStateSegment) | user_data_segment | user_code_segment.

Record Selectors := mkSelectors {
  kernel_code : Z; kernel_data : Z; tss : Z; user_data : Z; user_code : Z }.

(** A selector as the processor reads it: the slot above three bits, the
    requested privilege level in the lowest two. *)
Definition selector (index rpl : Z) : Z := Z.lor (Z.shiftl index 3) rpl.
Definition rpl (sel : Z) : Z := Z.land sel 3.

(** ** The crate's types *)

Class GdtOps := {
  Gdt : Type;
  (** [GlobalDescriptorTable::new()]. *)
  gdt_new : Gdt;
  (** [gdt.append(d)]: the table and the selector of the new descriptor. *)
  append : Gdt → Descriptor → Gdt * Z;
  (** [SegmentSelector::index]. *)
  slot : Z → Z;
  (** [TaskStateSegment::new()]. *)
  tss_new : TaskStateSegment;
  (** [VirtAddr + u64]. *)
  virt_add : Z → Z → outcome Z;
}.

(** Addresses the processor accepts: bits 47 to 63 are equal. *)
Definition canonical (a : Z) : Prop := 0 <= a < 2 ^ 47 ∨ 2 ^ 64 - 2 ^ 47 <= a < 2 ^ 64.

Definition dpl (d : Descriptor) : Z :=
  match d with user_data_segment | user_code_segment => 3 | _ => 0 end.

(** A system descriptor takes two slots. *)
Definition slots (d : Descriptor) : Z := match d with tss_segment _ => 2 | _ => 1 end.

Class GdtLaws (G : GdtOps) := {
  used : Gdt → Z;
  descriptor : Gdt → Z → option Descriptor;
  gdt_null : used gdt_new = 1;
  append_selector g d : (append g d).2 = selector (used g) (dpl d);
  append_used g d : used (append g d).1 = used g + slots d;
  append_descriptor g d i : 0 <= i →
    descriptor (append g d).1 i = if i =? used g then Some d else descriptor g i;
  slot_selector i r : 0 <= i → 0 <= r < 4 → slot (selector i r) = i;
  tss_new_tables : length (privilege_stack_table tss_new) = 3%nat ∧
    length (interrupt_stack_table tss_new) = 7%nat;
  virt_add_ok a b : canonical a → canonical (a + b) → virt_add a b = Ret (a + b);
}.

(** ** The source *)

Section Source.
Context `{GdtOps}.

(** [SegmentSelector::new(index, PrivilegeLevel::Ring3)]. *)
Definition ring3 (index : Z) : Z := selector index 3.

(** The segment, with the addresses of the two static stacks. *)
Definition TSS (STACK PRIV_STACK : Z) : outcome TaskStateSegment :=
  let tss := tss_new in
  top ← virt_add STACK DF_STACK_SIZE;
  ist ← store (interrupt_stack_table tss) (Z.to_nat DOUBLE_FAULT_IST_INDEX) top;
  let tss := mkTaskStateSegment (privilege_stack_table tss) ist in
  top ← virt_add PRIV_STACK PRIV_STACK_SIZE;
  pst ← store (privilege_stack_table tss) 0 top;
  Ret (mkTaskStateSegment pst (interrupt_stack_table tss)).

Definition GDT (TSS : TaskStateSegment) : Gdt * Selectors :=
  let gdt := gdt_new in
  let '(gdt, kernel_code) := append gdt kernel_code_segment in
  let '(gdt, kernel_data) := append gdt kernel_data_segment in
  let '(gdt, tss) := append gdt (tss_segment TSS) in
  let '(gdt, ud_raw) := append gdt user_data_segment in
  let '(gdt, uc_raw) := append gdt user_code_segment in
  let user_data := ring3 (slot ud_raw) in
  let user_code := ring3 (slot uc_raw) in
  (gdt, mkSelectors kernel_code kernel_data tss user_data user_code).

(** The registers [init] loads: GDTR, CS, SS and TR. *)
Record SegRegs := mkSegRegs { r_gdt : Gdt; r_cs : Z; r_ss : Z; r_tr : Z }.

Definition init (STACK PRIV_STACK : Z) : outcome SegRegs :=
  t ← TSS STACK PRIV_STACK;
  let '(gdt, sel) := GDT t in
  Ret (mkSegRegs gdt (kernel_code sel) (kernel_data sel) (tss sel)).

Definition user_code_selector (t : TaskStateSegment) : Z := user_code (GDT t).2.
Definition user_data_selector (t : TaskStateSegment) : Z := user_data (GDT t).2.
End Source.

(** ** What the processor finds *)

Section Facts.
Context `{G : GdtOps} {laws : GdtLaws G}.

(** The descriptor a selector names in a table. *)
Definition lookup_selector (g : Gdt) (sel : Z) : option Descriptor := descriptor g (slot sel).

Lemma append_eq g d :
  append g d = ((append g d).1, selector (used g) (dpl d)).
Proof. rewrite <-append_selector. by destruct (append g d). Qed.

(** The five descriptors and their slots. *)
Definition layout (t : TaskStateSegment) : list (Z * Descriptor) :=
  [(1, kernel_code_segment); (2, kernel_data_segment); (3, tss_segment t);
   (5, user_data_segment); (6, user_code_segment)].

Lemma GDT_ok t :
  (GDT t).2 = mkSelectors (selector 1 0) (selector 2 0) (selector 3 0) (selector 5 3) (selector 6 3) ∧
  Forall (λ '(i, d), ∀ r, 0 <= r < 4 → lookup_selector (GDT t).1 (selector i r) = Some d) (layout t).
Proof.
  unfold GDT. rewrite (append_eq gdt_new kernel_code_segment).
  set (g1 := (append gdt_new kernel_code_segment).1). rewrite (append_eq g1 kernel_data_segment).
  set (g2 := (append g1 kernel_data_segment).1). rewrite (append_eq g2 (tss_segment t)).
  set (g3 := (append g2 (tss_segment t)).1). rewrite (append_eq g3 user_data_segment).
  set (g4 := (append g3 user_data_segment).1). rewrite (append_eq g4 user_code_segment).
  assert (used g1 = 2) as U1 by (unfold g1; by rewrite append_used, gdt_null).
  assert (used g2 = 3) as U2 by (unfold g2; by rewrite append_used, U1).
  assert (used g3 = 5) as U3 by (unfold g3; by rewrite append_used, U2).
  assert (used g4 = 6) as U4 by (unfold g4; by rewrite append_used, U3).
  rewrite gdt_null, U1, U2, U3, U4. cbn [fst snd dpl]. unfold ring3. rewrite !slot_selector by lia.
  split; [done|]. unfold layout, lookup_selector.
  repeat constructor; intros r Hr; rewrite slot_selector by lia.
  all: rewrite append_descriptor, U4 by lia; cbn [Z.eqb Pos.eqb]; try done.
  all: unfold g4; rewrite append_descriptor, U3 by lia; cbn [Z.eqb Pos.eqb]; try done.
  all: unfold g3; rewrite append_descriptor, U2 by lia; cbn [Z.eqb Pos.eqb]; try done.
  all: unfold g2; rewrite append_descriptor, U1 by lia; cbn [Z.eqb Pos.eqb]; try done.
  all: unfold g1; rewrite append_descriptor, gdt_null by lia; cbn [Z.eqb Pos.eqb]; done.
Qed.

Lemma user_selectors t : user_data_selector t = ring3 5 ∧ user_code_selector t = ring3 6.
Proof. unfold user_data_selector, user_code_selector. by rewrite (proj1 (GDT_ok t)). Qed.

(** A static stack: canonical from its first byte to its end. *)
Definition stack_at (base size : Z) : Prop := canonical base ∧ canonical (base + size).

Lemma TSS_ok STACK PRIV_STACK :
  stack_at STACK DF_STACK_SIZE → stack_at PRIV_STACK PRIV_STACK_SIZE →
  ∃ t, TSS STACK PRIV_STACK = Ret t ∧
    interrupt_stack_table t !! 0%nat = Some (STACK + DF_STACK_SIZE) ∧
    privilege_stack_table t !! 0%nat = Some (PRIV_STACK + PRIV_STACK_SIZE).
Proof.
  intros [Hs1 Hs2] [Hp1 Hp2]. destruct tss_new_tables as [Hl3 Hl7]. unfold TSS.
  change (Z.to_nat DOUBLE_FAULT_IST_INDEX) with 0%nat.
  rewrite (virt_add_ok STACK), bind_Ret by done. rewrite store_ok, bind_Ret by (rewrite Hl7; lia).
  rewrite virt_add_ok, bind_Ret by done. cbn [privilege_stack_table interrupt_stack_table].
  rewrite store_ok, bind_Ret by (rewrite Hl3; lia).
  eexists. split; [done|]. cbn [privilege_stack_table interrupt_stack_table].
  split; apply list_lookup_insert_eq; lia.
Qed.

(** What holds once [init] has run. *)
Record tables_loaded (STACK PRIV_STACK : Z) (r : SegRegs) (t : TaskStateSegment) : Prop := {
  tl_cs : lookup_selector (r_gdt r) (r_cs r) = Some kernel_code_segment;
  tl_ss : lookup_selector (r_gdt r) (r_ss r) = Some kernel_data_segment;
  tl_tr : lookup_selector (r_gdt r) (r_tr r) = Some (tss_segment t);
  tl_user_cs : lookup_selector (r_gdt r) (user_code_selector t) = Some user_code_segment;
  tl_user_ss : lookup_selector (r_gdt r) (user_data_selector t) = Some user_data_segment;
  tl_values : [r_cs r; r_ss r; r_tr r; user_data_selector t; user_code_selector t]
    = [0x08; 0x10; 0x18; 0x2B; 0x33];
  tl_ist : interrupt_stack_table t !! Z.to_nat DOUBLE_FAULT_IST_INDEX = Some (STACK + DF_STACK_SIZE);
  tl_rsp0 : privilege_stack_table t !! 0%nat = Some (PRIV_STACK + PRIV_STACK_SIZE);
}.

Lemma init_tables STACK PRIV_STACK :
  stack_at STACK DF_STACK_SIZE → stack_at PRIV_STACK PRIV_STACK_SIZE →
  ∃ r t, init STACK PRIV_STACK = Ret r ∧ TSS STACK PRIV_STACK = Ret t ∧
    tables_loaded STACK PRIV_STACK r t.
Proof.
  intros Hs Hp. destruct (TSS_ok STACK PRIV_STACK Hs Hp) as (t & Et & Hist & Hrsp).
  destruct (GDT_ok t) as [Hsel Hd]. destruct (user_selectors t) as [Hud Huc].
  unfold init. rewrite Et, bind_Ret. destruct (GDT t) as [g sel] eqn:Eg. cbn [fst snd] in *. subst sel.
  repeat (apply Forall_cons in Hd as [? Hd]).
  eexists _, t. do 2 (split; [done|]). unfold ring3 in *.
  split; cbn [r_gdt r_cs r_ss r_tr kernel_code kernel_data tss]; rewrite ?Hud, ?Huc; try done.
  all: match goal with H : ∀ r, _ |- _ => apply H; lia end.
Qed.
End Facts.

(** ** An instance: the list of occupied slots, last one first *)

Definition list_append (g : list (Z * Descriptor) * Z) (d : Descriptor)
    : (list (Z * Descriptor) * Z) * Z :=
  (((g.2, d) :: g.1, g.2 + slots d), selector g.2 (dpl d)).

#[global] Instance list_gdt : GdtOps := {|
  Gdt := list (Z * Descriptor) * Z;
  gdt_new := ([], 1);
  append := list_append;
  slot s := Z.shiftr s 3;
  tss_new := mkTaskStateSegment (replicate 3 0) (replicate 7 0);
  virt_add a b := Ret (a + b);
|}.

Definition slot_find (g : list (Z * Descriptor) * Z) (i : Z) : option Descriptor :=
  snd <$> List.find (λ p, i =? p.1) g.1.

#[global] Instance list_gdt_laws : GdtLaws list_gdt.
Proof.
  refine {| used := snd; descriptor := slot_find |}; try done.
  - intros g d i Hi. unfold slot_find. cbn. by destruct (i =? g.2).
  - intros i r Hi Hr. cbn. unfold selector. rewrite Z.shiftr_lor, Z.shiftr_shiftl_l by lia.
    rewrite (Z.shiftr_div_pow2 r), (Z.div_small r) by (simpl; lia). rewrite Z.lor_0_r.
    by rewrite Z.shiftl_0_r.
Defined.

(** ** Properties *)

(** the descriptor tables as loaded: [init] returns, the kernel's code and
    data selectors select the kernel's descriptors and TR the task state
    segment; interrupts out of ring 3 find the end of [PRIV_STACK] in RSP0
    and the double-fault handler the end of its own stack in the first IST
    entry; the selectors handed to user mode select the user descriptors;
    and all selectors have the values the system-call set-up assumes. *)
Theorem gdt_init_correct `{G : GdtOps} {laws : GdtLaws G} STACK PRIV_STACK :
  stack_at STACK DF_STACK_SIZE → stack_at PRIV_STACK PRIV_STACK_SIZE →
  ∃ r t, init STACK PRIV_STACK = Ret r ∧ TSS STACK PRIV_STACK = Ret t ∧
    tables_loaded STACK PRIV_STACK r t.
Proof. apply init_tables. Qed.

Definition sample_stack : Z := 0xFFFF800000100000.
Definition sample_priv : Z := 0xFFFF800000200000.

Lemma sample_stacks : stack_at sample_stack DF_STACK_SIZE ∧ stack_at sample_priv PRIV_STACK_SIZE.
Proof. split; split; right; vm_compute; split; done. Qed.

Lemma gdt_init_correct_witness :
  ∃ r t, init sample_stack sample_priv = Ret r ∧ TSS sample_stack sample_priv = Ret t ∧
    tables_loaded sample_stack sample_priv r t.
Proof. apply (gdt_init_correct sample_stack sample_priv); apply sample_stacks. Defined.
