(* ===== verification/Syscall.v ===== *)
(** * System calls

    Model of [kernel/src/syscall.rs] and of the entry stub
    [kernel/src/syscall_entry.s], with the selectors of [Gdt].  The stub is executed register by register; the
    compiled dispatcher it calls is an argument, with the System V calling
    convention as hypothesis.  The scheduler's lock state and the scheduler
    are arguments of the dispatcher, audit calls are returned.

    Shown here: a system call returns to the instruction after SYSCALL with
    the user's stack pointer, callee-saved registers, flags and selectors,
    and with the dispatcher's answer to (rax, rdi, rsi, rdx) in rax; the
    dispatcher's answer and audit trail for every number; SYSRET and the
    first IRET use the same selectors. *)

From S2P Require Import Prelude Meal Machine Task Scheduler Frames Paging Elf User Gdt.
From Stdlib Require Import ZArith Lia.
From stdpp Require Import base numbers list gmap functions.
#[local] Open Scope Z_scope.

(** ** The dispatcher *)

(** [USER_EXITED] belongs to [user.rs]. *)
Record SyscallState := mkSyscallState {
  SYSCALL_COUNT : Z; LAST_SYSCALL_NR : Z; LAST_SYSCALL_RET : Z; USER_EXITED : bool }.

Definition initial : SyscallState := mkSyscallState 0 (2 ^ 64 - 1) 0 false.

(** [x as i64], [x as u64]. *)
Definition as_i64 (x : Z) : Z := if x <? 2 ^ 63 then x else x - 2 ^ 64.
Definition as_u64 (x : Z) : Z := wrap 64 x.

(** The [match] on the number: the answer, the audit calls of the arm, and
    [USER_EXITED]. *)
Definition handle (locked : bool) (sched : Scheduler) (nr arg1 : Z) (exited : bool)
    : Z * list Audit * bool :=
  if nr =? 0 then (0, [], exited)
  else if nr =? 9 then
    let fences := if locked then -1 else as_i64 (total_fences (stats sched)) in
    (fences, [], exited)
  else if nr =? 11 then
    let '(e, a) := notify_exit arg1 in (0, [a], e)
  else (-38, [], exited).

Definition syscall_dispatch (locked : bool) (sched : Scheduler) (s : SyscallState)
    (nr arg1 arg2 arg3 : Z) : SyscallState * list Audit * Z :=
  let count := wadd 64 (SYSCALL_COUNT s) 1 in
  let logged := mkAudit SyscallDispatched 3 nr 0 in
  let '(ret, audits, exited) := handle locked sched nr arg1 (USER_EXITED s) in
  (mkSyscallState count nr ret exited, logged :: audits, ret).

(** ** Initialisation *)

Definition IA32_EFER : Z := 0xC0000080.
Definition IA32_STAR : Z := 0xC0000081.
Definition IA32_LSTAR : Z := 0xC0000082.
Definition IA32_SFMASK : Z := 0xC0000084.
Definition STACK_SIZE : Z := 64 * 1024.

(** The two halves in edx and eax. *)
Definition rdmsr (msrs : Z → Z) (msr : Z) : Z :=
  let lo := wrap 32 (msrs msr) in
  let hi := wrap 32 (Z.shiftr (msrs msr) 32) in
  Z.lor (Z.shiftl hi 32) lo.

Definition wrmsr (msr value : Z) (msrs : Z → Z) : Z → Z :=
  let eax := wrap 32 value in
  let edx := wrap 32 (Z.shiftr value 32) in
  <[msr := Z.lor (Z.shiftl edx 32) eax]> msrs.

(** The model-specific registers after [init] and [SYSCALL_KERNEL_RSP]:
    [entry] is the address of the stub, [stack] that of [SYSCALL_STACK]. *)
Definition init `{Profile} (entry stack : Z) (msrs : Z → Z) : outcome ((Z → Z) * Z) :=
  let msrs := wrmsr IA32_EFER (Z.lor (rdmsr msrs IA32_EFER) 1) msrs in
  let msrs := wrmsr IA32_STAR (Z.lor (Z.shiftl 0x20 48) (Z.shiftl 0x8 32)) msrs in
  let msrs := wrmsr IA32_LSTAR entry msrs in
  let msrs := wrmsr IA32_SFMASK 0x200 msrs in
  top ← add 64 stack STACK_SIZE;
  Ret (msrs, Z.land top (bnot 64 0xF)).

(** ** The processor *)

Inductive reg :=
  | RAX | RCX | RDX | RBX | RSP | RBP | RSI | RDI | R8 | R9 | R10 | R11 | R12 | R13 | R14 | R15
  | RIP | RFLAGS | CS | SS.

#[global] Instance reg_eq_dec : EqDecision reg.
Proof. solve_decision. Defined.

Abbreviation Regs := (reg → Z).

(** Registers, memory as 64-bit words, and [SYSCALL_USER_RSP]. *)
Record Machine := mkMachine { regs : Regs; mem : Memory; SYSCALL_USER_RSP : Z }.

Definition set (r : reg) (v : Z) (s : Machine) : Machine :=
  mkMachine (<[r := v]> (regs s)) (mem s) (SYSCALL_USER_RSP s).

(** [movq %src, %dst], [pushq %r], [popq %r]. *)
Definition mov (src dst : reg) (s : Machine) : Machine := set dst (regs s src) s.

Definition push (r : reg) (s : Machine) : Machine :=
  let sp := regs s RSP - 8 in
  mkMachine (<[RSP := sp]> (regs s)) (<[sp := regs s r]> (mem s)) (SYSCALL_USER_RSP s).

Definition pop (r : reg) (s : Machine) : Machine :=
  let sp := regs s RSP in
  mkMachine (<[RSP := sp + 8]> (<[r := load (mem s) sp]> (regs s))) (mem s) (SYSCALL_USER_RSP s).

(** The SYSCALL instruction, [next] the address after it. *)
Definition syscall_instr (msr : Z → Z) (next : Z) (s : Machine) : Machine :=
  let s := set RCX next s in
  let s := set R11 (regs s RFLAGS) s in
  let s := set RFLAGS (Z.land (regs s RFLAGS) (bnot 64 (msr IA32_SFMASK))) s in
  let s := set RIP (msr IA32_LSTAR) s in
  let sel := Z.land (Z.shiftr (msr IA32_STAR) 32) 0xFFFC in
  set CS sel (set SS (sel + 8) s).

(** SYSRET to 64-bit mode, for a canonical RCX; the architecture faults in
    ring 0 on another one, which SYSCALL leaves in RCX only for an instruction
    that ends at the top of the lower half. *)
Definition sysret_instr (msr : Z → Z) (s : Machine) : Machine :=
  let s := set RIP (regs s RCX) s in
  let s := set RFLAGS (Z.lor (Z.land (regs s R11) 0x3C7FD7) 2) s in
  let sel := Z.shiftr (msr IA32_STAR) 48 in
  set CS (Z.lor (sel + 16) 3) (set SS (Z.lor (sel + 8) 3) s).

(** The stub, up to the call and after it. *)
Definition entry_prologue (kernel_rsp : Z) (s : Machine) : Machine :=
  let s := mkMachine (regs s) (mem s) (regs s RSP) in
  let s := set RSP kernel_rsp s in
  let s := push RCX s in
  let s := push R11 s in
  let s := push RBP s in
  let s := push RBX s in
  let s := push R12 s in
  let s := push R13 s in
  let s := push R14 s in
  let s := push R15 s in
  let s := mov RDX RCX s in
  let s := mov RSI RDX s in
  let s := mov RDI RSI s in
  mov RAX RDI s.

Definition entry_epilogue (msr : Z → Z) (s : Machine) : Machine :=
  let s := pop R15 s in
  let s := pop R14 s in
  let s := pop R13 s in
  let s := pop R12 s in
  let s := pop RBX s in
  let s := pop RBP s in
  let s := pop R11 s in
  let s := pop RCX s in
  let s := set RSP (SYSCALL_USER_RSP s) s in
  sysret_instr msr s.

(** [call] is [callq syscall_dispatch]: the dispatcher and its return. *)
Definition syscall_entry (call : Machine → Machine) (msr : Z → Z) (kernel_rsp : Z) (s : Machine)
    : Machine :=
  entry_epilogue msr (call (entry_prologue kernel_rsp s)).

(** ** Facts about the stub *)

(** Reading the machine after one instruction. *)
Lemma set_eq r v s : regs (set r v s) r = v.
Proof. apply fn_lookup_insert. Qed.
Lemma set_ne r v s q : r ≠ q → regs (set r v s) q = regs s q.
Proof. apply fn_lookup_insert_ne. Qed.
Lemma push_sp r s : regs (push r s) RSP = regs s RSP - 8.
Proof. apply fn_lookup_insert. Qed.
Lemma push_ne r s q : RSP ≠ q → regs (push r s) q = regs s q.
Proof. apply fn_lookup_insert_ne. Qed.
Lemma push_mem r s : mem (push r s) = <[regs s RSP - 8 := regs s r]> (mem s).
Proof. done. Qed.
Lemma pop_sp r s : regs (pop r s) RSP = regs s RSP + 8.
Proof. apply fn_lookup_insert. Qed.
Lemma pop_eq r s : RSP ≠ r → regs (pop r s) r = load (mem s) (regs s RSP).
Proof. intros. unfold pop. cbn [regs]. by rewrite fn_lookup_insert_ne, fn_lookup_insert. Qed.
Lemma pop_ne r s q : RSP ≠ q → r ≠ q → regs (pop r s) q = regs s q.
Proof. intros. unfold pop. cbn [regs]. by rewrite !fn_lookup_insert_ne. Qed.

Ltac reg_simpl :=
  repeat first
    [ rewrite set_eq | rewrite set_ne by discriminate
    | rewrite push_sp | rewrite push_ne by discriminate
    | rewrite pop_sp | rewrite pop_eq by discriminate | rewrite pop_ne by discriminate ];
  cbn [regs].

(** The callee-saved registers, with the stack pointer. *)
Definition callee : list reg := [RSP; RBX; RBP; R12; R13; R14; R15].

Ltac in_list := repeat first [apply list_elem_of_here | assumption | apply list_elem_of_further].

(** The saved registers, lowest address first. *)
Definition saved : list reg := [R15; R14; R13; R12; RBX; RBP; R11; RCX].

Lemma prologue_regs k s :
  let p := entry_prologue k s in
  regs p RSP = k - 64 ∧ SYSCALL_USER_RSP p = regs s RSP ∧
  regs p RDI = regs s RAX ∧ regs p RSI = regs s RDI ∧ regs p RDX = regs s RSI ∧ regs p RCX = regs s RDX.
Proof. unfold entry_prologue, mov. cbv zeta. reg_simpl. repeat split. lia. Qed.

Lemma prologue_frame k s i r :
  saved !! i = Some r → load (mem (entry_prologue k s)) (k - 64 + 8 * Z.of_nat i) = regs s r.
Proof.
  intros Hi. unfold entry_prologue, mov. cbv zeta. cbn [set mem]. rewrite !push_mem. reg_simpl. cbn [set mem].
  do 8 (destruct i as [|i]; [injection Hi as <-;
    repeat first [rewrite load_insert_ne by lia |
      match goal with |- load (<[?a := _]> _) ?b = _ => replace b with a by lia; rewrite load_insert_eq end];
    reflexivity|]).
  done.
Qed.

Lemma epilogue_regs msr s :
  let e := entry_epilogue msr s in
  let w i := load (mem s) (regs s RSP + 8 * i) in
  regs e RIP = w 7 ∧ regs e RFLAGS = Z.lor (Z.land (w 6) 0x3C7FD7) 2 ∧
  regs e RBP = w 5 ∧ regs e RBX = w 4 ∧ regs e R12 = w 3 ∧ regs e R13 = w 2 ∧ regs e R14 = w 1 ∧
  regs e R15 = w 0 ∧ regs e RSP = SYSCALL_USER_RSP s ∧ regs e RAX = regs s RAX ∧
  regs e CS = Z.lor (Z.shiftr (msr IA32_STAR) 48 + 16) 3 ∧
  regs e SS = Z.lor (Z.shiftr (msr IA32_STAR) 48 + 8) 3.
Proof.
  unfold entry_epilogue, sysret_instr. cbv zeta. reg_simpl. cbn [pop mem SYSCALL_USER_RSP].
  rewrite <-!Z.add_assoc. cbn [Z.add Z.mul Pos.add Pos.mul Pos.succ]. rewrite Z.add_0_r. by repeat split.
Qed.

Lemma syscall_instr_regs msr next s :
  let c := syscall_instr msr next s in
  regs c RCX = next ∧ regs c R11 = regs s RFLAGS ∧ regs c RIP = msr IA32_LSTAR ∧
  ∀ r, r ∈ RAX :: RDI :: RSI :: RDX :: callee → regs c r = regs s r.
Proof.
  unfold syscall_instr. cbv zeta. reg_simpl. repeat split.
  intros r Hr. repeat (apply elem_of_cons in Hr as [->|Hr]; [by reg_simpl|]). by apply not_elem_of_nil in Hr.
Qed.

(** ** The system call as the user sees it *)

Section Roundtrip.
(** [callq syscall_dispatch] and the function it computes. *)
Variable call : Machine → Machine.
Variable answer : Z → Z → Z → Z → Z.

(** The System V calling convention: callee-saved registers and the
    caller's frame (here the eight saved words) survive, arguments in rdi, rsi, rdx, rcx, result in rax;
    the dispatcher has no access to [SYSCALL_USER_RSP]. *)
Record sysv : Prop := {
  call_saved s r : r ∈ callee → regs (call s) r = regs s r;
  call_stack s a : regs s RSP <= a < regs s RSP + 64 → load (mem (call s)) a = load (mem s) a;
  call_static s : SYSCALL_USER_RSP (call s) = SYSCALL_USER_RSP s;
  call_result s : regs (call s) RAX = as_u64 (answer (regs s RDI) (regs s RSI) (regs s RDX) (regs s RCX));
}.

Lemma syscall_entry_spec msr k s :
  sysv →
  let e := syscall_entry call msr k s in
  regs e RIP = regs s RCX ∧ regs e RFLAGS = Z.lor (Z.land (regs s R11) 0x3C7FD7) 2 ∧
  (∀ r, r ∈ callee → regs e r = regs s r) ∧
  regs e RAX = as_u64 (answer (regs s RAX) (regs s RDI) (regs s RSI) (regs s RDX)) ∧
  regs e CS = Z.lor (Z.shiftr (msr IA32_STAR) 48 + 16) 3 ∧
  regs e SS = Z.lor (Z.shiftr (msr IA32_STAR) 48 + 8) 3.
Proof.
  intros [Hsaved Hstack Hstatic Hres] e. unfold e, syscall_entry.
  destruct (prologue_regs k s) as (Hsp & Hu & Ha & Hb & Hc & Hd).
  set (p := entry_prologue k s) in *.
  assert (∀ i r, saved !! i = Some r →
    load (mem (call p)) (regs (call p) RSP + 8 * Z.of_nat i) = regs s r) as Hw.
  { intros i r Hi. rewrite (Hsaved p RSP) by in_list. pose proof (lookup_lt_Some _ _ _ Hi) as Hlt.
    cbn [saved length] in Hlt. rewrite Hstack by lia. rewrite Hsp.
    by apply prologue_frame. }
  destruct (epilogue_regs msr (call p)) as (-> & -> & Ebp & Ebx & E12 & E13 & E14 & E15 & Esp & -> & Ecs & Ess).
  pose proof (Hw 7%nat RCX eq_refl) as W7. pose proof (Hw 6%nat R11 eq_refl) as W6.
  change (Z.of_nat 7) with 7 in W7. change (Z.of_nat 6) with 6 in W6. rewrite W6, W7, Hres, Ha, Hb, Hc, Hd.
  do 2 (split; [done|]). split; [|done].
  intros r Hr. repeat (apply elem_of_cons in Hr as [->|Hr]); [..|by apply not_elem_of_nil in Hr].
  - by rewrite Esp, Hstatic.
  - rewrite Ebx. apply (Hw 4%nat RBX eq_refl).
  - rewrite Ebp. apply (Hw 5%nat RBP eq_refl).
  - rewrite E12. apply (Hw 3%nat R12 eq_refl).
  - rewrite E13. apply (Hw 2%nat R13 eq_refl).
  - rewrite E14. apply (Hw 1%nat R14 eq_refl).
  - rewrite E15. apply (Hw 0%nat R15 eq_refl).
Qed.
End Roundtrip.

(** ** The model-specific registers *)

Lemma halves x : u64 x → Z.lor (Z.shiftl (wrap 32 (Z.shiftr x 32)) 32) (wrap 32 x) = x.
Proof.
  intros Hx. apply Z.bits_inj'. intros i Hi. unfold wrap.
  rewrite Z.lor_spec, Z.shiftl_spec by lia. destruct (Z.ltb_spec i 32).
  - by rewrite Z.testbit_neg_r, Z.mod_pow2_bits_low by lia.
  - rewrite (Z.mod_pow2_bits_high x), orb_false_r by lia. destruct (Z.ltb_spec (i - 32) 32).
    + rewrite Z.mod_pow2_bits_low, Z.shiftr_spec by lia. f_equal. lia.
    + rewrite Z.mod_pow2_bits_high by lia. symmetry. apply (uint_testbit 64); [done|lia].
Qed.

Lemma rdmsr_ok msrs r : u64 (msrs r) → rdmsr msrs r = msrs r.
Proof. apply halves. Qed.

Lemma wrmsr_eq r v msrs : u64 v → wrmsr r v msrs r = v.
Proof. intros Hv. unfold wrmsr. rewrite fn_lookup_insert. by apply halves. Qed.

Lemma wrmsr_ne r v msrs q : r ≠ q → wrmsr r v msrs q = msrs q.
Proof. intros. unfold wrmsr. by apply fn_lookup_insert_ne. Qed.

(** What [init] leaves in the registers, and where the stack ends. *)
Lemma init_ok `{Profile} entry stack msr0 :
  u64 entry → u64 (msr0 IA32_EFER) → 0 <= stack → stack + STACK_SIZE < 2 ^ 64 →
  ∃ msr, init entry stack msr0 = Ret (msr, Z.land (stack + STACK_SIZE) (bnot 64 0xF)) ∧
    msr IA32_EFER = Z.lor (msr0 IA32_EFER) 1 ∧ msr IA32_LSTAR = entry ∧ msr IA32_SFMASK = 0x200 ∧
    msr IA32_STAR = Z.lor (Z.shiftl 0x20 48) (Z.shiftl 0x8 32) ∧
    ∀ r, r ∉ [IA32_EFER; IA32_STAR; IA32_LSTAR; IA32_SFMASK] → msr r = msr0 r.
Proof.
  intros He Hm Hs Ht. unfold init. rewrite add_small, bind_Ret by (unfold STACK_SIZE in *; split; lia).
  eexists. split; [done|]. rewrite rdmsr_ok by done.
  assert (u64 (Z.lor (msr0 IA32_EFER) 1)) as Hl by (apply uint_lor; [lia|done|split; lia]).
  repeat split.
  - by rewrite (wrmsr_ne IA32_SFMASK), (wrmsr_ne IA32_LSTAR), (wrmsr_ne IA32_STAR), wrmsr_eq by done.
  - by rewrite (wrmsr_ne IA32_SFMASK), wrmsr_eq by done.
  - intros r Hr. rewrite !not_elem_of_cons in Hr. destruct Hr as (? & ? & ? & ? & _).
    by rewrite !wrmsr_ne by congruence.
Qed.

(** ** Properties *)

(** C17: a system call is transparent: after [init], executing SYSCALL in
    user mode and the entry stub, with any dispatcher that keeps the System V
    calling convention, comes back to the instruction after SYSCALL with the
    user's stack pointer, callee-saved registers and flags (as SYSRET
    restores them), with rax holding the dispatcher's answer to the number
    in rax and the arguments in rdi, rsi, rdx; code and stack selectors are
    those of the descriptor table, which are the ones [enter] used. *)
Theorem syscall_transparent `{Profile} `{G : GdtOps} {laws : GdtLaws G} call answer
    entry stack msr0 next s rip t :
  sysv call answer → u64 entry → u64 (msr0 IA32_EFER) → 0 <= stack → stack + STACK_SIZE < 2 ^ 64 →
  ∃ msr k, init entry stack msr0 = Ret (msr, k) ∧
  let s' := syscall_entry call msr k (syscall_instr msr next s) in
  regs (syscall_instr msr next s) RIP = entry ∧
  regs s' RIP = next ∧
  (∀ r, r ∈ callee → regs s' r = regs s r) ∧
  regs s' RFLAGS = Z.lor (Z.land (regs s RFLAGS) 0x3C7FD7) 2 ∧
  regs s' RAX = as_u64 (answer (regs s RAX) (regs s RDI) (regs s RSI) (regs s RDX)) ∧
  regs s' CS = user_code_selector t ∧ regs s' SS = user_data_selector t ∧
  i_cs (enter (user_code_selector t) (user_data_selector t) rip) = regs s' CS ∧
  i_ss (enter (user_code_selector t) (user_data_selector t) rip) = regs s' SS.
Proof.
  intros Hv He Hm Hs Ht. destruct (user_selectors t) as [Hd Hc].
  destruct (init_ok entry stack msr0 He Hm Hs Ht) as (m & Ei & _ & Hl & _ & Hstar & _).
  eexists m, _. split; [exact Ei|]. intros s'.
  destruct (syscall_instr_regs m next s) as (Hrcx & Hr11 & Hrip & Hr).
  destruct (syscall_entry_spec call answer m (Z.land (stack + STACK_SIZE) (bnot 64 0xF))
    (syscall_instr m next s) Hv) as (H1 & H2 & H3 & H4 & H5 & H6).
  subst s'. cbn [enter i_cs i_ss]. rewrite H1, H2, H4, H5, H6, Hrcx, Hr11, Hstar.
  rewrite (Hr RAX), (Hr RDI), (Hr RSI), (Hr RDX) by in_list. rewrite Hd, Hc.
  split; [by rewrite Hrip|].
  repeat split. intros r Hin. rewrite H3, Hr by in_list. done.
Qed.

(** A dispatcher that touches rax only. *)
Definition demo_answer (nr a1 a2 a3 : Z) : Z := (syscall_dispatch false Scheduler.new initial nr a1 a2 a3).2.
Definition demo_call (s : Machine) : Machine :=
  set RAX (as_u64 (demo_answer (regs s RDI) (regs s RSI) (regs s RDX) (regs s RCX))) s.

Lemma demo_call_sysv : sysv demo_call demo_answer.
Proof.
  split; [|done|done|intros s; apply set_eq]. intros s r Hr. apply set_ne. intros <-.
  repeat (apply elem_of_cons in Hr as [Hr|Hr]; [discriminate Hr|]). by apply not_elem_of_nil in Hr.
Qed.

Definition demo_regs : Regs := λ r, match r with RAX => 5 | RSP => 0x4FFFFFFFF000 | RFLAGS => 0x202 | _ => 7 end.

Lemma syscall_transparent_witness :
  ∃ msr k, @init dev_profile 0xFFFF800000001000 0xFFFF800000100000 (λ _, 0) = Ret (msr, k) ∧
    let s' := syscall_entry demo_call msr k (syscall_instr msr 0x400002 (mkMachine demo_regs ∅ 0)) in
    regs s' RIP = 0x400002 ∧ regs s' RSP = 0x4FFFFFFFF000 ∧ regs s' RAX = 2 ^ 64 - 38 ∧
    regs s' RFLAGS = 0x202 ∧ regs s' CS = 0x33 ∧ regs s' SS = 0x2B.
Proof.
  destruct (@syscall_transparent dev_profile list_gdt list_gdt_laws demo_call demo_answer
    0xFFFF800000001000 0xFFFF800000100000 (λ _, 0) 0x400002 (mkMachine demo_regs ∅ 0) 0x400000
    tss_new demo_call_sysv ltac:(split; lia) ltac:(split; lia) ltac:(lia) ltac:(unfold STACK_SIZE; lia))
    as (msr & k & E & _ & H1 & H2 & H3 & H4 & H5 & H6 & _).
  exists msr, k. split; [exact E|].
  cbv zeta. split; [exact H1|]. split; [exact (H2 RSP (list_elem_of_here _ _))|].
  split; [exact H4|]. split; [exact H3|]. split; [exact H5|exact H6].
Defined.
