(* ===== verification/Ring3.v ===== *)
(** * The user program in ring 3

    What the code mapped by [user::setup] does once [user::enter] has jumped
    to it: instructions are fetched through the page tables, decoded for the
    few encodings the two programs use ([USER_PROGRAM] of [user.rs] and
    [userspace/hello.s] as assembled in [hello.elf]), and system calls go to
    [syscall_dispatch].  Registers a system call may clobber get arbitrary
    values; the scheduler's state at each step is arbitrary.

    Shown here: from [setup] on, whichever of the two programs was installed
    makes exactly the calls Yield, ScbaQuery and Exit and then spins; the
    audit trail is those three calls and the exit. *)

From S2P Require Import Prelude Meal Machine Task Scheduler Frames Paging Elf User Syscall.
From Stdlib Require Import ZArith Lia.
From stdpp Require Import base numbers list gmap.
#[local] Open Scope Z_scope.

(** ** Instructions *)

Inductive Instr := XorRax | XorRdi | MovRax (imm : Z) | MovRdiRax | SyscallI | Jmp (rel : Z).

(** Decoding at [rip]: the instruction and its length. *)
Definition decode (code : Z → option Z) (rip : Z) : option (Instr * Z) :=
  b0 ← code rip;
  b1 ← code (rip + 1);
  if b0 =? 0xEB then Some (Jmp (sext8 b1), 2)
  else if b0 =? 0x0F then (if b1 =? 0x05 then Some (SyscallI, 2) else None)
  else if b0 =? 0x48 then
    b2 ← code (rip + 2);
    if b1 =? 0x31 then
      (if b2 =? 0xC0 then Some (XorRax, 3) else if b2 =? 0xFF then Some (XorRdi, 3) else None)
    else if b1 =? 0x89 then (if b2 =? 0xC7 then Some (MovRdiRax, 3) else None)
    else if b1 =? 0xC7 then
      if b2 =? 0xC0 then
        b3 ← code (rip + 3); b4 ← code (rip + 4); b5 ← code (rip + 5); b6 ← code (rip + 6);
        Some (MovRax (sext32 (of_le [b3; b4; b5; b6])), 7)
      else None
    else None
  else None.

(** ** Execution *)

Record Ring3 := mkRing3 {
  r3_rax : Z; r3_rdi : Z; r3_rip : Z; r3_kernel : SyscallState; r3_trail : list Audit }.

(** The outside world at step [k]: whether the scheduler's lock is held, the
    scheduler, and what a system call leaves in rdi, rsi and rdx. *)
Record World := mkWorld {
  w_locked : nat → bool; w_sched : nat → Scheduler; w_rdi : nat → Z; w_rsi : nat → Z; w_rdx : nat → Z }.

Definition step (w : World) (code : Z → option Z) (k : nat) (s : Ring3) : option Ring3 :=
  '(i, len) ← decode code (r3_rip s);
  let next := r3_rip s + len in
  Some match i with
  | XorRax => mkRing3 0 (r3_rdi s) next (r3_kernel s) (r3_trail s)
  | XorRdi => mkRing3 (r3_rax s) 0 next (r3_kernel s) (r3_trail s)
  | MovRax imm => mkRing3 (as_u64 imm) (r3_rdi s) next (r3_kernel s) (r3_trail s)
  | MovRdiRax => mkRing3 (r3_rax s) (r3_rax s) next (r3_kernel s) (r3_trail s)
  | Jmp rel => mkRing3 (r3_rax s) (r3_rdi s) (next + rel) (r3_kernel s) (r3_trail s)
  | SyscallI =>
    let '(st, audits, ret) := syscall_dispatch (w_locked w k) (w_sched w k) (r3_kernel s)
                                (r3_rax s) (r3_rdi s) (w_rsi w k) (w_rdx w k) in
    mkRing3 (as_u64 ret) (w_rdi w k) next st (r3_trail s ++ audits)
  end.

(** The first [n] steps. *)
Fixpoint run (w : World) (code : Z → option Z) (n : nat) (s : Ring3) : option Ring3 :=
  match n with
  | O => Some s
  | S n => s ← run w code n s; step w code n s
  end.

(** Right after [iretq]. *)
Definition started (rax rdi entry : Z) : Ring3 := mkRing3 rax rdi entry initial [].

(** The byte user code fetches at virtual address [a]. *)
Definition fetch `{P : Paging} {laws : PagingLaws P} (phys : Z) (st : Pt * Memory) (a : Z) : option Z :=
  '(f, fl) ← mapping st.1 !! (a - a mod PAGE);
  if PRESENT fl && USER_ACCESSIBLE fl && negb (NO_EXECUTE fl)
  then Some (load st.2 (phys + f + a mod PAGE)) else None.

(** ** Facts *)

Lemma decode_knows code' code rip : knows code' code → answers (decode code' rip) (decode code rip).
Proof. intros Hk. unfold knows in Hk. unfold decode. decoder_knows; apply Hk. Qed.

Lemma step_knows w code' code k s s' : knows code' code → step w code k s = Some s' → step w code' k s = Some s'.
Proof.
  intros Hk. unfold step. intros Hs. apply bind_Some in Hs as ([i len] & Hd & Hs).
  by rewrite (decode_knows code' code _ Hk _ Hd).
Qed.

Lemma run_knows w code' code n s s' : knows code' code → run w code n s = Some s' → run w code' n s = Some s'.
Proof.
  intros Hk. revert s'. induction n as [|n IH]; intros s'; [done|]. cbn [run].
  intros (s1 & H1 & H2)%bind_Some. rewrite (IH s1 H1). simpl. by eapply step_knows.
Qed.

(** A state that steps to itself stays. *)
Lemma run_spins w code n m s s' :
  run w code n s = Some s' → (∀ k, step w code k s' = Some s') → (n <= m)%nat → run w code m s = Some s'.
Proof. intros Hr Hs. induction 1 as [|m _ IH]; [done|]. cbn [run]. rewrite IH. apply Hs. Qed.

(** ** The two programs *)

Definition hello_code : list Z := take 28 (drop 4096 hello_elf).

Definition eval_hello : list Z := Eval vm_compute in hello_code.

(** Where both programs spin, and what they have done by then: [code] is the
    exit code. *)
Definition at_spin (rax rdi code : Z) : Ring3 :=
  mkRing3 rax rdi (USER_CODE_VIRT + 26) (mkSyscallState 3 11 0 true)
    [mkAudit SyscallDispatched 3 0 0; mkAudit SyscallDispatched 3 9 0;
     mkAudit SyscallDispatched 3 11 0; mkAudit ProcessExited 3 code 0].

(** What ScbaQuery answers at step [k]. *)
Definition scba_answer (w : World) (k : nat) : Z :=
  if w_locked w k then -1 else as_i64 (total_fences (stats (w_sched w k))).

Lemma hello_code_runs w rax rdi n :
  (7 <= n)%nat →
  run w (prog_at USER_CODE_VIRT hello_code) n (started rax rdi USER_CODE_VIRT)
  = Some (at_spin 0 (w_rdi w 6) (as_u64 (scba_answer w 3))).
Proof.
  replace hello_code with (eval_hello) by (vm_compute; reflexivity). unfold eval_hello.
  apply run_spins; [|intros k; reflexivity]. unfold scba_answer.
  cbn [run]. reflexivity.
Qed.

Lemma fallback_code_runs w rax rdi n :
  (7 <= n)%nat →
  run w (prog_at USER_CODE_VIRT USER_PROGRAM) n (started rax rdi USER_CODE_VIRT)
  = Some (at_spin 0 (w_rdi w 6) 0).
Proof. apply run_spins; [|intros k; reflexivity]. reflexivity. Qed.

Lemma hello_phdr :
  phdr_at hello_elf (phdr_off hello_elf 0) = mkPhdr 5 4096 USER_CODE_VIRT 28 28 4096 ∧
  field hello_elf (phdr_off hello_elf 0) 4 = PT_LOAD ∧ field hello_elf 56 2 = 1 ∧
  field hello_elf 24 8 = USER_CODE_VIRT.
Proof. vm_compute. repeat split. Qed.

Section Mapped.
Context `{P : Paging} {laws : PagingLaws P}.

(** What user code can fetch after the executable, or the fallback, was
    installed. *)
Lemma loaded_knows phys st st' e :
  loaded phys hello_elf st st' e → knows (fetch phys st') (prog_at USER_CODE_VIRT hello_code).
Proof.
  destruct hello_phdr as (Hp & Hl & Hn & He). intros (_ & -> & Hs) a b.
  intros [Ha Hb]%prog_at_Some.
  assert (length hello_code = 28%nat) as Hlen by (vm_compute; reflexivity). rewrite Hlen in Ha.
  pose proof (Hs 0%nat ltac:(lia) Hl) as Hseg. rewrite Hp in Hseg.
  destruct (Hseg a) as (f & Hm & _ & _ & _ & Hc); cbn [p_vaddr p_memsz p_filesz p_offset p_flags] in *; [lia|].
  rewrite decide_True in Hc by lia. unfold fetch. rewrite Hm. simpl. rewrite Hc. f_equal.
  unfold hello_code in Hb. rewrite lookup_take_lt, lookup_drop in Hb by lia.
  rewrite list_lookup_total_alt. replace (Z.to_nat (4096 + _)) with (4096 + Z.to_nat (a - USER_CODE_VIRT))%nat by lia.
  by rewrite Hb.
Qed.

Lemma fallback_knows phys s0 st' :
  page_holds phys s0 st' USER_CODE_VIRT fallback_flags fallback_byte →
  knows (fetch phys st') (prog_at USER_CODE_VIRT USER_PROGRAM).
Proof.
  intros (f & Hm & _ & _ & _ & Hc) a b [Ha Hb]%prog_at_Some. change (length USER_PROGRAM) with 28%nat in Ha.
  assert (a mod PAGE = a - USER_CODE_VIRT) as Hmod.
  { unfold PAGE. symmetry. apply (Z.mod_unique_pos _ _ 0x400000000); [lia|].
    assert (USER_CODE_VIRT = 4096 * 0x400000000) by reflexivity. lia. }
  unfold fetch. rewrite Hmod. replace (a - (a - USER_CODE_VIRT)) with USER_CODE_VIRT by lia. rewrite Hm. simpl.
  rewrite Hc by (unfold PAGE; lia). unfold fallback_byte. rewrite decide_True by (simpl; lia).
  by rewrite list_lookup_total_alt, Hb.
Qed.
End Mapped.

(** The program of a set-up user space, whichever it is, ends in its loop. *)
Lemma user_program_ok `{Profile} `{P : Paging} {laws : PagingLaws P} phys st st' entry w rax rdi n :
  overflow_checks = true → pt_inv st.1 → setup hello_elf phys st = Ret (st', entry) → (7 <= n)%nat →
  ∃ code, run w (fetch phys st') n (started rax rdi entry) = Some (at_spin 0 (w_rdi w 6) code) ∧
    (code = as_u64 (scba_answer w 3) ∨ code = 0).
Proof.
  intros Hc Hs E Hn. pose proof (setup_post hello_elf phys st Hc hello_bytes Hs) as Hp.
  rewrite E in Hp. destruct Hp as [_ _ Hcode].
  destruct Hcode as [Hl|[-> Hf]].
  - assert (entry = USER_CODE_VIRT) as -> by (destruct Hl as (_ & -> & _); apply hello_phdr).
    eexists. split; [|by left]. eapply run_knows; [by eapply loaded_knows|]. by apply hello_code_runs.
  - eexists. split; [|by right]. eapply run_knows; [by eapply fallback_knows|]. by apply fallback_code_runs.
Qed.

(** ** Properties *)

(** end to end: once [setup] with the shipped executable has returned,
    the code ring 3 enters with [enter]'s frame makes the three calls Yield,
    ScbaQuery, Exit and then spins, and nothing else, whatever the register
    contents, the scheduler's state at each step and what system calls
    leave in scratch registers; the exit code is ScbaQuery's answer, or 0
    for the hand-coded program. *)
Theorem user_program_runs `{Profile} `{P : Paging} {laws : PagingLaws P} phys st st' entry cs ss w rax rdi n :
  overflow_checks = true → pt_inv st.1 → setup hello_elf phys st = Ret (st', entry) → (7 <= n)%nat →
  ∃ code, run w (fetch phys st') n (started rax rdi (i_rip (enter cs ss entry)))
          = Some (at_spin 0 (w_rdi w 6) code) ∧
    (code = as_u64 (scba_answer w 3) ∨ code = 0).
Proof.
  intros Hc Hs E Hn. by apply (user_program_ok phys st).
Qed.

Lemma user_program_runs_witness :
  ∃ st', boot_setup = Ret (st', USER_CODE_VIRT) ∧
    ∀ n, (7 <= n)%nat → ∃ code,
      run (mkWorld (λ _, false) (λ _, Scheduler.new) (λ _, 0) (λ _, 0) (λ _, 0))
        (@fetch boot_paging boot_paging_laws sample_phys st') n
        (started 0 0 (i_rip (enter 0x33 0x2B USER_CODE_VIRT)))
      = Some (at_spin 0 0 code) ∧ (code = as_u64 0 ∨ code = 0).
Proof.
  destruct boot_setup_entry as [st' E]. exists st'. split; [exact E|]. intros n Hn.
  unfold boot_setup in E.
  exact (@user_program_runs dev_profile boot_paging boot_paging_laws sample_phys (boot_start, ∅) st'
    USER_CODE_VIRT 0x33 0x2B (mkWorld (λ _, false) (λ _, Scheduler.new) (λ _, 0) (λ _, 0) (λ _, 0)) 0 0 n
    eq_refl boot_start_inv E Hn).
Defined.
