(* ===== verification/Interrupts.v ===== *)
(** * Interrupts and exceptions

    Model of [kernel/src/interrupts.rs]: the interrupt descriptor table, the
    four exception handlers and, through [Scheduler], the timer.  The
    processor's side (choice of the stack, the pushed frame, [iretq], the
    escalation of a vector without a gate) follows the architecture manual;
    the crate's table type is the interface [IdtOps].  A compiled handler is
    an argument, with what the x86-interrupt convention promises of it as
    hypothesis.  Serial output is not represented.

    Shown here: a breakpoint or a timer tick that switches no task resumes
    the interrupted code where it was, with its stack, flags and memory, from
    either ring; every other vector ends in a halted machine, and an audit
    entry is made exactly when ring 3 raised one without a handler; the
    table the kernel loads makes the processor write a frame only within the
    stack meant for it. *)

From S2P Require Import Prelude Meal Machine Task Scheduler Gdt Syscall.
From Stdlib Require Import ZArith Lia.
From stdpp Require Import base numbers list gmap functions.
#[local] Open Scope Z_scope.

(** ** Vectors *)

Definition PIC_1_OFFSET : Z := 32.
Definition PIC_2_OFFSET : Z := PIC_1_OFFSET + 8.

Inductive InterruptIndex := Timer.

Definition as_u8 (i : InterruptIndex) : Z := match i with Timer => PIC_1_OFFSET end.
Definition as_usize (i : InterruptIndex) : nat := Z.to_nat (as_u8 i).

(** Where the processor reports the exceptions the table has fields for, and
    the one it raises for a missing gate. *)
Definition BREAKPOINT : Z := 3.
Definition DOUBLE_FAULT : Z := 8.
Definition SEGMENT_NOT_PRESENT : Z := 11.
Definition GENERAL_PROTECTION : Z := 13.
Definition PAGE_FAULT : Z := 14.

(** ** The table *)

Inductive Handler := Hbreakpoint | Hdouble_fault | Hpage_fault | Hgeneral_protection_fault | Htimer.

Class IdtOps := {
  Idt : Type;
  idt_new : Idt;
  (** [entry.set_handler_fn(h)] on the entry of a vector: an interrupt gate. *)
  set_handler_fn : Idt → Z → Handler → Idt;
  (** [.set_stack_index(n)]. *)
  set_stack_index : Idt → Z → Z → Idt;
}.

Class IdtLaws (I : IdtOps) := {
  (** The gate of a vector: its handler and its IST entry. *)
  gate : Idt → Z → option (Handler * option Z);
  gate_new v : gate idt_new v = None;
  gate_set i v h w : gate (set_handler_fn i v h) w = if w =? v then Some (h, None) else gate i w;
  gate_index i v n w : gate (set_stack_index i v n) w
    = if w =? v then (λ g, (g.1, Some n)) <$> gate i w else gate i w;
}.

Definition IDT `{IdtOps} : Idt :=
  let idt := idt_new in
  let idt := set_handler_fn idt BREAKPOINT Hbreakpoint in
  let idt := set_handler_fn idt GENERAL_PROTECTION Hgeneral_protection_fault in
  let idt := set_handler_fn idt PAGE_FAULT Hpage_fault in
  let idt := set_stack_index (set_handler_fn idt DOUBLE_FAULT Hdouble_fault)
               DOUBLE_FAULT DOUBLE_FAULT_IST_INDEX in
  set_handler_fn idt (as_u8 Timer) Htimer.

(** What IDTR holds after [init_idt]. *)
Definition init_idt `{IdtOps} : Idt := IDT.

(** ** The handlers *)

Record InterruptStackFrame := mkInterruptStackFrame {
  instruction_pointer : Z; code_segment : Z; cpu_flags : Z; stack_pointer : Z; stack_segment : Z }.

(** What the handlers share with the rest of the kernel: [TICKS], the
    scheduler and whether its lock is held. *)
Record Kernel := mkKernel { k_ticks : Z; k_locked : bool; k_sched : Scheduler }.

(** A handler returns, or ends in [loop { hlt }] with interrupts off. *)
Inductive Handled := Returns (k : Kernel) (events : list Event) | Halts (audits : list Audit).

Definition breakpoint_handler (stack_frame : InterruptStackFrame) (k : Kernel) : Handled := Returns k [].

Definition double_fault_handler (stack_frame : InterruptStackFrame) : Handled :=
  let from_user := rpl (code_segment stack_frame) =? 3 in
  Halts (if from_user then [mkAudit ProcessExited 3 0xFF 0] else []).

Definition page_fault_handler (stack_frame : InterruptStackFrame) : Handled := Halts [].

Definition general_protection_fault_handler (stack_frame : InterruptStackFrame) : Handled := Halts [].

Definition run_handler `{Profile} (h : Handler) (f : InterruptStackFrame) (k : Kernel) : outcome Handled :=
  match h with
  | Hbreakpoint => Ret (breakpoint_handler f k)
  | Hdouble_fault => Ret (double_fault_handler f)
  | Hpage_fault => Ret (page_fault_handler f)
  | Hgeneral_protection_fault => Ret (general_protection_fault_handler f)
  | Htimer =>
    '(ticks, sched, events) ← timer_interrupt_handler (k_ticks k) (k_locked k) (k_sched k);
    Ret (Returns (mkKernel ticks (k_locked k) sched) events)
  end.

(** ** The processor *)

(** The frame an interrupt at [s] pushes. *)
Definition frame_of (s : Machine) : InterruptStackFrame :=
  mkInterruptStackFrame (regs s RIP) (regs s CS) (regs s RFLAGS) (regs s RSP) (regs s SS).

Definition push_val (v : Z) (s : Machine) : Machine :=
  let sp := regs s RSP - 8 in
  mkMachine (<[RSP := sp]> (regs s)) (<[sp := v]> (mem s)) (SYSCALL_USER_RSP s).

(** The stack of the handler: its IST entry, RSP0 out of ring 3, or the
    interrupted one; aligned down to sixteen bytes. *)
Definition handler_stack (t : TaskStateSegment) (ist : option Z) (s : Machine) : Z :=
  let base := match ist with
    | Some n => interrupt_stack_table t !!! Z.to_nat n
    | None => if rpl (regs s CS) =? 3 then privilege_stack_table t !!! 0%nat else regs s RSP
    end in
  Z.land base (bnot 64 0xF).

(** IF, TF, NT and RF. *)
Definition CLEARED_FLAGS : Z := 0x14300.

(** Delivery through an interrupt gate: [cs] is the gate's selector, [addr]
    the handler's address. *)
Definition deliver (t : TaskStateSegment) (cs addr : Z) (ist error : option Z) (s : Machine) : Machine :=
  let f := frame_of s in
  let s := set RSP (handler_stack t ist s) s in
  let s := push_val (stack_segment f) s in
  let s := push_val (stack_pointer f) s in
  let s := push_val (cpu_flags f) s in
  let s := push_val (code_segment f) s in
  let s := push_val (instruction_pointer f) s in
  let s := match error with Some e => push_val e s | None => s end in
  let s := set RFLAGS (Z.land (cpu_flags f) (bnot 64 CLEARED_FLAGS)) s in
  let s := if rpl (code_segment f) =? 3 then set SS 0 s else s in
  set RIP addr (set CS cs s).

Definition iretq (s : Machine) : Machine :=
  let w i := load (mem s) (regs s RSP + 8 * Z.of_nat i) in
  set SS (w 4%nat) (set RFLAGS (w 2%nat) (set CS (w 1%nat) (set RIP (w 0%nat) (set RSP (w 3%nat) s)))).

(** Exceptions 10 to 14 raised while another is delivered give a double
    fault; the other ones are delivered anew. *)
Definition contributory (v : Z) : bool := (10 <=? v) && (v <=? 14).

(** The vector that is served: a missing gate raises #NP, and a missing gate
    for a double fault resets the machine. *)
Definition resolve (gate : Z → option (Handler * option Z)) (v : Z) : option (Z * Handler * option Z) :=
  let gated v := (λ g, (v, g.1, g.2)) <$> gate v in
  match gated v with
  | Some g => Some g
  | None =>
    if v =? DOUBLE_FAULT then None
    else if contributory v then gated DOUBLE_FAULT
    else match gated SEGMENT_NOT_PRESENT with
         | Some g => Some g
         | None => gated DOUBLE_FAULT
         end
  end.

Inductive Interrupted :=
  | Resumed (s : Machine) (k : Kernel)
  | Switched (k : Kernel) (events : list Event)
  | Halted (audits : list Audit)
  | Shutdown.

Definition is_switch (e : Event) : bool := match e with Exec (Switch _ _) => true | _ => false end.

(** One interrupt from beginning to end.  [isr h] is the compiled handler,
    from its entry to its [iretq].  What the handlers print (the frame, by the
    formatter of the x86_64 crate) is left out: the serial port is no part of
    the state. *)
Definition interrupt `{Profile} (t : TaskStateSegment) (cs : Z) (addr : Handler → Z)
    (isr : Handler → Machine → Machine) (gate : Z → option (Handler * option Z))
    (v : Z) (error : option Z) (s : Machine) (k : Kernel) : outcome Interrupted :=
  match resolve gate v with
  | None => Ret Shutdown
  | Some (served, h, ist) =>
    let error := if served =? v then error else Some 0 in
    r ← run_handler h (frame_of s) k;
    Ret match r with
    | Halts audits => Halted audits
    | Returns k events =>
      if existsb is_switch events then Switched k events
      else Resumed (iretq (isr h (deliver t cs (addr h) ist error s))) k
    end
  end.

(** ** Facts *)

Lemma push_val_sp v s : regs (push_val v s) RSP = regs s RSP - 8.
Proof. apply fn_lookup_insert. Qed.
Lemma push_val_ne v s r : RSP ≠ r → regs (push_val v s) r = regs s r.
Proof. apply fn_lookup_insert_ne. Qed.
Lemma push_val_mem v s : mem (push_val v s) = <[regs s RSP - 8 := v]> (mem s).
Proof. done. Qed.
Lemma set_mem r v s : mem (set r v s) = mem s.
Proof. done. Qed.

Ltac isr_simpl :=
  repeat first
    [ rewrite Syscall.set_eq | rewrite Syscall.set_ne by discriminate
    | rewrite push_val_sp | rewrite push_val_ne by discriminate ];
  cbn [regs].

Section Delivery.
Variables (t : TaskStateSegment) (cs addr : Z).

Abbreviation entry ist s := (deliver t cs addr ist None s).

Lemma deliver_sp ist error s :
  regs (deliver t cs addr ist error s) RSP
  = handler_stack t ist s - match error with Some _ => 48 | None => 40 end.
Proof. unfold deliver. cbv zeta. destruct (rpl _ =? 3), error; isr_simpl; lia. Qed.

(** Delivery writes the frame and nothing else. *)
Lemma deliver_mem ist error s a :
  ¬ (handler_stack t ist s - 48 <= a < handler_stack t ist s) →
  load (mem (deliver t cs addr ist error s)) a = load (mem s) a.
Proof.
  intros Ha. unfold deliver. cbv zeta.
  destruct (rpl _ =? 3), error; cbn [set mem]; rewrite !push_val_mem; isr_simpl;
    rewrite !load_insert_ne by (simpl; lia); done.
Qed.

Lemma deliver_frame ist s i v :
  [regs s RIP; regs s CS; regs s RFLAGS; regs s RSP; regs s SS] !! i = Some v →
  load (mem (entry ist s)) (regs (entry ist s) RSP + 8 * Z.of_nat i) = v.
Proof.
  rewrite deliver_sp. unfold deliver. cbv zeta. set (b := handler_stack t ist s). intros Hi.
  destruct (rpl _ =? 3); cbn [set mem]; rewrite !push_val_mem; isr_simpl; cbn [set mem frame_of
    instruction_pointer code_segment cpu_flags stack_pointer stack_segment].
  all: do 5 (destruct i as [|i]; [injection Hi as <-;
    repeat first [rewrite load_insert_ne by lia |
      match goal with |- load (<[?a := _]> _) ?b = _ => replace b with a by lia; rewrite load_insert_eq end];
    reflexivity|]); done.
Qed.

Lemma deliver_regs ist s r :
  r ∉ [RSP; RFLAGS; SS; RIP; CS] → regs (entry ist s) r = regs s r.
Proof.
  intros Hr. rewrite !not_elem_of_cons in Hr. destruct Hr as (? & ? & ? & ? & ? & _).
  unfold deliver. cbv zeta.
  destruct (rpl _ =? 3); repeat first [rewrite Syscall.set_ne by congruence | rewrite push_val_ne by congruence];
    done.
Qed.

(** What a compiled handler does to the machine between its entry and its
    [iretq]: it leaves the stack pointer where it found it, and writes only
    the [depth] bytes of stack below it and the kernel's variables ([TICKS],
    the scheduler, the serial port's lock). *)
Variables (kernel_vars : Z → Prop) (depth : Z).

Record x86_interrupt (isr : Machine → Machine) : Prop := {
  isr_rsp s : regs (isr s) RSP = regs s RSP;
  isr_mem s a : ¬ kernel_vars a → ¬ (regs s RSP - depth <= a < regs s RSP) →
    load (mem (isr s)) a = load (mem s) a;
}.

(** The handler has left the frame alone, so [iretq] finds it. *)
Lemma iretq_frame ist s isr :
  x86_interrupt isr →
  (∀ a, handler_stack t ist s - 40 <= a < handler_stack t ist s → ¬ kernel_vars a) →
  ∀ r, r ∈ [RSP; RFLAGS; SS; RIP; CS] → regs (iretq (isr (entry ist s))) r = regs s r.
Proof.
  intros [Hr Hm] Hfree r Hin. unfold iretq. cbv zeta. rewrite Hr.
  assert (∀ i v, [regs s RIP; regs s CS; regs s RFLAGS; regs s RSP; regs s SS] !! i = Some v →
    load (mem (isr (entry ist s))) (regs (entry ist s) RSP + 8 * Z.of_nat i) = v) as Hf.
  { intros i v Hi. pose proof (lookup_lt_Some _ _ _ Hi) as Hlt. cbn in Hlt.
    rewrite Hm; [by apply deliver_frame| |lia]. apply Hfree. rewrite deliver_sp. lia. }
  rewrite (Hf 0%nat (regs s RIP) eq_refl), (Hf 1%nat (regs s CS) eq_refl),
    (Hf 2%nat (regs s RFLAGS) eq_refl), (Hf 3%nat (regs s RSP) eq_refl), (Hf 4%nat (regs s SS) eq_refl).
  repeat (apply elem_of_cons in Hin as [->|Hin]; [by isr_simpl|]). by apply not_elem_of_nil in Hin.
Qed.

(** The other registers come back as the handler leaves them. *)
Lemma iretq_kept ist s isr r :
  r ∉ [RSP; RFLAGS; SS; RIP; CS] → (∀ s, regs (isr s) r = regs s r) →
  regs (iretq (isr (entry ist s))) r = regs s r.
Proof.
  intros Hni Hr. pose proof (deliver_regs ist s r Hni) as Hd. rewrite !not_elem_of_cons in Hni.
  destruct Hni as (? & ? & ? & ? & ? & _). unfold iretq. cbv zeta.
  rewrite !Syscall.set_ne by congruence. by rewrite Hr.
Qed.

Lemma iretq_mem ist s isr a :
  x86_interrupt isr → 0 <= depth → ¬ kernel_vars a →
  ¬ (handler_stack t ist s - 48 - depth <= a < handler_stack t ist s) →
  load (mem (iretq (isr (entry ist s)))) a = load (mem s) a.
Proof.
  intros [_ Hm] Hd Hk Ha. unfold iretq. cbv zeta. rewrite !set_mem, Hm.
  - apply deliver_mem. lia.
  - done.
  - rewrite deliver_sp. lia.
Qed.
End Delivery.

(** ** The table of the source *)

Section Table.
Context `{I : IdtOps} {idt_laws : IdtLaws I}.

Lemma gate_IDT v :
  gate IDT v =
    if v =? 32 then Some (Htimer, None) else
    if v =? DOUBLE_FAULT then Some (Hdouble_fault, Some DOUBLE_FAULT_IST_INDEX) else
    if v =? PAGE_FAULT then Some (Hpage_fault, None) else
    if v =? GENERAL_PROTECTION then Some (Hgeneral_protection_fault, None) else
    if v =? BREAKPOINT then Some (Hbreakpoint, None) else None.
Proof.
  unfold IDT. cbv zeta. rewrite !gate_set, gate_index, !gate_set, gate_new.
  change (as_u8 Timer) with 32. destruct (v =? 32); [done|].
  by destruct (v =? DOUBLE_FAULT).
Qed.

(** Every vector is served. *)
Lemma resolve_IDT v :
  resolve (gate init_idt) v =
    if v =? BREAKPOINT then Some (v, Hbreakpoint, None) else
    if v =? 32 then Some (v, Htimer, None) else
    if v =? GENERAL_PROTECTION then Some (v, Hgeneral_protection_fault, None) else
    if v =? PAGE_FAULT then Some (v, Hpage_fault, None) else
    Some (DOUBLE_FAULT, Hdouble_fault, Some DOUBLE_FAULT_IST_INDEX).
Proof.
  unfold resolve, init_idt. cbv zeta. rewrite !gate_IDT.
  destruct (Z.eqb_spec v 32) as [->|]; [done|].
  destruct (Z.eqb_spec v DOUBLE_FAULT) as [->|]; [done|].
  destruct (Z.eqb_spec v PAGE_FAULT) as [->|]; [done|].
  destruct (Z.eqb_spec v GENERAL_PROTECTION) as [->|]; [done|].
  destruct (Z.eqb_spec v BREAKPOINT) as [->|]; [done|].
  cbn. by destruct (contributory v).
Qed.

Variables (t : TaskStateSegment) (cs : Z) (addr : Handler → Z) (isr : Handler → Machine → Machine).

Lemma timer_quiet `{Profile} k :
  k_locked k = true ∨ (length (tasks (k_sched k)) < 2)%nat →
  timer_interrupt_handler (k_ticks k) (k_locked k) (k_sched k)
  = Ret (wadd 64 (k_ticks k) 1, k_sched k, [Eoi 0x20 0x20]).
Proof.
  intros Hq. unfold timer_interrupt_handler. destruct (k_locked k); [done|].
  destruct Hq as [?|Hlt]; [done|]. unfold prepare_switch. by rewrite (proj2 (Nat.ltb_lt _ _) Hlt).
Qed.

(** The two vectors whose handlers return. *)
Definition resuming (v : Z) : Prop := v = BREAKPOINT ∨ v = as_u8 Timer.

Definition after (v : Z) (k : Kernel) : Kernel :=
  if v =? BREAKPOINT then k else mkKernel ((k_ticks k + 1) mod 2 ^ 64) (k_locked k) (k_sched k).

(** A tick that switches no task: the scheduler is locked, or has no second
    task. *)
Definition quiet (k : Kernel) : Prop := k_locked k = true ∨ (length (tasks (k_sched k)) < 2)%nat.

Definition handler_of (v : Z) : Handler := if v =? BREAKPOINT then Hbreakpoint else Htimer.

Lemma interrupt_resumes `{Profile} v s k :
  resuming v → (v ≠ BREAKPOINT → quiet k) →
  interrupt t cs addr isr (gate init_idt) v None s k
  = Ret (Resumed (iretq (isr (handler_of v) (deliver t cs (addr (handler_of v)) None None s))) (after v k)).
Proof.
  intros [-> | ->] Hq; unfold interrupt; rewrite resolve_IDT; [done|].
  change (as_u8 Timer) with 32. cbn [Z.eqb Pos.eqb BREAKPOINT run_handler].
  by rewrite timer_quiet by (by apply Hq).
Qed.

Lemma interrupt_halts `{Profile} v error s k :
  ¬ resuming v →
  interrupt t cs addr isr (gate init_idt) v error s k
  = Ret (Halted (if (v =? GENERAL_PROTECTION) || (v =? PAGE_FAULT) then []
                 else if rpl (regs s CS) =? 3 then [mkAudit ProcessExited 3 0xFF 0] else [])).
Proof.
  intros Hr. unfold interrupt. rewrite resolve_IDT. change (as_u8 Timer) with 32 in *.
  destruct (Z.eqb_spec v BREAKPOINT) as [->|]; [by destruct Hr; left|].
  destruct (Z.eqb_spec v 32) as [->|]; [by destruct Hr; right|].
  destruct (Z.eqb_spec v GENERAL_PROTECTION) as [->|]; [done|].
  by destruct (Z.eqb_spec v PAGE_FAULT) as [->|].
Qed.
End Table.

(** ** Where the frames go *)

Lemma handler_stack_bounds b size : 0 <= b → 64 <= size → b + size < 2 ^ 64 →
  b <= Z.land (b + size) (bnot 64 0xF) - 48 ∧ Z.land (b + size) (bnot 64 0xF) <= b + size.
Proof.
  intros. change 0xF with (Z.ones 4). rewrite land_down by (split; lia).
  change (2 ^ 4) with 16. pose proof (Z.mod_pos_bound (b + size) 16). lia.
Qed.

Section Stacks.
Context `{G : GdtOps} {gdt_laws : GdtLaws G}.
Variables (STACK PRIV_STACK : Z) (t : TaskStateSegment).
Hypothesis Hstack : stack_at STACK DF_STACK_SIZE.
Hypothesis Hpriv : stack_at PRIV_STACK PRIV_STACK_SIZE.
Hypothesis Ht : TSS STACK PRIV_STACK = Ret t.

Definition df_stack (a : Z) : Prop := STACK <= a < STACK + DF_STACK_SIZE.
Definition priv_stack (a : Z) : Prop := PRIV_STACK <= a < PRIV_STACK + PRIV_STACK_SIZE.

Lemma ring3_stack_top s :
  rpl (regs s CS) = 3 →
  PRIV_STACK + PRIV_STACK_SIZE - 16 < handler_stack t None s <= PRIV_STACK + PRIV_STACK_SIZE.
Proof.
  intros H3. destruct (TSS_ok STACK PRIV_STACK Hstack Hpriv) as (t' & Et & _ & Hp).
  assert (t' = t) as -> by congruence. unfold handler_stack. rewrite H3. cbn [Z.eqb Pos.eqb].
  rewrite (list_lookup_total_correct _ _ _ Hp). change 0xF with (Z.ones 4).
  rewrite land_down by (destruct Hpriv as [[?|?] [?|?]]; unfold PRIV_STACK_SIZE in *; split; lia).
  pose proof (Z.mod_pos_bound (PRIV_STACK + PRIV_STACK_SIZE) (2 ^ 4)). lia.
Qed.

Lemma ring3_stack s :
  rpl (regs s CS) = 3 →
  PRIV_STACK <= handler_stack t None s - 48 ∧ handler_stack t None s <= PRIV_STACK + PRIV_STACK_SIZE.
Proof. intros H3. pose proof (ring3_stack_top s H3). unfold PRIV_STACK_SIZE in *. lia. Qed.

Lemma double_fault_stack s :
  STACK <= handler_stack t (Some DOUBLE_FAULT_IST_INDEX) s - 48 ∧
  handler_stack t (Some DOUBLE_FAULT_IST_INDEX) s <= STACK + DF_STACK_SIZE.
Proof.
  destruct (TSS_ok STACK PRIV_STACK Hstack Hpriv) as (t' & Et & Hi & _).
  assert (t' = t) as -> by congruence. unfold handler_stack.
  change (Z.to_nat DOUBLE_FAULT_IST_INDEX) with 0%nat.
  rewrite (list_lookup_total_correct _ _ _ Hi). destruct Hstack as [[?|?] [?|?]];
    apply handler_stack_bounds; unfold DF_STACK_SIZE in *; lia.
Qed.
End Stacks.

(** ** Properties *)

(** The stack an interrupt of code at [s] may use: all of [PRIV_STACK] out of
    ring 3, and in ring 0 the interrupted stack, as far down as the frame
    and the handler reach. *)
Definition scratch (PRIV_STACK depth : Z) (s : Machine) (a : Z) : Prop :=
  if rpl (regs s CS) =? 3 then priv_stack PRIV_STACK a
  else regs s RSP - 64 - depth <= a < regs s RSP.

Lemma handler_scratch `{G : GdtOps} {gl : GdtLaws G} STACK PRIV_STACK t depth s a :
  stack_at STACK DF_STACK_SIZE → stack_at PRIV_STACK PRIV_STACK_SIZE → TSS STACK PRIV_STACK = Ret t →
  0 <= depth <= PRIV_STACK_SIZE - 64 → u64 (regs s RSP) →
  handler_stack t None s - 48 - depth <= a < handler_stack t None s → scratch PRIV_STACK depth s a.
Proof.
  intros Hs Hp Ht Hd Hsp Ha. unfold scratch. destruct (Z.eqb_spec (rpl (regs s CS)) 3) as [H3|H3].
  - pose proof (ring3_stack_top STACK PRIV_STACK t Hs Hp Ht s H3). unfold priv_stack. lia.
  - revert Ha. unfold handler_stack. rewrite (proj2 (Z.eqb_neq _ _) H3). change 0xF with (Z.ones 4).
    rewrite land_down by (done || lia). pose proof (Z.mod_pos_bound (regs s RSP) (2 ^ 4)). lia.
Qed.


Definition sample_tss : TaskStateSegment :=
  mkTaskStateSegment [sample_priv + PRIV_STACK_SIZE; 0; 0]
    [sample_stack + DF_STACK_SIZE; 0; 0; 0; 0; 0; 0].

(** A table as a finite map, and a handler that does nothing. *)
#[global] Instance map_idt : IdtOps := {|
  Idt := gmap Z (Handler * option Z);
  idt_new := ∅;
  set_handler_fn i v h := <[v := (h, None)]> i;
  set_stack_index i v n := alter (λ g, (g.1, Some n)) v i;
|}.

#[global] Instance map_idt_laws : IdtLaws map_idt.
Proof.
  refine {| gate i v := (i : gmap Z (Handler * option Z)) !! v |}; [done|..]; intros i v x w; cbn.
  - destruct (Z.eqb_spec w v) as [->|]; [apply lookup_insert_eq|by apply lookup_insert_ne].
  - destruct (Z.eqb_spec w v) as [->|]; [apply lookup_alter_eq|by apply lookup_alter_ne].
Defined.

Definition user_state : Machine :=
  mkMachine (λ r, match r with CS => 0x33 | SS => 0x2B | RSP => 0x4FFFFFFFF000 | RFLAGS => 0x202
                         | RIP => 0x400000000003 | _ => 5 end) {[0x4FFFFFFFF000 := 42]} 0.

(** A handler that clears a variable at 16 and uses one word of its stack. *)
Definition sample_isr (h : Handler) (s : Machine) : Machine :=
  mkMachine (regs s) (<[16 := 0]> (<[regs s RSP - 8 := 1]> (mem s))) (SYSCALL_USER_RSP s).

Lemma sample_isr_ok h : x86_interrupt (λ a, a = 16) 8 (sample_isr h).
Proof.
  split; [done|]. intros s a H1 H2. cbn [sample_isr mem]. by rewrite !load_insert_ne by lia.
Qed.


(** C37: every other vector is fatal: with the table [init_idt] loads, any
    vector but the breakpoint's and the timer's ends with the machine
    halted, in ring 0 and in ring 3 alike, and nothing resets it.  Page
    faults and protection faults leave no audit entry; a vector without a
    gate, the remaining lines of the interrupt controllers included, reaches
    the double-fault handler, which logs the death of the user task if and
    only if it came from ring 3. *)
Theorem faults_halt `{Profile} `{I : IdtOps} {il : IdtLaws I} t cs addr isr v error s k :
  v ≠ BREAKPOINT → v ≠ as_u8 Timer →
  interrupt t cs addr isr (gate init_idt) v error s k
  = Ret (Halted (if (v =? GENERAL_PROTECTION) || (v =? PAGE_FAULT) then []
                 else if rpl (regs s CS) =? 3 then [mkAudit ProcessExited 3 0xFF 0] else [])).
Proof. intros H1 H2. apply interrupt_halts. by intros [?|?]. Qed.

(** The keyboard's line. *)
Lemma faults_halt_witness :
  @interrupt dev_profile sample_tss 8 (λ _, 0) (λ _ s, s) (gate init_idt) (PIC_1_OFFSET + 1) None user_state
    (mkKernel 7 false Scheduler.new) = Ret (Halted [mkAudit ProcessExited 3 0xFF 0]).
Proof.
  exact (@faults_halt dev_profile map_idt map_idt_laws sample_tss 8 (λ _, 0) (λ _ s, s) (PIC_1_OFFSET + 1)
    None user_state (mkKernel 7 false Scheduler.new) ltac:(done) ltac:(done)).
Defined.

(** C36: stack bounds: with the tables [init] and [init_idt] load, whatever the
    interrupted code left in its stack pointer: the vectors with a handler of
    their own (3, 13, 14 and 32), raised in ring 3, push their frame, error
    code included, inside [PRIV_STACK]; every other vector, the double fault
    among them, is served by the double-fault handler on the double-fault
    stack, in ring 0 and ring 3 alike; no other memory is written and the
    handler starts with that stack. *)
Theorem frame_on_stack `{G : GdtOps} {gl : GdtLaws G} `{I : IdtOps} {il : IdtLaws I}
    STACK PRIV_STACK t cs addr v error s :
  stack_at STACK DF_STACK_SIZE → stack_at PRIV_STACK PRIV_STACK_SIZE → TSS STACK PRIV_STACK = Ret t →
  ∃ served h ist, resolve (gate init_idt) v = Some (served, h, ist) ∧
    let s' := deliver t cs addr ist error s in
    if decide (v ∈ [3; 13; 14; 32])
    then served = v ∧ h ≠ Hdouble_fault ∧ (rpl (regs s CS) = 3 →
      (∀ a, ¬ priv_stack PRIV_STACK a → load (mem s') a = load (mem s) a) ∧ priv_stack PRIV_STACK (regs s' RSP))
    else served = 8 ∧ h = Hdouble_fault ∧
      (∀ a, ¬ df_stack STACK a → load (mem s') a = load (mem s) a) ∧ df_stack STACK (regs s' RSP).
Proof.
  intros Hs Hp Ht. rewrite resolve_IDT.
  assert (∀ ist (stack : Z → Prop), (∀ a, handler_stack t ist s - 48 <= a < handler_stack t ist s → stack a) →
    let s' := deliver t cs addr ist error s in
    (∀ a, ¬ stack a → load (mem s') a = load (mem s) a) ∧ stack (regs s' RSP)) as Hin.
  { intros ist stack Hi s'. split; [intros a Ha; apply deliver_mem; auto|].
    unfold s'. rewrite deliver_sp. apply Hi. destruct error; lia. }
  assert (rpl (regs s CS) = 3 → ∀ a, handler_stack t None s - 48 <= a < handler_stack t None s →
    priv_stack PRIV_STACK a) as H3.
  { intros E a Ha. pose proof (ring3_stack STACK PRIV_STACK t Hs Hp Ht s E). unfold priv_stack. lia. }
  case_decide as Hv.
  - repeat (apply elem_of_cons in Hv as [->|Hv]; [eexists _, _, None;
      split; [reflexivity|]; split; [reflexivity|]; split; [discriminate|]; intros E; apply Hin; auto|]).
    by apply not_elem_of_nil in Hv.
  - rewrite !not_elem_of_cons in Hv. destruct Hv as (? & ? & ? & ? & _).
    rewrite !(proj2 (Z.eqb_neq v _)) by done. eexists _, _, _. split; [done|]. split; [done|]. split; [done|].
    apply Hin. intros a Ha. pose proof (double_fault_stack STACK PRIV_STACK t Hs Hp Ht s). unfold df_stack. lia.
Qed.

(** The double fault itself. *)
Lemma frame_on_stack_witness :
  ∃ served h ist, resolve (gate init_idt) 8 = Some (served, h, ist) ∧
    let s' := deliver sample_tss 8 0 ist (Some 0) user_state in
    served = 8 ∧ h = Hdouble_fault ∧
    (∀ a, ¬ df_stack sample_stack a → load (mem s') a = load (mem user_state) a) ∧
    df_stack sample_stack (regs s' RSP).
Proof.
  exact (@frame_on_stack list_gdt list_gdt_laws map_idt map_idt_laws sample_stack sample_priv sample_tss 8 0 8
    (Some 0) user_state (proj1 sample_stacks) (proj2 sample_stacks) eq_refl).
Defined.
