(* ===== verification/Locks.v ===== *)
(** * Locks and interrupts

    How the kernel's spin locks and its timer interrupt interleave on the
    boot processor: [_print] of [kernel/src/serial.rs] (the serial lock under
    [without_interrupts]), [log] of [kernel/src/meal.rs] and the timer
    handler of [kernel/src/interrupts.rs] ([try_lock]), and the locks
    [kernel_main] and the demonstrations hold while they print.  Code is a
    list of lock operations; a step relation executes the main code one
    operation at a time and lets a timer interrupt in between any two of them
    while the interrupt flag is set.

    A typing judgement [safe] says when code follows the discipline: no lock
    is taken twice, a lock that handlers block on is held only with
    interrupts off, handlers block on no other lock, and no code waits for
    another lock while it holds one.  Shown here: the
    judgement is preserved by every step and excludes deadlock (a blocking
    acquisition of a lock that is held), and the kernel's code has a typing;
    the discipline does not cover exceptions, which cannot be masked. *)

From S2P Require Import Prelude.
From Stdlib Require Import Lia Wf_nat.
From stdpp Require Import base list gmap sets relations.

Inductive Lock := SERIAL1 | MEAL | SCHEDULER | LATTICE | CHANNEL | ALLOCATOR | PICS.

#[global] Instance Lock_eq_dec : EqDecision Lock.
Proof. solve_decision. Defined.

Definition lock_code (l : Lock) : nat :=
  match l with
  | SERIAL1 => 0 | MEAL => 1 | SCHEDULER => 2 | LATTICE => 3 | CHANNEL => 4 | ALLOCATOR => 5 | PICS => 6
  end.

Definition lock_decode (n : nat) : option Lock :=
  [SERIAL1; MEAL; SCHEDULER; LATTICE; CHANNEL; ALLOCATOR; PICS] !! n.

#[global] Instance Lock_countable : Countable Lock.
Proof. refine (inj_countable lock_code lock_decode _). by intros []. Defined.

(** ** Code *)

(** [lock()], [try_lock()] with what is done on success, the drop of a
    guard, both ends of [without_interrupts], [interrupts::enable()]. *)
Inductive Op :=
  | Acquire (l : Lock)
  | Try (l : Lock) (yes : list Op)
  | Release (l : Lock)
  | SaveCli
  | Restore
  | Enable.

(** [serial_println!]. *)
Definition _print : list Op := [SaveCli; Acquire SERIAL1; Release SERIAL1; Restore].

Fixpoint prints (n : nat) : list Op :=
  match n with O => [] | S n => _print ++ prints n end.

(** [meal::log]. *)
Definition log : list Op := [Try MEAL [Release MEAL]].

(** The timer: [SCHEDULER.try_lock()], released before the switch. *)
Definition timer_handler : list Op := [Try SCHEDULER [Release SCHEDULER]].

(** The exception handlers that print and halt, the double fault's log
    entry included. *)
Definition page_fault_handler : list Op := prints 4.
Definition general_protection_fault_handler : list Op := prints 3.
Definition double_fault_handler (from_user : bool) : list Op :=
  if from_user then log ++ prints 5 else prints 2.

(** [panic] prints and halts; [alloc_error_handler] panics. *)
Definition panic : list Op := prints 3.
Definition alloc_error_handler : list Op := panic.

(** A lock held around some code. *)
Definition holding (l : Lock) (body : list Op) : list Op := Acquire l :: body ++ [Release l].

(** ** Execution *)

(** What is left to run, and the interrupt flags [without_interrupts] saved,
    innermost first. *)
Record Frame := mkFrame { ops : list Op; saved : list bool }.

Record State := mkState { held : gset Lock; IF_ : bool; main : Frame; isr : option Frame }.

(** One operation of a frame, when it can proceed. *)
Inductive exec : gset Lock → bool → Frame → gset Lock → bool → Frame → Prop :=
  | exec_acquire H i l r sv : l ∉ H →
      exec H i (mkFrame (Acquire l :: r) sv) ({[l]} ∪ H) i (mkFrame r sv)
  | exec_try H i l y r sv : l ∉ H →
      exec H i (mkFrame (Try l y :: r) sv) ({[l]} ∪ H) i (mkFrame (y ++ r) sv)
  | exec_try_held H i l y r sv : l ∈ H →
      exec H i (mkFrame (Try l y :: r) sv) H i (mkFrame r sv)
  | exec_release H i l r sv :
      exec H i (mkFrame (Release l :: r) sv) (H ∖ {[l]}) i (mkFrame r sv)
  | exec_save H i r sv :
      exec H i (mkFrame (SaveCli :: r) sv) H false (mkFrame r (i :: sv))
  | exec_restore H i b r sv :
      exec H i (mkFrame (Restore :: r) (b :: sv)) H (if b then true else i) (mkFrame r sv)
  | exec_enable H i r sv :
      exec H i (mkFrame (Enable :: r) sv) H true (mkFrame r sv).

(** The handler [h] enters when the flag is set, runs to its end and returns
    with the flag as it was. *)
Inductive step (h : list Op) : State → State → Prop :=
  | step_main H i f H' i' f' : exec H i f H' i' f' →
      step h (mkState H i f None) (mkState H' i' f' None)
  | step_isr H i m f H' i' f' : exec H i f H' i' f' →
      step h (mkState H i m (Some f)) (mkState H' i' m (Some f'))
  | step_interrupt H m :
      step h (mkState H true m None) (mkState H false m (Some (mkFrame h [])))
  | step_iret H i m sv :
      step h (mkState H i m (Some (mkFrame [] sv))) (mkState H true m None).

Definition start (code : list Op) : State := mkState ∅ false (mkFrame code []) None.

Definition reachable (h code : list Op) (s : State) : Prop := rtc (step h) (start code) s.

(** The code that runs now. *)
Definition current (s : State) : Frame := default (main s) (isr s).

(** Blocked for good: on one processor the holder is this code or code
    under it. *)
Definition deadlocked (s : State) : Prop :=
  ∃ l r, ops (current s) = Acquire l :: r ∧ l ∈ held s.

(** ** The discipline *)

(** Locks handlers may block on. *)
Definition shared : gset Lock := {[SERIAL1]}.

(** [safe h L n c]: code [c] of a handler ([h]) or of the main code may run
    while it holds [L], inside [n] critical sections.  Locks that handlers do
    not block on are waited for only while nothing is held. *)
Inductive safe (h : bool) : gset Lock → nat → list Op → Prop :=
  | safe_nil : safe h ∅ 0 []
  | safe_acquire L n l r : l ∉ L → (l ∈ shared → h = true ∨ n ≠ 0) → (h = true → l ∈ shared) →
      (l ∉ shared → L = ∅) → safe h ({[l]} ∪ L) n r → safe h L n (Acquire l :: r)
  | safe_try L n l y r : l ∉ L → l ∉ shared →
      safe h ({[l]} ∪ L) n (y ++ r) → safe h L n r → safe h L n (Try l y :: r)
  | safe_release L n l r : l ∈ L → safe h (L ∖ {[l]}) n r → safe h L n (Release l :: r)
  | safe_save L n r : safe h L (S n) r → safe h L n (SaveCli :: r)
  | safe_restore L n r : (h = true ∨ n ≠ 0 ∨ L ## shared) →
      safe h L n r → safe h L (S n) (Restore :: r)
  | safe_enable L r : h = false → L ## shared → safe h L 0 r → safe h L 0 (Enable :: r).

(** The flags a frame has saved: with interrupts off, only the outermost
    section can have found them on. *)
Inductive flags_ok (h : bool) : bool → list bool → Prop :=
  | flags_nil i : (h = true → i = false) → flags_ok h i []
  | flags_cons i sv : flags_ok h i sv → flags_ok h false (i :: sv).

(** A frame that holds [L] when the interrupt flag is [i]. *)
Record frame_ok (h : bool) (L : gset Lock) (i : bool) (f : Frame) : Prop := {
  fo_safe : safe h L (length (saved f)) (ops f);
  fo_flags : flags_ok h i (saved f);
  fo_shared : h = false → saved f = [] → L ## shared;
}.

(** The main code holds [Lm], the handler [Li]. *)
Inductive inv : State → Prop :=
  | inv_main L i f : frame_ok false L i f → inv (mkState L i f None)
  | inv_isr Lm Li i m f : frame_ok false Lm true m → frame_ok true Li i f → Lm ## Li → Lm ## shared →
      inv (mkState (Lm ∪ Li) i m (Some f)).

(** ** Preservation *)

Lemma flags_on h i sv : flags_ok h i sv → i = true → sv = [] ∧ h = false.
Proof. destruct 1 as [i Hi|]; [|done]. intros ->. split; [done|]. destruct h; [by discriminate Hi|done]. Qed.

(** One operation of a well-typed frame, other locks [R] being held. *)
Lemma exec_preserves h L R i f H' i' f' :
  frame_ok h L i f → L ## R → exec (L ∪ R) i f H' i' f' →
  ∃ L', H' = L' ∪ R ∧ L' ## R ∧ frame_ok h L' i' f'.
Proof.
  intros [Hs Hf Hsh] Hd He. inversion He; subst; cbn [ops saved] in *; inversion Hs; subst.
  - exists ({[l]} ∪ L). split; [set_solver|]. split; [set_solver|]. split; cbn [ops saved]; [done|done|].
    intros -> ->. destruct (decide (l ∈ shared)) as [Hl|Hl]; [|set_solver].
    match goal with Hx : l ∈ shared → _ ∨ _ |- _ => by destruct (Hx Hl) end.
  - exists ({[l]} ∪ L). split; [set_solver|]. split; [set_solver|]. split; cbn [ops saved]; [done|done|].
    intros Hh Hn. specialize (Hsh Hh Hn). set_solver.
  - exists L. by split; [|split].
  - exists (L ∖ {[l]}). split; [set_solver|]. split; [set_solver|]. split; cbn [ops saved]; [done|done|].
    intros Hh Hn. specialize (Hsh Hh Hn). set_solver.
  - exists L. split; [done|]. split; [done|]. split; cbn [ops saved]; [done|by constructor|done].
  - exists L. split; [done|]. split; [done|]. inversion Hf; subst. split; cbn [ops saved].
    + done.
    + by destruct b.
    + intros -> ->. by match goal with Hx : _ ∨ _ ∨ _ |- _ => destruct Hx as [?|[?|?]] end.
  - exists L. split; [done|]. split; [done|]. destruct sv as [|]; [|done].
    split; cbn [ops saved]; [done|constructor; congruence|done].
Qed.

(** A state among locks [R] that other processors hold. *)
Definition among (R : gset Lock) (s : State) : State := mkState (held s ∪ R) (IF_ s) (main s) (isr s).

Lemma inv_step_among h R s s' :
  safe true ∅ 0 h → step h (among R s) s' → inv s → held s ## R →
  ∃ s1, s' = among R s1 ∧ held s1 ## R ∧ inv s1.
Proof.
  intros Hh Hst Hi Hd. destruct Hi as [L i f Hf|Lm Li i m f Hm Hf Hmi Hsh]; cbn [among held IF_ main isr] in *.
  - inversion Hst as [H0 i0 f0 H' i' f' He| |H0 m0|]; subst.
    + destruct (exec_preserves false L R i f H' i' f' Hf Hd He) as (L' & -> & Hd' & Hf').
      exists (mkState L' i' f' None). split; [done|]. split; [done|by constructor].
    + exists (mkState (L ∪ ∅) false f (Some (mkFrame h []))). unfold among. cbn [held IF_ main isr].
      rewrite union_empty_r_L. split; [done|]. split; [done|]. rewrite <-(union_empty_r_L L).
      pose proof (flags_on false true _ (fo_flags _ _ _ _ Hf) eq_refl) as [Hsv _].
      constructor; [done| |set_solver|by apply (fo_shared _ _ _ _ Hf)].
      split; [done|by constructor|done].
  - inversion Hst as [|H0 i0 m0 f0 H' i' f' He| |H0 i0 m0 sv]; subst.
    + replace (Lm ∪ Li ∪ R) with (Li ∪ (Lm ∪ R)) in He by set_solver.
      destruct (exec_preserves true Li (Lm ∪ R) i f H' i' f') as (L' & -> & Hd' & Hf'); [done|set_solver|done|].
      exists (mkState (Lm ∪ L') i' m (Some f')). unfold among. cbn [held IF_ main isr]. split; [f_equal; set_solver|].
      split; [set_solver|]. constructor; [done|done|set_solver|done].
    + destruct Hf as [Hs _ _]. inversion Hs; subst. exists (mkState Lm true m None).
      unfold among. cbn [held IF_ main isr]. split; [f_equal; set_solver|]. split; [set_solver|by constructor].
Qed.

Lemma inv_step h s s' : safe true ∅ 0 h → step h s s' → inv s → inv s'.
Proof.
  intros Hh Hst Hi. destruct (inv_step_among h ∅ s s') as ([H i m f] & -> & _ & Hi'); [done| |done|set_solver|].
  - unfold among. rewrite union_empty_r_L. by destruct s.
  - unfold among. cbn [held IF_ main isr]. by rewrite union_empty_r_L.
Qed.

Lemma inv_reachable h code s : safe true ∅ 0 h → safe false ∅ 0 code → reachable h code s → inv s.
Proof.
  intros Hh Hc Hr. refine (rtc_ind_r (λ s, inv s) _ _ _ s Hr).
  - constructor. split; [done|by constructor|set_solver].
  - intros s1 s2 _ Hst Hi. by eapply inv_step.
Qed.

(** ** Progress *)

Lemma frame_not_blocked h L R i f l r :
  frame_ok h L i f → (h = true → R ## shared) → (h = false → R = ∅) →
  ops f = Acquire l :: r → l ∉ L ∪ R.
Proof.
  intros [Hs _ _] Hr1 Hr2 E. rewrite E in Hs. inversion Hs; subst. destruct h.
  - specialize (Hr1 eq_refl). set_solver.
  - rewrite Hr2 by done. set_solver.
Qed.

Lemma inv_not_deadlocked s : inv s → ¬ deadlocked s.
Proof.
  intros Hi (l & r & E & Hl). destruct Hi as [L i f Hf|Lm Li i m f Hm Hf Hd Hsh]; cbn in *.
  - apply (frame_not_blocked false L ∅ i f l r Hf); [done|done|done|set_solver].
  - apply (frame_not_blocked true Li Lm i f l r Hf); [done|done|done|set_solver].
Qed.

(** The size of what is left to run. *)
Fixpoint op_size (o : Op) : nat :=
  match o with Try _ y => S (list_sum (op_size <$> y)) | _ => 1 end.
Definition code_size (c : list Op) : nat := list_sum (op_size <$> c).

Lemma code_size_cons o c : code_size (o :: c) = op_size o + code_size c.
Proof. done. Qed.

Lemma code_size_app a b : code_size (a ++ b) = code_size a + code_size b.
Proof. unfold code_size. by rewrite fmap_app, list_sum_app. Qed.

(** A well-typed frame with something left to do, and not waiting for a lock
    that is held, can proceed, and has less left to do after it. *)
Lemma frame_steps h L H i f :
  frame_ok h L i f → ops f ≠ [] → (∀ l r, ops f = Acquire l :: r → l ∉ H) →
  ∃ H' i' f', exec H i f H' i' f' ∧ code_size (ops f') < code_size (ops f).
Proof.
  intros Hf Hne Hfree. destruct f as [c sv]. cbn [ops] in *.
  destruct c as [|[l|l y|l| | |] c]; [done|..].
  - eexists _, _, _. split; [constructor; by eapply Hfree|]. cbn [ops]; rewrite ?code_size_cons; cbn [op_size]; lia.
  - destruct (decide (l ∈ H)) as [Hin|Hni].
    + eexists _, _, _. split; [by constructor|]. cbn [ops]; rewrite ?code_size_cons; cbn [op_size]; lia.
    + eexists _, _, _. split; [by constructor|]. cbn [ops]. rewrite code_size_app, code_size_cons. cbn [op_size]. unfold code_size. lia.
  - eexists _, _, _. split; [constructor|]. cbn [ops]; rewrite ?code_size_cons; cbn [op_size]; lia.
  - eexists _, _, _. split; [constructor|]. cbn [ops]; rewrite ?code_size_cons; cbn [op_size]; lia.
  - destruct Hf as [Hs _ _]. inversion Hs. destruct sv as [|b sv]; [done|].
    eexists _, _, _. split; [constructor|]. cbn [ops]; rewrite ?code_size_cons; cbn [op_size]; lia.
  - eexists _, _, _. split; [constructor|]. cbn [ops]; rewrite ?code_size_cons; cbn [op_size]; lia.
Qed.

Lemma frame_runs h L R i f :
  frame_ok h L i f → (h = true → R ## shared) → (h = false → R = ∅) → ops f ≠ [] →
  ∃ H' i' f', exec (L ∪ R) i f H' i' f' ∧ code_size (ops f') < code_size (ops f).
Proof. intros Hf H1 H2 Hne. eapply frame_steps; [done|done|]. intros l r E. by eapply frame_not_blocked. Qed.

Definition finished (s : State) : Prop := isr s = None ∧ ops (main s) = [].

Definition remaining (s : State) : nat :=
  code_size (ops (main s)) + match isr s with Some f => S (code_size (ops f)) | None => 0 end.

Lemma inv_progress h s : inv s → finished s ∨ ∃ s', step h s s' ∧ remaining s' < remaining s.
Proof.
  intros [L i f Hf|Lm Li i m f Hm Hf Hd Hsh].
  - destruct (decide (ops f = [])) as [E|Hne]; [by left|right].
    destruct (frame_runs false L ∅ i f) as (H' & i' & f' & He & Hlt); [done|done|done|done|].
    rewrite union_empty_r_L in He. eexists. split; [by apply step_main|]. unfold remaining. cbn [isr main ops]. lia.
  - right. destruct f as [c sv]. destruct (decide (c = [])) as [->|Hne].
    + eexists. split; [apply step_iret|]. unfold remaining. cbn [isr main ops]. lia.
    + destruct (frame_runs true Li Lm i (mkFrame c sv)) as (H' & i' & f' & He & Hlt); [done|done|done|done|].
      rewrite (union_comm_L Li Lm) in He. eexists. split; [by apply step_isr|]. unfold remaining. cbn [isr main ops] in *. lia.
Qed.

Lemma inv_finishes h s : safe true ∅ 0 h → inv s → ∃ s', rtc (step h) s s' ∧ finished s'.
Proof.
  intros Hh. remember (remaining s) as n eqn:En. revert s En.
  induction (lt_wf n) as [n _ IH]; intros s -> Hi.
  destruct (inv_progress h s Hi) as [Hf|(s1 & Hst & Hlt)]; [by exists s|].
  destruct (IH _ Hlt s1 eq_refl (inv_step h s s1 Hh Hst Hi)) as (s2 & Hr & Hf).
  exists s2. split; [by eapply rtc_l|done].
Qed.

(** ** The kernel's code *)

Lemma safe_print h L n c : SERIAL1 ∉ L → safe h L n c → safe h L n (_print ++ c).
Proof.
  intros Hl Hc. apply safe_save, safe_acquire; [done|by right|set_solver|set_solver|].
  apply safe_release; [set_solver|]. replace (({[SERIAL1]} ∪ L) ∖ {[SERIAL1]}) with L by set_solver.
  apply safe_restore; [|done]. right. right. set_solver.
Qed.

Lemma safe_prints h L n k c : SERIAL1 ∉ L → safe h L n c → safe h L n (prints k ++ c).
Proof.
  intros Hl Hc. induction k as [|k IH]; [done|]. cbn [prints]. rewrite <-(assoc_L (++)). by apply safe_print.
Qed.

Lemma safe_try_once h L n l c :
  l ∉ L → l ∉ shared → safe h L n c → safe h L n (Try l [Release l] :: c).
Proof.
  intros Hl Hs Hc. apply safe_try; [done|done| |done]. apply safe_release; [set_solver|].
  by replace (({[l]} ∪ L) ∖ {[l]}) with L by set_solver.
Qed.

(** A lock the handlers do not block on, held around code. *)
Lemma safe_holding n l body c :
  l ∉ shared → (∀ c, safe false {[l]} n c → safe false {[l]} n (body ++ c)) →
  safe false ∅ n c → safe false ∅ n (holding l body ++ c).
Proof.
  intros Hs Hb Hc. unfold holding. cbn [app]. apply safe_acquire; [set_solver|done|done|done|].
  rewrite union_empty_r_L, <-(assoc_L (++)). apply Hb. apply safe_release; [set_solver|].
  by rewrite difference_diag_L.
Qed.

(** [n] allocations or deallocations. *)
Fixpoint heap (n : nat) : list Op :=
  match n with O => [] | S n => holding ALLOCATOR [] ++ heap n end.

Section Kernel.
(** How many lines are printed, and how often the heap is used, at each place. *)
Variables k m : nat → nat.

(** [lattice::run_demo]: the lattice is locked while its properties are
    printed and while it is reconfigured. *)
Definition lattice_demo : list Op :=
  prints (k 0) ++ holding LATTICE (prints (k 1)) ++ prints (k 2) ++
  holding LATTICE (prints (k 3)) ++ log ++ prints (k 4).

(** [eipc::run_demo]: three messages in, then out until the channel is
    empty: the fourth [dequeue] finds nothing. *)
Definition eipc_send : list Op := prints (k 6) ++ holding CHANNEL [] ++ log ++ prints (k 7).
Definition eipc_recv : list Op := holding CHANNEL [] ++ log ++ prints (k 8).
Definition eipc_demo : list Op :=
  prints (k 5) ++ eipc_send ++ eipc_send ++ eipc_send ++ prints (k 9) ++
  eipc_recv ++ eipc_recv ++ eipc_recv ++ holding CHANNEL [] ++ prints (k 10).

(** A demonstration that logs [n] times between its lines. *)
Fixpoint logging (n : nat) : list Op :=
  match n with
  | O => prints (k 11)
  | S n => prints (k 12) ++ log ++ logging n
  end.

(** [vmz::run_demo], with its buffer. *)
Definition vmz_demo : list Op := heap (m 0) ++ logging 1 ++ heap (m 1).

(** [net::run_demo], with the transmitted frame. *)
Definition net_demo : list Op := logging 1 ++ heap (m 2) ++ prints (k 13) ++ heap (m 3).

(** The end of the boot: the log stays locked while it is printed. *)
Definition summary : list Op :=
  Try SCHEDULER [Release SCHEDULER] :: log ++ log ++ holding MEAL (prints (k 14)).

(** [kernel_main]: the controllers, interrupts on, the heap and its test, the
    other processors, the demonstrations, system calls and user space, the
    summary and the network. *)
Definition kernel_main : list Op :=
  prints (k 15) ++ holding PICS [] ++ [Enable] ++ prints (k 16) ++
  holding ALLOCATOR [] ++ prints (k 17) ++ heap (m 4) ++ prints (k 18) ++ heap (m 5) ++
  prints (k 19) ++ heap (m 6) ++ prints (k 20) ++ heap (m 7) ++
  log ++ prints (k 21) ++ logging 2 ++ eipc_demo ++ vmz_demo ++ lattice_demo ++ logging 6 ++
  prints (k 22) ++ summary ++ net_demo ++ prints (k 23).
End Kernel.

(** Code that may run between two pieces of main code, holding nothing. *)
Definition fits (c : list Op) : Prop := ∀ r, safe false ∅ 0 r → safe false ∅ 0 (c ++ r).

Lemma fits_app a b : fits a → fits b → fits (a ++ b).
Proof. intros Ha Hb r Hr. rewrite <-(assoc_L (++)). auto. Qed.

Lemma fits_nil : fits [].
Proof. by intros r Hr. Qed.

Lemma fits_prints n : fits (prints n).
Proof. intros r Hr. by apply safe_prints. Qed.

Lemma fits_try l c : l ∉ shared → fits c → fits (Try l [Release l] :: c).
Proof. intros Hl Hc r Hr. apply safe_try_once; [set_solver|done|by apply Hc]. Qed.

Lemma fits_holding l n : l ∉ shared → fits (holding l (prints n)).
Proof.
  intros Hl r Hr. apply safe_holding; [done| |done].
  intros c Hc. apply safe_prints; [set_solver|done].
Qed.

Lemma fits_enable : fits [Enable].
Proof. intros r Hr. apply safe_enable; [done|set_solver|done]. Qed.

Lemma fits_heap n : fits (heap n).
Proof.
  induction n as [|n IH]; [apply fits_nil|]. apply fits_app; [|done].
  apply (fits_holding ALLOCATOR 0). set_solver.
Qed.

Create HintDb locks.
#[export] Hint Extern 1 (_ ∉ shared) => set_solver : locks.
#[export] Hint Resolve fits_nil fits_app fits_prints fits_try fits_holding fits_enable fits_heap : locks.
#[export] Hint Extern 1 (fits (holding ?l [])) => apply (fits_holding l 0) : locks.

Lemma fits_log : fits log.
Proof. apply fits_try; [set_solver|apply fits_nil]. Qed.
#[export] Hint Resolve fits_log : locks.

Lemma fits_logging k n : fits (logging k n).
Proof. induction n as [|n IH]; cbn [logging]; auto with locks. Qed.
#[export] Hint Resolve fits_logging : locks.

Lemma fits_kernel_main k m : fits (kernel_main k m).
Proof.
  unfold kernel_main, lattice_demo, eipc_demo, eipc_send, eipc_recv, vmz_demo, net_demo, summary.
  repeat apply fits_app; auto with locks.
Qed.

Lemma safe_kernel_main k m : safe false ∅ 0 (kernel_main k m).
Proof. rewrite <-(app_nil_r (kernel_main k m)). apply fits_kernel_main. constructor. Qed.

(** A handler that tries locks and prints; the kernel's does not print. *)
Lemma safe_timer_handler n : safe true ∅ 0 (timer_handler ++ prints n).
Proof.
  apply safe_try_once; [set_solver..|]. rewrite <-(app_nil_r (prints n)).
  apply safe_prints; [set_solver|constructor].
Qed.

(** ** Properties *)

(** the lock discipline is sound: when handler and main code are well typed,
    no interleaving of timer interrupts with the main code reaches a
    deadlock, and from every reachable state both can run to their end. *)
Theorem discipline_sound h code s :
  safe true ∅ 0 h → safe false ∅ 0 code → reachable h code s →
  ¬ deadlocked s ∧ ∃ s', rtc (step h) s s' ∧ finished s'.
Proof.
  intros Hh Hc Hr. pose proof (inv_reachable h code s Hh Hc Hr) as Hi.
  split; [by apply inv_not_deadlocked|by apply inv_finishes].
Qed.

Lemma discipline_sound_witness :
  ¬ deadlocked (start (_print ++ _print)) ∧
  ∃ s', rtc (step (timer_handler ++ prints 1)) (start (_print ++ _print)) s' ∧ finished s'.
Proof.
  apply (discipline_sound (timer_handler ++ prints 1) (_print ++ _print) (start (_print ++ _print)));
    [apply safe_timer_handler|exact (safe_prints false ∅ 0 2 [] (not_elem_of_empty _) (safe_nil false))|apply rtc_refl].
Defined.

(** the boot against the timer: [kernel_main], whatever it prints and
    allocates, cannot deadlock with the timer interrupt at any point, not
    even if the timer printed: the serial port is locked with interrupts off,
    and the locks held with interrupts on (the lattice, the channel, the
    audit log while it is printed, the heap) are only tried by the handler.
    The boot can always run to its end. *)
Theorem boot_never_deadlocks k m n s :
  reachable (timer_handler ++ prints n) (kernel_main k m) s →
  ¬ deadlocked s ∧ ∃ s', rtc (step (timer_handler ++ prints n)) s s' ∧ finished s'.
Proof.
  intros Hr. pose proof (inv_reachable _ _ s (safe_timer_handler n) (safe_kernel_main k m) Hr) as Hi.
  split; [by apply inv_not_deadlocked|by apply inv_finishes, Hi; apply safe_timer_handler].
Qed.

(** One interrupt arrives right after interrupts are switched on. *)
Lemma boot_never_deadlocks_witness :
  ∃ s, reachable (timer_handler ++ prints 1) (kernel_main (λ _, 0) (λ _, 0)) s ∧ is_Some (isr s) ∧
    ¬ deadlocked s ∧ ∃ s', rtc (step (timer_handler ++ prints 1)) s s' ∧ finished s'.
Proof.
  assert (∃ s, reachable (timer_handler ++ prints 1) (kernel_main (λ _, 0) (λ _, 0)) s ∧ is_Some (isr s))
    as (s & Hr & Hs).
  { eexists. split; [|shelve]. eapply rtc_l; [apply step_main, (exec_acquire _ _ PICS); set_solver|].
    eapply rtc_l; [apply step_main, exec_release|].
    eapply rtc_l; [apply step_main, exec_enable|].
    eapply rtc_l; [apply step_interrupt|]. apply rtc_refl. Unshelve. by eexists. }
  exists s. split; [exact Hr|]. split; [exact Hs|].
  apply (boot_never_deadlocks (λ _, 0) (λ _, 0) 1 _ Hr).
Defined.

(** The code entered without regard to the interrupt flag. *)
Definition unmaskable : list (list Op) :=
  [page_fault_handler; general_protection_fault_handler; double_fault_handler false; panic; alloc_error_handler].

(** exceptions and panics are not covered: they cannot be masked, so one
    between the two lock operations of a print leaves the handler waiting
    for the lock its own processor holds. *)
Theorem fault_while_printing_deadlocks c :
  c ∈ unmaskable →
  ∃ s, reachable timer_handler (_print ++ []) s ∧
    ∃ r s', step timer_handler (mkState (held s) false (main s) (Some (mkFrame c []))) s' ∧
      ops (current s') = Acquire SERIAL1 :: r ∧ deadlocked s'.
Proof.
  intros Hc. assert (∃ r, c = SaveCli :: Acquire SERIAL1 :: r) as [r ->].
  { unfold unmaskable in Hc.
    repeat (apply elem_of_cons in Hc as [->|Hc]; [by eexists|]). by apply not_elem_of_nil in Hc. }
  eexists. split.
  { eapply rtc_l; [apply step_main, exec_save|].
    eapply rtc_l; [apply step_main, (exec_acquire _ _ SERIAL1); set_solver|]. apply rtc_refl. }
  eexists _, _. cbn [held main]. split; [apply step_isr, exec_save|]. split; [done|].
  eexists _, _. split; [done|set_solver].
Qed.

Lemma fault_while_printing_deadlocks_witness :
  ∃ s, reachable timer_handler (_print ++ []) s ∧
    ∃ r s', step timer_handler (mkState (held s) false (main s) (Some (mkFrame page_fault_handler []))) s' ∧
      ops (current s') = Acquire SERIAL1 :: r ∧ deadlocked s'.
Proof. apply (fault_while_printing_deadlocks page_fault_handler). left. Defined.
