(* ===== verification/Cores.v ===== *)
(** * Locks between processors

    The spin locks of [Locks] shared by several processors: the boot
    processor runs [kernel_main] under the timer interrupt while every
    processor started by [kernel/src/smp.rs] runs [ap_main], which prints a
    line with interrupts off and halts.  A pool of processors steps by
    letting any one of them take a step of [Locks.step] on the common set of
    held locks.

    Shown here: the discipline of [Locks] is sound for any number of
    processors (its rule that no code waits for an unshared lock while it
    holds another is what excludes cycles), and the boot with its started
    processors follows it; the audit log, which [meal::log] only tries to
    lock, is free whenever the boot logs. *)

From S2P Require Import Prelude Locks.
From Stdlib Require Import Lia Wf_nat.
From stdpp Require Import base list gmap sets relations.

(** ** Execution *)

(** The state of a processor without the locks. *)
Record Core := mkCore { c_IF : bool; c_main : Frame; c_isr : option Frame }.

Record Pool := mkPool { p_held : gset Lock; p_cores : list Core }.

Definition on_core (H : gset Lock) (c : Core) : State := mkState H (c_IF c) (c_main c) (c_isr c).

Inductive pool_step (h : list Op) : Pool → Pool → Prop :=
  | pool_step_core H cs n c H' c' :
      cs !! n = Some c → step h (on_core H c) (on_core H' c') →
      pool_step h (mkPool H cs) (mkPool H' (<[n := c']> cs)).

(** Every processor starts with interrupts off. *)
Definition pool_start (codes : list (list Op)) : Pool :=
  mkPool ∅ ((λ code, mkCore false (mkFrame code []) None) <$> codes).

Definition pool_finished (p : Pool) : Prop :=
  Forall (λ c, finished (on_core ∅ c)) (p_cores p).

(** [ap_main]: one line, then it halts. *)
Definition ap_main : list Op := prints 1.

(** The boot processor and [n] others. *)
Definition boot_pool (k m : nat → nat) (n : nat) : list (list Op) := kernel_main k m :: replicate n ap_main.

(** ** The invariant *)

(** What else is known of processor [n] while it holds [L], preserved by its
    steps among the locks others hold. *)
Class CoreProp (h : list Op) := {
  knows : nat → gset Lock → Core → Prop;
  knows_step n L R c L' c' : knows n L c → L ## R → L' ## R →
    step h (on_core (L ∪ R) c) (on_core (L' ∪ R) c') → knows n L' c' }.

(** Processor [n] holds [own n]. *)
Record pool_inv {h} `{CoreProp h} (p : Pool) : Prop := {
  pi_own : ∃ own : nat → gset Lock,
    (∀ n c, p_cores p !! n = Some c → inv (on_core (own n) c) ∧ knows n (own n) c) ∧
    (∀ n m, n ≠ m → own n ## own m) ∧
    (∀ n, p_cores p !! n = None → own n = ∅) ∧
    (∀ l, l ∈ p_held p ↔ ∃ n, l ∈ own n) }.

Definition core_start (code : list Op) : Core := mkCore false (mkFrame code []) None.

Section Invariant.
Context {h : list Op} `{CoreProp h}.

Lemma pool_inv_start codes :
  Forall (safe false ∅ 0) codes → (∀ n code, codes !! n = Some code → knows n ∅ (core_start code)) →
  pool_inv (pool_start codes).
Proof.
  intros Hc Hk. split. exists (λ _, ∅). split; [|split; [done|split; [done|]]].
  - intros n c (code & -> & Hn)%list_lookup_fmap_Some. rewrite Forall_lookup in Hc. specialize (Hc n code Hn).
    split; [|by apply Hk]. constructor. split; [done|by constructor|set_solver].
  - intros l. cbn. split; [set_solver|]. intros [_ ?]. set_solver.
Qed.

Lemma pool_inv_step p p' : safe true ∅ 0 h → pool_step h p p' → pool_inv p → pool_inv p'.
Proof.
  intros Hh Hst [(own & Hin & Hd & Hno & Hall)]. destruct Hst as [H0 cs n c H' c' Hn Hst]. cbn [p_held p_cores] in *.
  assert (own n ∪ (H0 ∖ own n) = H0) as EH.
  { apply set_eq. intros l. rewrite elem_of_union, elem_of_difference, Hall. split; [intros [?|[? _]]; [eauto|done]|].
    intros Hl. destruct (decide (l ∈ own n)); [by left|by right]. }
  destruct (inv_step_among h (H0 ∖ own n) (on_core (own n) c) (on_core H' c')) as ([L i m f] & E & HdL & Hi);
    [done| |by apply Hin|cbn [on_core held]; set_solver|].
  { unfold among, on_core. cbn [held IF_ main isr]. by rewrite EH. }
  destruct c' as [i' m' f']. unfold among, on_core in E. cbn in E, HdL. injection E as -> <- <- <-.
  assert (knows n L (mkCore i' m' f')) as Hk.
  { destruct (Hin n c Hn) as [_ Hk]. eapply (knows_step n _ (H0 ∖ own n)); [exact Hk|set_solver|done|].
    by rewrite EH. }
  clear Hst.
  assert (∀ x, x ≠ n → own x ⊆ H0 ∖ own n) as Hsub.
  { intros x Hx l Hl. apply elem_of_difference. split; [apply Hall; eauto|]. specialize (Hd x n Hx). set_solver. }
  split. exists (λ x, if decide (x = n) then L else own x). cbn [p_held p_cores]. split; [|split; [|split]].
  - intros x cx Hx. destruct (decide (x = n)) as [->|Hne].
    + rewrite list_lookup_insert_eq in Hx by (by eapply lookup_lt_Some). injection Hx as <-. by split.
    + rewrite list_lookup_insert_ne in Hx by done. by apply Hin.
  - intros x y Hxy. destruct (decide (x = n)) as [->|Hx], (decide (y = n)) as [->|Hy]; [done|..|by apply Hd].
    + specialize (Hsub y Hy). set_solver.
    + specialize (Hsub x Hx). set_solver.
  - intros x Hx. destruct (decide (x = n)) as [->|Hne].
    + apply lookup_ge_None in Hx. rewrite length_insert in Hx. apply lookup_lt_Some in Hn. lia.
    + apply Hno. by rewrite list_lookup_insert_ne in Hx.
  - intros l. rewrite elem_of_union. split.
    + intros [Hl|Hl]; [exists n; by rewrite decide_True|]. apply elem_of_difference in Hl as [Hl Hnl].
      apply Hall in Hl as [x Hx]. exists x. rewrite decide_False; [done|]. by intros ->.
    + intros [x Hx]. destruct (decide (x = n)) as [->|Hne]; [by left|right]. by apply (Hsub x).
Qed.

Lemma pool_inv_reachable codes p :
  safe true ∅ 0 h → Forall (safe false ∅ 0) codes →
  (∀ n code, codes !! n = Some code → knows n ∅ (core_start code)) →
  rtc (pool_step h) (pool_start codes) p → pool_inv p.
Proof.
  intros Hh Hc Hk Hr. refine (rtc_ind_r pool_inv _ _ _ p Hr); [by apply pool_inv_start|].
  intros p1 p2 _ Hst Hi. by eapply pool_inv_step.
Qed.
End Invariant.

(** Nothing else. *)
Definition no_prop (h : list Op) : CoreProp h.
Proof. by refine {| knows := λ _ _ _, True |}. Defined.

(** ** Progress *)

(** What a processor waits for is held by another one; and it holds nothing
    itself unless it waits for a shared lock. *)
Lemma inv_waits s l r :
  inv s → ops (current s) = Acquire l :: r → (l ∉ held s) ∧ (l ∉ shared → held s = ∅).
Proof.
  intros Hi E. destruct Hi as [L i f Hf|Lm Li i m f Hm Hf Hd Hsh]; cbn in *;
    destruct Hf as [Hs _ _]; rewrite E in Hs; inversion Hs; subst; [done|].
  assert (l ∈ shared) by auto. set_solver.
Qed.

Lemma inv_finished s : inv s → finished s → held s = ∅.
Proof.
  intros Hi [Hn E]. destruct Hi as [L i f [Hs _ _]|]; [|done]. cbn in *. rewrite E in Hs. by inversion Hs.
Qed.

Definition core_remaining (c : Core) : nat := remaining (on_core ∅ c).

(** A frame has finished, waits for a lock, or proceeds. *)
Lemma frame_progress h L H i f :
  frame_ok h L i f →
  ops f = [] ∨ (∃ l r, ops f = Acquire l :: r ∧ l ∈ H) ∨
  ∃ H' i' f', exec H i f H' i' f' ∧ code_size (ops f') < code_size (ops f).
Proof.
  intros Hf. destruct (ops f) as [|o c] eqn:E; [by left|right].
  assert (Decision (match o with Acquire l => l ∈ H | _ => False end)) as [Hw|Hw] by (destruct o; apply _).
  - left. destruct o as [l| | | | |]; try done. by exists l, c.
  - right. rewrite <-E. eapply frame_steps; [done|congruence|]. intros l r E2. rewrite E in E2. by injection E2 as -> _.
Qed.

(** A processor has finished, waits for a lock, or takes a step. *)
Lemma core_progress h H L c :
  inv (on_core L c) →
  finished (on_core ∅ c) ∨
  (∃ l r, ops (current (on_core L c)) = Acquire l :: r ∧ l ∈ H) ∨
  ∃ H' c', step h (on_core H c) (on_core H' c') ∧ core_remaining c' < core_remaining c.
Proof.
  unfold core_remaining, remaining.
  intros Hi. destruct c as [i m [f|]]; inversion Hi as [L0 i0 f0 Hf|Lm Li i0 m0 f0 Hm Hf Hd Hsh]; subst;
    destruct (frame_progress _ _ H _ _ Hf) as [E|[?|(H' & i' & f' & He & Hlt)]].
  - right. right. exists H, (mkCore true m None). destruct f as [c sv]. cbn in E. subst c.
    split; [apply step_iret|cbn; lia].
  - by right; left.
  - right. right. exists H', (mkCore i' m (Some f')). split; [by apply step_isr|cbn; lia].
  - by left.
  - by right; left.
  - right. right. exists H', (mkCore i' f' None). split; [by apply step_main|cbn; lia].
Qed.

#[global] Instance finished_dec s : Decision (finished s).
Proof. unfold finished. apply _. Defined.

Definition pool_remaining (p : Pool) : nat := list_sum (core_remaining <$> p_cores p).

Lemma sum_insert {A} (f : A → nat) (l : list A) n x x' :
  l !! n = Some x → f x' < f x → list_sum (f <$> <[n := x']> l) < list_sum (f <$> l).
Proof.
  assert (∀ y l, list_sum (f <$> y :: l) = f y + list_sum (f <$> l)) as Hc by done.
  revert n. induction l as [|y l IH]; intros [|n] Hn Hlt; [done|done|..]; cbn [insert list_insert]; rewrite !Hc.
  - injection Hn as ->. by apply Nat.add_lt_mono_r.
  - by apply Nat.add_lt_mono_l, IH.
Qed.

Section Progress.
Context (h : list Op) (p : Pool) (own : nat → gset Lock).
Hypothesis Hin : ∀ n c, p_cores p !! n = Some c → inv (on_core (own n) c).
Hypothesis Hno : ∀ n, p_cores p !! n = None → own n = ∅.
Hypothesis Hall : ∀ l, l ∈ p_held p ↔ ∃ n, l ∈ own n.

Abbreviation goes := (∃ p', pool_step h p p' ∧ pool_remaining p' < pool_remaining p).

Lemma core_goes n c : p_cores p !! n = Some c → ¬ finished (on_core ∅ c) →
  goes ∨ ∃ l r, ops (current (on_core (own n) c)) = Acquire l :: r ∧ l ∈ p_held p.
Proof.
  intros Hn Hf. destruct (core_progress h (p_held p) (own n) c (Hin n c Hn)) as [?|[?|(H' & c' & Hst & Hlt)]];
    [done|by right|left].
  destruct p as [H cs]. eexists. split; [by eapply pool_step_core|]. by eapply sum_insert.
Qed.

(** The holder of a lock has not finished; waiting itself, it waits for a
    shared lock it does not hold. *)
Lemma holder_goes l : l ∈ p_held p →
  goes ∨ ∃ l', l' ∈ p_held p ∧ l' ∈ shared ∧ (l ∈ shared → False).
Proof.
  intros [n Hl]%Hall. destruct (p_cores p !! n) as [c|] eqn:Hn; [|rewrite (Hno n Hn) in Hl; set_solver].
  assert (¬ finished (on_core ∅ c)) as Hnf.
  { intros Hf. pose proof (inv_finished _ (Hin n c Hn) Hf) as E. cbn in E. rewrite E in Hl. set_solver. }
  destruct (core_goes n c Hn Hnf) as [?|(l' & r & E & Hl')]; [by left|right].
  destruct (inv_waits _ l' r (Hin n c Hn) E) as [Hown Hsh]. cbn [on_core held] in *.
  assert (l' ∈ shared) as Hs' by (destruct (decide (l' ∈ shared)); [done|rewrite Hsh in Hl by done; set_solver]).
  exists l'. split; [done|]. split; [done|]. intros Hs. unfold shared in *.
  assert (l = l') as -> by set_solver. done.
Qed.
End Progress.

Lemma pool_progress h `{CoreProp h} p :
  pool_inv p → pool_finished p ∨ ∃ p', pool_step h p p' ∧ pool_remaining p' < pool_remaining p.
Proof.
  intros [(own & Hin' & Hd & Hno & Hall)].
  assert (∀ n c, p_cores p !! n = Some c → inv (on_core (own n) c)) as Hin by (intros n c Hc; by apply Hin').
  destruct (list_find (λ c, ¬ finished (on_core ∅ c)) (p_cores p)) as [[n c]|] eqn:E.
  - right. apply list_find_Some in E as (Hn & Hf & _).
    destruct (core_goes h p own Hin Hno Hall n c Hn Hf) as [?|(l & r & _ & Hl)]; [done|].
    destruct (holder_goes h p own Hin Hno Hall l Hl) as [?|(l' & Hl' & Hs & _)]; [done|].
    by destruct (holder_goes h p own Hin Hno Hall l' Hl') as [?|(_ & _ & _ & [])].
  - left. apply list_find_None in E. eapply Forall_impl; [exact E|]. intros c Hc. by apply dec_stable.
Qed.

Lemma pool_finishes h `{CoreProp h} p : safe true ∅ 0 h → pool_inv p → ∃ p', rtc (pool_step h) p p' ∧ pool_finished p'.
Proof.
  intros Hh. remember (pool_remaining p) as n eqn:En. revert p En.
  induction (lt_wf n) as [n _ IH]; intros p -> Hi.
  destruct (pool_progress h p Hi) as [Hf|(p1 & Hst & Hlt)]; [by exists p|].
  destruct (IH _ Hlt p1 eq_refl (pool_inv_step p p1 Hh Hst Hi)) as (p2 & Hr & Hf).
  exists p2. split; [by eapply rtc_l|done].
Qed.

Lemma safe_boot_pool k m n : Forall (safe false ∅ 0) (boot_pool k m n).
Proof.
  constructor; [apply safe_kernel_main|]. apply Forall_replicate.
  exact (safe_prints false ∅ 0 1 [] (not_elem_of_empty _) (safe_nil false)).
Qed.

(** ** Locks of the boot processor alone *)

(** Code that does not touch [l]. *)
Fixpoint op_avoids (l : Lock) (o : Op) : bool :=
  match o with
  | Acquire l' | Release l' => bool_decide (l ≠ l')
  | Try l' y => bool_decide (l ≠ l') && forallb (op_avoids l) y
  | _ => true
  end.
Definition avoids (l : Lock) (c : list Op) : Prop := forallb (op_avoids l) c = true.

Lemma avoids_app l a b : avoids l (a ++ b) ↔ avoids l a ∧ avoids l b.
Proof. unfold avoids. by rewrite forallb_app, andb_true_iff. Qed.

Lemma exec_avoids l H i f H' i' f' :
  exec H i f H' i' f' → avoids l (ops f) → avoids l (ops f') ∧ (l ∈ H' ↔ l ∈ H).
Proof.
  intros He Ha. destruct He; cbn [ops] in *; unfold avoids in Ha; cbn [forallb op_avoids] in Ha;
    rewrite ?andb_true_iff, ?bool_decide_eq_true in Ha.
  - split; [apply Ha|set_solver].
  - destruct Ha as [[Hl Hy] Hr]. split; [by apply avoids_app|set_solver].
  - by split; [apply Ha|].
  - split; [apply Ha|set_solver].
  - by split; [apply Ha|].
  - by split; [apply Ha|].
  - by split; [apply Ha|].
Qed.

Section Alone.
Context (l : Lock) (h : list Op).
Hypothesis Hh : avoids l h.

(** No handler touches [l], and only processor 0 does. *)
Definition alone (n : nat) (L : gset Lock) (c : Core) : Prop :=
  (∀ f, c_isr c = Some f → avoids l (ops f)) ∧ (n ≠ 0 → (l ∉ L) ∧ avoids l (ops (c_main c))).

Lemma alone_step n L R c L' c' :
  alone n L c → L ## R → L' ## R → step h (on_core (L ∪ R) c) (on_core (L' ∪ R) c') → alone n L' c'.
Proof.
  intros [Hi Hm] Hd Hd' Hst. destruct c as [i m f], c' as [i' m' f']. unfold on_core in Hst. cbn in *.
  assert (∀ H H', H = L ∪ R → H' = L' ∪ R → (l ∈ H' ↔ l ∈ H) → l ∉ L → l ∉ L') as Hkeep.
  { intros H H' -> -> Hl HL HL'. destruct (decide (l ∈ R)); [set_solver|]. set_solver. }
  inversion Hst as [? ? ? ? ? ? He|? ? ? ? ? ? ? He| |]; subst; (split; [|intros Hn; destruct (Hm Hn) as [HL Ha]]); cbn.
  - done.
  - destruct (exec_avoids l _ _ _ _ _ _ He Ha) as [Ha' Hl]. split; [by eapply Hkeep|done].
  - intros f1 [= <-]. by eapply (exec_avoids l _ _ _ _ _ _ He), Hi.
  - destruct (exec_avoids l _ _ _ _ _ _ He (Hi _ eq_refl)) as [_ Hl]. split; [by eapply Hkeep|done].
  - by intros f1 [= <-].
  - split; [|done]. eapply (Hkeep (L ∪ R) (L' ∪ R)); [done|done| |done].
    match goal with E : _ ∪ R = _ ∪ R |- _ => by rewrite E end.
  - done.
  - split; [|done]. eapply (Hkeep (L ∪ R) (L' ∪ R)); [done|done| |done].
    match goal with E : _ ∪ R = _ ∪ R |- _ => by rewrite E end.
Qed.

Definition alone_prop : CoreProp h := {| knows := alone; knows_step := alone_step |}.

(** So [try_lock] on it succeeds whenever it is tried. *)
Lemma alone_free p n c y r :
  @pool_inv h alone_prop p → p_cores p !! n = Some c →
  ops (current (on_core (p_held p) c)) = Try l y :: r → l ∉ p_held p.
Proof.
  intros [(own & Hin & Hd & Hno & Hall)] Hn E [m Hm]%Hall.
  assert (∀ c, avoids l c → ¬ ∃ y r, c = Try l y :: r) as Hav.
  { intros ? Ha (y' & r' & ->). unfold avoids in Ha. cbn in Ha. by rewrite bool_decide_eq_false_2 in Ha by tauto. }
  destruct (Hin n c Hn) as [Hinv [Hi Ha]]. destruct c as [i mf [f|]]; cbn in *.
  { destruct (Hav (ops f)); [by apply Hi|by eauto]. }
  assert (n = 0) as ->.
  { destruct (decide (n = 0)) as [|Hne]; [done|]. destruct (Hav (ops mf)); [by apply Ha|by eauto]. }
  destruct (decide (m = 0)) as [->|Hne].
  - inversion Hinv as [L i0 f0 [Hs _ _]|]; subst. cbn in *. rewrite E in Hs. by inversion Hs.
  - destruct (p_cores p !! m) as [c'|] eqn:Hm'; [|rewrite (Hno m Hm') in Hm; set_solver].
    destruct (Hin m c' Hm') as [_ [_ Hal]]. by destruct (Hal Hne).
Qed.
End Alone.

(** ** Properties *)

(** the lock discipline between processors: when the handler and the code of
    every processor are well typed, then from every state that any
    interleaving of processors and timer interrupts reaches, all processors
    can run to their end: no set of them ever waits for each other. *)
Theorem cores_discipline_sound h codes p :
  safe true ∅ 0 h → Forall (safe false ∅ 0) codes → rtc (pool_step h) (pool_start codes) p →
  ∃ p', rtc (pool_step h) p p' ∧ pool_finished p'.
Proof. intros Hh Hc Hr. eapply (@pool_finishes h (no_prop h)); [done|]. by eapply pool_inv_reachable. Qed.

(** Two processors print while both take the timer interrupt. *)
Lemma cores_discipline_sound_witness :
  ∃ p', rtc (pool_step (timer_handler ++ prints 1)) (pool_start [_print ++ _print; Enable :: prints 1]) p' ∧
    pool_finished p'.
Proof.
  apply (cores_discipline_sound _ [_print ++ _print; Enable :: prints 1]); [apply safe_timer_handler| |apply rtc_refl].
  pose proof (safe_prints false ∅ 0 1 [] (not_elem_of_empty _) (safe_nil false)) as H1.
  apply Forall_cons_2; [exact (safe_prints false ∅ 0 2 [] (not_elem_of_empty _) (safe_nil false))|].
  apply Forall_cons_2; [|apply Forall_nil_2]. apply safe_enable; [reflexivity|set_solver|exact H1].
Defined.

(** C15: the boot with its processors: [kernel_main] under the timer and any
    number of started processors printing their line, in any interleaving and
    whatever is printed and allocated: nobody waits forever, since from every
    reachable state all of them can run to their end. *)
Theorem boot_with_cores_never_deadlocks k m n cores p :
  rtc (pool_step (timer_handler ++ prints n)) (pool_start (boot_pool k m cores)) p →
  ∃ p', rtc (pool_step (timer_handler ++ prints n)) p p' ∧ pool_finished p'.
Proof.
  intros Hr. eapply (@pool_finishes _ (no_prop _)); [apply safe_timer_handler|].
  eapply pool_inv_reachable; [apply safe_timer_handler|apply safe_boot_pool|done|exact Hr].
Qed.

(** A started processor holds the serial port while the boot wants to print. *)
Lemma boot_with_cores_never_deadlocks_witness :
  ∃ p, rtc (pool_step (timer_handler ++ prints 0)) (pool_start (boot_pool (λ _, 1) (λ _, 0) 1)) p ∧
    p_held p = {[SERIAL1]} ∧ (∃ c, p_cores p !! 0 = Some c ∧ head (ops (c_main c)) = Some (Acquire SERIAL1)) ∧
    ∃ p', rtc (pool_step (timer_handler ++ prints 0)) p p' ∧ pool_finished p'.
Proof.
  assert (∃ p, rtc (pool_step (timer_handler ++ prints 0)) (pool_start (boot_pool (λ _, 1) (λ _, 0) 1)) p ∧
    p_held p = {[SERIAL1]} ∧ ∃ c, p_cores p !! 0 = Some c ∧ head (ops (c_main c)) = Some (Acquire SERIAL1))
    as (p & Hr & Hp).
  { eexists. split.
    - eapply rtc_l; [apply (pool_step_core _ _ _ 1 (mkCore false (mkFrame _print []) None) ∅
          (mkCore false (mkFrame (drop 1 _print) [false]) None)); [reflexivity|apply step_main, exec_save]|].
      eapply rtc_l; [apply (pool_step_core _ _ _ 1 (mkCore false (mkFrame (drop 1 _print) [false]) None)
          ({[SERIAL1]} ∪ ∅) (mkCore false (mkFrame (drop 2 _print) [false]) None));
          [reflexivity|apply step_main, (exec_acquire _ _ SERIAL1); set_solver]|].
      eapply rtc_l; [apply (pool_step_core _ _ _ 0 (mkCore false (mkFrame (kernel_main (λ _, 1) (λ _, 0)) []) None) ({[SERIAL1]} ∪ ∅)
          (mkCore false (mkFrame (drop 1 (kernel_main (λ _, 1) (λ _, 0))) [false]) None));
          [reflexivity|apply step_main, exec_save]|].
      apply rtc_refl.
    - split; [apply union_empty_r_L|]. eexists. split; reflexivity. }
  exists p. split; [exact Hr|]. split; [apply Hp|]. split; [apply Hp|].
  apply (boot_with_cores_never_deadlocks (λ _, 1) (λ _, 0) 0 1 p Hr).
Defined.

(** C16: no audit entry of the boot is lost: [meal::log] drops its entry when the
    log is locked, and nothing else reports it; in every interleaving of the
    boot with its timer and its processors, whenever [try_lock] is tried on
    the log, the log is free. *)
Theorem boot_log_never_dropped k m n cores p i c y r :
  rtc (pool_step (timer_handler ++ prints n)) (pool_start (boot_pool k m cores)) p →
  p_cores p !! i = Some c → ops (current (on_core (p_held p) c)) = Try MEAL y :: r →
  MEAL ∉ p_held p.
Proof.
  intros Hr Hc E.
  assert (∀ j, avoids MEAL (prints j)) as Hp by (intros j; induction j as [|j IH]; [done|by apply avoids_app]).
  assert (avoids MEAL (timer_handler ++ prints n)) as Hh by (by apply avoids_app).
  eapply (alone_free MEAL _ Hh); [|exact Hc|exact E].
  eapply (@pool_inv_reachable _ (alone_prop MEAL _ Hh)); [apply safe_timer_handler|apply safe_boot_pool| |exact Hr].
  intros j code Hj. split; [done|]. intros Hne. split; [set_solver|]. destruct j as [|j]; [done|].
  apply lookup_replicate in Hj as [-> _]. exact (Hp 1).
Qed.

(** The first thing a boot does with the log, after interrupts are on. *)
Lemma boot_log_never_dropped_witness :
  ∃ p, rtc (pool_step (timer_handler ++ prints 0)) (pool_start (boot_pool (λ _, 0) (λ _, 0) 2)) p ∧ MEAL ∉ p_held p.
Proof.
  assert (∃ p c y r, rtc (pool_step (timer_handler ++ prints 0)) (pool_start (boot_pool (λ _, 0) (λ _, 0) 2)) p ∧
    p_cores p !! 0 = Some c ∧ ops (current (on_core (p_held p) c)) = Try MEAL y :: r) as (p & c & y & r & Hr & Hc & E).
  { pose (code := kernel_main (λ _, 0) (λ _, 0)). pose (at_ i j := mkCore i (mkFrame (drop j code) []) None).
    eexists _, (at_ true 5), _, _. split.
    - eapply rtc_l; [apply (pool_step_core _ _ _ 0 (at_ false 0) ({[PICS]} ∪ ∅) (at_ false 1));
        [reflexivity|apply step_main, (exec_acquire _ _ PICS); set_solver]|].
      eapply rtc_l; [apply (pool_step_core _ _ _ 0 (at_ false 1) (({[PICS]} ∪ ∅) ∖ {[PICS]}) (at_ false 2));
        [reflexivity|apply step_main, exec_release]|].
      eapply rtc_l; [apply (pool_step_core _ _ _ 0 (at_ false 2) (({[PICS]} ∪ ∅) ∖ {[PICS]}) (at_ true 3));
        [reflexivity|apply step_main, exec_enable]|].
      eapply rtc_l; [apply (pool_step_core _ _ _ 0 (at_ true 3) ({[ALLOCATOR]} ∪ ({[PICS]} ∪ ∅) ∖ {[PICS]}) (at_ true 4));
        [reflexivity|apply step_main, (exec_acquire _ _ ALLOCATOR); set_solver]|].
      eapply rtc_l; [apply (pool_step_core _ _ _ 0 (at_ true 4)
          (({[ALLOCATOR]} ∪ ({[PICS]} ∪ ∅) ∖ {[PICS]}) ∖ {[ALLOCATOR]}) (at_ true 5));
        [reflexivity|apply step_main, exec_release]|]. apply rtc_refl.
    - split; reflexivity. }
  exists p. split; [exact Hr|].
  exact (boot_log_never_dropped (λ _, 0) (λ _, 0) 0 2 p 0 c y r Hr Hc E).
Defined.
