(* ===== verification/Framebuffer.v ===== *)
(** * The framebuffer

    Model of [kernel/src/framebuffer.rs].  The bootloader's description of
    the buffer (pixel format, bytes per pixel) and its bytes are arguments.

    Shown here: every whole pixel gets the colour in the order of its
    format, bytes beyond the third of a pixel and a last incomplete pixel
    are left alone; which descriptions make the fill panic. *)

From S2P Require Import Prelude.
From Stdlib Require Import ZArith Lia.
From stdpp Require Import base numbers list.
#[local] Open Scope Z_scope.

(** The bootloader's formats; everything but the first two is treated alike. *)
Inductive PixelFormat := Rgb | Bgr | U8 | Unknown.

#[global] Instance PixelFormat_eq_dec : EqDecision PixelFormat.
Proof. solve_decision. Defined.

Section Fill.
Variables (pixel_format : PixelFormat) (r g b : Z).

(** The body of the loop on one chunk. *)
Definition fill_chunk (chunk : list Z) : outcome (list Z) :=
  match pixel_format with
  | Rgb =>
    chunk ← store chunk 0 r;
    chunk ← store chunk 1 g;
    store chunk 2 b
  | Bgr =>
    chunk ← store chunk 0 b;
    chunk ← store chunk 1 g;
    store chunk 2 r
  | _ =>
    let intensity := wrap 8 ((r + g + b) / 3) in
    Ret ((λ _, intensity) <$> chunk)
  end.

(** [chunks_exact_mut(n)] panics for 0 and skips an incomplete last chunk. *)
Definition fill_screen (bytes_per_pixel : nat) (buffer : list Z) : outcome (list Z) :=
  if (bytes_per_pixel =? 0)%nat then Panic else
  for_out 0 (length buffer / bytes_per_pixel) (λ i buffer,
    let lo := (i * bytes_per_pixel)%nat in
    chunk ← slice lo (lo + bytes_per_pixel) buffer;
    chunk ← fill_chunk chunk;
    copy_into lo (lo + bytes_per_pixel) chunk buffer) buffer.

(** Byte [j] of a painted pixel, [x] before. *)
Definition shade (j : nat) (x : Z) : Z :=
  match pixel_format, j with
  | Rgb, 0%nat | Bgr, 2%nat => r
  | Rgb, 1%nat | Bgr, 1%nat => g
  | Rgb, 2%nat | Bgr, 0%nat => b
  | Rgb, _ | Bgr, _ => x
  | _, _ => (r + g + b) / 3
  end.

(** The formats with three colours need three bytes. *)
Definition colours (n : nat) : Prop :=
  match pixel_format with Rgb | Bgr => (3 <= n)%nat | _ => (0 < n)%nat end.

Hypothesis Hr : u8 r.
Hypothesis Hg : u8 g.
Hypothesis Hb : u8 b.

Lemma fill_chunk_ok chunk : colours (length chunk) → fill_chunk chunk = Ret (imap shade chunk).
Proof.
  intros Hc. unfold colours, fill_chunk in *. destruct pixel_format eqn:Ef.
  1,2: destruct chunk as [|x [|y [|z chunk]]]; try (simpl in Hc; lia);
    rewrite !imap_cons; unfold shade; rewrite Ef; cbn; do 4 f_equal;
    symmetry; apply list_eq; intros i; rewrite list_lookup_imap; by destruct (chunk !! i).
  all: f_equal; apply list_eq; intros i; rewrite list_lookup_fmap, list_lookup_imap;
    destruct (chunk !! i); [|done]; simpl; unfold shade; rewrite Ef; f_equal;
    unfold wrap; rewrite Z.mod_small; [done|]; split;
    [apply Z.div_pos; unfold uint in *; lia|apply Z.div_lt_upper_bound; unfold uint in *; lia].
Qed.

(** The buffer after the first [i] pixels. *)
Definition painted (n i : nat) (buf out : list Z) : Prop :=
  length out = length buf ∧
  ∀ k x, buf !! k = Some x →
    out !! k = Some (if decide (k < i * n)%nat then shade (k mod n) x else x).

Lemma fill_screen_ok n buf :
  colours n → ∃ out, fill_screen n buf = Ret out ∧ painted n (length buf / n) buf out.
Proof.
  intros Hc. assert (0 < n)%nat as Hn by (unfold colours in Hc; destruct pixel_format; lia).
  unfold fill_screen. rewrite (proj2 (Nat.eqb_neq _ _)) by lia.
  apply (for_out_ind (λ i out, painted n i buf out)); [lia| |].
  - split; [done|]. intros k x Hx. by rewrite decide_False by lia.
  - intros i out Hi [Hl Ho]. cbv zeta.
    assert (i * n + n <= length out)%nat as Hin.
    { pose proof (Nat.Div0.mul_div_le (length buf) n). nia. }
    rewrite slice_ok, bind_Ret by lia. set (chunk := take _ _).
    assert (length chunk = n) as Hcl by (unfold chunk; rewrite length_take, length_drop; lia).
    rewrite fill_chunk_ok, bind_Ret by (by rewrite Hcl).
    rewrite copy_into_ok by (rewrite ?length_imap; lia).
    eexists. split; [done|]. split; [rewrite length_splice; [done|rewrite length_imap; lia]|].
    intros k x Hx. rewrite lookup_splice, length_imap, Hcl by (rewrite length_imap; lia).
    pose proof (Ho k x Hx) as Hk. destruct (decide (i * n <= k < i * n + n)%nat) as [Hin2|Hin2].
    + rewrite (decide_False (P := (k < i * n)%nat)) in Hk by lia. rewrite list_lookup_imap.
      unfold chunk. rewrite lookup_take_lt, lookup_drop by lia.
      replace (i * n + (k - i * n))%nat with k by lia. rewrite Hk. simpl.
      rewrite decide_True by lia. do 2 f_equal.
      replace k with ((k - i * n) + i * n)%nat at 2 by lia.
      rewrite Nat.Div0.mod_add, Nat.mod_small by lia. done.
    + rewrite Hk. do 2 case_decide; try done; lia.
Qed.
End Fill.

(** Two bytes are not enough for a colour. *)
Lemma fill_short fmt r g b n buf :
  fmt = Rgb ∨ fmt = Bgr → (0 < n < 3)%nat → (n <= length buf)%nat → fill_screen fmt r g b n buf = Panic.
Proof.
  intros Hf Hn Hl. unfold fill_screen. rewrite (proj2 (Nat.eqb_neq _ _)) by lia.
  assert (0 < length buf / n)%nat as Hd by (apply Nat.div_str_pos; lia).
  destruct (length buf / n)%nat as [|m]; [lia|]. unfold for_out. cbn [Nat.sub seq for_list].
  rewrite Nat.mul_0_l, Nat.add_0_l, slice_ok, bind_Ret by lia. rewrite drop_0, Nat.sub_0_r.
  assert (n = 1 ∨ n = 2)%nat as [-> | ->] by lia; destruct buf as [|x [|y buf]]; try (simpl in Hl; lia);
    by destruct Hf as [-> | ->].
Qed.

Lemma fill_empty fmt r g b n buf :
  (length buf < n)%nat → fill_screen fmt r g b n buf = Ret buf.
Proof.
  intros Hl. unfold fill_screen. rewrite (proj2 (Nat.eqb_neq _ _)) by lia. by rewrite Nat.div_small.
Qed.

(** ** Properties *)

(** the fill: for a buffer whose pixels have at least one byte, three for
    the colour formats, [fill_screen] returns a buffer of the same length in
    which every byte of every whole pixel has the value its position and the
    format call for, the bytes above the third of a colour pixel and those
    after the last whole pixel keeping their values. *)
Theorem fill_screen_correct fmt r g b n buf :
  u8 r → u8 g → u8 b → colours fmt n →
  ∃ out, fill_screen fmt r g b n buf = Ret out ∧ length out = length buf ∧
    ∀ k x, buf !! k = Some x →
      out !! k = Some (if decide (k < length buf / n * n)%nat then shade fmt r g b (k mod n) x else x).
Proof.
  intros Hr Hg Hb Hc. destruct (fill_screen_ok fmt r g b Hr Hg Hb n buf Hc) as (out & E & Hl & Ho).
  by exists out.
Qed.

(** The boot colour on two 4-byte pixels and a stray byte. *)
Lemma fill_screen_correct_witness :
  ∃ out, fill_screen Bgr 26 22 71 4 [1; 2; 3; 4; 5; 6; 7; 8; 9] = Ret out ∧ length out = 9%nat ∧
    ∀ k x, [1; 2; 3; 4; 5; 6; 7; 8; 9] !! k = Some x →
      out !! k = Some (if decide (k < 9 / 4 * 4)%nat then shade Bgr 26 22 71 (k mod 4) x else x).
Proof.
  apply (fill_screen_correct Bgr 26 22 71 4 [1; 2; 3; 4; 5; 6; 7; 8; 9]); [split; lia..|simpl; lia].
Defined.

(** bounds: the descriptions on which the fill panics are exactly those
    with no byte per pixel and, once the buffer holds a pixel, the colour
    formats with one or two. *)
Theorem fill_screen_panics fmt r g b n buf :
  u8 r → u8 g → u8 b →
  fill_screen fmt r g b n buf = Panic ↔
    n = 0%nat ∨ ((fmt = Rgb ∨ fmt = Bgr) ∧ (0 < n < 3)%nat ∧ (n <= length buf)%nat).
Proof.
  intros Hr Hg Hb. split; [|intros [->|(Hf & Hn & Hl)]; [done|by apply fill_short]].
  intros Hp. destruct (decide (n = 0%nat)) as [|H0]; [by left|right].
  destruct (decide (length buf < n)%nat) as [Hl|Hl]; [by rewrite fill_empty in Hp|].
  assert (colours fmt n → False) as Hc.
  { intros Hc. destruct (fill_screen_ok fmt r g b Hr Hg Hb n buf Hc) as (out & E & _). congruence. }
  destruct fmt; simpl in Hc; try (destruct Hc; lia); (split; [tauto|]); lia.
Qed.

Lemma fill_screen_panics_witness :
  fill_screen Rgb 26 22 71 2 [0; 0; 0] = Panic.
Proof.
  apply (fill_screen_panics Rgb 26 22 71 2 [0; 0; 0]); [split; lia..|].
  right. split; [by left|simpl; lia].
Defined.
