(* ===== verification/Smp.v ===== *)
(** * Multi-core start-up

    Model of [kernel/src/smp.rs]: the search for the ACPI root pointer, the
    parser of the MADT, the trampoline and its control block, the
    inter-processor interrupts and the start-up loop.  Memory is the byte
    memory the kernel sees; answers of the local APIC and how far a processor
    comes are arguments.  The unused [add_trampoline_identity_map] and
    [logical_cpu_count] are left out.

    Shown here: the table walks end on every memory; on a well-formed MADT
    the parser returns exactly the enabled processors in table order; the
    trampoline page holds the code and the control block afterwards; the
    self-check of the copy can never succeed. *)

From S2P Require Import Prelude Machine.
From Stdlib Require Import ZArith Lia.
From stdpp Require Import base numbers list gmap strings.
#[local] Open Scope Z_scope.

Definition MAX_CORES : nat := 8.

(** ** Finding the tables *)

Section Acpi.
Context `{Profile}.
Variable m : Memory.

(** [read_unaligned(a as *const uN)], little-endian. *)
Definition read_le (a : Z) (n : nat) : Z := of_le (read_at m a n).

(** The inner [while] of [find_rsdp]. *)
Fixpoint scan (fuel : nat) (phys_offset addr fin : Z) : outcome (option Z) :=
  if fin <=? addr then Ret None else
  match fuel with
  | O => NoFuel
  | S fuel =>
    p ← add 64 phys_offset addr;
    if bool_decide (read_at m p 8 = bstr "RSD PTR ") then Ret (Some addr) else
    a ← add 64 addr 16;
    scan fuel phys_offset a fin
  end.

Definition find_rsdp (phys_offset : Z) : outcome (option Z) :=
  p ← add 64 phys_offset 0x40E;
  let ebda_phys := Z.shiftl (read_le p 2) 4 in
  let regions := [(ebda_phys, ebda_phys + 0x400); (0xE0000, 0x100000)] in
  r ← loop_ret regions (λ '(start, fin) (_ : ()),
        x ← scan (Z.to_nat ((fin - start + 15) / 16)) phys_offset start fin;
        Ret (match x with Some a => inr a | None => inl () end)) ();
  Ret (match r with inr a => Some a | inl _ => None end).

(** The [for] over the RSDT: the first table with the signature "APIC". *)
Definition find_madt (phys_offset rsdt_virt : Z) (n : nat) : outcome (option Z) :=
  r ← loop_ret (seq 0 n) (λ i (_ : ()),
        o ← add 64 rsdt_virt 36;
        e ← add 64 o (Z.of_nat i * 4);
        let table_phys := read_le e 4 in
        if table_phys =? 0 then Ret (inl ()) else
        p ← add 64 phys_offset table_phys;
        if bool_decide (read_at m p 4 = bstr "APIC") then Ret (inr table_phys) else Ret (inl ())) ();
  Ret (match r with inr a => Some a | inl _ => None end).

(** The [while] over the MADT's entries. *)
Fixpoint madt_entries (fuel : nat) (madt_virt madt_len offset : Z) (ids : list Z) : outcome (list Z) :=
  e ← add 64 offset 2;
  if negb (e <? madt_len) then Ret ids else
  match fuel with
  | O => NoFuel
  | S fuel =>
    entry_virt ← add 64 madt_virt offset;
    let entry_type := load m entry_virt in
    l ← add 64 entry_virt 1;
    let entry_len := load m l in
    if entry_len =? 0 then Ret ids else
    ids ← (if entry_type =? 0 then
             i ← add 64 entry_virt 3;
             let apic_id := load m i in
             f ← add 64 entry_virt 4;
             let flags := read_le f 4 in
             Ret (if negb (Z.land flags 1 =? 0) then ids ++ [apic_id] else ids)
           else Ret ids);
    offset ← add 64 offset entry_len;
    madt_entries fuel madt_virt madt_len offset ids
  end.

Definition parse_madt (phys_offset : Z) (rsdp_addr : option Z) : outcome (list Z) :=
  r ← match rsdp_addr with Some p => Ret (Some p) | None => find_rsdp phys_offset end;
  match r with
  | None => Ret []
  | Some rsdp_phys =>
    rsdp_virt ← add 64 phys_offset rsdp_phys;
    a ← add 64 rsdp_virt 16;
    rsdt_virt ← add 64 phys_offset (read_le a 4);
    b ← add 64 rsdt_virt 4;
    let rsdt_len := read_le b 4 in
    let n_entries := saturating_sub rsdt_len 36 / 4 in
    found ← find_madt phys_offset rsdt_virt (Z.to_nat (Z.min n_entries 32));
    match found with
    | None => Ret []
    | Some madt_phys =>
      madt_virt ← add 64 phys_offset madt_phys;
      c ← add 64 madt_virt 4;
      let madt_len := read_le c 4 in
      madt_entries (Z.to_nat madt_len) madt_virt madt_len 44 []
    end
  end.
End Acpi.

(** ** The trampoline *)

Definition AP_TRAMPOLINE_BIN : list Z :=
  [0xEB; 0x3E; 0x1F; 0x00; 0x08; 0x00; 0x05; 0x00; 0x00; 0x00; 0x00; 0x00; 0x00; 0x00; 0x00; 0x00;
   0xFF; 0xFF; 0x00; 0x00; 0x00; 0x9A; 0xCF; 0x00; 0xFF; 0xFF; 0x00; 0x00; 0x00; 0x92; 0xCF; 0x00;
   0xFF; 0xFF; 0x00; 0x00; 0x00; 0x9A; 0xAF; 0x00; 0x90; 0x90; 0x90; 0x90; 0x90; 0x90; 0x90; 0x90;
   0x90; 0x90; 0x90; 0x90; 0x90; 0x90; 0x90; 0x90; 0x90; 0x90; 0x90; 0x90; 0x90; 0x90; 0x90; 0x90;
   0x8C; 0xC8; 0x8E; 0xD8; 0x0F; 0x01; 0x16; 0x02; 0x00; 0x0F; 0x20; 0xC0; 0x0C; 0x01; 0x0F; 0x22;
   0xC0; 0x66; 0xEA; 0x80; 0x00; 0x05; 0x00; 0x08; 0x00; 0x90; 0x90; 0x90; 0x90; 0x90; 0x90; 0x90;
   0x90; 0x90; 0x90; 0x90; 0x90; 0x90; 0x90; 0x90; 0x90; 0x90; 0x90; 0x90; 0x90; 0x90; 0x90; 0x90;
   0x90; 0x90; 0x90; 0x90; 0x90; 0x90; 0x90; 0x90; 0x90; 0x90; 0x90; 0x90; 0x90; 0x90; 0x90; 0x90;
   0xB8; 0x10; 0x00; 0x00; 0x00; 0x8E; 0xD8; 0x8E; 0xC0; 0x8E; 0xD0; 0x0F; 0x20; 0xE0; 0x0F; 0xBA;
   0xE8; 0x05; 0x0F; 0x22; 0xE0; 0xA1; 0xE8; 0x0F; 0x05; 0x00; 0x0F; 0x22; 0xD8; 0xB9; 0x80; 0x00;
   0x00; 0xC0; 0x0F; 0x32; 0x0F; 0xBA; 0xE8; 0x08; 0x0F; 0x30; 0x0F; 0x20; 0xC0; 0x0D; 0x00; 0x00;
   0x00; 0x80; 0x0F; 0x22; 0xC0; 0xEA; 0xC0; 0x00; 0x05; 0x00; 0x18; 0x00; 0x90; 0x90; 0x90; 0x90;
   0x48; 0x8B; 0x24; 0x25; 0xF0; 0x0F; 0x05; 0x00; 0x48; 0x8B; 0x3C; 0x25; 0xE0; 0x0F; 0x05; 0x00;
   0x48; 0x8B; 0x04; 0x25; 0xF8; 0x0F; 0x05; 0x00; 0xFF; 0xD0; 0xF4; 0xEB; 0xFD].

(** The words of the control block and their places in the page, in the order
    they are stored. *)
Definition control_block (core_id cr3 stack_top ap_main : Z) : list (Z * Z) :=
  [(0xFE0, core_id); (0xFE8, cr3); (0xFF0, stack_top); (0xFF8, ap_main)].

Fixpoint store_words `{Profile} (base : Z) (ws : list (Z * Z)) (m : Memory) : outcome Memory :=
  match ws with
  | [] => Ret m
  | (off, v) :: ws => a ← add 64 base off; store_words base ws (write_at a (le_bytes 8 v) m)
  end.

(** Copies the code, checks the first four bytes (the boolean: the check's
    verdict) and writes the control block. *)
Definition install_trampoline `{Profile} (ap_main phys_offset cr3 core_id stack_top : Z) (m : Memory)
    : outcome (Memory * bool) :=
  base ← add 64 phys_offset 0x50000;
  if negb (Z.of_nat (length AP_TRAMPOLINE_BIN) <=? 0xFE0) then Panic else
  let m := write_at base AP_TRAMPOLINE_BIN m in
  let b0 := load m base in
  b1a ← add 64 base 1;
  let b1 := load m b1a in
  b2a ← add 64 base 2;
  let b2 := load m b2a in
  b3a ← add 64 base 3;
  let b3 := load m b3a in
  let verified := negb (negb (b0 =? 0xFA) || negb (b1 =? 0x31) || negb (b2 =? 0xC0) || negb (b3 =? 0x8E)) in
  m ← store_words base (control_block core_id cr3 stack_top ap_main) m;
  Ret (m, verified).

(** ** Inter-processor interrupts *)

Definition LAPIC_PHYS : Z := 0xFEE00000.
Definition LAPIC_ID : Z := 0x20.
Definition LAPIC_ICR_LO : Z := 0x300.
Definition LAPIC_ICR_HI : Z := 0x310.

(** Register accesses, in order; the register is relative to the APIC. *)
Inductive LapicOp := LWrite (reg val : Z) | LRead (reg : Z).

(** [while lapic_read(ICR_LO) & (1 << 12) != 0 && timeout < 1000]: [busy k]
    is the value of the [k]-th read. *)
Fixpoint lapic_poll (fuel : nat) (busy : nat → Z) (k : nat) (timeout : Z) : outcome (list LapicOp * nat) :=
  if negb (Z.land (busy k) (Z.shiftl 1 12) =? 0) && (timeout <? 1000) then
    match fuel with
    | O => NoFuel
    | S fuel =>
      '(ops, k) ← lapic_poll fuel busy (S k) (timeout + 1);
      Ret (LRead LAPIC_ICR_LO :: ops, k)
    end
  else Ret ([LRead LAPIC_ICR_LO], S k).

(** [lapic_wait]: the same poll without a limit; nothing calls it.  Returns
    the number of reads. *)
Fixpoint lapic_wait (fuel : nat) (busy : nat → Z) (k : nat) : outcome nat :=
  match fuel with
  | O => NoFuel
  | S fuel => if negb (Z.land (busy k) (Z.shiftl 1 12) =? 0) then lapic_wait fuel busy (S k) else Ret (S k)
  end.

(** The two halves of the command register, then the poll. *)
Definition ipi (apic_id icr_lo : Z) (busy : nat → Z) (k : nat) : outcome (list LapicOp * nat) :=
  '(ops, k) ← lapic_poll 1000 busy k 0;
  Ret (LWrite LAPIC_ICR_HI (wrap 32 (Z.shiftl apic_id 24)) :: LWrite LAPIC_ICR_LO icr_lo :: ops, k).

Definition send_sipi (apic_id sipi_vec : Z) (busy : nat → Z) : outcome (list LapicOp) :=
  '(p1, k) ← ipi apic_id 0xC500 busy 0;
  '(p2, k) ← ipi apic_id 0x8500 busy k;
  '(p3, k) ← ipi apic_id (Z.lor 0x4600 sipi_vec) busy k;
  '(p4, k) ← ipi apic_id (Z.lor 0x4600 sipi_vec) busy k;
  Ret (LWrite 0x280 0 :: p1 ++ p2 ++ LWrite 0x280 0 :: p3 ++ LWrite 0x280 0 :: p4).

(** ** Start-up *)

(** [CORE_LOCALS[i].is_online], [APS_ONLINE], memory and the accesses to the
    APIC. *)
Record Cores := mkCores {
  is_online : list bool; APS_ONLINE : Z; c_mem : Memory; c_lapic : list LapicOp }.

(** What the environment decides: the address of [ap_main] and of
    [AP_STACKS], the raw value of the APIC's id register, its answers while
    a processor is started, and how far that processor gets. *)

(** A started processor does not report; or it stores its flag before the wait
    for it ends, and counts itself only after the total is printed, or before.
    One whose flag comes after its wait has timed out is not represented here
    ([StartUp] is about those). *)
Inductive Progress := Silent | Flagged | Reported.

#[global] Instance Progress_eq_dec : EqDecision Progress.
Proof. solve_decision. Defined.

Record SmpEnv := mkSmpEnv {
  ap_main_addr : Z; ap_stacks : Z; lapic_id_raw : Z; lapic_busy : Z → nat → Z; progress : Z → Progress }.

(** The two stores of [ap_main], run by the started processor, which then
    halts. *)
Definition store_online (core_id : Z) (s : Cores) : Cores :=
  mkCores (<[Z.to_nat core_id := true]> (is_online s)) (APS_ONLINE s) (c_mem s) (c_lapic s).
Definition count_online (s : Cores) : Cores :=
  mkCores (is_online s) (wadd 32 (APS_ONLINE s) 1) (c_mem s) (c_lapic s).

(** What [ap_main] has done by the time the total is loaded; the total is the
    only use of [APS_ONLINE]. *)
Definition ap_main (p : Progress) (core_id : Z) (s : Cores) : Cores :=
  if (Z.to_nat core_id <? MAX_CORES)%nat then
    match p with
    | Silent => s
    | Flagged => store_online core_id s
    | Reported => count_online (store_online core_id s)
    end
  else s.

Section Start.
Context `{Profile}.

(** The two bytes cleared before the trampoline is installed. *)
Definition clear_magic_bytes (phys_offset : Z) (m : Memory) : outcome Memory :=
  a ← add 64 phys_offset 0xFFE;
  let m := <[a := 0]> m in
  a ← add 64 phys_offset 0x50FFE;
  Ret (<[a := 0]> m).

(** The loop body for one processor; the wait ends when the processor is
    online or after 200 rounds. *)
Definition start_ap (env : SmpEnv) (phys_offset cr3 bsp_id : Z) (apic_id : Z) (s : Cores)
    : outcome Cores :=
  if apic_id =? bsp_id then Ret s else
  let core_id := apic_id in
  if (MAX_CORES <=? Z.to_nat core_id)%nat then Ret s else
  let stack_top := ap_stacks env + 16384 * core_id + 16384 in
  m ← clear_magic_bytes phys_offset (c_mem s);
  '(m, _) ← install_trampoline (ap_main_addr env) phys_offset cr3 core_id stack_top m;
  ops ← send_sipi apic_id 0x50 (lapic_busy env apic_id);
  let s := mkCores (is_online s) (APS_ONLINE s) m (c_lapic s ++ ops) in
  Ret (ap_main (progress env apic_id) core_id s).

Fixpoint start_aps (env : SmpEnv) (phys_offset cr3 bsp_id : Z) (apic_ids : list Z) (s : Cores)
    : outcome Cores :=
  match apic_ids with
  | [] => Ret s
  | apic_id :: apic_ids =>
    s ← start_ap env phys_offset cr3 bsp_id apic_id s;
    start_aps env phys_offset cr3 bsp_id apic_ids s
  end.

(** [init]: the cores and the total it prints. *)
Definition init (env : SmpEnv) (phys_offset cr3 : Z) (rsdp_addr : option Z) (s : Cores)
    : outcome (Cores * Z) :=
  let s := mkCores (<[0%nat := true]> (is_online s)) (APS_ONLINE s) (c_mem s) (c_lapic s) in
  apic_ids ← parse_madt (c_mem s) phys_offset rsdp_addr;
  if (length apic_ids <=? 1)%nat then Ret (s, 1) else
  lapic_virt ← add 64 phys_offset LAPIC_PHYS;
  let s := mkCores (is_online s) (APS_ONLINE s) (c_mem s) (c_lapic s ++ [LRead LAPIC_ID]) in
  let bsp_id := wrap 8 (Z.shiftr (lapic_id_raw env) 24) in
  s ← start_aps env phys_offset cr3 bsp_id apic_ids s;
  total ← add 32 1 (APS_ONLINE s);
  Ret (s, total).
End Start.

(** ** The walks end *)

Definition byte_memory (m : Memory) : Prop := ∀ a, 0 <= load m a < 256.

Lemma read_at_bytes m a n : byte_memory m → bytes (read_at m a n).
Proof. intros Hm. apply Forall_fmap, Forall_true. intros i. apply Hm. Qed.

Lemma read_le_range m a n : byte_memory m → 0 <= read_le m a n < 256 ^ Z.of_nat n.
Proof.
  intros Hm. pose proof (of_le_range (read_at m a n) (read_at_bytes m a n Hm)) as Hr.
  by rewrite length_read_at in Hr.
Qed.

Section Ends.
Context `{Profile}.

Lemma post_add_any a b : post (λ _, True) (add 64 a b).
Proof. unfold add, checked. destruct (_ && _); [done|]. by destruct overflow_checks. Qed.

Lemma scan_ends m fuel phys addr fin :
  0 <= addr → fin <= 2 ^ 21 → fin - addr <= 16 * Z.of_nat fuel → post (λ _, True) (scan m fuel phys addr fin).
Proof.
  intros Ha Hf. revert addr Ha. induction fuel as [|fuel IH]; intros addr Ha Hlen; cbn [scan];
    (destruct (Z.leb_spec fin addr); [done|]); [lia|].
  eapply post_bind; [apply post_add_any|]. intros p _. case_match; [done|].
  rewrite add_small, bind_Ret by (split; lia). apply IH; lia.
Qed.

Lemma find_rsdp_ends m phys : byte_memory m → post (λ _, True) (find_rsdp m phys).
Proof.
  intros Hm. unfold find_rsdp. eapply post_bind; [apply post_add_any|]. intros p _.
  pose proof (read_le_range m p 2 Hm). rewrite Z.shiftl_mul_pow2 by lia. change (2 ^ 4) with 16.
  set (e := read_le m p 2 * 16). assert (0 <= e < 2 ^ 20) by (subst e; lia).
  eapply post_bind; [|done].
  eapply post_mono; [apply (post_loop_ret (λ _ _, True) (λ _, True)); [done|]|done].
  intros pre [start fin] suf [] E _. eapply post_bind; [apply scan_ends|by intros [a|] _].
  - destruct pre as [|? [|? [|? ?]]]; simplify_eq/=; lia.
  - destruct pre as [|? [|? [|? ?]]]; simplify_eq/=; lia.
  - clear. pose proof (Z.div_mod (fin - start + 15) 16 ltac:(done)).
    pose proof (Z.mod_pos_bound (fin - start + 15) 16 eq_refl). lia.
Qed.

Lemma find_madt_ends m phys rsdt n : post (λ _, True) (find_madt m phys rsdt n).
Proof.
  unfold find_madt. eapply post_bind; [|done].
  eapply post_mono; [apply (post_loop_ret (λ _ _, True) (λ _, True)); [done|]|done].
  intros pre i suf [] _ _. eapply post_bind; [apply post_add_any|]. intros o _.
  eapply post_bind; [apply post_add_any|]. intros e _. case_match; [done|].
  eapply post_bind; [apply post_add_any|]. intros p _. by case_match.
Qed.

Lemma madt_entries_ends m fuel virt len offset ids :
  byte_memory m → 0 <= offset < 2 ^ 33 → len < 2 ^ 32 → len - offset <= Z.of_nat fuel →
  post (λ _, True) (madt_entries m fuel virt len offset ids).
Proof.
  intros Hm Ho Hl. revert offset ids Ho. induction fuel as [|fuel IH]; intros offset ids Ho Hf;
    cbn [madt_entries]; rewrite (add_small 64 offset 2), bind_Ret by (split; lia);
    (destruct (Z.ltb_spec (offset + 2) len); cbn [negb]; [|done]); [lia|].
  eapply post_bind; [apply post_add_any|]. intros ev _.
  eapply post_bind; [apply post_add_any|]. intros l _.
  pose proof (Hm l). destruct (Z.eqb_spec (load m l) 0); [done|].
  eapply post_bind with (λ _, True).
  { case_match; [|done]. eapply post_bind; [apply post_add_any|]. intros i _.
    eapply post_bind; [apply post_add_any|]. done. }
  intros ids' _. rewrite add_small, bind_Ret by (split; lia). apply IH; lia.
Qed.

Lemma parse_madt_ends m phys rsdp : byte_memory m → post (λ _, True) (parse_madt m phys rsdp).
Proof.
  intros Hm. unfold parse_madt. eapply post_bind with (λ _, True);
    [destruct rsdp; [done|by apply find_rsdp_ends]|].
  intros [r|] _; [|done]. do 4 (eapply post_bind; [apply post_add_any|]; intros ? _).
  eapply post_bind; [apply find_madt_ends|]. intros [md|] _; [|done].
  do 2 (eapply post_bind; [apply post_add_any|]; intros ? _).
  eapply madt_entries_ends; [done|lia| |];
    match goal with |- context [read_le m ?a 4] => pose proof (read_le_range m a 4 Hm) end; lia.
Qed.
End Ends.

(** ** What the parser reads

    A MADT as a list of entries: type and body (after the two bytes of type
    and length). *)

Record MadtEntry := mkMadtEntry { e_type : Z; e_body : list Z }.

Definition encode (e : MadtEntry) : list Z := e_type e :: (2 + Z.of_nat (length (e_body e))) :: e_body e.

(** Every entry fits its length byte and has a body; a local APIC entry has
    processor id, APIC id and flags. *)
Definition wf_madt_entry (e : MadtEntry) : Prop :=
  bytes (encode e) ∧ (1 <= length (e_body e))%nat ∧ (e_type e = 0 → (6 <= length (e_body e))%nat).

(** The APIC id of an enabled processor. *)
Definition enabled_id (e : MadtEntry) : option Z :=
  if (e_type e =? 0) && Z.odd (of_le (take 4 (drop 2 (e_body e)))) then Some (e_body e !!! 1%nat) else None.

(** Reading inside a stretch of memory that is known. *)
Lemma read_at_inside m p l a n :
  read_at m p (length l) = l → (a + n <= length l)%nat →
  read_at m (p + Z.of_nat a) n = take n (drop a l).
Proof.
  intros E Hn. apply list_eq_same_length with n.
  - rewrite length_take, length_drop. lia.
  - apply length_read_at.
  - intros i x y Hi Hx Hy. rewrite lookup_read_at in Hx by done. injection Hx as <-.
    rewrite lookup_take_lt, lookup_drop in Hy by done. rewrite <-E, lookup_read_at in Hy by lia.
    injection Hy as <-. f_equal. lia.
Qed.

Lemma load_inside m p l a :
  read_at m p (length l) = l → (a < length l)%nat → load m (p + Z.of_nat a) = l !!! a.
Proof.
  intros E Ha. pose proof (lookup_read_at m p (length l) a Ha) as Hl. rewrite E in Hl.
  by rewrite list_lookup_total_alt, Hl.
Qed.

Lemma read_at_app m p l1 l2 :
  read_at m p (length (l1 ++ l2)) = l1 ++ l2 →
  read_at m p (length l1) = l1 ∧ read_at m (p + Z.of_nat (length l1)) (length l2) = l2.
Proof.
  intros E. pose proof (read_at_inside m p _ 0 (length l1) E) as H1.
  pose proof (read_at_inside m p _ (length l1) (length l2) E) as H2. rewrite length_app in *.
  rewrite drop_app_length in H2. rewrite Z.add_0_r, drop_0, take_app_length in H1.
  rewrite H1, H2 by lia. by rewrite take_ge.
Qed.

Section Parse.
Context `{Profile}.

(** What one entry adds. *)
Definition entry_ids (e : MadtEntry) : list Z := match enabled_id e with Some x => [x] | None => [] end.

Lemma apic_entry_ok m p e ids :
  wf_madt_entry e → read_at m p (length (encode e)) = encode e → 0 <= p < 2 ^ 64 - 8 →
  (if e_type e =? 0 then
     i ← add 64 p 3; f ← add 64 p 4;
     Ret (if negb (Z.land (read_le m f 4) 1 =? 0) then ids ++ [load m i] else ids)
   else Ret ids) = Ret (ids ++ entry_ids e).
Proof.
  intros (_ & _ & H6) He Hp. unfold entry_ids, enabled_id.
  assert (length (encode e) = 2 + length (e_body e))%nat as Hle by done.
  destruct (Z.eqb_spec (e_type e) 0) as [Ht|Ht]; [|by rewrite app_nil_r].
  specialize (H6 Ht). rewrite !add_small, !bind_Ret by (split; lia).
  pose proof (load_inside m p (encode e) 3 He ltac:(lia)) as L3.
  pose proof (read_at_inside m p (encode e) 4 4 He ltac:(lia)) as L4.
  change (Z.of_nat 3) with 3 in L3. change (Z.of_nat 4) with 4 in L4.
  unfold read_le. rewrite L3, L4. cbn [encode drop].
  rewrite (Z.land_ones _ 1) by lia. change (2 ^ 1) with 2.
  rewrite Zmod_odd. by destruct (Z.odd _); [|rewrite app_nil_r].
Qed.

Lemma entry_head m p e :
  wf_madt_entry e → read_at m p (length (encode e)) = encode e →
  load m p = e_type e ∧ load m (p + 1) = 2 + Z.of_nat (length (e_body e)) ∧
  2 + Z.of_nat (length (e_body e)) < 256.
Proof.
  intros (Hb & H1 & _) He. assert (length (encode e) = 2 + length (e_body e))%nat as Hle by done.
  pose proof (load_inside m p (encode e) 0 He ltac:(lia)) as L0. rewrite Z.add_0_r in L0.
  pose proof (load_inside m p (encode e) 1 He ltac:(lia)) as L1. change (Z.of_nat 1) with 1 in L1.
  split; [done|]. split; [done|].
  inversion Hb as [|? ? ? Hb2]; subst. inversion Hb2 as [|? ? [_ ?]]; subst. done.
Qed.

Lemma madt_entries_ok m virt es fuel offset ids :
  let enc := mjoin (encode <$> es) in
  let len := offset + Z.of_nat (length enc) in
  Forall wf_madt_entry es → read_at m (virt + offset) (length enc) = enc →
  0 <= virt → 44 <= offset → len < 2 ^ 32 → virt + len + 256 < 2 ^ 64 → (length enc <= fuel)%nat →
  madt_entries m fuel virt len offset ids = Ret (ids ++ mjoin (entry_ids <$> es)).
Proof.
  intros enc len Hw. subst enc len. revert fuel offset ids.
  induction Hw as [|e es Hwe Hw IH]; intros fuel offset ids Henc Hv Ho Hlen Hvl Hf.
  - cbn. destruct fuel; cbn [madt_entries]; rewrite (add_small 64 offset 2), bind_Ret by (split; lia);
      rewrite (proj2 (Z.ltb_ge _ _)) by lia; by rewrite app_nil_r.
  - cbn [fmap list_fmap mjoin list_join] in *. apply read_at_app in Henc as [He Hes].
    rewrite length_app in *. set (rest := mjoin (encode <$> es)) in *.
    assert (length (encode e) = 2 + length (e_body e))%nat as Hle by done.
    destruct (entry_head _ _ _ Hwe He) as (L0 & L1 & Hlb).
    assert (1 <= length (e_body e))%nat by apply Hwe.
    destruct fuel as [|fuel]; [lia|]. cbn [madt_entries].
    rewrite (add_small 64 offset 2), bind_Ret by (split; lia).
    rewrite (proj2 (Z.ltb_lt _ _)) by lia. cbn [negb].
    rewrite (add_small 64 virt offset), bind_Ret by (split; lia).
    rewrite (add_small 64 (virt + offset) 1), bind_Ret by (split; lia).
    rewrite L0, L1, (proj2 (Z.eqb_neq _ _)) by lia.
    rewrite (apic_entry_ok m (virt + offset) e ids), bind_Ret by (done || lia).
    rewrite (add_small 64 offset (2 + _)), bind_Ret by (split; lia).
    replace (offset + Z.of_nat (length (encode e) + length rest))
      with (offset + (2 + Z.of_nat (length (e_body e))) + Z.of_nat (length rest)) by lia.
    rewrite IH by (try lia; rewrite <-Hes at 2; f_equal; lia).
    by rewrite (assoc_L (++)).
Qed.
End Parse.

(** ** The tables *)

(** The tables in memory: the root pointer at [rsdp], the RSDT listing
    [tables], the first of them with the signature "APIC" being the MADT with
    the entries [es]; everything inside the address space. *)
Record acpi_layout (m : Memory) (phys rsdp rsdt madt : Z) (tables : list Z) (es : list MadtEntry) : Prop := {
  al_phys : 0 <= phys ∧ 0 <= rsdp ∧ phys + rsdp + 2 ^ 34 < 2 ^ 64;
  al_rsdt : read_le m (phys + rsdp + 16) 4 = rsdt ∧ 0 <= rsdt < 2 ^ 32;
  al_len : read_le m (phys + rsdt + 4) 4 = 36 + 4 * Z.of_nat (length tables) ∧ (length tables <= 32)%nat;
  al_tables i tb : tables !! i = Some tb →
    read_le m (phys + rsdt + 36 + Z.of_nat i * 4) 4 = tb ∧ 0 <= tb < 2 ^ 32;
  al_madt : ∃ k, tables !! k = Some madt ∧ madt ≠ 0 ∧ read_at m (phys + madt) 4 = bstr "APIC" ∧
    ∀ j tb, (j < k)%nat → tables !! j = Some tb → tb = 0 ∨ read_at m (phys + tb) 4 ≠ bstr "APIC";
  al_entries : Forall wf_madt_entry es;
  al_mlen : read_le m (phys + madt + 4) 4 = 44 + Z.of_nat (length (mjoin (encode <$> es))) ∧
    44 + Z.of_nat (length (mjoin (encode <$> es))) < 2 ^ 32;
  al_enc : read_at m (phys + madt + 44) (length (mjoin (encode <$> es))) = mjoin (encode <$> es);
}.

Section Tables.
Context `{Profile}.

(** A search that skips [k] indices and stops at the next. *)
Lemma loop_ret_stops {R} (body : nat → () → outcome (() + R)) i k n x :
  (k < n)%nat → (∀ j, (i <= j < i + k)%nat → body j () = Ret (inl ())) → body (i + k)%nat () = Ret (inr x) →
  loop_ret (seq i n) body () = Ret (inr x).
Proof.
  revert i n. induction k as [|k IH]; intros i n Hn Hskip Hstop; (destruct n as [|n]; [lia|]);
    cbn [seq loop_ret].
  - by rewrite Nat.add_0_r in Hstop; rewrite Hstop.
  - rewrite Hskip, bind_Ret by lia. apply IH; [lia| |by rewrite <-Hstop; f_equal; lia].
    intros j Hj. apply Hskip. lia.
Qed.

Lemma find_madt_ok m phys rsdp rsdt madt tables es :
  acpi_layout m phys rsdp rsdt madt tables es →
  find_madt m phys (phys + rsdt) (length tables) = Ret (Some madt).
Proof.
  intros [Hp [_ Hr] Hl Ht (k & Hk & Hnz & Hsig & Hbefore) _ _ _]. unfold find_madt.
  assert (∀ i tb, tables !! i = Some tb → ∀ A (f : Z → outcome A),
    (o ← add 64 (phys + rsdt) 36; e ← add 64 o (Z.of_nat i * 4); f e) = f (phys + rsdt + 36 + Z.of_nat i * 4)) as Hadd.
  { intros i tb Hi A f. apply lookup_lt_Some in Hi. rewrite add_small, bind_Ret by (split; lia).
    by rewrite add_small, bind_Ret by (split; lia). }
  rewrite (loop_ret_stops _ 0 k _ madt); [done|by eapply lookup_lt_Some| |].
  - intros j Hj. destruct (lookup_lt_is_Some_2 tables j) as [tb Htb]; [apply lookup_lt_Some in Hk; lia|].
    rewrite (Hadd j tb Htb). destruct (Ht j tb Htb) as [-> Hrange].
    destruct (Z.eqb_spec tb 0); [done|]. rewrite add_small, bind_Ret by (split; lia).
    destruct (Hbefore j tb ltac:(lia) Htb); [done|]. by rewrite bool_decide_false.
  - rewrite Nat.add_0_l, (Hadd k madt Hk). destruct (Ht k madt Hk) as [-> Hrange].
    rewrite (proj2 (Z.eqb_neq _ _)) by done. rewrite add_small, bind_Ret by (split; lia).
    by rewrite bool_decide_true.
Qed.

Lemma parse_madt_ok m phys rsdp rsdt madt tables es :
  acpi_layout m phys rsdp rsdt madt tables es →
  parse_madt m phys (Some rsdp) = Ret (mjoin (entry_ids <$> es)).
Proof.
  intros Hal. pose proof (find_madt_ok _ _ _ _ _ _ _ Hal) as Hf.
  destruct Hal as [Hp [Hrsdt Hr] [Hl Hlt] Ht (k & Hk & _) Hes [Hml Hmr] Henc].
  destruct (Ht k madt Hk) as [_ Hmadt]. unfold parse_madt. rewrite bind_Ret.
  rewrite add_small, bind_Ret by (split; lia). rewrite add_small, bind_Ret by (split; lia).
  rewrite Hrsdt, add_small, bind_Ret by (split; lia). rewrite add_small, bind_Ret by (split; lia). rewrite Hl.
  assert (saturating_sub (36 + 4 * Z.of_nat (length tables)) 36 / 4 = Z.of_nat (length tables)) as ->.
  { unfold saturating_sub. replace (Z.max 0 _) with (Z.of_nat (length tables) * 4) by lia. by apply Z.div_mul. }
  replace (Z.to_nat (Z.min _ 32)) with (length tables) by lia. rewrite Hf, bind_Ret.
  rewrite add_small, bind_Ret by (split; lia). rewrite add_small, bind_Ret by (split; lia). rewrite Hml.
  rewrite madt_entries_ok; [done|done|done|lia..].
Qed.
End Tables.

(** ** The trampoline page *)

Lemma read_at_write_apart m p l a n :
  a + Z.of_nat n <= p ∨ p + Z.of_nat (length l) <= a → read_at (write_at p l m) a n = read_at m a n.
Proof. intros Hd. apply read_at_ext. intros b Hb. rewrite load_write_at. by rewrite decide_False by lia. Qed.

(** The page as the started processor finds it. *)
Record trampoline_page (base core_id cr3 stack_top entry : Z) (m : Memory) : Prop := {
  tp_code : read_at m base (length AP_TRAMPOLINE_BIN) = AP_TRAMPOLINE_BIN;
  tp_core : read_at m (base + 0xFE0) 8 = le_bytes 8 core_id;
  tp_cr3 : read_at m (base + 0xFE8) 8 = le_bytes 8 cr3;
  tp_stack : read_at m (base + 0xFF0) 8 = le_bytes 8 stack_top;
  tp_entry : read_at m (base + 0xFF8) 8 = le_bytes 8 entry;
}.

Lemma read_word p v m : read_at (write_at p (le_bytes 8 v) m) p 8 = le_bytes 8 v.
Proof. apply (read_write_at m p (le_bytes 8 v)). Qed.

Lemma install_trampoline_ok `{Profile} entry phys cr3 core_id stack_top m :
  0 <= phys → phys + 0x51000 < 2 ^ 64 →
  ∃ m', install_trampoline entry phys cr3 core_id stack_top m = Ret (m', false) ∧
    trampoline_page (phys + 0x50000) core_id cr3 stack_top entry m' ∧
    ∀ a, ¬ (phys + 0x50000 <= a < phys + 0x51000) → load m' a = load m a.
Proof.
  intros Hp Hh. unfold install_trampoline. rewrite add_small, bind_Ret by (split; lia).
  set (base := phys + 0x50000) in *.
  assert (length AP_TRAMPOLINE_BIN = 221%nat) as Hlen by (vm_compute; reflexivity).
  replace (Z.of_nat (length AP_TRAMPOLINE_BIN) <=? 0xFE0) with true by (rewrite Hlen; reflexivity).
  cbn [negb].
  assert (load (write_at base AP_TRAMPOLINE_BIN m) base = 0xEB) as Hb0.
  { rewrite load_write_at, Hlen, decide_True, Z.sub_diag by lia. reflexivity. }
  rewrite Hb0. cbn [Z.eqb Pos.eqb negb orb].
  assert (∀ k, 0 <= k < 4096 → add 64 base k = Ret (base + k)) as Hadd
    by (intros k Hk; apply add_small; split; unfold base; lia).
  unfold control_block. cbn [store_words]. rewrite !Hadd, !bind_Ret by lia.
  assert (∀ v, length (le_bytes 8 v) = 8%nat) as H8 by (intros; apply length_le_bytes).
  eexists. split; [done|]. split.
  - split.
    + do 4 (rewrite read_at_write_apart by (rewrite H8, Hlen; lia)). apply read_write_at.
    + do 3 (rewrite read_at_write_apart by (rewrite H8; lia)). apply read_word.
    + do 2 (rewrite read_at_write_apart by (rewrite H8; lia)). apply read_word.
    + rewrite read_at_write_apart by (rewrite H8; lia). apply read_word.
    + apply read_word.
  - intros a Ha. rewrite !load_write_at, !H8, Hlen, !decide_False by (unfold base in *; lia). done.
Qed.

(** ** The interrupts *)

Definition writes (ops : list LapicOp) : list (Z * Z) :=
  omap (λ o, match o with LWrite r v => Some (r, v) | LRead _ => None end) ops.

Lemma writes_app a b : writes (a ++ b) = writes a ++ writes b.
Proof. apply omap_app. Qed.

Lemma lapic_poll_ok fuel busy k timeout :
  1000 - timeout <= Z.of_nat fuel →
  ∃ ops k', lapic_poll fuel busy k timeout = Ret (ops, k') ∧ writes ops = [] ∧ (length ops <= S fuel)%nat.
Proof.
  revert k timeout. induction fuel as [|fuel IH]; intros k timeout Ht; cbn [lapic_poll].
  - rewrite (proj2 (Z.ltb_ge timeout 1000)), andb_false_r by lia. eexists _, _. split; [done|]. by split.
  - destruct (_ && _); [|eexists _, _; split; [done|]; split; [done|simpl; lia]].
    destruct (IH (S k) (timeout + 1)) as (ops & k' & -> & Hw & Hl); [lia|].
    eexists _, _. split; [done|]. split; [done|simpl; lia].
Qed.

(** Testing one bit by masking. *)
Lemma bit_clear e n : 0 <= n → (Z.land e (Z.shiftl 1 n) =? 0) = negb (Z.testbit e n).
Proof.
  intros Hn. rewrite Z.shiftl_1_l. destruct (Z.testbit e n) eqn:Eb; simpl.
  - apply Z.eqb_neq. intros E. assert (Z.testbit (Z.land e (2 ^ n)) n = false) as Hf by (by rewrite E, Z.bits_0).
    rewrite Z.land_spec, Eb, Z.pow2_bits_true in Hf by done. done.
  - apply Z.eqb_eq, Z.bits_inj'. intros i Hi. rewrite Z.land_spec, Z.bits_0.
    destruct (decide (i = n)) as [->|Hne]; [by rewrite Eb|].
    by rewrite Z.pow2_bits_false, andb_false_r by done.
Qed.

(** It ends exactly when the register ever reads idle, after the first such
    read. *)
Lemma lapic_wait_ends busy k n :
  (∃ fuel, lapic_wait fuel busy k = Ret (S (k + n))) ↔
  Z.testbit (busy (k + n)%nat) 12 = false ∧ ∀ i, (i < n)%nat → Z.testbit (busy (k + i)%nat) 12 = true.
Proof.
  assert (∀ v, (Z.land v (Z.shiftl 1 12) =? 0) = negb (Z.testbit v 12)) as Hbit by (intros v; by apply bit_clear).
  revert k. induction n as [|n IH]; intros k; rewrite ?Nat.add_0_r; split.
  - intros [[|fuel] E]; [done|]. cbn [lapic_wait] in E. rewrite Hbit, negb_involutive in E.
    destruct (Z.testbit (busy k) 12); [|split; [done|lia]].
    exfalso. assert (∀ f j r, lapic_wait f busy j = Ret r → (j < r)%nat) as Hlt.
    { induction f as [|f IHf]; intros j r; [done|]. cbn [lapic_wait].
      destruct (negb _); [intros H%IHf; lia|intros [= <-]; lia]. }
    apply Hlt in E. lia.
  - intros [E _]. exists 1%nat. cbn [lapic_wait]. by rewrite Hbit, E.
  - intros [[|fuel] E]; [done|]. cbn [lapic_wait] in E. rewrite Hbit, negb_involutive in E.
    destruct (Z.testbit (busy k) 12) eqn:Ek; [|injection E as E; lia].
    rewrite <-Nat.add_succ_comm in E. destruct (proj1 (IH (S k)) (ex_intro _ fuel E)) as [H1 H2].
    rewrite <-Nat.add_succ_comm. split; [done|]. intros [|i] Hi; [by rewrite Nat.add_0_r|].
    rewrite <-Nat.add_succ_comm. apply H2. lia.
  - intros [H1 H2]. destruct (proj2 (IH (S k))) as [fuel E].
    + rewrite Nat.add_succ_comm. split; [done|]. intros i Hi. rewrite Nat.add_succ_comm. apply H2. lia.
    + exists (S fuel). cbn [lapic_wait]. rewrite Hbit, negb_involutive.
      pose proof (H2 0%nat ltac:(lia)) as H0. rewrite Nat.add_0_r in H0. rewrite H0, E. f_equal. lia.
Qed.

Lemma ipi_ok apic_id lo busy k :
  ∃ ops k', ipi apic_id lo busy k = Ret (ops, k') ∧ (length ops <= 1003)%nat ∧
    writes ops = [(LAPIC_ICR_HI, wrap 32 (Z.shiftl apic_id 24)); (LAPIC_ICR_LO, lo)].
Proof.
  unfold ipi. destruct (lapic_poll_ok 1000 busy k 0) as (ops & k' & -> & Hw & Hl); [lia|].
  eexists _, _. split; [done|]. split; [simpl; lia|].
  assert (∀ r v l, writes (LWrite r v :: l) = (r, v) :: writes l) as Hc by done. by rewrite !Hc, Hw.
Qed.

(** INIT asserted, INIT deasserted, then twice the start-up interrupt: the
    writes, whatever the APIC answers. *)
Definition sipi_writes (apic_id sipi_vec : Z) : list (Z * Z) :=
  let hi := (0x310, (apic_id * 2 ^ 24) mod 2 ^ 32) in
  [(0x280, 0); hi; (0x300, 0xC500); hi; (0x300, 0x8500);
   (0x280, 0); hi; (0x300, Z.lor 0x4600 sipi_vec);
   (0x280, 0); hi; (0x300, Z.lor 0x4600 sipi_vec)].

Lemma send_sipi_ok apic_id vec busy :
  ∃ ops, send_sipi apic_id vec busy = Ret ops ∧ writes ops = sipi_writes apic_id vec.
Proof.
  unfold send_sipi.
  destruct (ipi_ok apic_id 0xC500 busy 0) as (p1 & k1 & -> & _ & W1). rewrite bind_Ret.
  destruct (ipi_ok apic_id 0x8500 busy k1) as (p2 & k2 & -> & _ & W2). rewrite bind_Ret.
  destruct (ipi_ok apic_id (Z.lor 0x4600 vec) busy k2) as (p3 & k3 & -> & _ & W3). rewrite bind_Ret.
  destruct (ipi_ok apic_id (Z.lor 0x4600 vec) busy k3) as (p4 & k4 & -> & _ & W4). rewrite bind_Ret.
  eexists. split; [done|].
  assert (∀ l, writes (LWrite 0x280 0 :: l) = (0x280, 0) :: writes l) as Hc by done.
  rewrite Hc, !writes_app, Hc, writes_app, Hc, W1, W2, W3, W4. unfold sipi_writes.
  by rewrite Z.shiftl_mul_pow2.
Qed.

(** ** The start-up loop *)

Definition online_count (l : list bool) : nat := length (filter (λ b, b = true) l).

Lemma online_count_insert l i :
  l !! i = Some false → online_count (<[i := true]> l) = S (online_count l).
Proof.
  assert (∀ b l, online_count (b :: l) = ((if b then 1 else 0) + online_count l)%nat) as Hc
    by (by intros [] ?).
  revert i. induction l as [|b l IH]; intros [|i] Hi; try done; cbn [insert list_insert]; rewrite !Hc.
  - by injection Hi as ->.
  - rewrite IH by done. lia.
Qed.

(** The processors sent a start-up interrupt, those that report themselves
    online, and those that are counted in the total. *)
Definition targets (bsp_id : Z) (ids : list Z) : list Z :=
  filter (λ id, id ≠ bsp_id ∧ (Z.to_nat id < 8)%nat) ids.
Definition ups (env : SmpEnv) (bsp_id : Z) (ids : list Z) : list Z :=
  filter (λ id, progress env id ≠ Silent) (targets bsp_id ids).
Definition reports (env : SmpEnv) (bsp_id : Z) (ids : list Z) : list Z :=
  filter (λ id, progress env id = Reported) (targets bsp_id ids).

Section Starting.
Context `{Profile} (env : SmpEnv) (phys cr3 : Z).
Hypothesis phys_ok : 0 <= phys ∧ phys + 0x51000 < 2 ^ 64.

Lemma clear_magic_ok m : clear_magic_bytes phys m = Ret (<[phys + 0x50FFE := 0]> (<[phys + 0xFFE := 0]> m)).
Proof. unfold clear_magic_bytes. by rewrite !(add_small 64 phys), !bind_Ret by (split; lia). Qed.

Lemma start_ap_ok bsp_id apic_id s :
  0 <= APS_ONLINE s → APS_ONLINE s + 1 < 2 ^ 32 →
  ∃ s', start_ap env phys cr3 bsp_id apic_id s = Ret s' ∧
    writes (c_lapic s') = writes (c_lapic s) ++ mjoin ((λ id, sipi_writes id 0x50) <$> targets bsp_id [apic_id]) ∧
    is_online s' = foldl (λ l id, <[Z.to_nat id := true]> l) (is_online s) (ups env bsp_id [apic_id]) ∧
    APS_ONLINE s' = APS_ONLINE s + Z.of_nat (length (reports env bsp_id [apic_id])).
Proof.
  intros H0 H1. unfold start_ap, ups, reports, targets. rewrite filter_cons, filter_nil.
  destruct (Z.eqb_spec apic_id bsp_id) as [Hb|Hb].
  { rewrite decide_False by tauto. exists s. rewrite app_nil_r. cbn. repeat split. lia. }
  destruct (Nat.leb_spec MAX_CORES (Z.to_nat apic_id)) as [Hc|Hc]; unfold MAX_CORES in Hc.
  { rewrite decide_False by lia. exists s. rewrite app_nil_r. cbn. repeat split. lia. }
  rewrite decide_True by done. rewrite !filter_cons, !filter_nil, clear_magic_ok, bind_Ret.
  destruct (install_trampoline_ok (ap_main_addr env) phys cr3 apic_id (ap_stacks env + 16384 * apic_id + 16384)
    (<[phys + 0x50FFE := 0]> (<[phys + 0xFFE := 0]> (c_mem s)))) as (m' & -> & _); [lia|lia|].
  rewrite bind_Ret. destruct (send_sipi_ok apic_id 0x50 (lapic_busy env apic_id)) as (ops & -> & Hw).
  rewrite bind_Ret. eexists. split; [done|]. cbn [fmap list_fmap mjoin list_join]. rewrite app_nil_r.
  unfold ap_main. rewrite (proj2 (Nat.ltb_lt _ _)) by (unfold MAX_CORES; lia).
  destruct (progress env apic_id); cbn; rewrite writes_app, Hw; (split; [done|]); (split; [done|]);
    repeat case_decide; try done; cbn; try lia.
  unfold wadd, wrap. rewrite Z.mod_small; lia.
Qed.

Lemma targets_cons bsp_id id ids : targets bsp_id (id :: ids) = targets bsp_id [id] ++ targets bsp_id ids.
Proof. apply (filter_app _ [id]). Qed.
Lemma ups_cons bsp_id id ids : ups env bsp_id (id :: ids) = ups env bsp_id [id] ++ ups env bsp_id ids.
Proof. unfold ups. rewrite targets_cons. apply filter_app. Qed.
Lemma reports_cons bsp_id id ids :
  reports env bsp_id (id :: ids) = reports env bsp_id [id] ++ reports env bsp_id ids.
Proof. unfold reports. rewrite targets_cons. apply filter_app. Qed.

Lemma start_aps_ok bsp_id ids s :
  0 <= APS_ONLINE s → APS_ONLINE s + Z.of_nat (length ids) < 2 ^ 32 →
  ∃ s', start_aps env phys cr3 bsp_id ids s = Ret s' ∧
    writes (c_lapic s') = writes (c_lapic s) ++ mjoin ((λ id, sipi_writes id 0x50) <$> targets bsp_id ids) ∧
    is_online s' = foldl (λ l id, <[Z.to_nat id := true]> l) (is_online s) (ups env bsp_id ids) ∧
    APS_ONLINE s' = APS_ONLINE s + Z.of_nat (length (reports env bsp_id ids)).
Proof.
  revert s. induction ids as [|id ids IH]; intros s H0 H1; cbn [start_aps].
  - exists s. rewrite app_nil_r. cbn. repeat split. lia.
  - cbn [length] in H1. destruct (start_ap_ok bsp_id id s) as (s1 & -> & W1 & O1 & A1); [lia|lia|].
    rewrite bind_Ret.
    assert (length (reports env bsp_id [id]) <= 1)%nat.
    { unfold reports, targets. etrans; [apply length_filter|]. etrans; [apply length_filter|]. done. }
    destruct (IH s1) as (s2 & -> & W2 & O2 & A2); [lia|lia|].
    exists s2. split; [done|]. rewrite targets_cons, ups_cons, reports_cons, fmap_app, join_app, W2, W1, O2, O1, A2, A1.
    rewrite foldl_app, length_app. split; [by rewrite (assoc_L (++))|]. split; [done|lia].
Qed.
End Starting.

(** Setting distinct flags one by one. *)
Lemma online_fold l us :
  NoDup us → (∀ u, u ∈ us → 0 <= u ∧ l !! Z.to_nat u = Some false) →
  online_count (foldl (λ l id, <[Z.to_nat id := true]> l) l us) = (online_count l + length us)%nat.
Proof.
  intros Hn. revert l. induction Hn as [|u us Hu Hn IH]; intros l Hl; cbn [foldl length]; [lia|].
  rewrite IH.
  - rewrite online_count_insert by (apply Hl; set_solver). lia.
  - intros v Hv. destruct (Hl u) as [? _]; [set_solver|]. destruct (Hl v) as [? Hf]; [set_solver|].
    split; [done|]. rewrite list_lookup_insert_ne; [done|].
    intros E. assert (u = v) as -> by lia. done.
Qed.

Lemma online_fold_lookup l us i :
  foldl (λ l id, <[Z.to_nat id := true]> l) l us !! i = Some true ↔
  l !! i = Some true ∨ ((i < length l)%nat ∧ ∃ u, u ∈ us ∧ Z.to_nat u = i).
Proof.
  revert l. induction us as [|u us IH]; intros l; cbn [foldl].
  - split; [by left|]. intros [?|(_ & u & Hu & _)]; [done|by apply not_elem_of_nil in Hu].
  - rewrite IH, length_insert, list_lookup_insert_Some. split.
    + intros [[(<- & _ & Hi)|[_ Hl]]|(Hi & v & Hv & <-)]; [right|by left|right].
      * split; [done|]. exists u. split; [apply list_elem_of_here|done].
      * split; [done|]. exists v. split; [by apply list_elem_of_further|done].
    + intros [Hl|(Hi & v & [->|Hv]%elem_of_cons & <-)].
      * left. destruct (decide (Z.to_nat u = i)) as [<-|]; [left|by right].
        split; [done|]. split; [done|]. by eapply lookup_lt_Some.
      * left. by left.
      * right. split; [done|]. by exists v.
Qed.

(** A processor that is counted has set its flag; the converse holds when none
    stops in between. *)
Lemma reports_ups env bsp_id ids :
  (length (reports env bsp_id ids) <= length (ups env bsp_id ids))%nat ∧
  ((∀ id, id ∈ targets bsp_id ids → progress env id ≠ Flagged) →
   length (reports env bsp_id ids) = length (ups env bsp_id ids)).
Proof.
  unfold reports, ups. induction (targets bsp_id ids) as [|id l [IH1 IH2]]; [done|]. rewrite !filter_cons. split.
  - repeat case_decide; cbn [length]; try lia. congruence.
  - intros Hf. pose proof (Hf id (list_elem_of_here _ _)) as Hid.
    pose proof (IH2 (λ j Hj, Hf j (list_elem_of_further _ _ _ Hj))) as E.
    destruct (progress env id); repeat case_decide; cbn [length]; congruence.
Qed.

Lemma ups_bounds env ids u : bytes ids → u ∈ ups env 0 ids → 0 < u < 8.
Proof.
  intros Hb [_ [[Hne Hlt] Hin]%list_elem_of_filter]%list_elem_of_filter.
  rewrite Forall_forall in Hb. destruct (Hb u Hin). lia.
Qed.

(** Well-formed entries give byte-sized ids, no more than the table is long. *)
Lemma entry_ids_one e : wf_madt_entry e → bytes (entry_ids e) ∧ (length (entry_ids e) <= length (encode e))%nat.
Proof.
  intros (Hb & H1 & H6). unfold entry_ids, enabled_id.
  destruct (Z.eqb_spec (e_type e) 0) as [Ht|]; cbn [andb]; [|by split; [constructor|cbn; lia]].
  specialize (H6 Ht). destruct (Z.odd _); [|by split; [constructor|cbn; lia]].
  split; [|cbn; lia]. constructor; [|constructor].
  inversion Hb as [|? ? _ Hb2]; subst. inversion Hb2 as [|? ? _ Hb3]; subst.
  destruct (e_body e) as [|x [|y bd]]; cbn in H6; [lia|lia|].
  inversion Hb3 as [|? ? _ Hb4]; subst. by inversion Hb4.
Qed.

Lemma entry_ids_ok es :
  Forall wf_madt_entry es →
  bytes (mjoin (entry_ids <$> es)) ∧
  (length (mjoin (entry_ids <$> es)) <= length (mjoin (encode <$> es)))%nat.
Proof.
  induction 1 as [|e es He _ [IH1 IH2]]; [by split; [constructor|]|].
  change (mjoin (entry_ids <$> e :: es)) with (entry_ids e ++ mjoin (entry_ids <$> es)).
  change (mjoin (encode <$> e :: es)) with (encode e ++ mjoin (encode <$> es)).
  destruct (entry_ids_one e He). rewrite !length_app.
  split; [by apply Forall_app|lia].
Qed.

Definition cores_off (s : Cores) : Prop := is_online s = replicate MAX_CORES false ∧ APS_ONLINE s = 0.

(** ** Properties *)

(** C35: on every byte memory the searches for the root pointer and the
    MADT and the walk over its entries end; and on a memory that holds
    well-formed tables the parser returns the APIC ids of the enabled
    processors, in table order. *)
Theorem parse_madt_correct `{Profile} m phys rsdp rsdt madt tables es :
  (∀ p r, byte_memory m → parse_madt m p r ≠ NoFuel) ∧
  (acpi_layout m phys rsdp rsdt madt tables es →
   parse_madt m phys (Some rsdp) = Ret (mjoin (entry_ids <$> es))).
Proof.
  split; [|apply parse_madt_ok]. intros p r Hm. eapply post_fuel. by apply parse_madt_ends.
Qed.

(** C31: with well-formed tables of several distinct processors and a boot
    processor of APIC id 0, no processor reporting after its wait has timed
    out: [init] sends the start-up sequence to exactly the other enabled
    processors below eight, in table order; the cores marked online are core 0
    and the processors that set their flag; the printed total is one more than
    the number of those that have also counted themselves by then, so it is at
    most the number of cores online, and equal to it when each processor that
    set its flag has counted itself. *)
Theorem smp_init_correct `{Profile} env phys cr3 rsdp rsdt madt tables es s :
  acpi_layout (c_mem s) phys rsdp rsdt madt tables es → cores_off s →
  let ids := mjoin (entry_ids <$> es) in
  NoDup ids → (2 <= length ids)%nat → wrap 8 (Z.shiftr (lapic_id_raw env) 24) = 0 →
  ∃ s' total, init env phys cr3 (Some rsdp) s = Ret (s', total) ∧
    writes (c_lapic s') = writes (c_lapic s) ++ mjoin ((λ id, sipi_writes id 0x50) <$> targets 0 ids) ∧
    (∀ i, is_online s' !! i = Some true ↔ i = 0%nat ∨ ∃ u, u ∈ ups env 0 ids ∧ Z.to_nat u = i) ∧
    total = 1 + Z.of_nat (length (reports env 0 ids)) ∧
    total <= Z.of_nat (online_count (is_online s')) ∧
    ((∀ id, id ∈ targets 0 ids → progress env id ≠ Flagged) → total = Z.of_nat (online_count (is_online s'))).
Proof.
  intros Hal [Hoff Haps] ids Hnd Hlen Hbsp. pose proof (parse_madt_ok _ _ _ _ _ _ _ Hal) as Hparse.
  destruct Hal as [Hp _ _ _ _ Hes [_ Hmr] _]. destruct (entry_ids_ok es Hes) as [Hb Hle].
  fold ids in Hparse, Hb, Hle. unfold init. cbn [c_mem]. rewrite Hparse, bind_Ret.
  rewrite (proj2 (Nat.leb_gt _ _)) by lia. rewrite add_small, bind_Ret by (unfold LAPIC_PHYS; split; lia).
  rewrite Hbsp. cbn [is_online APS_ONLINE c_mem c_lapic].
  destruct (start_aps_ok env phys cr3 ltac:(lia) 0 ids (mkCores (<[0%nat := true]> (is_online s)) (APS_ONLINE s)
    (c_mem s) (c_lapic s ++ [LRead LAPIC_ID]))) as (s' & -> & W & O & A); cbn [APS_ONLINE]; [lia|lia|].
  cbn [is_online APS_ONLINE c_lapic] in *. rewrite Hoff, Haps in *. rewrite bind_Ret.
  assert (∀ u, u ∈ ups env 0 ids → 0 < u < 8) as Hu by (intros u; by apply ups_bounds). pose proof (reports_ups env 0 ids) as [Hr Heq].
  assert (length (ups env 0 ids) <= length ids)%nat as Hul
    by (etrans; [apply length_filter|apply length_filter]).
  assert (Z.of_nat (online_count (is_online s')) = 1 + Z.of_nat (length (ups env 0 ids))) as Hcount.
  { rewrite O, online_fold; [change (online_count _) with 1%nat; lia|by apply NoDup_filter, NoDup_filter|].
    intros u Hin. pose proof (Hu u Hin). split; [lia|].
    rewrite list_lookup_insert_ne by lia. apply lookup_replicate. unfold MAX_CORES. lia. }
  rewrite add_small, bind_Ret by (split; lia). eexists _, _. split; [done|]. split; [|split; [|split; [|split]]].
  - by rewrite W, writes_app, app_nil_r.
  - intros i. rewrite O, online_fold_lookup. split.
    + intros [Hi|[_ Hi]]; [left|by right]. by do 8 (destruct i as [|i]; [done|]).
    + intros [->|(u & Hin & <-)]; [by left|]. right. split; [|by exists u].
      pose proof (Hu u Hin). cbn. lia.
  - by rewrite A.
  - rewrite A, Hcount. lia.
  - intros Hf. rewrite A, Hcount, Heq by done. lia.
Qed.

(** A machine with four processors, one of them disabled. *)
Definition demo_phys : Z := 0x8000000000.
Definition lapic_entry (id flags : Z) : MadtEntry := mkMadtEntry 0 (id :: id :: le_bytes 4 flags).
Definition demo_entries : list MadtEntry :=
  [lapic_entry 0 1; mkMadtEntry 1 (replicate 10 0); lapic_entry 1 1; lapic_entry 2 0; lapic_entry 3 1].
Definition demo_acpi : Memory :=
  write_at (demo_phys + 0xE0010) (le_bytes 4 0xF0000)
  (write_at (demo_phys + 0xF0004) (le_bytes 4 48)
  (write_at (demo_phys + 0xF0024) (le_bytes 4 0xF1000 ++ le_bytes 4 0 ++ le_bytes 4 0xF2000)
  (write_at (demo_phys + 0xF1000) (bstr "FACP")
  (write_at (demo_phys + 0xF2000) (bstr "APIC" ++ le_bytes 4 88)
  (write_at (demo_phys + 0xF202C) (mjoin (encode <$> demo_entries)) ∅))))).

Lemma demo_layout : acpi_layout demo_acpi demo_phys 0xE0000 0xF0000 0xF2000 [0xF1000; 0; 0xF2000] demo_entries.
Proof.
  split.
  - done.
  - by vm_compute.
  - split; [vm_compute; reflexivity|simpl; lia].
  - intros [|[|[|i]]] tb [= <-]; (split; [vm_compute; reflexivity|lia]).
  - exists 2%nat. split; [done|]. split; [done|]. split; [vm_compute; reflexivity|].
    intros [|[|j]] tb Hj; [|..|lia]; intros [= <-]; [right|by left]. vm_compute. discriminate.
  - repeat (constructor; [split; [apply bytes_forallb; reflexivity|simpl; split; lia]|]). constructor.
  - split; [vm_compute; reflexivity|done].
  - vm_compute. reflexivity.
Qed.

Lemma parse_madt_correct_witness :
  @parse_madt dev_profile demo_acpi demo_phys (Some 0xE0000) = Ret [0; 1; 3].
Proof.
  destruct (@parse_madt_correct dev_profile demo_acpi demo_phys 0xE0000 0xF0000 0xF2000
    [0xF1000; 0; 0xF2000] demo_entries) as [_ Hp].
  exact (Hp demo_layout).
Defined.

Definition demo_env : SmpEnv := mkSmpEnv 0xFFFF800000000000 0xFFFF800000100000 0 (λ _ _, 0)
  (λ id, if id =? 1 then Reported else Silent).

Lemma smp_init_correct_witness :
  ∃ s' total, @init dev_profile demo_env demo_phys 0x1000 (Some 0xE0000)
                (mkCores (replicate 8 false) 0 demo_acpi []) = Ret (s', total) ∧
    writes (c_lapic s') = sipi_writes 1 0x50 ++ sipi_writes 3 0x50 ∧
    total = Z.of_nat (online_count (is_online s')).
Proof.
  destruct (@smp_init_correct dev_profile demo_env demo_phys 0x1000 0xE0000 0xF0000 0xF2000
    [0xF1000; 0; 0xF2000] demo_entries (mkCores (replicate 8 false) 0 demo_acpi []) demo_layout
    (conj eq_refl eq_refl)) as (s' & total & E & W & _ & _ & _ & T).
  - apply (bool_decide_unpack (NoDup [0; 1; 3])). vm_compute. exact I.
  - apply Nat.leb_le. vm_compute. reflexivity.
  - reflexivity.
  - exists s', total. split; [exact E|]. split; [exact W|]. apply T.
    intros id _. cbn. destruct (id =? 1); discriminate.
Defined.

(** The copied trampoline is right, but the check that follows compares it
    with other bytes: the "verified" branch is never taken, on any memory. *)
Theorem trampoline_check_fails `{Profile} entry phys cr3 core_id stack_top m :
  0 <= phys → phys + 0x51000 < 2 ^ 64 →
  ∃ m', install_trampoline entry phys cr3 core_id stack_top m = Ret (m', false) ∧
    trampoline_page (phys + 0x50000) core_id cr3 stack_top entry m'.
Proof.
  intros Hp Hh. destruct (install_trampoline_ok entry phys cr3 core_id stack_top m Hp Hh) as (m' & E & Ht & _).
  by exists m'.
Qed.
