(* ===== verification/Trampoline.v ===== *)
(** * The identity map of the trampoline page

    Model of [add_trampoline_identity_map], [print_summary],
    [logical_cpu_count] and the per-core data of [kernel/src/smp.rs]: the
    descent through the four levels of page tables in raw memory, the
    present and huge-page bits it tests on the way, and the entry it writes.
    [walk] is the processor's own translation, as the architecture manual
    defines it.

    Shown here: when the routine writes an entry, the processor translates
    every address of page 0x50000 to itself and the other pages of the first
    two megabytes as before; when it does not, memory is unchanged and the
    processor finds the page unmapped or in a huge page, as reported.

    Also [memory::init] of [kernel/src/memory.rs]: the handle it makes from
    CR3 descends through the tables the processor walks. *)

From S2P Require Import Prelude Machine Smp.
From Stdlib Require Import ZArith Lia.
From stdpp Require Import base numbers list gmap.
#[local] Open Scope Z_scope.

(** ** Per-core data *)

Record CoreLocals := mkCoreLocals {
  core_id : Z; scba_budget_max : Z; scba_consumed : Z; scba_fences : Z; total_switches : Z; online : bool }.

Definition CoreLocals_new (id : Z) : CoreLocals := mkCoreLocals id 64 0 0 0 false.

Definition CORE_LOCALS : list CoreLocals :=
  [CoreLocals_new 0; CoreLocals_new 1; CoreLocals_new 2; CoreLocals_new 3;
   CoreLocals_new 4; CoreLocals_new 5; CoreLocals_new 6; CoreLocals_new 7].

(** The cores listed with their budgets, and the total. *)
Definition print_summary (locals : list CoreLocals) (total : Z) : outcome (list (nat * Z) * Z) :=
  lines ← for_out 0 MAX_CORES (λ i lines,
    c ← index locals i;
    Ret (if online c then lines ++ [(i, scba_budget_max c)] else lines)) [];
  Ret (lines, total).

(** The value of [ebx] after CPUID leaf 1. *)
Definition logical_cpu_count (ebx_val : Z) : Z := Z.max (Z.land (Z.shiftr ebx_val 16) 0xFF) 1.

(** ** The page-table edit *)

Inductive MapResult := NotPresent (level : nat) | HugePage (level : nat) | IdentityMapped (old : Z).

(** [*ptr.add(i)] on a [*mut u64]. *)
Definition entry_at (m : Memory) (table : Z) (i : Z) : Z := read_le m (table + 8 * i) 8.
Definition set_entry (m : Memory) (table : Z) (i v : Z) : Memory := write_at (table + 8 * i) (le_bytes 8 v) m.

Definition add_trampoline_identity_map `{Profile} (phys_offset cr3 : Z) (m : Memory)
    : outcome (Memory * MapResult) :=
  let virt := 0x50000 in
  let phys := 0x50000 in
  pml4 ← add 64 phys_offset cr3;
  let pml4e := entry_at m pml4 0 in
  if Z.land pml4e 1 =? 0 then Ret (m, NotPresent 4) else
  pdpt ← add 64 phys_offset (Z.land pml4e (bnot 64 0xFFF));
  let pdpte := entry_at m pdpt 0 in
  if Z.land pdpte 1 =? 0 then Ret (m, NotPresent 3) else
  if negb (Z.land pdpte (Z.shiftl 1 7) =? 0) then Ret (m, HugePage 3) else
  pd ← add 64 phys_offset (Z.land pdpte (bnot 64 0xFFF));
  let pde := entry_at m pd 0 in
  if Z.land pde 1 =? 0 then Ret (m, NotPresent 2) else
  if negb (Z.land pde (Z.shiftl 1 7) =? 0) then Ret (m, HugePage 2) else
  pt ← add 64 phys_offset (Z.land pde (bnot 64 0xFFF));
  let pt_idx := Z.land (Z.shiftr virt 12) 0x1FF in
  let old := entry_at m pt pt_idx in
  let m := set_entry m pt pt_idx (Z.lor phys 0x003) in
  Ret (m, IdentityMapped old).

(** ** The processor's translation *)

(** Bits 12 to 51 of an entry. *)
Definition frame (e : Z) : Z := Z.land e 0xFFFFFFFFFF000.
Definition present (e : Z) : bool := Z.testbit e 0.
Definition huge (e : Z) : bool := Z.testbit e 7.

(** Nine bits of the address select the entry of each level; the memory the
    tables live in is mapped at [phys_offset]. *)
Definition walk (phys_offset cr3 : Z) (m : Memory) (virt : Z) : option Z :=
  let idx s := Z.shiftr virt s mod 512 in
  let e4 := entry_at m (phys_offset + frame cr3) (idx 39) in
  if negb (present e4) then None else
  let e3 := entry_at m (phys_offset + frame e4) (idx 30) in
  if negb (present e3) then None else
  if huge e3 then Some (frame e3 - frame e3 mod 2 ^ 30 + virt mod 2 ^ 30) else
  let e2 := entry_at m (phys_offset + frame e3) (idx 21) in
  if negb (present e2) then None else
  if huge e2 then Some (frame e2 - frame e2 mod 2 ^ 21 + virt mod 2 ^ 21) else
  let e1 := entry_at m (phys_offset + frame e2) (idx 12) in
  if negb (present e1) then None else
  Some (frame e1 + virt mod 4096).

(** ** The mapper's handle: [memory::init] of [memory.rs]

    [virt_add] is the x86_64 crate's addition on virtual addresses, which
    panics when the sum is not canonical. *)

Record OffsetPageTable := mkOffsetPageTable { level_4_table : Z; table_offset : Z }.

(** The frame in CR3, where the kernel sees it. *)
Definition active_level_4_table (virt_add : Z → Z → outcome Z) (cr3 physical_memory_offset : Z) : outcome Z :=
  virt_add physical_memory_offset (frame cr3).

Definition memory_init (virt_add : Z → Z → outcome Z) (cr3 physical_memory_offset : Z) : outcome OffsetPageTable :=
  level_4_table ← active_level_4_table virt_add cr3 physical_memory_offset;
  Ret (mkOffsetPageTable level_4_table physical_memory_offset).

(** The descent a mapper makes from its handle: every table at its frame
    plus the offset. *)
Definition handle_walk (h : OffsetPageTable) (m : Memory) (virt : Z) : option Z :=
  walk (table_offset h) (level_4_table h - table_offset h) m virt.

(** ** Facts *)

Lemma frame_down e : 0 <= e < 2 ^ 52 → frame e = e - e mod 4096.
Proof.
  intros He. unfold frame. change 0xFFFFFFFFFF000 with (Z.land (Z.ones 52) (bnot 64 (Z.ones 12))).
  rewrite Z.land_assoc, Z.land_ones, Z.mod_small by lia.
  rewrite land_down by (lia || split; lia). done.
Qed.

Lemma frame_aligned e : 0 <= e < 2 ^ 52 → ∃ k, frame e = 4096 * k ∧ 0 <= k < 2 ^ 40.
Proof.
  intros He. exists (e / 4096). rewrite frame_down by done.
  pose proof (Z.div_mod e 4096 ltac:(done)). split; [lia|]. split; [apply Z.div_pos; lia|].
  apply Z.div_lt_upper_bound; lia.
Qed.

Lemma mask_frame e : 0 <= e < 2 ^ 52 → Z.land e (bnot 64 0xFFF) = frame e.
Proof.
  intros He. rewrite frame_down by done. change 0xFFF with (Z.ones 12).
  rewrite land_down by (lia || split; lia). done.
Qed.

Lemma present_bit e : (Z.land e 1 =? 0) = negb (present e).
Proof. exact (bit_clear e 0 ltac:(done)). Qed.

(** An entry that was written, and one that was not. *)
Lemma set_entry_eq m t i v : 0 <= v < 2 ^ 64 → entry_at (set_entry m t i v) t i = v.
Proof.
  intros Hv. unfold entry_at, set_entry, read_le.
  pose proof (read_write_at m (t + 8 * i) (le_bytes 8 v)) as E. rewrite length_le_bytes in E.
  rewrite E. by apply of_le_small.
Qed.

Lemma set_entry_ne m t i v t' i' :
  (t + 8 * i + 8 <= t' + 8 * i' ∨ t' + 8 * i' + 8 <= t + 8 * i) →
  entry_at (set_entry m t i v) t' i' = entry_at m t' i'.
Proof.
  intros Hd. unfold entry_at, set_entry, read_le. f_equal. apply read_at_ext. intros a Ha.
  rewrite load_write_at, decide_False; [done|]. rewrite length_le_bytes. lia.
Qed.

Section Edit.
Context `{Profile}.
Variables (phys cr3 : Z) (m : Memory).
Hypothesis Hphys : 0 <= phys < 2 ^ 63.
Hypothesis Hcr3 : 0 <= cr3 < 2 ^ 52.
Hypothesis Hcr3a : cr3 mod 4096 = 0.

Definition e4 : Z := entry_at m (phys + cr3) 0.
Definition e3 : Z := entry_at m (phys + frame e4) 0.
Definition e2 : Z := entry_at m (phys + frame e3) 0.

(** No bit above the frame number is set in the three upper entries: no
    no-execute bit in particular. *)
Hypothesis H4 : 0 <= e4 < 2 ^ 52.
Hypothesis H3 : 0 <= e3 < 2 ^ 52.
Hypothesis H2 : 0 <= e2 < 2 ^ 52.

Lemma frame_cr3 : frame cr3 = cr3.
Proof. rewrite frame_down by done. lia. Qed.

Lemma table_at e : 0 <= e < 2 ^ 52 → add 64 phys (Z.land e (bnot 64 0xFFF)) = Ret (phys + frame e).
Proof.
  intros He. rewrite mask_frame by done. destruct (frame_aligned e He) as (k & -> & Hk).
  rewrite add_small; [done|split; lia].
Qed.

(** The routine follows the processor's walk. *)
Lemma edit_ok :
  add_trampoline_identity_map phys cr3 m = Ret (
    if negb (present e4) then (m, NotPresent 4) else
    if negb (present e3) then (m, NotPresent 3) else
    if huge e3 then (m, HugePage 3) else
    if negb (present e2) then (m, NotPresent 2) else
    if huge e2 then (m, HugePage 2) else
    (set_entry m (phys + frame e2) 80 0x50003, IdentityMapped (entry_at m (phys + frame e2) 80))).
Proof.
  unfold add_trampoline_identity_map. cbv zeta.
  rewrite (add_small 64 phys cr3), bind_Ret by (split; lia). fold e4. rewrite present_bit.
  destruct (present e4); [|done]. cbn [negb]. rewrite (table_at e4 H4), bind_Ret. fold e3.
  rewrite present_bit. destruct (present e3); [|done]. cbn [negb]. rewrite bit_clear by done.
  fold (huge e3). destruct (huge e3); [done|]. cbn [negb]. rewrite (table_at e3 H3), bind_Ret. fold e2.
  rewrite present_bit. destruct (present e2); [|done]. cbn [negb]. rewrite bit_clear by done.
  fold (huge e2). destruct (huge e2); [done|]. cbn [negb]. by rewrite (table_at e2 H2), bind_Ret.
Qed.

(** The walk of an address below two megabytes. *)
Lemma walk_low m' virt :
  0 <= virt < 2 ^ 21 →
  entry_at m' (phys + cr3) 0 = e4 → entry_at m' (phys + frame e4) 0 = e3 →
  entry_at m' (phys + frame e3) 0 = e2 →
  walk phys cr3 m' virt =
    if negb (present e4) then None else
    if negb (present e3) then None else
    if huge e3 then Some (frame e3 - frame e3 mod 2 ^ 30 + virt mod 2 ^ 30) else
    if negb (present e2) then None else
    if huge e2 then Some (frame e2 - frame e2 mod 2 ^ 21 + virt mod 2 ^ 21) else
    let e1 := entry_at m' (phys + frame e2) (virt / 4096) in
    if negb (present e1) then None else Some (frame e1 + virt mod 4096).
Proof.
  intros Hv E4 E3 E2. unfold walk. cbv zeta. rewrite frame_cr3.
  assert (∀ s, 21 <= s → Z.shiftr virt s mod 512 = 0) as Hidx.
  { intros s Hs. pose proof (Z.pow_le_mono_r 2 21 s ltac:(lia) ltac:(lia)).
    by rewrite Z.shiftr_div_pow2, Z.div_small by lia. }
  rewrite !Hidx by lia. rewrite E4, E3, E2.
  assert (Z.shiftr virt 12 mod 512 = virt / 4096) as ->; [|done].
  rewrite Z.shiftr_div_pow2 by lia. change (2 ^ 12) with 4096. apply Z.mod_small.
  split; [apply Z.div_pos; lia|apply Z.div_lt_upper_bound; lia].
Qed.

(** The write keeps the three upper entries: they start their pages. *)
Lemma edit_keeps_uppers v :
  let m' := set_entry m (phys + frame e2) 80 v in
  entry_at m' (phys + cr3) 0 = e4 ∧ entry_at m' (phys + frame e4) 0 = e3 ∧ entry_at m' (phys + frame e3) 0 = e2.
Proof.
  destruct (frame_aligned e4 H4) as (k4 & F4 & _). destruct (frame_aligned e3 H3) as (k3 & F3 & _).
  destruct (frame_aligned e2 H2) as (k2 & F2 & _). destruct (frame_aligned cr3 Hcr3) as (k & F & _).
  rewrite frame_cr3 in F. cbv zeta.
  split; [|split]; rewrite set_entry_ne; try done; rewrite ?F, ?F4, ?F3, ?F2; lia.
Qed.
End Edit.

(** ** Properties *)

(** the identity map, for a page-aligned CR3 below 2^52 and tables whose
    first three entries carry no bit above the frame number: the routine never
    panics.  If it reports the page as mapped, the processor afterwards
    translates every address of page 0x50000 to itself, every other address
    below two megabytes as before, and only the eight bytes of one entry
    changed, from the reported old value to 0x50003 (frame 0x50000, present,
    writable, executable); otherwise memory is
    unchanged, and the processor finds 0x50000 unmapped exactly when a table
    was reported missing, in a huge page otherwise. *)
Theorem identity_map_correct `{Profile} phys cr3 m :
  0 <= phys < 2 ^ 63 → 0 <= cr3 < 2 ^ 52 → cr3 mod 4096 = 0 →
  0 <= e4 phys cr3 m < 2 ^ 52 → 0 <= e3 phys cr3 m < 2 ^ 52 → 0 <= e2 phys cr3 m < 2 ^ 52 →
  ∃ m' r, add_trampoline_identity_map phys cr3 m = Ret (m', r) ∧
    match r with
    | IdentityMapped old =>
      (∀ v, 0x50000 <= v < 0x51000 → walk phys cr3 m' v = Some v) ∧
      (∀ v, 0 <= v < 2 ^ 21 → ¬ 0x50000 <= v < 0x51000 → walk phys cr3 m' v = walk phys cr3 m v) ∧
      ∃ a, read_le m a 8 = old ∧ read_le m' a 8 = 0x50003 ∧ ∀ x, ¬ a <= x < a + 8 → load m' x = load m x
    | NotPresent _ => m' = m ∧ walk phys cr3 m 0x50000 = None
    | HugePage _ => m' = m ∧ is_Some (walk phys cr3 m 0x50000)
    end.
Proof.
  intros Hp Hc Hca H4 H3 H2. eexists _, _. split; [by rewrite edit_ok by done; apply f_equal, surjective_pairing|].
  pose proof (walk_low phys cr3 m Hc Hca m 0x50000 ltac:(lia) eq_refl eq_refl eq_refl) as Hw.
  set (x4 := e4 phys cr3 m) in *. set (x3 := e3 phys cr3 m) in *. set (x2 := e2 phys cr3 m) in *.
  destruct (present x4) eqn:P4; [|by split].
  destruct (present x3) eqn:P3; [|by split]. destruct (huge x3) eqn:G3; [by split; [|rewrite Hw; eexists]|].
  destruct (present x2) eqn:P2; [|by split]. destruct (huge x2) eqn:G2; [by split; [|rewrite Hw; eexists]|].
  cbn [fst snd negb]. clear Hw.
  destruct (edit_keeps_uppers phys cr3 m Hc Hca H4 H3 H2 0x50003) as (K4 & K3 & K2).
  split; [|split].
  - intros v Hv. rewrite (walk_low phys cr3 m Hc Hca _ v) by (done || lia).
    fold x4 x3 x2. rewrite P4, P3, G3, P2, G2. cbn [negb].
    assert (v / 4096 = 80) as -> by (symmetry; apply (Z.div_unique_pos _ _ _ (v - 0x50000)); lia).
    cbv zeta. rewrite set_entry_eq by lia. cbn [present Z.testbit]. f_equal.
    change (frame 0x50003) with 0x50000.
    assert (v mod 4096 = v - 0x50000); [|lia].
    symmetry. apply (Z.mod_unique_pos _ _ 80); lia.
  - intros v Hv Hne. rewrite (walk_low phys cr3 m Hc Hca _ v) by (done || lia).
    rewrite (walk_low phys cr3 m Hc Hca m v) by (done || lia). fold x4 x3 x2.
    rewrite set_entry_ne; [done|].
    pose proof (Z.div_mod v 4096 ltac:(done)). pose proof (Z.mod_pos_bound v 4096 ltac:(done)). lia.
  - eexists. split; [reflexivity|]. split; [exact (set_entry_eq m _ _ 0x50003 ltac:(lia))|].
    intros x Hx. unfold set_entry. rewrite load_write_at, decide_False; [done|].
    rewrite length_le_bytes. exact Hx.
Qed.

(** Tables in the frames 0x1000 to 0x4000 of a machine whose memory is
    mapped at [demo_phys]. *)
Definition demo_tables : Memory :=
  set_entry (set_entry (set_entry ∅ (demo_phys + 0x1000) 0 0x2003) (demo_phys + 0x2000) 0 0x3003)
    (demo_phys + 0x3000) 0 0x4003.

Lemma identity_map_correct_witness :
  ∃ m' old, @add_trampoline_identity_map dev_profile demo_phys 0x1000 demo_tables = Ret (m', IdentityMapped old) ∧
    walk demo_phys 0x1000 demo_tables 0x50123 = None ∧ walk demo_phys 0x1000 m' 0x50123 = Some 0x50123.
Proof.
  destruct (@identity_map_correct dev_profile demo_phys 0x1000 demo_tables) as (m' & r & E & Hr);
    [vm_compute; split; done|lia|done|vm_compute; split; done|vm_compute; split; done|vm_compute; split; done|].
  assert (match @add_trampoline_identity_map dev_profile demo_phys 0x1000 demo_tables with
          | Ret (_, IdentityMapped _) => true | _ => false end = true) as Eb by (vm_compute; reflexivity).
  rewrite E in Eb. destruct r as [| |old]; [discriminate Eb|discriminate Eb|].
  exists m', old. split; [exact E|]. split; [vm_compute; reflexivity|]. apply Hr. lia.
Defined.

(** A core's line in the summary. *)
Definition summary_line (locals : list CoreLocals) (i : nat) : option (nat * Z) :=
  c ← locals !! i;
  if online c then Some (i, scba_budget_max c) else None.

(** The summary lists the cores that are online, in order. *)
Lemma print_summary_ok locals total :
  length locals = MAX_CORES →
  print_summary locals total = Ret (omap (summary_line locals) (seq 0 MAX_CORES), total).
Proof.
  intros Hl. unfold print_summary.
  destruct (for_out_ind (λ i lines, lines = omap (summary_line locals) (seq 0 i)) 0 MAX_CORES
    (λ i lines, c ← index locals i; Ret (if online c then lines ++ [(i, scba_budget_max c)] else lines)) [])
    as (s & -> & ->); [lia|done| |done].
  intros i s Hi ->. destruct (lookup_lt_is_Some_2 locals i) as [c Hc]; [lia|].
  rewrite (index_ok _ _ c), bind_Ret by done. eexists. split; [done|].
  assert (summary_line locals i = if online c then Some (i, scba_budget_max c) else None) as Hs
    by (unfold summary_line; by rewrite Hc).
  rewrite seq_S, omap_app. cbn [omap list_omap Nat.add]. rewrite Hs.
  destruct (online c); [done|by rewrite app_nil_r].
Qed.

(** At least one processor is reported, at most 255. *)
Lemma logical_cpu_count_range ebx : 1 <= logical_cpu_count ebx <= 255.
Proof.
  unfold logical_cpu_count. change (Z.land (Z.shiftr ebx 16) 0xFF) with (Z.land (Z.shiftr ebx 16) (Z.ones 8)).
  rewrite Z.land_ones by lia. pose proof (Z.mod_pos_bound (Z.shiftr ebx 16) (2 ^ 8) ltac:(done)). lia.
Qed.

(** ** The handle *)

Lemma frame_frame e : frame (frame e) = frame e.
Proof. unfold frame. by rewrite <-Z.land_assoc. Qed.

(** Whenever the handle can be made, descending from it gives the
    processor's translation, whatever flag bits CR3 carries. *)
Theorem handle_translates virt_add cr3 phys h m virt :
  (∀ a b v, virt_add a b = Ret v → v = a + b) → memory_init virt_add cr3 phys = Ret h →
  handle_walk h m virt = walk phys cr3 m virt.
Proof.
  intros Hadd E. unfold memory_init, active_level_4_table in E. apply bind_Ret_inv in E as (v & Ev & [= <-]).
  apply Hadd in Ev as ->. unfold handle_walk. cbn [table_offset level_4_table].
  replace (phys + frame cr3 - phys) with (frame cr3) by lia. unfold walk. by rewrite frame_frame.
Qed.
