(* ===== verification/ApBoot.v ===== *)
(** * The trampoline, executed

    What a processor started by [send_sipi] does with the page
    [install_trampoline] prepared ([kernel/src/smp.rs]): the machine code
    [AP_TRAMPOLINE_BIN] is fetched, decoded and executed from real mode
    through protected mode to the call of [ap_main] in long mode.  The
    processor is modelled for the encodings the trampoline contains: segment
    registers with their cached descriptors, control registers, the EFER
    register, the descriptor table, paging with the no-execute bit.

    Left out: arithmetic flags (nothing branches on them), and the accessed
    and dirty bits the processor sets in descriptors and page tables, which
    the kernel never reads.

    Shown here: the code reaches [ap_main] with the core's number, its own
    stack and the kernel's page tables; what it does when a page it needs is
    not mapped, or is mapped with the no-execute bit, which the trampoline
    leaves disabled. *)

From S2P Require Import Prelude Machine Smp Trampoline.
From Stdlib Require Import ZArith Lia.
From stdpp Require Import base numbers list gmap.
#[local] Open Scope Z_scope.

(** ** Instructions *)

Inductive Sreg := ES | SS | DS.
Inductive Creg := CR0 | CR3 | CR4.
Inductive Reg := RAX | RSP | RDI.

Inductive Instr :=
| Nop
| JmpRel (rel : Z)              (* jmp short *)
| MovAxCs                       (* mov ax, cs *)
| MovSreg (s : Sreg)            (* mov sreg, ax *)
| Lgdt (off : Z)                (* lgdt [off], 16-bit operand *)
| MovFromCr (r : Creg)          (* mov eax, crN *)
| MovToCr (r : Creg)            (* mov crN, eax *)
| OrAl (imm : Z)
| OrEax (imm : Z)
| BtsEax (bit : Z)
| MovEax (imm : Z)
| MovEcx (imm : Z)
| LoadEax (addr : Z)            (* mov eax, [addr] *)
| Load (r : Reg) (addr : Z)     (* mov r64, [addr] *)
| Rdmsr
| Wrmsr
| JmpFar (sel off : Z)
| CallRax
| Hlt.

Definition sreg_of (modrm : Z) : option Sreg :=
  if modrm =? 0xC0 then Some ES else if modrm =? 0xD0 then Some SS else if modrm =? 0xD8 then Some DS else None.
Definition creg_of (modrm : Z) : option Creg :=
  if modrm =? 0xC0 then Some CR0 else if modrm =? 0xD8 then Some CR3 else if modrm =? 0xE0 then Some CR4 else None.
Definition reg_of (modrm : Z) : option Reg :=
  if modrm =? 0x04 then Some RAX else if modrm =? 0x24 then Some RSP else if modrm =? 0x3C then Some RDI else None.

Inductive Size := S16 | S32 | S64.
#[global] Instance Size_eq_dec : EqDecision Size.
Proof. solve_decision. Defined.

(** Little-endian operands in the instruction stream. *)
Definition imm16 (code : Z → option Z) (a : Z) : option Z :=
  b0 ← code a; b1 ← code (a + 1); Some (of_le [b0; b1]).
Definition imm32 (code : Z → option Z) (a : Z) : option Z :=
  b0 ← code a; b1 ← code (a + 1); b2 ← code (a + 2); b3 ← code (a + 3); Some (of_le [b0; b1; b2; b3]).

(** The two-byte opcodes [0F b1]. *)
Definition decode_0F (w : Size) (code : Z → option Z) (a : Z) : option (Instr * Z) :=
  b1 ← code (a + 1);
  if b1 =? 0x32 then Some (Rdmsr, 2) else
  if b1 =? 0x30 then Some (Wrmsr, 2) else
  b2 ← code (a + 2);
  if b1 =? 0x20 then r ← creg_of b2; Some (MovFromCr r, 3) else
  if b1 =? 0x22 then r ← creg_of b2; Some (MovToCr r, 3) else
  if (b1 =? 0x01) && (b2 =? 0x16) && bool_decide (w = S16) then off ← imm16 code (a + 3); Some (Lgdt off, 5) else
  if (b1 =? 0xBA) && (b2 =? 0xE8) && bool_decide (w = S32) then n ← code (a + 3); Some (BtsEax n, 4) else
  None.

(** The instruction at [a] and its length. *)
Definition decode (w : Size) (code : Z → option Z) (a : Z) : option (Instr * Z) :=
  b0 ← code a;
  if b0 =? 0x90 then Some (Nop, 1) else
  if b0 =? 0xF4 then Some (Hlt, 1) else
  if b0 =? 0xEB then rel ← code (a + 1); Some (JmpRel (sext8 rel), 2) else
  if b0 =? 0x0F then decode_0F w code a else
  match w with
  | S16 =>
    if b0 =? 0x8C then b1 ← code (a + 1); if b1 =? 0xC8 then Some (MovAxCs, 2) else None else
    if b0 =? 0x8E then b1 ← code (a + 1); s ← sreg_of b1; Some (MovSreg s, 2) else
    if b0 =? 0x0C then imm ← code (a + 1); Some (OrAl imm, 2) else
    if b0 =? 0x66 then
      b1 ← code (a + 1);
      if b1 =? 0xEA then off ← imm32 code (a + 2); sel ← imm16 code (a + 6); Some (JmpFar sel off, 8) else None
    else None
  | S32 =>
    if b0 =? 0x8E then b1 ← code (a + 1); s ← sreg_of b1; Some (MovSreg s, 2) else
    if b0 =? 0xB8 then imm ← imm32 code (a + 1); Some (MovEax imm, 5) else
    if b0 =? 0xB9 then imm ← imm32 code (a + 1); Some (MovEcx imm, 5) else
    if b0 =? 0xA1 then addr ← imm32 code (a + 1); Some (LoadEax addr, 5) else
    if b0 =? 0x0D then imm ← imm32 code (a + 1); Some (OrEax imm, 5) else
    if b0 =? 0xEA then off ← imm32 code (a + 1); sel ← imm16 code (a + 5); Some (JmpFar sel off, 7) else None
  | S64 =>
    if b0 =? 0x48 then
      b1 ← code (a + 1); b2 ← code (a + 2); b3 ← code (a + 3);
      if (b1 =? 0x8B) && (b3 =? 0x25)
      then r ← reg_of b2; addr ← imm32 code (a + 4); Some (Load r (sext32 addr), 8) else None
    else if b0 =? 0xFF then b1 ← code (a + 1); if b1 =? 0xD0 then Some (CallRax, 2) else None
    else None
  end.

(** ** The processor *)

(** A code segment register: selector and cached descriptor. *)
Record CodeSeg := mkCodeSeg { cs_sel : Z; cs_base : Z; cs_db : bool; cs_l : bool }.

(** A data segment register: selector and cached base. *)
Record DataSeg := mkDataSeg { seg_sel : Z; seg_base : Z }.

Record Cpu := mkCpu {
  c_rax : Z; c_rcx : Z; c_rdx : Z; c_rdi : Z; c_rsp : Z; c_rip : Z;
  c_cs : CodeSeg; c_ds : DataSeg; c_es : DataSeg; c_ss : DataSeg;
  c_cr0 : Z; c_cr3 : Z; c_cr4 : Z; c_efer : Z; gdt_limit : Z; gdt_base : Z }.

Definition pe (c : Cpu) : bool := Z.testbit (c_cr0 c) 0.
Definition pg (c : Cpu) : bool := Z.testbit (c_cr0 c) 31.
Definition pae (c : Cpu) : bool := Z.testbit (c_cr4 c) 5.
Definition lme (c : Cpu) : bool := Z.testbit (c_efer c) 8.
Definition lma (c : Cpu) : bool := Z.testbit (c_efer c) 10.
Definition nxe (c : Cpu) : bool := Z.testbit (c_efer c) 11.

Definition size (c : Cpu) : Size :=
  if lma c && cs_l (c_cs c) then S64 else if cs_db (c_cs c) then S32 else S16.

Definition bits (w : Size) : Z := match w with S16 => 16 | S32 => 32 | S64 => 64 end.

Definition set_rip (v : Z) (c : Cpu) : Cpu :=
  mkCpu (c_rax c) (c_rcx c) (c_rdx c) (c_rdi c) (c_rsp c) (wrap (bits (size c)) v)
    (c_cs c) (c_ds c) (c_es c) (c_ss c) (c_cr0 c) (c_cr3 c) (c_cr4 c) (c_efer c) (gdt_limit c) (gdt_base c).
Definition set_rax (v : Z) (c : Cpu) : Cpu :=
  mkCpu v (c_rcx c) (c_rdx c) (c_rdi c) (c_rsp c) (c_rip c)
    (c_cs c) (c_ds c) (c_es c) (c_ss c) (c_cr0 c) (c_cr3 c) (c_cr4 c) (c_efer c) (gdt_limit c) (gdt_base c).
Definition set_rcx_rdx (cx dx : Z) (c : Cpu) : Cpu :=
  mkCpu (c_rax c) cx dx (c_rdi c) (c_rsp c) (c_rip c)
    (c_cs c) (c_ds c) (c_es c) (c_ss c) (c_cr0 c) (c_cr3 c) (c_cr4 c) (c_efer c) (gdt_limit c) (gdt_base c).
Definition set_rdi_rsp (di sp : Z) (c : Cpu) : Cpu :=
  mkCpu (c_rax c) (c_rcx c) (c_rdx c) di sp (c_rip c)
    (c_cs c) (c_ds c) (c_es c) (c_ss c) (c_cr0 c) (c_cr3 c) (c_cr4 c) (c_efer c) (gdt_limit c) (gdt_base c).
Definition set_cs (cs : CodeSeg) (rip : Z) (c : Cpu) : Cpu :=
  mkCpu (c_rax c) (c_rcx c) (c_rdx c) (c_rdi c) (c_rsp c) rip
    cs (c_ds c) (c_es c) (c_ss c) (c_cr0 c) (c_cr3 c) (c_cr4 c) (c_efer c) (gdt_limit c) (gdt_base c).
Definition set_seg (s : Sreg) (v : DataSeg) (c : Cpu) : Cpu :=
  let '(d, e, k) := match s with
    | DS => (v, c_es c, c_ss c) | ES => (c_ds c, v, c_ss c) | SS => (c_ds c, c_es c, v) end in
  mkCpu (c_rax c) (c_rcx c) (c_rdx c) (c_rdi c) (c_rsp c) (c_rip c)
    (c_cs c) d e k (c_cr0 c) (c_cr3 c) (c_cr4 c) (c_efer c) (gdt_limit c) (gdt_base c).
Definition set_control (r0 r3 r4 ef : Z) (c : Cpu) : Cpu :=
  mkCpu (c_rax c) (c_rcx c) (c_rdx c) (c_rdi c) (c_rsp c) (c_rip c)
    (c_cs c) (c_ds c) (c_es c) (c_ss c) r0 r3 r4 ef (gdt_limit c) (gdt_base c).
Definition set_gdt (limit base : Z) (c : Cpu) : Cpu :=
  mkCpu (c_rax c) (c_rcx c) (c_rdx c) (c_rdi c) (c_rsp c) (c_rip c)
    (c_cs c) (c_ds c) (c_es c) (c_ss c) (c_cr0 c) (c_cr3 c) (c_cr4 c) (c_efer c) limit base.

(** After a start-up interrupt with vector [vec]: real mode at [vec << 12],
    general registers and data segments as they were. *)
Definition sipi_state (vec : Z) (c : Cpu) : Cpu :=
  mkCpu (c_rax c) (c_rcx c) (c_rdx c) (c_rdi c) (c_rsp c) 0
    (mkCodeSeg (Z.shiftl vec 8) (Z.shiftl vec 12) false false) (c_ds c) (c_es c) (c_ss c)
    0x60000010 0 0 0 (gdt_limit c) (gdt_base c).

(** ** Memory accesses

    Physical memory is visible to the kernel, and lies in the map, at
    [phys]. *)

Section Exec.
Variable phys : Z.

(** The table entries the processor consults for [virt]. *)
Definition path (cr3 : Z) (m : Memory) (virt : Z) : list Z :=
  let idx s := Z.shiftr virt s mod 512 in
  let e4 := entry_at m (phys + frame cr3) (idx 39) in
  let e3 := entry_at m (phys + frame e4) (idx 30) in
  let e2 := entry_at m (phys + frame e3) (idx 21) in
  let e1 := entry_at m (phys + frame e2) (idx 12) in
  e4 :: if negb (present e4) then [] else e3 :: if negb (present e3) || huge e3 then [] else
  e2 :: if negb (present e2) || huge e2 then [] else [e1].

(** Bit 63 is reserved, hence a fault, while no-execute is disabled. *)
Definition entry_ok (nxe fetching : bool) (e : Z) : bool := negb (Z.testbit e 63) || (nxe && negb fetching).

Definition mmu (nxe fetching : bool) (cr3 : Z) (m : Memory) (virt : Z) : option Z :=
  if forallb (entry_ok nxe fetching) (path cr3 m virt) then walk phys cr3 m virt else None.

(** From a linear to a physical address. *)
Definition translate (c : Cpu) (m : Memory) (fetching : bool) (a : Z) : option Z :=
  if pg c then mmu (nxe c) fetching (c_cr3 c) m a else Some a.

Definition vload (c : Cpu) (m : Memory) (fetching : bool) (a : Z) : option Z :=
  (λ p, load m (phys + p)) <$> translate c m fetching a.

Definition vread (c : Cpu) (m : Memory) (a : Z) (n : nat) : option (list Z) :=
  mapM (λ i, vload c m false (a + Z.of_nat i)) (seq 0 n).

Definition vwrite (c : Cpu) (m : Memory) (a : Z) (l : list Z) : option Memory :=
  ps ← mapM (λ i, translate c m false (a + Z.of_nat i)) (seq 0 (length l));
  Some (foldl (λ m '(p, v), <[phys + p := v]> m) m (zip ps l)).

(** The linear address of an offset in a segment; bases are ignored in
    64-bit code. *)
Definition linear (c : Cpu) (base off : Z) : Z :=
  match size c with S64 => off | _ => wrap 32 (base + off) end.

(** ** Descriptors *)

Definition descriptor (c : Cpu) (m : Memory) (sel : Z) : option Z :=
  let off := Z.land sel 0xFFF8 in
  if Z.testbit sel 2 || (gdt_limit c <? off + 7) || (off =? 0) then None else
  of_le <$> vread c m (gdt_base c + off) 8.

Definition desc_base (d : Z) : Z :=
  Z.lor (Z.land (Z.shiftr d 16) 0xFFFFFF) (Z.shiftl (Z.land (Z.shiftr d 56) 0xFF) 24).

(** Loading CS: a present code segment, not both 64-bit and 32-bit. *)
Definition code_seg (c : Cpu) (m : Memory) (sel : Z) : option CodeSeg :=
  d ← descriptor c m sel;
  if Z.testbit d 47 && Z.testbit d 44 && Z.testbit d 43 && negb (lma c && Z.testbit d 53 && Z.testbit d 54)
  then Some (mkCodeSeg sel (desc_base d) (Z.testbit d 54) (Z.testbit d 53)) else None.

(** Loading DS, ES or SS: a present writable data segment in protected mode,
    any selector in real mode. *)
Definition data_seg (c : Cpu) (m : Memory) (sel : Z) : option DataSeg :=
  if pe c then
    d ← descriptor c m sel;
    if Z.testbit d 47 && Z.testbit d 44 && negb (Z.testbit d 43) && Z.testbit d 41
    then Some (mkDataSeg sel (desc_base d)) else None
  else Some (mkDataSeg sel (Z.shiftl sel 4)).

(** ** Execution *)

(** Without an interrupt descriptor table every exception shuts the
    processor down; the last case is outside the modelled instructions. *)
Inductive Next := Go (c : Cpu) (m : Memory) | Halted (c : Cpu) (m : Memory) | Shutdown | Unmodelled.

Definition or_shutdown {A} (o : option A) (k : A → Next) : Next :=
  match o with Some x => k x | None => Shutdown end.

Definition MSR_EFER : Z := 0xC0000080.

(** Writing CR0: paging needs protected mode and, for long mode, physical
    address extension and a code segment without the 64-bit flag; it then
    activates long mode.  Other kinds of paging are not modelled. *)
Definition write_cr0 (v : Z) (c : Cpu) (m : Memory) : Next :=
  if Z.testbit v 31 then
    if negb (Z.testbit v 0) then Shutdown else
    if pg c then Go (set_control v (c_cr3 c) (c_cr4 c) (c_efer c) c) m else
    if negb (lme c) then Unmodelled else
    if negb (pae c) || cs_l (c_cs c) then Shutdown else
    Go (set_control v (c_cr3 c) (c_cr4 c) (Z.lor (c_efer c) 0x400) c) m
  else if lma c then Unmodelled else Go (set_control v (c_cr3 c) (c_cr4 c) (c_efer c) c) m.

(** Writing EFER: only the bits SCE, LME, NXE, and LME not while paging. *)
Definition write_efer (v : Z) (c : Cpu) (m : Memory) : Next :=
  if negb (Z.land v (Z.lnot 0xD01) =? 0) then Shutdown else
  if pg c && negb (Bool.eqb (Z.testbit v 8) (lme c)) then Shutdown else
  Go (set_control (c_cr0 c) (c_cr3 c) (c_cr4 c) (Z.lor (Z.land v 0x901) (Z.land (c_efer c) 0x400)) c) m.

(** A 16-bit register write keeps the upper bits. *)
Definition set_low16 (old v : Z) : Z := old - wrap 16 old + v.

(** One instruction; [c] already points behind it. *)
Definition exec (i : Instr) (c : Cpu) (m : Memory) : Next :=
  let eax := wrap 32 (c_rax c) in
  match i with
  | Nop => Go c m
  | JmpRel rel => Go (set_rip (c_rip c + rel) c) m
  | MovAxCs => Go (set_rax (set_low16 (c_rax c) (cs_sel (c_cs c))) c) m
  | MovSreg s => or_shutdown (data_seg c m (wrap 16 (c_rax c))) (λ v, Go (set_seg s v c) m)
  | Lgdt off =>
    or_shutdown (vread c m (linear c (seg_base (c_ds c)) off) 6)
      (λ l, Go (set_gdt (of_le (take 2 l)) (wrap 24 (of_le (drop 2 l))) c) m)
  | MovFromCr CR0 => Go (set_rax (wrap 32 (c_cr0 c)) c) m
  | MovFromCr CR3 => Go (set_rax (wrap 32 (c_cr3 c)) c) m
  | MovFromCr CR4 => Go (set_rax (wrap 32 (c_cr4 c)) c) m
  | MovToCr CR0 => write_cr0 eax c m
  | MovToCr CR3 => Go (set_control (c_cr0 c) eax (c_cr4 c) (c_efer c) c) m
  | MovToCr CR4 => Go (set_control (c_cr0 c) (c_cr3 c) eax (c_efer c) c) m
  | OrAl imm => Go (set_rax (Z.lor (c_rax c) imm) c) m
  | OrEax imm => Go (set_rax (Z.lor eax imm) c) m
  | BtsEax bit => Go (set_rax (Z.lor eax (Z.shiftl 1 (bit mod 32))) c) m
  | MovEax imm => Go (set_rax imm c) m
  | MovEcx imm => Go (set_rcx_rdx imm (c_rdx c) c) m
  | LoadEax addr =>
    or_shutdown (vread c m (linear c (seg_base (c_ds c)) addr) 4) (λ l, Go (set_rax (of_le l) c) m)
  | Load r addr =>
    or_shutdown (vread c m (linear c (seg_base (c_ds c)) (wrap 64 addr)) 8) (λ l,
      Go (match r with
          | RAX => set_rax (of_le l) c
          | RSP => set_rdi_rsp (c_rdi c) (of_le l) c
          | RDI => set_rdi_rsp (of_le l) (c_rsp c) c
          end) m)
  | Rdmsr =>
    if negb (wrap 32 (c_rcx c) =? MSR_EFER) then Unmodelled else
    Go (set_rcx_rdx (c_rcx c) (Z.shiftr (c_efer c) 32) (set_rax (wrap 32 (c_efer c)) c)) m
  | Wrmsr =>
    if negb (wrap 32 (c_rcx c) =? MSR_EFER) then Unmodelled else
    write_efer (Z.lor (Z.shiftl (wrap 32 (c_rdx c)) 32) eax) c m
  | JmpFar sel off =>
    if negb (pe c) then Go (set_cs (mkCodeSeg sel (Z.shiftl sel 4) false false) off c) m else
    or_shutdown (code_seg c m sel) (λ s, Go (set_cs s off c) m)
  | CallRax =>
    let sp := wrap 64 (c_rsp c - 8) in
    or_shutdown (vwrite c m sp (le_bytes 8 (c_rip c)))
      (λ m, Go (set_rip (c_rax c) (set_rdi_rsp (c_rdi c) sp c)) m)
  | Hlt => Halted c m
  end.

(** Fetch, decode, execute. *)
Definition step (c : Cpu) (m : Memory) : Next :=
  let a := linear c (cs_base (c_cs c)) (c_rip c) in
  match vload c m true a with
  | None => Shutdown
  | Some _ =>
    match decode (size c) (vload c m true) a with
    | None => Unmodelled
    | Some (i, len) => exec i (set_rip (c_rip c + len) c) m
    end
  end.

Fixpoint run (n : nat) (c : Cpu) (m : Memory) : Next :=
  match n with
  | O => Go c m
  | S n => match step c m with Go c m => run n c m | r => r end
  end.
End Exec.

(** ** Facts *)

Lemma imm16_knows code' code a : knows code' code → answers (imm16 code' a) (imm16 code a).
Proof. intros Hk. unfold imm16. decoder_knows; apply Hk. Qed.

Lemma imm32_knows code' code a : knows code' code → answers (imm32 code' a) (imm32 code a).
Proof. intros Hk. unfold imm32. decoder_knows; apply Hk. Qed.

Lemma ap_decode_knows w code' code a : knows code' code → answers (decode w code' a) (decode w code a).
Proof.
  intros Hk. unfold decode, decode_0F. apply answers_bind; [apply Hk|intros b0].
  destruct w; decoder_knows; by apply Hk || apply imm16_knows || apply imm32_knows.
Qed.

(** Reading whole words through the translation. *)
Lemma vread_ok phys c m a n :
  (∀ i, (i < n)%nat → translate phys c m false (a + Z.of_nat i) = Some (a + Z.of_nat i)) →
  vread phys c m a n = Some (read_at m (phys + a) n).
Proof.
  intros Ht. unfold vread, read_at. apply mapM_Some, Forall2_fmap_r, Forall_Forall2_diag, Forall_seq.
  intros i Hi. unfold vload. rewrite Ht by lia. simpl. do 2 f_equal. lia.
Qed.

Definition TRAMPOLINE : Z := 0x50000.

Abbreviation code := (prog_at TRAMPOLINE AP_TRAMPOLINE_BIN).

Section Trampoline.
Context (phys core_id cr3 stack_top entry : Z) (m : Memory).
Hypothesis Hpage : trampoline_page (phys + TRAMPOLINE) core_id cr3 stack_top entry m.

(** [c] sees the trampoline page where it is. *)
Definition sees (c : Cpu) : Prop :=
  ∀ a f, TRAMPOLINE <= a < TRAMPOLINE + 0x1000 → translate phys c m f a = Some a.

Lemma sees_flat c : pg c = false → sees c.
Proof. intros E a f _. unfold translate. by rewrite E. Qed.

Lemma sees_knows c : sees c → knows (vload phys c m true) code.
Proof.
  intros Hs a b [Ha Hb]%prog_at_Some. assert (length AP_TRAMPOLINE_BIN = 221%nat) as Hl by (vm_compute; reflexivity).
  rewrite Hl in Ha. unfold vload. rewrite Hs by lia. simpl. f_equal.
  pose proof (load_inside m _ _ (Z.to_nat (a - TRAMPOLINE)) (tp_code _ _ _ _ _ _ Hpage)) as E.
  replace (phys + TRAMPOLINE + Z.of_nat (Z.to_nat (a - TRAMPOLINE))) with (phys + a) in E by lia.
  rewrite E by lia. by rewrite list_lookup_total_alt, Hb.
Qed.

Lemma step_at c i len :
  sees c → decode (size c) code (linear c (cs_base (c_cs c)) (c_rip c)) = Some (i, len) →
  step phys c m = exec phys i (set_rip (c_rip c + len) c) m.
Proof.
  intros Hs Hd. unfold step.
  rewrite (ap_decode_knows _ _ _ _ (sees_knows c Hs) _ Hd).
  destruct (code (linear c (cs_base (c_cs c)) (c_rip c))) eqn:E.
  - by rewrite (sees_knows c Hs _ _ E).
  - unfold decode in Hd. by rewrite E in Hd.
Qed.

(** The table, the pseudo-descriptor and the control block. *)
Lemma vread_page c a off n :
  sees c → a = TRAMPOLINE + off → 0 <= off → off + Z.of_nat n <= 0x1000 →
  vread phys c m a n = Some (read_at m (phys + TRAMPOLINE + off) n).
Proof.
  intros Hs -> H0 Hn. rewrite vread_ok.
  - do 2 f_equal. lia.
  - intros i Hi. apply Hs. lia.
Qed.

Lemma vread_bin c a off n :
  sees c → a = TRAMPOLINE + Z.of_nat off → (off + n <= 221)%nat →
  vread phys c m a n = Some (take n (drop off AP_TRAMPOLINE_BIN)).
Proof.
  intros Hs Ha Hn. rewrite (vread_page c a (Z.of_nat off)) by (done || lia). f_equal. apply read_at_inside; [apply Hpage|exact Hn].
Qed.

Lemma run_at n c i len c' :
  sees c → decode (size c) code (linear c (cs_base (c_cs c)) (c_rip c)) = Some (i, len) →
  exec phys i (set_rip (c_rip c + len) c) m = Go c' m → run phys (S n) c m = run phys n c' m.
Proof. intros Hs Hd He. cbn [run]. by rewrite (step_at c i len Hs Hd), He. Qed.

(** The trampoline's descriptor table. *)
Definition gdt_entry (sel : Z) : Z := of_le (take 8 (drop (Z.to_nat (sel + 8)) AP_TRAMPOLINE_BIN)).

Lemma descriptor_ok c sel :
  sees c → gdt_limit c = 0x1F → gdt_base c = TRAMPOLINE + 8 → sel ∈ [0x08; 0x10; 0x18] →
  descriptor phys c m sel = Some (gdt_entry sel).
Proof.
  intros Hs Hl Hb Hsel. unfold descriptor, gdt_entry. rewrite Hl, Hb.
  repeat (apply elem_of_cons in Hsel as [->|Hsel]); [..|by apply not_elem_of_nil in Hsel];
    match goal with |- context [vread _ _ _ ?a _] =>
      let o := eval vm_compute in (Z.to_nat (a - TRAMPOLINE)) in rewrite (vread_bin c a o) by (done || lia) end;
    reflexivity.
Qed.

(** One step that touches no memory, from and to closed states. *)
Ltac flat := etrans; [eapply run_at; [by apply sees_flat|vm_compute; reflexivity|vm_compute; reflexivity]|].

(** One step, whose effect is left to be computed. *)
Ltac at_step := etrans; [eapply run_at; [by apply sees_flat|vm_compute; reflexivity|]|].

(** Loading a data segment register in the flat 32-bit code. *)
Ltac data_step := at_step; [cbn [exec]; unfold data_seg; rewrite descriptor_ok by (by apply sees_flat || set_solver);
  vm_compute; reflexivity|].

(** The states the code goes through; [c] is the processor before the
    start-up interrupt. *)
Definition real_state (rip rax cr0 : Z) (c : Cpu) : Cpu :=
  mkCpu rax (c_rcx c) (c_rdx c) (c_rdi c) (c_rsp c) rip (mkCodeSeg 0x5000 TRAMPOLINE false false)
    (mkDataSeg 0x5000 TRAMPOLINE) (c_es c) (c_ss c) cr0 0 0 0 0x1F (TRAMPOLINE + 8).
Definition flat_state (rip rax rcx rdx : Z) (ds es ss : DataSeg) (cr0 cr3 cr4 efer : Z) (c : Cpu) : Cpu :=
  mkCpu rax rcx rdx (c_rdi c) (c_rsp c) rip (mkCodeSeg 0x08 0 true false) ds es ss
    cr0 cr3 cr4 efer 0x1F (TRAMPOLINE + 8).
Definition long_state (rip rax rdi rsp cr3 : Z) : Cpu :=
  mkCpu rax MSR_EFER 0 rdi rsp rip (mkCodeSeg 0x18 0 false true)
    (mkDataSeg 0x10 0) (mkDataSeg 0x10 0) (mkDataSeg 0x10 0) 0xE0000011 cr3 0x20 0x500 0x1F (TRAMPOLINE + 8).

(** Real mode: the jump over the table and the data segment. *)
Lemma runs_entry c n :
  run phys (3 + n) (sipi_state 0x50 c) m
  = run phys n (mkCpu (set_low16 (c_rax c) 0x5000) (c_rcx c) (c_rdx c) (c_rdi c) (c_rsp c) 0x44
      (mkCodeSeg 0x5000 TRAMPOLINE false false) (mkDataSeg 0x5000 TRAMPOLINE) (c_es c) (c_ss c)
      0x60000010 0 0 0 (gdt_limit c) (gdt_base c)) m.
Proof.
  cbn [Nat.add]. flat.
  assert (wrap 16 (set_low16 (c_rax c) 0x5000) = 0x5000) as Hax.
  { unfold set_low16, wrap. rewrite Z.add_mod, Zminus_mod_idemp_r, Z.sub_diag by done. reflexivity. }
  rewrite (run_at _ _ MovAxCs 2 (mkCpu (set_low16 (c_rax c) 0x5000) (c_rcx c) (c_rdx c) (c_rdi c) (c_rsp c) 0x42
      (mkCodeSeg 0x5000 TRAMPOLINE false false) (c_ds c) (c_es c) (c_ss c) 0x60000010 0 0 0 (gdt_limit c) (gdt_base c)));
    [|by apply sees_flat|vm_compute; reflexivity|reflexivity].
  revert Hax. generalize (set_low16 (c_rax c) 0x5000). intros ax Hax.
  at_step; [|reflexivity]. cbn [exec set_rip c_rax]. unfold data_seg. rewrite Hax. reflexivity.
Qed.

(** The descriptor table is loaded and protection switched on. *)
Lemma runs_real c n :
  run phys (7 + n) (sipi_state 0x50 c) m = run phys n (real_state 0x51 0x60000011 0x60000011 c) m.
Proof.
  change (7 + n)%nat with (3 + (4 + n))%nat. rewrite runs_entry. generalize (set_low16 (c_rax c) 0x5000).
  intros ax. cbn [Nat.add].
  at_step; [cbn [exec]; rewrite (vread_bin _ _ 2 6) by (by apply sees_flat || done || lia);
    vm_compute; reflexivity|].
  flat. flat. flat. reflexivity.
Qed.

(** The far jump into 32-bit code and its segment registers. *)
Lemma runs_protected c n :
  run phys (5 + n) (real_state 0x51 0x60000011 0x60000011 c) m
  = run phys n (flat_state (TRAMPOLINE + 0x8B) 0x10 (c_rcx c) (c_rdx c)
                  (mkDataSeg 0x10 0) (mkDataSeg 0x10 0) (mkDataSeg 0x10 0) 0x60000011 0 0 0 c) m.
Proof.
  cbn [Nat.add].
  at_step; [cbn [exec]; unfold code_seg; cbn [pe c_cr0]; rewrite descriptor_ok by (by apply sees_flat || set_solver);
    vm_compute; reflexivity|].
  flat. data_step. data_step. data_step. reflexivity.
Qed.

(** The page tables the code installs: it loads 32 bits of their address. *)
Definition root : Z := wrap 32 cr3.

(** Address extension, the page tables, long mode, paging. *)
Definition paged_state (c : Cpu) : Cpu :=
  flat_state (TRAMPOLINE + 0xB5) 0xE0000011 MSR_EFER 0
    (mkDataSeg 0x10 0) (mkDataSeg 0x10 0) (mkDataSeg 0x10 0) 0xE0000011 root 0x20 0x500 c.

Lemma runs_paging c n :
  run phys (12 + n) (flat_state (TRAMPOLINE + 0x8B) 0x10 (c_rcx c) (c_rdx c)
                  (mkDataSeg 0x10 0) (mkDataSeg 0x10 0) (mkDataSeg 0x10 0) 0x60000011 0 0 0 c) m
  = run phys n (paged_state c) m.
Proof.
  cbn [Nat.add]. flat. flat. flat.
  assert (of_le (read_at m (phys + TRAMPOLINE + 0xFE8) 4) = root) as Hr.
  { pose proof (read_at_inside m (phys + TRAMPOLINE + 0xFE8) (le_bytes 8 cr3) 0 4) as E.
    rewrite Z.add_0_r in E. rewrite E; [|apply Hpage|simpl; lia].
    change (take 4 (drop 0 (le_bytes 8 cr3))) with (le_bytes 4 cr3). apply of_le_bytes. }
  assert (wrap 32 root = root) as Hw by (by apply Z.mod_mod).
  unfold paged_state. revert Hr Hw. generalize root. intros r Hr Hw.
  at_step; [cbn [exec]; rewrite (vread_page _ _ 0xFE8) by (by apply sees_flat || done || lia);
    cbn [or_shutdown]; rewrite Hr; reflexivity|].
  at_step; [cbn [exec]; change (c_rax _) with r; rewrite Hw; reflexivity|].
  do 7 flat. reflexivity.
Qed.

(** ** Under paging *)

Lemma runs_to_paging c n :
  run phys (24 + n) (sipi_state 0x50 c) m = run phys n (paged_state c) m.
Proof.
  change (24 + n)%nat with (7 + (5 + (12 + n)))%nat. by rewrite runs_real, runs_protected, runs_paging.
Qed.

Lemma translate_paged c f a :
  pg c = true → nxe c = false → c_cr3 c = root → translate phys c m f a = mmu phys false false root m a.
Proof. intros Hg Hn Hc. unfold translate. rewrite Hg, Hn, Hc. reflexivity. Qed.

Section Mapped.
Hypothesis Hmap : ∀ a, TRAMPOLINE <= a < TRAMPOLINE + 0x1000 → mmu phys false false root m a = Some a.

Lemma sees_paged c : pg c = true → nxe c = false → c_cr3 c = root → sees c.
Proof. intros Hg Hn Hc a f Ha. rewrite translate_paged by done. by apply Hmap. Qed.

Lemma word_ok c a off v :
  sees c → a = TRAMPOLINE + off → 0 <= off <= 0xFF8 → 0 <= v < 2 ^ 64 →
  read_at m (phys + TRAMPOLINE + off) 8 = le_bytes 8 v →
  of_le <$> vread phys c m a 8 = Some v.
Proof.
  intros Hs Ha Ho Hv Hr. rewrite (vread_page c a off), Hr by (done || lia).
  change (Some (of_le (le_bytes 8 v)) = Some v). f_equal. by apply of_le_small.
Qed.

(** One of the three loads from the control block. *)
Lemma load_step n c r addr off v c' :
  sees c → decode (size c) code (linear c (cs_base (c_cs c)) (c_rip c)) = Some (Load r addr, 8) →
  size (set_rip (c_rip c + 8) c) = S64 → wrap 64 addr = TRAMPOLINE + off → 0 <= off <= 0xFF8 → 0 <= v < 2 ^ 64 →
  read_at m (phys + TRAMPOLINE + off) 8 = le_bytes 8 v →
  sees (set_rip (c_rip c + 8) c) →
  match r with
  | RAX => set_rax v (set_rip (c_rip c + 8) c)
  | RSP => set_rdi_rsp (c_rdi c) v (set_rip (c_rip c + 8) c)
  | RDI => set_rdi_rsp v (c_rsp c) (set_rip (c_rip c + 8) c)
  end = c' →
  run phys (S n) c m = run phys n c' m.
Proof.
  intros Hs Hd Hsz Ha Ho Hv Hr Hs' <-. eapply run_at; [done..|]. cbn [exec]. unfold linear. rewrite Hsz.
  pose proof (word_ok _ _ off v Hs' Ha Ho Hv Hr) as Hw. apply fmap_Some in Hw as (l & -> & ->).
  by destruct r.
Qed.

Lemma runs_long c n :
  0 <= core_id < 2 ^ 64 → 0 <= stack_top < 2 ^ 64 → 0 <= entry < 2 ^ 64 →
  run phys (4 + n) (paged_state c) m
  = run phys n (long_state (TRAMPOLINE + 0xD8) entry core_id stack_top root) m.
Proof.
  intros Hi Ht He. cbn [Nat.add].
  rewrite (run_at _ _ (JmpFar 0x18 0x500C0) 7 (long_state (TRAMPOLINE + 0xC0) 0xE0000011 (c_rdi c) (c_rsp c) root));
    [|by apply sees_paged|vm_compute; reflexivity|].
  2: { cbn [exec]. unfold code_seg. rewrite descriptor_ok by (by apply sees_paged || set_solver). reflexivity. }
  rewrite (load_step _ _ RSP 0x50FF0 0xFF0 stack_top (long_state (TRAMPOLINE + 0xC8) 0xE0000011 (c_rdi c) stack_top root));
    [|by apply sees_paged || done || apply Hpage..].
  rewrite (load_step _ _ RDI 0x50FE0 0xFE0 core_id (long_state (TRAMPOLINE + 0xD0) 0xE0000011 core_id stack_top root));
    [|by apply sees_paged || done || apply Hpage..].
  rewrite (load_step _ _ RAX 0x50FF8 0xFF8 entry (long_state (TRAMPOLINE + 0xD8) entry core_id stack_top root));
    [done|by apply sees_paged || done || apply Hpage..].
Qed.

(** The eight bytes of stack the call writes, in physical memory. *)
Definition stack_frames : option (list Z) :=
  mapM (λ i, mmu phys false false root m (stack_top - 8 + Z.of_nat i)) (seq 0 8).

Lemma runs_call n :
  8 <= stack_top < 2 ^ 64 → 0 <= entry < 2 ^ 64 →
  run phys (S n) (long_state (TRAMPOLINE + 0xD8) entry core_id stack_top root) m
  = match stack_frames with
    | Some ps => run phys n (long_state entry entry core_id (stack_top - 8) root)
                   (foldl (λ m '(p, v), <[phys + p := v]> m) m (zip ps (le_bytes 8 (TRAMPOLINE + 0xDA))))
    | None => Shutdown
    end.
Proof.
  intros Ht He. cbn [run].
  rewrite (step_at _ CallRax 2); [|by apply sees_paged|vm_compute; reflexivity].
  assert (wrap 64 (stack_top - 8) = stack_top - 8) as Hw by (apply Z.mod_small; lia).
  assert (wrap 64 entry = entry) as Hw' by (by apply Z.mod_small).
  cbn [exec]. change (c_rsp _) with stack_top. rewrite Hw. unfold vwrite.
  change (mapM _ _) with stack_frames. destruct stack_frames as [ps|]; [|done].
  cbn [mbind option_bind or_shutdown]. f_equal. unfold set_rip at 1. change (bits (size _)) with 64.
  change (c_rax _) with entry. rewrite Hw'. reflexivity.
Qed.
End Mapped.
End Trampoline.

(** A stack byte whose tables carry bit 63 anywhere on the path. *)
Lemma stack_frames_nx phys cr3 stack_top m i :
  (i < 8)%nat → Exists (λ e, Z.testbit e 63 = true) (path phys (root cr3) m (stack_top - 8 + Z.of_nat i)) →
  stack_frames phys cr3 stack_top m = None.
Proof.
  intros Hi Hx. unfold stack_frames. apply mapM_None. apply Exists_exists. exists i.
  split; [apply elem_of_seq; lia|]. unfold mmu. replace (forallb _ _) with false; [done|]. symmetry.
  apply not_true_is_false. rewrite forallb_forall. intros Hall.
  apply Exists_exists in Hx as (e & He%list_elem_of_In & Hb). specialize (Hall e He). unfold entry_ok in Hall.
  by rewrite Hb in Hall.
Qed.

Lemma load_pushed phys ps l m a :
  a ∉ (λ p, phys + p) <$> ps → load (foldl (λ m '(p, v), <[phys + p := v]> m) m (zip ps l)) a = load m a.
Proof.
  revert l m. induction ps as [|p ps IH]; intros [|v l] m Ha; [done..|]. cbn [zip foldl].
  rewrite fmap_cons, not_elem_of_cons in Ha. rewrite IH by apply Ha. apply load_insert_ne. by destruct Ha.
Qed.

(** ** Properties *)

(** C8: a processor started at the installed trampoline, whatever its
    registers: if the tables at the low 32 bits of the given address map the
    trampoline page to itself, then after 29 instructions it is in 64-bit
    mode at [ap_main] with the core number as first argument, on the given
    stack with the return address pushed and nothing else in memory changed,
    provided that stack is mapped; if it is not, it shuts down. *)
Theorem ap_reaches_main `{Profile} entry phys cr3 core_id stack_top m0 m v c :
  0 <= phys → phys + 0x51000 < 2 ^ 64 →
  0 <= core_id < 2 ^ 64 → 8 <= stack_top < 2 ^ 64 → 0 <= entry < 2 ^ 64 →
  install_trampoline entry phys cr3 core_id stack_top m0 = Ret (m, v) →
  (∀ a, 0x50000 <= a < 0x51000 → mmu phys false false (wrap 32 cr3) m a = Some a) →
  match stack_frames phys cr3 stack_top m with
  | Some ps =>
    ∃ m', run phys 29 (sipi_state 0x50 c) m = Go (long_state entry entry core_id (stack_top - 8) (wrap 32 cr3)) m' ∧
      ∀ a, a ∉ (λ p, phys + p) <$> ps → load m' a = load m a
  | None => ∀ n, run phys (29 + n) (sipi_state 0x50 c) m = Shutdown
  end.
Proof.
  intros Hp Hh Hi Ht He E Hmap.
  destruct (install_trampoline_ok entry phys cr3 core_id stack_top m0 Hp Hh) as (m1 & E1 & Hpage & _).
  rewrite E in E1. injection E1 as <- _.
  assert (∀ n, run phys (29 + n) (sipi_state 0x50 c) m
    = run phys (S n) (long_state (TRAMPOLINE + 0xD8) entry core_id stack_top (root cr3)) m) as Hrun.
  { intros n. change (29 + n)%nat with (24 + (4 + S n))%nat.
    rewrite (runs_to_paging _ _ _ _ _ _ Hpage). apply (runs_long _ _ _ _ _ _ Hpage); try done; lia. }
  destruct (stack_frames phys cr3 stack_top m) as [ps|] eqn:Es.
  - eexists. split.
    + change 29%nat with (29 + 0)%nat. rewrite Hrun, (runs_call _ _ _ _ _ _ Hpage Hmap), Es by done. reflexivity.
    + intros a Ha. by apply load_pushed.
  - intros n. by rewrite Hrun, (runs_call _ _ _ _ _ _ Hpage Hmap), Es by done.
Qed.

(** C38: the trampoline leaves no-execute disabled, so bit 63 is reserved in
    the tables it installs: a no-execute bit in any entry on the way to the
    stack shuts the started processor down before it reaches [ap_main], and
    so does an entry missing on the way to the trampoline page itself. *)
Theorem ap_shuts_down `{Profile} entry phys cr3 core_id stack_top m0 m v c :
  0 <= phys → phys + 0x51000 < 2 ^ 64 →
  0 <= core_id < 2 ^ 64 → 8 <= stack_top < 2 ^ 64 → 0 <= entry < 2 ^ 64 →
  install_trampoline entry phys cr3 core_id stack_top m0 = Ret (m, v) →
  (mmu phys false false (wrap 32 cr3) m 0x500B5 = None ∨
   (∀ a, 0x50000 <= a < 0x51000 → mmu phys false false (wrap 32 cr3) m a = Some a) ∧
   ∃ i, (i < 8)%nat ∧
     Exists (λ e, Z.testbit e 63 = true) (path phys (wrap 32 cr3) m (stack_top - 8 + Z.of_nat i))) →
  ∀ n, (29 <= n)%nat → run phys n (sipi_state 0x50 c) m = Shutdown.
Proof.
  intros Hp Hh Hi Ht He E Hbad n Hn.
  destruct (install_trampoline_ok entry phys cr3 core_id stack_top m0 Hp Hh) as (m1 & E1 & Hpage & _).
  rewrite E in E1. injection E1 as <- _. destruct Hbad as [Hbad|(Hmap & i & Hi8 & Hx)].
  - replace n with (24 + S (n - 25))%nat by lia. rewrite (runs_to_paging _ _ _ _ _ _ Hpage).
    cbn [run]. unfold step, vload. change (linear _ _ _) with 0x500B5.
    rewrite (translate_paged phys cr3) by done. unfold root. by rewrite Hbad.
  - replace n with (24 + (4 + S (n - 29)))%nat by lia. rewrite (runs_to_paging _ _ _ _ _ _ Hpage).
    rewrite (runs_long _ _ _ _ _ _ Hpage Hmap), (runs_call _ _ _ _ _ _ Hpage Hmap) by (done || lia).
    by rewrite (stack_frames_nx phys cr3 stack_top m i Hi8 Hx).
Qed.

(** Tables that map the pages 0x50000 and 0x60000 to themselves, the second
    one with the given upper bits. *)
Definition demo_ap_memory (upper : Z) : Memory :=
  set_entry (set_entry demo_tables (demo_phys + 0x4000) 0x50 0x50003) (demo_phys + 0x4000) 0x60 (upper + 0x60003).

Definition demo_cpu : Cpu :=
  mkCpu 0 0 0 0 0 0xFFF0 (mkCodeSeg 0xF000 0xFFFF0000 false false) (mkDataSeg 0 0) (mkDataSeg 0 0) (mkDataSeg 0 0)
    0x60000010 0 0 0 0xFFFF 0.

Definition demo_entry : Z := 0xFFFF800000001000.

(** The memory after [install_trampoline] for core 3, stack below 0x61000. *)
Definition demo_installed (upper : Z) : Memory :=
  match @install_trampoline dev_profile demo_entry demo_phys 0x1000 3 0x61000 (demo_ap_memory upper) with
  | Ret (m, _) => m
  | _ => ∅
  end.

Lemma demo_installs upper :
  @install_trampoline dev_profile demo_entry demo_phys 0x1000 3 0x61000 (demo_ap_memory upper)
  = Ret (demo_installed upper, false).
Proof.
  unfold demo_installed.
  destruct (@install_trampoline_ok dev_profile demo_entry demo_phys 0x1000 3 0x61000 (demo_ap_memory upper))
    as (m' & -> & _); [vm_compute; discriminate|vm_compute; reflexivity|done].
Qed.

(** A page reached through four levels of plain tables. *)
Lemma mmu_leaf phys cr3 m a (e4 e3 e2 e1 : Z) :
  entry_at m (phys + frame cr3) (Z.shiftr a 39 mod 512) = e4 → entry_at m (phys + frame e4) (Z.shiftr a 30 mod 512) = e3 →
  entry_at m (phys + frame e3) (Z.shiftr a 21 mod 512) = e2 → entry_at m (phys + frame e2) (Z.shiftr a 12 mod 512) = e1 →
  forallb (λ e, present e && negb (Z.testbit e 63)) [e4; e3; e2; e1] && negb (huge e3) && negb (huge e2) = true →
  mmu phys false false cr3 m a = Some (frame e1 + a mod 4096).
Proof.
  intros H4 H3 H2 H1 Hp. cbn [forallb] in Hp. rewrite !andb_true_iff, !negb_true_iff in Hp.
  destruct Hp as [[((P4 & N4) & (P3 & N3) & (P2 & N2) & (P1 & N1) & _) G3] G2].
  unfold mmu, path, walk. rewrite H4, H3, H2, H1, P4, P3, P2, P1, G3, G2.
  cbn [negb orb forallb]. unfold entry_ok. by rewrite N4, N3, N2, N1.
Qed.

Lemma demo_maps upper a :
  upper ∈ [0; 2 ^ 63] → 0x50000 <= a < 0x51000 →
  mmu demo_phys false false (wrap 32 0x1000) (demo_installed upper) a = Some a.
Proof.
  intros Hu Ha. assert (a / 4096 = 0x50) as H12 by (symmetry; apply (Z.div_unique_pos _ _ _ (a - 0x50000)); lia).
  assert (∀ k, 0 <= k → Z.shiftr a (12 + k) = Z.shiftr 0x50 k) as Hs.
  { intros k Hk. rewrite <-Z.shiftr_shiftr by done. f_equal. by rewrite Z.shiftr_div_pow2. }
  pose proof (Z.div_mod a 4096 ltac:(done)) as Hd. rewrite H12 in Hd. rewrite !elem_of_cons, elem_of_nil in Hu.
  rewrite (mmu_leaf _ _ _ a 0x2003 0x3003 0x4003 0x50003).
  - f_equal. change (frame 0x50003) with (4096 * 80). lia.
  - rewrite (Hs 27 ltac:(done) : Z.shiftr a 39 = 0). destruct Hu as [->|[->|[]]]; vm_compute; reflexivity.
  - rewrite (Hs 18 ltac:(done) : Z.shiftr a 30 = 0). destruct Hu as [->|[->|[]]]; vm_compute; reflexivity.
  - rewrite (Hs 9 ltac:(done) : Z.shiftr a 21 = 0). destruct Hu as [->|[->|[]]]; vm_compute; reflexivity.
  - rewrite (Hs 0 ltac:(done) : Z.shiftr a 12 = 0x50). destruct Hu as [->|[->|[]]]; vm_compute; reflexivity.
  - reflexivity.
Qed.

Lemma demo_stack :
  stack_frames demo_phys 0x1000 0x61000 (demo_installed 0) = Some ((λ i, 0x60FF8 + Z.of_nat i) <$> seq 0 8).
Proof. vm_compute. reflexivity. Qed.

Lemma ap_reaches_main_witness :
  ∃ m', run demo_phys 29 (sipi_state 0x50 demo_cpu) (demo_installed 0)
        = Go (long_state demo_entry demo_entry 3 0x60FF8 0x1000) m' ∧
    load m' demo_phys = load (demo_installed 0) demo_phys.
Proof.
  pose proof (@ap_reaches_main dev_profile demo_entry demo_phys 0x1000 3 0x61000 (demo_ap_memory 0) (demo_installed 0)
    false demo_cpu) as T. rewrite demo_stack in T.
  destruct T as (m' & E & Hm);
    [vm_compute; discriminate|vm_compute; reflexivity|lia|lia|vm_compute; split; [discriminate|reflexivity]
    |apply demo_installs|intros a Ha; apply demo_maps; [left|exact Ha]|].
  exists m'. split; [exact E|]. apply Hm. rewrite list_elem_of_fmap. intros (p & E2 & (i & -> & _)%list_elem_of_fmap). lia.
Defined.

Lemma ap_shuts_down_witness :
  run demo_phys 29 (sipi_state 0x50 demo_cpu) (demo_installed (2 ^ 63)) = Shutdown.
Proof.
  refine (@ap_shuts_down dev_profile demo_entry demo_phys 0x1000 3 0x61000 (demo_ap_memory (2 ^ 63))
    (demo_installed (2 ^ 63)) false demo_cpu _ _ _ _ _ _ _ 29%nat (le_n 29));
    [vm_compute; discriminate|vm_compute; reflexivity|lia|lia|vm_compute; split; [discriminate|reflexivity]
    |apply demo_installs|right; split].
  - intros a Ha. apply demo_maps; [right; left|exact Ha].
  - exists 0%nat. split; [lia|]. vm_compute. do 3 right. left. reflexivity.
Defined.
