(* ===== verification/StartUp.v ===== *)
(** * Starting processors, interleaved

    [smp::init] of [kernel/src/smp.rs] hands every processor its number, its
    stack and the address of [ap_main] through one control block in the
    trampoline page, and waits at most 200 rounds for the processor to report
    before it fills the block for the next one.  [Smp] runs the two sides one
    after the other; here they interleave: the boot processor writes the
    block field by field, the started processors load it field by field and
    report in two steps ([is_online], then [APS_ONLINE]).  A parameter says
    whether the wait may end before the processor has reported.

    Shown here: as long as every wait ends with a report, each processor gets
    its own number and its own stack, and the summary lists exactly the
    started ones, its total possibly lower than their number; when a wait
    times out, two processors can run [ap_main] on the same stack under the
    same number.  The outcomes of [Smp] are among those of the interleaving,
    and each load of a started processor is one instruction of the
    trampoline as [ApBoot] executes it. *)

From S2P Require Import Prelude Machine Smp Trampoline ApBoot.
From Stdlib Require Import ZArith Lia.
From stdpp Require Import base numbers list gmap relations.
#[local] Open Scope Z_scope.

(** ** States *)

(** The control block at 0x50FE0: number, stack and entry point. *)
Record Block := mkBlock { blk_core : nat; blk_stack : Z; blk_entry : Z }.

(** A processor other than the first: not started; in the trampoline, with
    what it has loaded so far; in [ap_main], or at whatever address it was
    given instead; having set its flag; having counted itself, halted. *)
Inductive Ap :=
| Idle
| Entered
| Stacked (stack : Z)
| Numbered (stack : Z) (core : nat)
| Called (stack : Z) (core : nat)
| Lost (stack : Z) (core : nat) (entry : Z)
| Marked (stack : Z) (core : nat)
| Counted (stack : Z) (core : nat).

(** The boot processor: at the head of the loop over [ids]; in the body for
    [id], after each of its stores; waiting; behind the loop with its total. *)
Inductive Bsp :=
| Loop (ids : list nat)
| Cleared (id : nat) (ids : list nat)
| WroteCore (id : nat) (ids : list nat)
| WroteStack (id : nat) (ids : list nat)
| WroteEntry (id : nat) (ids : list nat)
| Waiting (id : nat) (ids : list nat)
| Done (total : Z).

Record System := mkSystem {
  bsp : Bsp; blk : Block; aps : list Ap; flags : list bool; count : Z }.

Definition set_bsp (b : Bsp) (s : System) : System := mkSystem b (blk s) (aps s) (flags s) (count s).
Definition set_blk (b : Block) (s : System) : System := mkSystem (bsp s) b (aps s) (flags s) (count s).
Definition set_ap (i : nat) (a : Ap) (s : System) : System :=
  mkSystem (bsp s) (blk s) (<[i := a]> (aps s)) (flags s) (count s).
Definition set_flag (i : nat) (s : System) : System :=
  mkSystem (bsp s) (blk s) (aps s) (<[i := true]> (flags s)) (count s).
Definition add_count (s : System) : System :=
  mkSystem (bsp s) (blk s) (aps s) (flags s) (wadd 32 (count s) 1).

(** The byte [init] clears at 0x50FFE is the seventh of the entry point. *)
Definition clear_magic (entry : Z) : Z := of_le (<[6%nat := 0]> (le_bytes 8 entry)).

Section Steps.
Context (env : SmpEnv) (bsp_id : nat) (timeouts : bool).

(** [AP_STACKS[id].as_ptr().add(16384)]. *)
Definition stack_of (id : nat) : Z := ap_stacks env + 16384 * Z.of_nat id + 16384.

Definition target (id : nat) : Prop := id ≠ bsp_id ∧ (id < MAX_CORES)%nat.
#[global] Instance target_dec id : Decision (target id).
Proof. apply _. Defined.

(** The body of the loop over the processors. *)
Inductive bsp_step : System → System → Prop :=
| bsp_skip s id ids : bsp s = Loop (id :: ids) → ¬ target id → bsp_step s (set_bsp (Loop ids) s)
| bsp_clear s id ids : bsp s = Loop (id :: ids) → target id →
    bsp_step s (set_bsp (Cleared id ids)
      (set_blk (mkBlock (blk_core (blk s)) (blk_stack (blk s)) (clear_magic (blk_entry (blk s)))) s))
| bsp_core s id ids : bsp s = Cleared id ids →
    bsp_step s (set_bsp (WroteCore id ids) (set_blk (mkBlock id (blk_stack (blk s)) (blk_entry (blk s))) s))
| bsp_stack s id ids : bsp s = WroteCore id ids →
    bsp_step s (set_bsp (WroteStack id ids) (set_blk (mkBlock (blk_core (blk s)) (stack_of id) (blk_entry (blk s))) s))
| bsp_entry s id ids : bsp s = WroteStack id ids →
    bsp_step s (set_bsp (WroteEntry id ids)
      (set_blk (mkBlock (blk_core (blk s)) (blk_stack (blk s)) (ap_main_addr env)) s))
| bsp_send s id ids : bsp s = WroteEntry id ids →
    bsp_step s (set_bsp (Waiting id ids) (set_ap id Entered s))
| bsp_online s id ids : bsp s = Waiting id ids → flags s !! id = Some true → bsp_step s (set_bsp (Loop ids) s)
| bsp_timeout s id ids : bsp s = Waiting id ids → timeouts = true → bsp_step s (set_bsp (Loop ids) s)
| bsp_done s : bsp s = Loop [] → bsp_step s (set_bsp (Done (1 + count s)) s).

(** The loads of the trampoline. *)
Inductive ap_load (b : Block) : Ap → Ap → Prop :=
| load_stack : ap_load b Entered (Stacked (blk_stack b))
| load_core st : ap_load b (Stacked st) (Numbered st (blk_core b))
| load_entry st c : blk_entry b = ap_main_addr env → ap_load b (Numbered st c) (Called st c)
| load_other st c : blk_entry b ≠ ap_main_addr env → ap_load b (Numbered st c) (Lost st c (blk_entry b)).

(** Processor [i]: the trampoline, then [ap_main]. *)
Inductive ap_step (i : nat) : System → System → Prop :=
| ap_loads s a a' : aps s !! i = Some a → ap_load (blk s) a a' → ap_step i s (set_ap i a' s)
| ap_mark s st c : aps s !! i = Some (Called st c) → (c < MAX_CORES)%nat →
    ap_step i s (set_flag c (set_ap i (Marked st c) s))
| ap_count s st c : aps s !! i = Some (Marked st c) → ap_step i s (add_count (set_ap i (Counted st c) s)).

Definition sys_step (s s' : System) : Prop := bsp_step s s' ∨ ∃ i, ap_step i s s'.

(** Before the loop: the first core is online, the block still zero. *)
Definition sys_start (ids : list nat) : System :=
  mkSystem (Loop ids) (mkBlock 0 0 0) (replicate MAX_CORES Idle) (true :: replicate (MAX_CORES - 1) false) 0.

Definition sys_reachable (ids : list nat) : System → Prop := rtc sys_step (sys_start ids).
End Steps.

(** What a processor uses: its stack and its number. *)
Definition uses (a : Ap) : option (Z * nat) :=
  match a with
  | Numbered st c | Called st c | Lost st c _ | Marked st c | Counted st c => Some (st, c)
  | _ => None
  end.
Definition in_main (a : Ap) : bool := match a with Called _ _ | Marked _ _ | Counted _ _ => true | _ => false end.
Definition in_trampoline (a : Ap) : bool := match a with Entered | Stacked _ | Numbered _ _ => true | _ => false end.
Definition reported (a : Ap) : bool := match a with Marked _ _ | Counted _ _ => true | _ => false end.
Definition counted (a : Ap) : bool := match a with Counted _ _ => true | _ => false end.

(** ** When every wait ends with a report *)

Section Isolation.
Context (env : SmpEnv) (bsp_id : nat) (ids0 : list nat).
Abbreviation target := (target bsp_id).
Abbreviation stack_of := (stack_of env).

(** The first core's flag is set from the start, so it must not be one of
    the processors waited for. *)
Hypothesis zero_no_target : ¬ (0%nat ∈ ids0 ∧ target 0).

(** Processor [i] has loaded what was meant for it. *)
Definition owns (i : nat) (a : Ap) : Prop :=
  match a with
  | Idle | Entered => True
  | Stacked st => st = stack_of i
  | Lost _ _ _ => False
  | Numbered st c | Called st c | Marked st c | Counted st c => st = stack_of i ∧ c = i
  end.

(** The processors not started yet, the one being started, and both. *)
Definition pending (b : Bsp) : list nat :=
  match b with
  | Loop ids | Waiting _ ids => ids
  | Cleared id ids | WroteCore id ids | WroteStack id ids | WroteEntry id ids => id :: ids
  | Done _ => []
  end.
Definition starting (b : Bsp) : option nat :=
  match b with
  | Cleared id _ | WroteCore id _ | WroteStack id _ | WroteEntry id _ | Waiting id _ => Some id
  | _ => None
  end.
Definition waiting (b : Bsp) : list nat := match b with Waiting id _ => [id] | _ => [] end.

(** The block as far as it has been written for the current processor. *)
Definition block_ok (b : Bsp) (k : Block) : Prop :=
  match b with
  | WroteCore id _ => blk_core k = id
  | WroteStack id _ => blk_core k = id ∧ blk_stack k = stack_of id
  | WroteEntry id _ | Waiting id _ => k = mkBlock id (stack_of id) (ap_main_addr env)
  | _ => True
  end.

Definition has_reported (l : list Ap) (i : nat) : Prop := ∃ a, l !! i = Some a ∧ reported a = true.

Record isolated (s : System) : Prop := {
  is_length : length (aps s) = MAX_CORES ∧ length (flags s) = MAX_CORES;
  is_owner : ∀ i a, aps s !! i = Some a → owns i a;
  is_quiet : ∀ i a, aps s !! i = Some a → a = Idle ∨ reported a = true ∨ i ∈ waiting (bsp s);
  is_nodup : NoDup (waiting (bsp s) ++ pending (bsp s));
  is_sub : waiting (bsp s) ++ pending (bsp s) ⊆ ids0;
  is_idle : ∀ i, i ∈ pending (bsp s) → target i → aps s !! i = Some Idle;
  is_target : ∀ i, starting (bsp s) = Some i → target i;
  is_block : block_ok (bsp s) (blk s);
  is_flags : ∀ i, flags s !! i = Some true ↔ i = 0%nat ∨ has_reported (aps s) i;
  is_started : ∀ i, i ∈ ids0 → target i → i ∈ waiting (bsp s) ++ pending (bsp s) ∨ has_reported (aps s) i;
  is_only : ∀ i a, aps s !! i = Some a → a ≠ Idle → i ∈ ids0 ∧ target i;
}.

Lemma isolated_start : NoDup ids0 → isolated (sys_start ids0).
Proof.
  intros Hn. assert (∀ i a, replicate MAX_CORES Idle !! i = Some a → a = Idle) as Hidle
    by (by intros i a [-> _]%lookup_replicate).
  split; cbn [sys_start aps flags bsp blk pending waiting starting app] in *; try done.
  - intros i a ->%Hidle. done.
  - intros i a ->%Hidle. by left.
  - intros i _ [_ Hi]. by apply lookup_replicate_2.
  - intros [|i]; split; [by left|done| |].
    + intros Hi. change (replicate 7 false !! i = Some true) in Hi. apply lookup_replicate in Hi as [Hi _]. done.
    + intros [?|(a & ->%Hidle & Ha)]; done.
  - intros i Hi _. by left.
  - intros i a ->%Hidle. done.
Qed.

(** A step of the boot processor that touches only its own state and the
    block, and keeps what is to be started. *)
Lemma isolated_body s b k :
  isolated s → pending b = pending (bsp s) → waiting b = [] → waiting (bsp s) = [] →
  (∀ i, starting b = Some i → target i) → block_ok b k →
  isolated (set_bsp b (set_blk k s)).
Proof.
  intros [] Hp Hw Hw0 Ht Hb. split; cbn [set_bsp set_blk aps flags bsp blk]; rewrite ?Hp, ?Hw, ?Hw0 in *; done.
Qed.

Lemma NoDup_tail {A} (x : A) l : NoDup (x :: l) → NoDup l.
Proof. by intros [_ ?]%NoDup_cons. Qed.

Lemma bsp_isolated s s' : isolated s → bsp_step env bsp_id false s s' → isolated s'.
Proof.
  intros Hs Hst. pose proof Hs as [Hl Ho Hq Hn Hsub Hi Ht Hb Hf Hd Hu].
  destruct Hst as [s id ids E Hnt|s id ids E Hid|s id ids E|s id ids E|s id ids E|s id ids E|s id ids E Hon|s id ids E|s E];
    rewrite E in *; cbn [pending waiting starting block_ok app] in *; try done.
  - split; cbn [set_bsp aps flags bsp blk pending waiting starting block_ok app]; try done.
    + by eapply NoDup_tail.
    + set_solver.
    + set_solver.
    + intros i H1 H2. destruct (Hd i H1 H2) as [[->|?]%elem_of_cons|?]; [done|by left|by right].
  - apply isolated_body; rewrite ?E; [done..| |done]. by intros i [= <-].
  - apply isolated_body; rewrite ?E; try done. destruct Hb as [-> ->]. by cbn.
  - assert (aps s !! id = Some Idle) as Hidle by (apply Hi; [set_solver|by apply Ht]).
    assert (id < length (aps s))%nat as Hlt by (by eapply lookup_lt_Some).
    apply NoDup_cons in Hn as Hn'.
    assert (∀ i, has_reported (<[id := Entered]> (aps s)) i ↔ has_reported (aps s) i) as Hrep.
    { intros i. unfold has_reported. destruct (decide (i = id)) as [->|Hne].
      - rewrite list_lookup_insert_eq, Hidle by done. naive_solver.
      - by rewrite list_lookup_insert_ne by done. }
    split; cbn [set_bsp set_ap aps flags bsp blk pending waiting starting block_ok app]; try done.
    + by rewrite length_insert.
    + intros i a [(-> & <- & _)|[_ Ha]]%list_lookup_insert_Some; [done|by apply Ho].
    + intros i a [(-> & <- & _)|[_ Ha]]%list_lookup_insert_Some; [set_solver|].
      destruct (Hq i a Ha) as [?|[?|[]%elem_of_nil]]; auto.
    + intros i H1 H2. rewrite list_lookup_insert_ne by set_solver. apply Hi; [set_solver|done].
    + intros i. by rewrite Hrep.
    + intros i H1 H2. rewrite Hrep. by apply Hd.
    + intros i a [(<- & <- & _)|[_ Ha]]%list_lookup_insert_Some Hne; [|by eapply Hu]. split; [set_solver|by apply Ht].
  - assert (has_reported (aps s) id) as Hr.
    { apply Hf in Hon as [->|?]; [|done]. destruct zero_no_target. split; [set_solver|by apply Ht]. }
    split; cbn [set_bsp aps flags bsp blk pending waiting starting block_ok app]; try done.
    + intros i a Ha. destruct (Hq i a Ha) as [?|[?| ->%list_elem_of_singleton]]; [by left|by right; left|].
      destruct Hr as (a' & Ha' & Hr). right. left. congruence.
    + by eapply NoDup_tail.
    + set_solver.
    + intros i H1 H2. destruct (Hd i H1 H2) as [[->|?]%elem_of_cons|?]; [by right|by left|by right].
Qed.

(** A processor that was started moves on. *)
Lemma isolated_moves s i a a' :
  isolated s → aps s !! i = Some a → a ≠ Idle → a' ≠ Idle → owns i a' →
  (reported a' = true ∨ i ∈ waiting (bsp s)) → reported a' = reported a →
  isolated (set_ap i a' s).
Proof.
  intros [Hl Ho Hq Hn Hsub Hi Ht Hb Hf Hd Hu] Ha Hna Hna' Hown Hw Hrep.
  assert (∀ j, has_reported (<[i := a']> (aps s)) j ↔ has_reported (aps s) j) as Hr.
  { intros j. unfold has_reported. destruct (decide (j = i)) as [->|Hne].
    - rewrite list_lookup_insert_eq, Ha by (by eapply lookup_lt_Some). split; intros (x & [= <-] & Hx); (eexists; split; [reflexivity|congruence]).
    - by rewrite list_lookup_insert_ne by done. }
  split; cbn [set_ap aps flags bsp blk]; try done.
  - by rewrite length_insert.
  - intros j b [(<- & <- & _)|[_ Hj]]%list_lookup_insert_Some; [done|by apply Ho].
  - intros j b [(<- & <- & _)|[_ Hj]]%list_lookup_insert_Some; [by right|by apply Hq].
  - intros j H1 H2. rewrite list_lookup_insert_ne; [by apply Hi|]. intros <-. specialize (Hi i H1 H2). congruence.
  - intros j. by rewrite Hr.
  - intros j H1 H2. rewrite Hr. by apply Hd.
  - intros j b [(<- & <- & _)|[_ Hj]]%list_lookup_insert_Some Hb'; by eapply Hu.
Qed.

Lemma ap_isolated i s s' : isolated s → ap_step env i s s' → isolated s'.
Proof.
  intros Hs Hst. destruct Hst as [s a a' Ha Hload|s st c Ha Hc|s st c Ha]; pose proof (is_owner s Hs i _ Ha) as Hown.
  - assert (a ≠ Idle ∧ reported a = false) as [Hna Hnr] by (by destruct Hload).
    assert (i ∈ waiting (bsp s)) as Hw by (destruct (is_quiet s Hs i a Ha) as [?|[?|?]]; congruence || done).
    pose proof (is_block s Hs) as Hb. pose proof Hw as Hw'.
    destruct (bsp s) as [| | | | |id ids|] eqn:Eb; try (by apply elem_of_nil in Hw).
    apply list_elem_of_singleton in Hw as ->. cbn in Hb. rewrite <-Eb in Hw'.
    assert (owns id a') as Hown'.
    { destruct Hload as [|st|st c Hm|st c Hm]; cbn in *; rewrite Hb in *; cbn in *; [done|done|done|done]. }
    eapply isolated_moves; [done|done|done|by destruct Hload|done|by right|by destruct Hload].
  - cbn in Hown. destruct Hown as [-> ->].
    pose proof Hs as [[Hl Hl'] Ho Hq Hn Hsub Hi Ht Hb Hf Hd Hu].
    assert (∀ j, has_reported (<[i := Marked (stack_of i) i]> (aps s)) j ↔ has_reported (aps s) j ∨ j = i) as Hr.
    { intros j. unfold has_reported. destruct (decide (j = i)) as [->|Hne].
      - rewrite list_lookup_insert_eq by (by eapply lookup_lt_Some). split; [by right|]. intros _. by eexists.
      - rewrite list_lookup_insert_ne by done. tauto. }
    split; cbn [set_flag set_ap aps flags bsp blk]; try done.
    + by rewrite !length_insert.
    + intros j b [(<- & <- & _)|[_ Hj]]%list_lookup_insert_Some; [done|by apply Ho].
    + intros j b [(<- & <- & _)|[_ Hj]]%list_lookup_insert_Some; [by right; left|by apply Hq].
    + intros j H1 H2. rewrite list_lookup_insert_ne; [by apply Hi|]. intros <-. specialize (Hi i H1 H2). congruence.
    + intros j. rewrite list_lookup_insert_Some, Hf, Hr, Hl'.
      destruct (decide (i = j)) as [<-|Hne]; split; intros Hj.
      * right. by right.
      * by left.
      * destruct Hj as [[? _]|[_ [?|?]]]; [done|by left|right; by left].
      * right. split; [done|]. destruct Hj as [?|[?|?]]; [by left|by right|congruence].
    + intros j H1 H2. rewrite Hr. destruct (Hd j H1 H2); auto.
    + intros j b [(<- & <- & _)|[_ Hj]]%list_lookup_insert_Some Hb'; by eapply Hu.
  - assert (isolated (set_ap i (Counted st c) s)) as [] by (eapply isolated_moves; try done; by left).
    by split.
Qed.

Lemma isolated_reachable s : NoDup ids0 → sys_reachable env bsp_id false ids0 s → isolated s.
Proof.
  intros Hn Hr. refine (rtc_ind_r isolated _ _ _ s Hr); [by apply isolated_start|].
  intros s1 s2 _ [Hst|[i Hst]] Hi; [by eapply bsp_isolated|by eapply ap_isolated].
Qed.
End Isolation.

(** ** In every interleaving *)

Definition count_aps (P : Ap → bool) (l : list Ap) : nat := length (filter (λ a, P a = true) l).

Lemma count_aps_cons P a l : count_aps P (a :: l) = ((if P a then 1 else 0) + count_aps P l)%nat.
Proof. unfold count_aps. rewrite filter_cons. by destruct (P a). Qed.

Lemma count_aps_insert P l i a a' :
  l !! i = Some a →
  (count_aps P (<[i := a']> l) + (if P a then 1 else 0) = count_aps P l + (if P a' then 1 else 0))%nat.
Proof.
  revert i. induction l as [|b l IH]; intros [|i] Hi; [done|done|..].
  - injection Hi as ->. change (<[0%nat := a']> (a :: l)) with (a' :: l). rewrite !count_aps_cons. lia.
  - change (<[S i := a']> (b :: l)) with (b :: <[i := a']> l). rewrite !count_aps_cons. specialize (IH i Hi). lia.
Qed.

(** Counting processors is counting their numbers. *)
Lemma count_aps_indices P l :
  count_aps P l = length (filter (λ i, from_option P false (l !! i) = true) (seq 0 (length l))).
Proof.
  induction l as [|a l IH]; [done|]. rewrite count_aps_cons, IH. cbn [length seq]. rewrite filter_cons.
  change (from_option P false ((a :: l) !! 0%nat)) with (P a).
  assert (∀ n, length (filter (λ i, from_option P false ((a :: l) !! i) = true) (seq 1 n))
    = length (filter (λ i, from_option P false (l !! i) = true) (seq 0 n))) as Hs.
  { intros n. rewrite <-fmap_S_seq. induction (seq 0 n) as [|k ks IHk]; [done|]. rewrite fmap_cons, !filter_cons.
    change ((a :: l) !! S k) with (l !! k). case_decide; cbn [length]; by rewrite IHk. }
  rewrite <-(Hs (length l)). by destruct (P a).
Qed.

Section Always.
Context (env : SmpEnv) (bsp_id : nat) (timeouts : bool) (ids0 : list nat).
Abbreviation target := (target bsp_id).

(** The processors the loop starts. *)
Definition started : list nat := filter target ids0.

Lemma elem_of_started i : i ∈ started ↔ target i ∧ i ∈ ids0.
Proof. apply list_elem_of_filter. Qed.

(** A stack and a number meant for some started processor. *)
Definition given (st : Z) : Prop := ∃ id, id ∈ started ∧ st = stack_of env id.
Definition has_given (a : Ap) : Prop :=
  match a with
  | Idle | Entered => True
  | Stacked st => given st
  | Numbered st c | Called st c | Lost st c _ | Marked st c | Counted st c => given st ∧ c ∈ started
  end.

Record tallied (s : System) : Prop := {
  ta_length : length (aps s) = MAX_CORES;
  ta_nodup : NoDup (pending (bsp s));
  ta_sub : pending (bsp s) ⊆ ids0;
  ta_idle : ∀ i, i ∈ pending (bsp s) → target i → aps s !! i = Some Idle;
  ta_starting : ∀ i, starting (bsp s) = Some i → i ∈ started;
  ta_only : ∀ i a, aps s !! i = Some a → a ≠ Idle → i ∈ started;
  ta_block : block_ok env (bsp s) (blk s);
  ta_given : Forall (λ a, a = Idle) (aps s) ∨ (given (blk_stack (blk s)) ∧ blk_core (blk s) ∈ started);
  ta_has : ∀ i a, aps s !! i = Some a → has_given a;
  ta_count : count s = Z.of_nat (count_aps counted (aps s));
  ta_done : ∀ total, bsp s = Done total → 1 <= total <= 1 + count s;
}.

Lemma tallied_start : NoDup ids0 → tallied (sys_start ids0).
Proof.
  intros Hn. assert (∀ i a, replicate MAX_CORES Idle !! i = Some a → a = Idle) as Hidle
    by (by intros i a [-> _]%lookup_replicate).
  split; cbn [sys_start aps flags bsp blk pending starting count] in *; try done.
  - intros i _ [_ Hi]. by apply lookup_replicate_2.
  - intros i a ->%Hidle. done.
  - left. by apply Forall_replicate.
  - intros i a ->%Hidle. done.
Qed.

Lemma bsp_tallied s s' : tallied s → bsp_step env bsp_id timeouts s s' → tallied s'.
Proof.
  intros Hs Hst. pose proof Hs as [Hl Hn Hsub Hi Ht Hu Hb Hg Hh Hc Hd].
  assert (∀ i ids, i :: ids ⊆ ids0 → target i → i ∈ started) as Hst0.
  { intros i ids Hin Hti. apply elem_of_started. split; [done|]. apply Hin, list_elem_of_here. }
  assert (∀ (i : nat) ids, ids ⊆ i :: ids) as Hcons by (intros i ids x; apply list_elem_of_further).
  destruct Hst as [s id ids E Hnt|s id ids E Hid|s id ids E|s id ids E|s id ids E|s id ids E|s id ids E Hon|s id ids E|s E];
    rewrite E in *; cbn [pending starting block_ok] in *;
    try assert (id ∈ started) as Hids by first [by apply Ht|by eapply Hst0];
    split; cbn [set_bsp set_blk set_ap aps flags bsp blk count pending starting block_ok blk_core blk_stack blk_entry];
    try done; try (by eapply NoDup_tail); try (by etrans; [apply Hcons|]);
    try (by intros i [= <-]); try (intros i Hin; by apply Hi, Hcons).
  - destruct Hg as [?|[? _]]; [by left|right]. by split.
  - destruct Hg as [?|[_ Hgc]]; [by left|right]. split; [by exists id|by rewrite Hb].
  - destruct Hb as [-> ->]. done.
  - by rewrite length_insert.
  - intros i Hin Hti. apply NoDup_cons in Hn as [Hn _].
    rewrite list_lookup_insert_ne by (by intros ->). by apply Hi; [apply Hcons|].
  - intros i a [(<- & <- & _)|[_ Ha]]%list_lookup_insert_Some Hne; [done|by eapply Hu].
  - right. rewrite Hb. cbn [blk_stack blk_core]. split; [by exists id|done].
  - intros i a [(_ & <- & _)|[_ Ha]]%list_lookup_insert_Some; [done|by eapply Hh].
  - pose proof (proj1 (elem_of_started id) Hids) as [Hti _].
    pose proof (count_aps_insert counted (aps s) id Idle Entered (Hi id (list_elem_of_here _ _) Hti)) as Hci.
    cbn in Hci. rewrite Hc. lia.
  - intros total [= <-]. lia.
Qed.

(** A processor moves on: what is counted grows by it at most. *)
Lemma tallied_moves s i a a' :
  tallied s → aps s !! i = Some a → a ≠ Idle → has_given a' → counted a = false → counted a' = false →
  tallied (set_ap i a' s).
Proof.
  intros [Hl Hn Hsub Hi Ht Hu Hb Hg Hh Hc Hd] Ha Hna Hga Hca Hca'.
  pose proof (count_aps_insert counted (aps s) i a a' Ha) as Hcount. rewrite Hca, Hca' in Hcount.
  split; cbn [set_ap aps flags bsp blk count]; try done.
  - by rewrite length_insert.
  - intros j Hj Htj. rewrite list_lookup_insert_ne; [by apply Hi|]. intros <-. specialize (Hi i Hj Htj). congruence.
  - intros j b [(<- & <- & _)|[_ Hj]]%list_lookup_insert_Some Hb'; by eapply Hu.
  - destruct Hg as [Hg|Hg]; [|by right]. rewrite Forall_lookup in Hg. by specialize (Hg i a Ha).
  - intros j b [(_ & <- & _)|[_ Hj]]%list_lookup_insert_Some; [done|by eapply Hh].
  - rewrite Hc. lia.
Qed.
Lemma ap_tallied i s s' : tallied s → ap_step env i s s' → tallied s'.
Proof.
  intros Hs Hst. destruct Hst as [s a a' Ha Hload|s st c Ha Hc|s st c Ha]; pose proof (ta_has s Hs i _ Ha) as Hhas.
  - assert (a ≠ Idle) as Hna by (by destruct Hload).
    destruct (ta_given s Hs) as [Hg|[Hst Hcore]]; [rewrite Forall_lookup in Hg; by specialize (Hg i a Ha)|].
    eapply tallied_moves; [done|done|done| |by destruct Hload..]. by destruct Hload.
  - assert (tallied (set_ap i (Marked st c) s)) as [] by (by eapply tallied_moves). by split.
  - destruct Hs as [Hl Hn Hsub Hi Ht Hu Hb Hg Hh Hc Hd].
    pose proof (count_aps_insert counted (aps s) i _ (Counted st c) Ha) as Hcount. cbn [counted] in Hcount.
    assert (count_aps counted (aps s) <= MAX_CORES)%nat as Hmax by (rewrite <-Hl; apply length_filter).
    assert (wadd 32 (count s) 1 = count s + 1) as Hadd.
    { unfold wadd, wrap. apply Z.mod_small. rewrite Hc. unfold MAX_CORES in Hmax. lia. }
    split; cbn [set_ap add_count aps flags bsp blk count]; try done.
    + by rewrite length_insert.
    + intros j Hj Htj. rewrite list_lookup_insert_ne; [by apply Hi|]. intros <-. specialize (Hi i Hj Htj). congruence.
    + intros j b [(<- & <- & _)|[_ Hj]]%list_lookup_insert_Some Hb'; by eapply Hu.
    + destruct Hg as [Hg|Hg]; [|by right]. rewrite Forall_lookup in Hg. by specialize (Hg i _ Ha).
    + intros j b [(_ & <- & _)|[_ Hj]]%list_lookup_insert_Some; [done|by eapply Hh].
    + rewrite Hadd, Hc. lia.
    + intros total E. specialize (Hd total E). lia.
Qed.

Lemma tallied_reachable s : NoDup ids0 → sys_reachable env bsp_id timeouts ids0 s → tallied s.
Proof.
  intros Hn Hr. refine (rtc_ind_r tallied _ _ _ s Hr); [by apply tallied_start|].
  intros s1 s2 _ [Hst|[i Hst]] Hi; [by eapply bsp_tallied|by eapply ap_tallied].
Qed.

(** No more processors are counted than started. *)
Lemma count_bounded s : tallied s → 0 <= count s <= Z.of_nat (length started).
Proof.
  intros Hs. rewrite (ta_count s Hs). split; [lia|]. apply inj_le. rewrite count_aps_indices.
  apply submseteq_length, NoDup_submseteq; [apply NoDup_filter, NoDup_seq|].
  intros i [Hi _]%list_elem_of_filter. destruct (aps s !! i) as [a|] eqn:Ea; [|done].
  apply (ta_only s Hs i a Ea). by intros ->.
Qed.
End Always.

(** ** Properties *)

(** C14: starting the processors, in every interleaving in which each wait ends
    with a report, for distinct processors, core 0 not being one of those
    started: a processor that has loaded its stack and number has its own
    number and as its stack its own 16 KiB of [AP_STACKS], so the stacks of
    two processors never overlap; none calls anything but [ap_main]; at most
    one is in the trampoline at a time; when the loop has ended, exactly
    core 0 and the started processors are online, and the printed total is at
    most their number. *)
Theorem waiting_isolates env bsp_id ids s :
  NoDup ids → 0%nat ∉ started bsp_id ids → sys_reachable env bsp_id false ids s →
  (∀ i a st c, aps s !! i = Some a → uses a = Some (st, c) →
     c = i ∧ ap_stacks env <= st - 16384 ∧ st <= ap_stacks env + 8 * 16384) ∧
  (∀ i j a b st st' c c', aps s !! i = Some a → aps s !! j = Some b → i ≠ j →
     uses a = Some (st, c) → uses b = Some (st', c') → st <= st' - 16384 ∨ st' <= st - 16384) ∧
  (∀ i st c e, aps s !! i ≠ Some (Lost st c e)) ∧
  (∀ i j a b, aps s !! i = Some a → aps s !! j = Some b →
     in_trampoline a = true → in_trampoline b = true → i = j) ∧
  ∀ total, bsp s = Done total →
    (∀ i, flags s !! i = Some true ↔ i = 0%nat ∨ i ∈ started bsp_id ids) ∧
    1 <= total <= 1 + Z.of_nat (length (started bsp_id ids)).
Proof.
  intros Hn H0 Hr. rewrite elem_of_started in H0.
  pose proof (isolated_reachable env bsp_id ids ltac:(tauto) s Hn Hr) as Hs.
  pose proof (tallied_reachable env bsp_id false ids s Hn Hr) as Ht.
  assert (∀ i a st c, aps s !! i = Some a → uses a = Some (st, c) → (i < 8)%nat ∧ st = stack_of env i ∧ c = i) as Huse.
  { intros i a st c Ha Hu. pose proof (is_owner _ _ _ s Hs i a Ha) as Ho. apply lookup_lt_Some in Ha.
    rewrite (ta_length _ _ _ s Ht) in Ha. split; [done|].
    destruct a; cbn in *; try done; injection Hu as <- <-; done. }
  unfold stack_of in Huse. split; [|split; [|split; [|split]]].
  - intros i a st c Ha Hu. destruct (Huse i a st c Ha Hu) as (? & -> & ->). lia.
  - intros i j a b st st' c c' Ha Hb Hij Hu Hu'. destruct (Huse i a st c Ha Hu) as (_ & -> & _).
    destruct (Huse j b st' c' Hb Hu') as (_ & -> & _). lia.
  - intros i st c e Ha. exact (is_owner _ _ _ s Hs i _ Ha).
  - intros i j a b Ha Hb Ta Tb. pose proof (is_quiet _ _ _ s Hs i a Ha) as Qa.
    pose proof (is_quiet _ _ _ s Hs j b Hb) as Qb.
    assert (i ∈ waiting (bsp s)) as Wi by (destruct Qa as [->|[?|?]]; [done|by destruct a|done]).
    assert (j ∈ waiting (bsp s)) as Wj by (destruct Qb as [->|[?|?]]; [done|by destruct b|done]).
    destruct (bsp s); try (by apply elem_of_nil in Wi). apply list_elem_of_singleton in Wi as ->.
    by apply list_elem_of_singleton in Wj as ->.
  - intros total E. split.
    + intros i. rewrite (is_flags _ _ _ s Hs), elem_of_started.
      assert (has_reported (aps s) i ↔ target bsp_id i ∧ i ∈ ids) as ->; [|done]. split.
      * intros (a & Ha & Hrep). destruct (is_only _ _ _ s Hs i a Ha); [by intros ->|done].
      * intros [Hti Hi]. destruct (is_started _ _ _ s Hs i Hi Hti) as [Hw|?]; [|done].
        rewrite E in Hw. by apply elem_of_nil in Hw.
    + pose proof (count_bounded _ _ _ s Ht). pose proof (ta_done _ _ _ s Ht total E). lia.
Qed.

(** in every interleaving, waits that time out included, for distinct
    processors: what a processor uses was meant for some started processor,
    [APS_ONLINE] is the number of processors that have counted themselves,
    and the printed total lies between one and one more than the number
    started. *)
Theorem starting_bounds env bsp_id timeouts ids s :
  NoDup ids → sys_reachable env bsp_id timeouts ids s →
  (∀ i a st c, aps s !! i = Some a → uses a = Some (st, c) →
     i ∈ started bsp_id ids ∧ c ∈ started bsp_id ids ∧ ∃ id, id ∈ started bsp_id ids ∧ st = stack_of env id) ∧
  count s = Z.of_nat (count_aps counted (aps s)) ∧
  ∀ total, bsp s = Done total → 1 <= total <= 1 + Z.of_nat (length (started bsp_id ids)).
Proof.
  intros Hn Hr. pose proof (tallied_reachable env bsp_id timeouts ids s Hn Hr) as Ht. split; [|split].
  - intros i a st c Ha Hu. split; [apply (ta_only _ _ _ s Ht i a Ha); by intros ->|].
    pose proof (ta_has _ _ _ s Ht i a Ha) as Hh. destruct a; cbn in *; try done; injection Hu as <- <-; by destruct Hh.
  - apply (ta_count _ _ _ s Ht).
  - intros total E. pose proof (count_bounded _ _ _ s Ht). pose proof (ta_done _ _ _ s Ht total E). lia.
Qed.

(** ** Outcomes of the sequential model *)

Section Sequential.
Context `{Profile} (env : SmpEnv) (bsp_id : Z) (phys cr3 : Z).
Hypothesis bsp_byte : 0 <= bsp_id.

Abbreviation steps := (rtc (sys_step env (Z.to_nat bsp_id) true)).

(** The boot processor at the head of its loop, as [Smp] sees it. *)
Record at_loop (ids : list nat) (c : Cores) (s : System) : Prop := {
  al_bsp : bsp s = Loop ids;
  al_aps : length (aps s) = MAX_CORES;
  al_flags : flags s = is_online c;
  al_length : length (flags s) = MAX_CORES;
  al_count : count s = APS_ONLINE c }.

(** The stores for one processor and the interrupts to it. *)
Lemma starts_one s id ids :
  bsp s = Loop (id :: ids) → target (Z.to_nat bsp_id) id →
  steps s (mkSystem (Waiting id ids) (mkBlock id (stack_of env id) (ap_main_addr env))
             (<[id := Entered]> (aps s)) (flags s) (count s)).
Proof.
  intros E Ht. eapply rtc_l; [left; by eapply bsp_clear|]. eapply rtc_l; [left; by eapply bsp_core|].
  eapply rtc_l; [left; by eapply bsp_stack|]. eapply rtc_l; [left; by eapply bsp_entry|].
  eapply rtc_l; [left; by eapply bsp_send|]. by apply rtc_refl.
Qed.

(** The started processor runs until it has set its flag, or to its end,
    before anything else happens. *)
Lemma runs_flagged s id ids :
  bsp s = Waiting id ids → blk s = mkBlock id (stack_of env id) (ap_main_addr env) →
  aps s !! id = Some Entered → (id < MAX_CORES)%nat →
  steps s (mkSystem (bsp s) (blk s) (<[id := Marked (stack_of env id) id]> (aps s))
             (<[id := true]> (flags s)) (count s)).
Proof.
  intros E Eb Ha Hid. pose proof (lookup_lt_Some _ _ _ Ha) as Hl.
  eapply rtc_l; [right; exists id; eapply ap_loads; [done|apply load_stack]|].
  eapply rtc_l; [right; exists id; eapply ap_loads; [by apply list_lookup_insert_eq|apply load_core]|].
  eapply rtc_l.
  { right. exists id. eapply ap_loads; [apply list_lookup_insert_eq; cbn; by rewrite length_insert|].
    apply load_entry. cbn. by rewrite Eb. }
  cbn [set_ap aps bsp blk flags count]. rewrite Eb. cbn [blk_stack blk_core].
  eapply rtc_l; [right; exists id; eapply ap_mark; [apply list_lookup_insert_eq; cbn; by rewrite !length_insert|done]|].
  unfold set_flag, set_ap. cbn [aps bsp blk flags count]. rewrite Eb, !list_insert_insert_eq. apply rtc_refl.
Qed.

Lemma runs_alone s id ids :
  bsp s = Waiting id ids → blk s = mkBlock id (stack_of env id) (ap_main_addr env) →
  aps s !! id = Some Entered → (id < MAX_CORES)%nat →
  steps s (mkSystem (bsp s) (blk s) (<[id := Counted (stack_of env id) id]> (aps s))
             (<[id := true]> (flags s)) (wadd 32 (count s) 1)).
Proof.
  intros E Eb Ha Hid. pose proof (lookup_lt_Some _ _ _ Ha) as Hl.
  eapply rtc_r; [by eapply runs_flagged|]. right. exists id.
  pose proof (ap_count env id (mkSystem (bsp s) (blk s) (<[id := Marked (stack_of env id) id]> (aps s))
    (<[id := true]> (flags s)) (count s)) (stack_of env id) id (list_lookup_insert_eq _ _ _ Hl)) as Hc.
  unfold add_count, set_ap in Hc. cbn [aps bsp blk flags count] in Hc. by rewrite list_insert_insert_eq in Hc.
Qed.

Lemma start_ap_simulated id ids c c' s :
  0 <= id → at_loop (Z.to_nat id :: ids) c s → start_ap env phys cr3 bsp_id id c = Ret c' →
  ∃ s', steps s s' ∧ at_loop ids c' s'.
Proof.
  intros Hid [Eb La Ef Lf Ec]. unfold start_ap.
  destruct (Z.eqb_spec id bsp_id) as [->|Hne].
  { intros [= <-]. eexists. split; [apply rtc_once; left; eapply bsp_skip; [done|by intros []]|]. by split. }
  destruct (Nat.leb_spec MAX_CORES (Z.to_nat id)) as [Hge|Hlt].
  { intros [= <-]. eexists. split; [apply rtc_once; left; eapply bsp_skip; [done|intros []; lia]|]. by split. }
  intros Hst.
  destruct (clear_magic_bytes _ _) as [m0| |]; [|done..]. rewrite bind_Ret in Hst.
  destruct (install_trampoline _ _ _ _ _ _) as [[m v]| |]; [|done..]. rewrite bind_Ret in Hst.
  destruct (send_sipi _ _ _) as [lops| |]; [|done..]. rewrite bind_Ret in Hst. injection Hst as <-.
  assert (target (Z.to_nat bsp_id) (Z.to_nat id)) as Ht by (split; lia).
  pose proof (starts_one s _ _ Eb Ht) as Hs1. unfold ap_main. rewrite (proj2 (Nat.ltb_lt _ _)) by done.
  assert (Z.to_nat id < length (aps s))%nat by (by rewrite La).
  destruct (progress env id); (eexists; split; [etrans; [exact Hs1|]|]).
  - apply rtc_once. left. by eapply bsp_timeout.
  - split; cbn; rewrite ?length_insert; congruence.
  - etrans; [eapply runs_flagged; [done|done|by apply list_lookup_insert_eq|done]|].
    apply rtc_once. left. eapply bsp_online; [done|]. apply list_lookup_insert_eq. cbn. by rewrite Lf.
  - split; cbn; rewrite ?length_insert; congruence.
  - etrans; [eapply runs_alone; [done|done|by apply list_lookup_insert_eq|done]|].
    apply rtc_once. left. eapply bsp_online; [done|]. apply list_lookup_insert_eq. cbn. by rewrite Lf.
  - split; cbn; rewrite ?length_insert; congruence.
Qed.

Lemma start_aps_simulated ids c c' s :
  Forall (λ id, 0 <= id) ids → at_loop (Z.to_nat <$> ids) c s → start_aps env phys cr3 bsp_id ids c = Ret c' →
  ∃ s', steps s s' ∧ at_loop [] c' s'.
Proof.
  intros Hids. revert c s. induction Hids as [|id ids Hid _ IH]; intros c s Hs; cbn [start_aps].
  - intros [= <-]. by exists s.
  - destruct (start_ap env phys cr3 bsp_id id c) as [c1| |] eqn:E1; [|done..]. rewrite bind_Ret. intros E2.
    destruct (start_ap_simulated id _ c c1 s Hid Hs E1) as (s1 & R1 & Hs1).
    destruct (IH c1 s1 Hs1 E2) as (s2 & R2 & Hs2). exists s2. split; [by etrans|done].
Qed.
End Sequential.

(** the sequential model is one of the interleavings: whatever processors
    come up, the flags and the total [smp::init] ends with in [Smp] are
    reached, a processor that does not come up in time being one whose wait
    times out. *)
Theorem sequential_reachable `{Profile} env phys cr3 bsp_id ids m ops c' :
  0 <= bsp_id → Forall (λ id, 0 <= id) ids →
  start_aps env phys cr3 bsp_id ids (mkCores (true :: replicate (MAX_CORES - 1) false) 0 m ops) = Ret c' →
  ∃ s, sys_reachable env (Z.to_nat bsp_id) true (Z.to_nat <$> ids) s ∧
    bsp s = Done (1 + APS_ONLINE c') ∧ flags s = is_online c' ∧ count s = APS_ONLINE c'.
Proof.
  intros Hb Hids. set (c := mkCores _ _ _ _). intros E.
  destruct (start_aps_simulated env bsp_id phys cr3 Hb ids c c' (sys_start (Z.to_nat <$> ids)) Hids) as (s & Hr & Hs);
    [by split|exact E|]. destruct Hs as [Eb _ Ef _ Ec].
  eexists. split; [eapply rtc_r; [exact Hr|left; by apply bsp_done]|]. cbn. by rewrite Ec.
Qed.

(** ** Interleavings that go wrong *)

(** One step of the boot processor, or of a processor, on a concrete state,
    which is kept in normal form. *)
Ltac state_norm :=
  cbv [sys_start set_bsp set_blk set_ap set_flag add_count bsp blk aps flags count blk_core blk_stack blk_entry
       insert list_insert replicate MAX_CORES Nat.sub].
Ltac bsp_does c :=
  eapply rtc_l; [left; eapply c; first [reflexivity|(by split; [lia|unfold MAX_CORES; lia])|by intros []]|]; state_norm.
Ltac ap_does i c := eapply rtc_l; [right; exists i; c|]; state_norm.
Ltac ap_loads_at i c := ap_does i ltac:(eapply ap_loads; [reflexivity|apply c; try reflexivity]).
Ltac bsp_fills := bsp_does bsp_clear; bsp_does bsp_core; bsp_does bsp_stack; bsp_does bsp_entry.

(** A wait that times out: the late processor finds the block of the next
    one, and both run [ap_main] on the same stack under the same number. *)
Theorem late_start_shares_stack env :
  ∃ s, sys_reachable env 0 true [0; 1; 2]%nat s ∧
    aps s !! 1%nat = Some (Called (stack_of env 2) 2) ∧ aps s !! 2%nat = Some (Called (stack_of env 2) 2).
Proof.
  eexists. split.
  - unfold sys_reachable. state_norm. bsp_does bsp_skip. bsp_fills. bsp_does bsp_send. bsp_does bsp_timeout. bsp_fills. bsp_does bsp_send.
    ap_loads_at 1%nat load_stack. ap_loads_at 1%nat load_core. ap_loads_at 1%nat load_entry.
    ap_loads_at 2%nat load_stack. ap_loads_at 2%nat load_core. ap_loads_at 2%nat load_entry. apply rtc_refl.
  - split; reflexivity.
Qed.

(** The flag of core 0 is set whatever the number of the boot processor: if
    core 0 is another one, the wait for it ends at once, and it may find the
    block of the next processor without any timeout. *)
Theorem nonzero_bsp_shares_stack env :
  ∃ s, sys_reachable env 1 false [0; 1; 2]%nat s ∧
    aps s !! 0%nat = Some (Called (stack_of env 2) 2) ∧ aps s !! 2%nat = Some (Called (stack_of env 2) 2).
Proof.
  eexists. split.
  - unfold sys_reachable. state_norm. bsp_fills. bsp_does bsp_send. bsp_does bsp_online. bsp_does bsp_skip.
    bsp_fills. bsp_does bsp_send.
    ap_loads_at 0%nat load_stack. ap_loads_at 0%nat load_core. ap_loads_at 0%nat load_entry.
    ap_loads_at 2%nat load_stack. ap_loads_at 2%nat load_core. ap_loads_at 2%nat load_entry. apply rtc_refl.
  - split; reflexivity.
Qed.

(** A timed-out wait again: the cleared byte is part of the entry point, so
    a late processor may call the kernel's entry with that byte missing. *)
Theorem late_start_loses_entry env :
  clear_magic (ap_main_addr env) ≠ ap_main_addr env →
  ∃ s, sys_reachable env 0 true [0; 1; 2]%nat s ∧
    aps s !! 1%nat = Some (Lost (stack_of env 1) 1 (clear_magic (ap_main_addr env))).
Proof.
  intros Hne. eexists. split.
  - unfold sys_reachable. state_norm. bsp_does bsp_skip. bsp_fills. bsp_does bsp_send. ap_loads_at 1%nat load_stack. ap_loads_at 1%nat load_core.
    bsp_does bsp_timeout. bsp_does bsp_clear. 
    ap_does 1%nat ltac:(eapply ap_loads; [reflexivity|apply load_other; exact Hne]). apply rtc_refl.
  - reflexivity.
Qed.

(** Without any timeout: [is_online] is set before [APS_ONLINE] is counted,
    and the loop waits for the former, so the summary can list two cores with
    a total of one. *)
Theorem total_lags_behind env :
  ∃ s, sys_reachable env 0 false [0; 1]%nat s ∧ bsp s = Done 1 ∧ take 2 (flags s) = [true; true].
Proof.
  eexists. split.
  - unfold sys_reachable. state_norm. bsp_does bsp_skip. bsp_fills. bsp_does bsp_send. ap_loads_at 1%nat load_stack. ap_loads_at 1%nat load_core.
    ap_loads_at 1%nat load_entry.
    ap_does 1%nat ltac:(eapply ap_mark; [reflexivity|unfold MAX_CORES; lia]).
    bsp_does bsp_online. bsp_does bsp_done. apply rtc_refl.
  - split; reflexivity.
Qed.

(** ** The block in memory, and the loads as instructions *)

(** Memory whose trampoline page holds the code and the block. *)
Definition holds_block (phys cr3 : Z) (b : Block) (m : Memory) : Prop :=
  trampoline_page (phys + TRAMPOLINE) (Z.of_nat (blk_core b)) cr3 (blk_stack b) (blk_entry b) m.

(** The processor in each state of the trampoline's 64-bit part, [di] and
    [sp] being what it found in registers not loaded yet. *)
Definition ap_cpu (env : SmpEnv) (cr3 di sp : Z) (a : Ap) : option Cpu :=
  let at_ off rax rdi rsp := Some (long_state (TRAMPOLINE + off) rax rdi rsp (root cr3)) in
  match a with
  | Entered => at_ 0xC0 0xE0000011 di sp
  | Stacked st => at_ 0xC8 0xE0000011 di st
  | Numbered st c => at_ 0xD0 0xE0000011 (Z.of_nat c) st
  | Called st c => at_ 0xD8 (ap_main_addr env) (Z.of_nat c) st
  | Lost st c e => at_ 0xD8 e (Z.of_nat c) st
  | _ => None
  end.

Lemma word_apart phys off v m a n :
  a + Z.of_nat n <= phys + TRAMPOLINE + off ∨ phys + TRAMPOLINE + off + 8 <= a →
  read_at (write_at (phys + TRAMPOLINE + off) (le_bytes 8 v) m) a n = read_at m a n.
Proof. intros Ha. apply read_at_write_apart. rewrite length_le_bytes. lia. Qed.

(** A field of the block that is written, the others that are not. *)
Ltac fields Hpage :=
  let Hlen := fresh in
  assert (length AP_TRAMPOLINE_BIN = 221%nat) as Hlen by (vm_compute; reflexivity);
  destruct Hpage as [Hcode Hcore Hcr3 Hstack Hentry];
  split; cbn [blk_core blk_stack blk_entry];
  first [apply read_word|rewrite word_apart by (rewrite ?Hlen; lia); assumption].

Lemma read_at_insert m p k n v :
  (k < n)%nat → read_at (<[p + Z.of_nat k := v]> m) p n = <[k := v]> (read_at m p n).
Proof.
  intros Hk. unfold read_at. apply list_eq. intros i. destruct (decide (i = k)) as [->|Hne].
  - rewrite list_lookup_insert_eq by (by rewrite length_fmap, length_seq).
    rewrite list_lookup_fmap, lookup_seq_lt by done. cbn. by rewrite load_insert_eq.
  - rewrite list_lookup_insert_ne, !list_lookup_fmap by done. destruct (decide (i < n)%nat) as [Hi|Hi].
    + rewrite lookup_seq_lt by done. cbn. rewrite load_insert_ne by lia. done.
    + by rewrite lookup_seq_ge by lia.
Qed.

Section Stores.
Context (phys cr3 : Z) (b : Block) (m : Memory).
Hypothesis Hpage : holds_block phys cr3 b m.

Lemma holds_core id :
  holds_block phys cr3 (mkBlock id (blk_stack b) (blk_entry b)) (write_at (phys + TRAMPOLINE + 0xFE0) (le_bytes 8 (Z.of_nat id)) m).
Proof. unfold holds_block in *. fields Hpage. Qed.

Lemma holds_cr3 : holds_block phys cr3 b (write_at (phys + TRAMPOLINE + 0xFE8) (le_bytes 8 cr3) m).
Proof. unfold holds_block in *. fields Hpage. Qed.

Lemma holds_stack st :
  holds_block phys cr3 (mkBlock (blk_core b) st (blk_entry b)) (write_at (phys + TRAMPOLINE + 0xFF0) (le_bytes 8 st) m).
Proof. unfold holds_block in *. fields Hpage. Qed.

Lemma holds_entry e :
  holds_block phys cr3 (mkBlock (blk_core b) (blk_stack b) e) (write_at (phys + TRAMPOLINE + 0xFF8) (le_bytes 8 e) m).
Proof. unfold holds_block in *. fields Hpage. Qed.

(** The code is copied over itself. *)
Lemma holds_code : holds_block phys cr3 b (write_at (phys + TRAMPOLINE) AP_TRAMPOLINE_BIN m).
Proof.
  destruct Hpage as [Hcode Hcore Hcr3 Hstack Hentry].
  assert (length AP_TRAMPOLINE_BIN = 221%nat) as Hlen by (vm_compute; reflexivity).
  split; [apply read_write_at|..]; rewrite read_at_write_apart by (rewrite Hlen; lia); done.
Qed.

Lemma holds_low : holds_block phys cr3 b (<[phys + 0xFFE := 0]> m).
Proof.
  destruct Hpage as [Hcode Hcore Hcr3 Hstack Hentry].
  assert (∀ a n, phys + TRAMPOLINE <= a → read_at (<[phys + 0xFFE := 0]> m) a n = read_at m a n) as Hap.
  { intros a n Ha. apply read_at_ext. intros x Hx. apply load_insert_ne. unfold TRAMPOLINE in Ha. lia. }
  split; rewrite Hap by lia; done.
Qed.

Lemma holds_magic :
  holds_block phys cr3 (mkBlock (blk_core b) (blk_stack b) (clear_magic (blk_entry b))) (<[phys + 0x50FFE := 0]> m).
Proof.
  destruct Hpage as [Hcode Hcore Hcr3 Hstack Hentry].
  assert (length AP_TRAMPOLINE_BIN = 221%nat) as Hlen by (vm_compute; reflexivity).
  assert (∀ a n, a + Z.of_nat n <= phys + 0x50FFE → read_at (<[phys + 0x50FFE := 0]> m) a n = read_at m a n) as Hap.
  { intros a n Ha. apply read_at_ext. intros x Hx. apply load_insert_ne. lia. }
  split; cbn [blk_core blk_stack blk_entry]; rewrite ?Hap by (unfold TRAMPOLINE; rewrite ?Hlen; lia); try done.
  change (phys + 0x50FFE) with (phys + (TRAMPOLINE + 0xFF8 + Z.of_nat 6)).
  rewrite !Z.add_assoc, read_at_insert by lia. unfold clear_magic. rewrite Hentry.
  assert (bytes (<[6%nat := 0]> (le_bytes 8 (blk_entry b)))) as Hbytes
    by (apply Forall_insert; [apply bytes_le_bytes|done]).
  symmetry. exact (le_bytes_of_le _ Hbytes).
Qed.
End Stores.

(** The memory after the first [k] words of the control block for processor
    [id] are stored, the code having been copied over [m]. *)
Definition stored_words `{Profile} (env : SmpEnv) (phys cr3 : Z) (id k : nat) (m : Memory) : outcome Memory :=
  store_words (phys + 0x50000)
    (take k (control_block (Z.of_nat id) cr3 (ap_stacks env + 16384 * Z.of_nat id + 16384) (ap_main_addr env)))
    (write_at (phys + 0x50000) AP_TRAMPOLINE_BIN m).

(** [install_trampoline] is the copy and those stores. *)
Lemma install_is_stores `{Profile} env phys cr3 id m :
  0 <= phys → phys + 0x51000 < 2 ^ 64 →
  install_trampoline (ap_main_addr env) phys cr3 (Z.of_nat id) (ap_stacks env + 16384 * Z.of_nat id + 16384) m
  = (m' ← stored_words env phys cr3 id 4 m; Ret (m', false)).
Proof.
  intros Hp Hh. unfold install_trampoline. rewrite (add_small 64 phys), bind_Ret by (split; lia).
  assert (length AP_TRAMPOLINE_BIN = 221%nat) as Hlen by (vm_compute; reflexivity).
  replace (Z.of_nat (length AP_TRAMPOLINE_BIN) <=? 0xFE0) with true by (rewrite Hlen; reflexivity).
  cbn [negb].
  assert (load (write_at (phys + 0x50000) AP_TRAMPOLINE_BIN m) (phys + 0x50000) = 0xEB) as Hb0.
  { rewrite load_write_at, Hlen, decide_True, Z.sub_diag by lia. reflexivity. }
  rewrite Hb0. cbn [Z.eqb Pos.eqb negb orb].
  assert (∀ k, 0 <= k < 4096 → add 64 (phys + 0x50000) k = Ret (phys + 0x50000 + k)) as Hadd
    by (intros k Hk; apply add_small; split; lia).
  by rewrite (Hadd 1), (Hadd 2), (Hadd 3), !bind_Ret by lia.
Qed.

(** The block after each store, from a page that holds [b]. *)
Lemma stored_blocks `{Profile} env phys cr3 id b m :
  0 <= phys → phys + 0x51000 < 2 ^ 64 → holds_block phys cr3 b m →
  let st := stack_of env id in
  Forall (λ p : nat * Block, ∃ mk, stored_words env phys cr3 id p.1 m = Ret mk ∧ holds_block phys cr3 p.2 mk)
    [(0%nat, b); (1%nat, mkBlock id (blk_stack b) (blk_entry b)); (2%nat, mkBlock id (blk_stack b) (blk_entry b));
     (3%nat, mkBlock id st (blk_entry b)); (4%nat, mkBlock id st (ap_main_addr env))].
Proof.
  intros Hp Hh Hb st. unfold stored_words, control_block.
  assert (∀ k, 0 <= k < 4096 → add 64 (phys + 0x50000) k = Ret (phys + 0x50000 + k)) as Hadd
    by (intros k Hk; apply add_small; split; lia).
  change 0x50000 with TRAMPOLINE in *.
  pose proof (holds_code _ _ _ _ Hb) as H0. pose proof (holds_core _ _ _ _ H0 id) as H1.
  pose proof (holds_cr3 _ _ _ _ H1) as H2. pose proof (holds_stack _ _ _ _ H2 st) as H3.
  pose proof (holds_entry _ _ _ _ H3 (ap_main_addr env)) as H4. cbn [blk_core blk_stack blk_entry] in *.
  repeat (first [apply Forall_nil_2|apply Forall_cons_2]); cbn [fst snd take store_words];
    rewrite ?Hadd, ?bind_Ret by lia; (eexists; split; [reflexivity|done]).
Qed.


(** ** Witnesses *)

Lemma waiting_isolates_witness :
  ∃ s, sys_reachable demo_env 0 false [0; 1]%nat s ∧ bsp s = Done 1 ∧
    (∀ i, flags s !! i = Some true ↔ i = 0%nat ∨ i ∈ started 0 [0; 1]%nat) ∧
    ∀ i a st c, aps s !! i = Some a → uses a = Some (st, c) →
      c = i ∧ ap_stacks demo_env <= st - 16384 ∧ st <= ap_stacks demo_env + 8 * 16384.
Proof.
  destruct (total_lags_behind demo_env) as (s & Hr & E & _). exists s.
  destruct (waiting_isolates demo_env 0 [0; 1]%nat s) as (Hu & _ & _ & _ & Hd);
    [apply (bool_decide_unpack _); vm_compute; exact I|apply (bool_decide_unpack _); vm_compute; exact I|exact Hr|].
  split; [exact Hr|]. split; [exact E|]. split; [apply (Hd 1 E)|exact Hu].
Defined.

Lemma starting_bounds_witness :
  ∃ s, sys_reachable demo_env 0 true [0; 1; 2]%nat s ∧ in_main <$> aps s !! 1%nat = Some true ∧
    count s = Z.of_nat (count_aps counted (aps s)).
Proof.
  destruct (late_start_shares_stack demo_env) as (s & Hr & E & _). exists s.
  split; [exact Hr|]. split; [rewrite E; reflexivity|].
  apply (starting_bounds demo_env 0 true [0; 1; 2]%nat s); [apply (bool_decide_unpack _); vm_compute; exact I|exact Hr].
Defined.

Lemma sequential_reachable_witness :
  ∃ s, sys_reachable demo_env 0 true [0; 1; 3]%nat s ∧ bsp s = Done 2 ∧ take 4 (flags s) = [true; true; false; false].
Proof.
  destruct (@start_aps_ok dev_profile demo_env demo_phys 0x1000 ltac:(split; [discriminate|reflexivity]) 0 [0; 1; 3]
    (mkCores (true :: replicate (MAX_CORES - 1) false) 0 demo_acpi [])) as (c & E & _ & Ho & Ha);
    [discriminate|reflexivity|].
  change (APS_ONLINE c = 1) in Ha. change (is_online c = [true; true; false; false; false; false; false; false]) in Ho.
  destruct (@sequential_reachable dev_profile demo_env demo_phys 0x1000 0 [0; 1; 3] demo_acpi [] c)
    as (s & Hr & Hd & Hf & _); [lia|repeat constructor; lia|exact E|].
  exists s. rewrite Hd, Hf, Ha, Ho. split; [exact Hr|]. split; reflexivity.
Defined.

