(* ===== verification/Boot.v ===== *)
(** * The boot sequence

    Model of [kernel_main] of [kernel/src/main.rs]: the components of the
    other files composed in the order of the source, with one audit log
    threaded through all of them.  What the machine and the bootloader
    decide (addresses of statics, the registers at the self-test, the other
    processors, the tick counter at each log entry) is the record [Env];
    serial output is represented by the values it prints.  The timer, once
    enabled, is transparent to this code ([Interrupts]) and cannot deadlock
    with it ([Locks]): no task is ever added to the scheduler.

    Shown here: when the heap, the processors and user space can be set up,
    [kernel_main] runs to its end without a panic, every demonstration
    reports success, the audit log holds exactly the nineteen events of the
    boot and verifies, and ring 3 is entered with the user selectors,
    interrupts on and the user stack; the program then makes its three calls
    and the log, twenty-four events long, still verifies. *)

From S2P Require Import Prelude Interfaces Crypto Capability CapDemo Eipc Lattice Machine Task Scheduler.
From S2P Require Import Vmz Frames Paging Elf User Gdt Syscall Ring3 Interrupts Framebuffer Smp Meal Ztdf Net.
From Stdlib Require Import ZArith Lia.
From stdpp Require Import base numbers list gmap strings.
#[local] Open Scope Z_scope.

(** ** What is given *)

(** The fields of the bootloader's record that are used; the memory map is
    in the state of [Paging]. *)
Record BootInfo := mkBootInfo {
  framebuffer : option (PixelFormat * nat * list Z);
  physical_memory_offset : option Z;
  rsdp_addr : option Z }.

Record Env := mkEnv {
  df_stack_addr : Z; priv_stack_addr : Z;
  core : Machine; handler_addr : Handler → Z; handler_code : Handler → Machine → Machine;
  cr3 : Z; smp_env : SmpEnv;
  heap : Memory; vmz_buffer : Z;
  entry_stub : Z; syscall_stack : Z; msrs : Z → Z;
  clock : nat → Z }.

(** What the boot leaves behind and prints. *)
Record Booted `{Paging} := mkBooted {
  b_screen : option (list Z);
  b_kernel : Interrupts.Kernel;
  b_smoke : list Z * Z * gmap string Z;
  b_cores : Cores; b_online : Z;
  b_reports : DemoReport * bool * bool * LatticeDemo * list DriverResult * NetDemo;
  b_verdict : nat * bool; b_lines : list LogLine;
  b_log : MealLog;
  b_msrs : Z → Z; b_kernel_rsp : Z;
  b_user : Pt * Memory; b_frame : IretFrame }.

Definition expect {A} (o : option A) : outcome A := match o with Some a => Ret a | None => Panic end.

Section Boot.
Context `{Profile} `{HashOps} `{GdtOps} `{I : IdtOps} {il : IdtLaws I} `{Paging}.

(** The heap smoke test: [v], [*b] and [m]. *)
Definition heap_smoke_test : outcome (list Z * Z * gmap string Z) :=
  v ← for_out 0 8 (λ i v, x ← mul 64 (Z.of_nat i) (Z.of_nat i); Ret (v ++ [x])) [];
  Ret (v, 0xABCD, <["scba"%string := 2]> (<["tcd"%string := 1]> ∅)).

(** [init_heap(..).expect(..)]. *)
Definition start_heap (pt : Pt) : outcome Pt :=
  '(pt, err) ← init_heap pt;
  match err with None => Ret pt | Some _ => Panic end.

(** The trampoline page, mapped or not, and the other processors. *)
Definition start_processors (env : Env) (phys : Z) (rsdp : option Z) (pt : Pt) (m : Memory)
    : outcome (Pt * Cores * Z) :=
  page ← page_containing 0x50000;
  let '(pt, _) := map_to pt page 0x50000 (mkPageFlags true true false false) in
  '(cores, online) ← Smp.init (smp_env env) phys (cr3 env) rsdp (mkCores (replicate 8 false) 0 m []);
  Ret (pt, cores, online).

(** The self-test: a breakpoint the handler returns from. *)
Definition breakpoint_test (env : Env) (segs : SegRegs) (t : TaskStateSegment) (idt : Idt)
    : outcome (Machine * Interrupts.Kernel) :=
  r ← interrupt t (r_cs segs) (handler_addr env) (handler_code env) (gate idt) BREAKPOINT None (core env)
        (mkKernel 0 false Scheduler.new);
  match r with Resumed s k => Ret (s, k) | _ => Panic end.

(** Sections 6 to "Shot 11": the demonstrations, each logging as it goes. *)
Definition run_demos (env : Env) (meal : MealLog)
    : outcome (MealLog * (DemoReport * bool * bool * LatticeDemo * list DriverResult)) :=
  '(tcd, a) ← CapDemo.run_demo;
  meal ← log_all (clock env) a meal;
  '(eipc, _, _, a) ← Eipc.run_demo Eipc.new;
  meal ← log_all (clock env) a meal;
  '(_, vmz, a) ← Vmz.run_demo (heap env) (vmz_buffer env);
  meal ← log_all (clock env) a meal;
  lat ← default_blp;
  '(_, dsl) ← Lattice.run_demo lat;
  meal ← log_all (clock env) (demo_audits dsl) meal;
  '(ztdf, a) ← Ztdf.run_demo;
  meal ← log_all (clock env) a meal;
  Ret (meal, (tcd, eipc, vmz, dsl, ztdf)).

(** "Shot 8 + 12": the two closing entries, the check and the listing. *)
Definition final_audit (env : Env) (k : Interrupts.Kernel) (meal : MealLog)
    : outcome (MealLog * (nat * bool) * list LogLine) :=
  let fences := if k_locked k then 0 else total_fences (stats (k_sched k)) in
  meal ← log_all (clock env) [mkAudit ScbaFenceFired 0 fences 0; mkAudit BootComplete 0 0 0] meal;
  verdict ← verify_chain meal;
  lines ← print_all meal;
  Ret (meal, verdict, lines).

Definition kernel_main (elf : list Z) (boot_info : BootInfo) (env : Env) (pt : Pt) (m : Memory)
    : outcome Booted :=
  screen ← match framebuffer boot_info with
           | Some (fmt, bpp, buffer) => out ← fill_screen fmt 26 22 71 bpp buffer; Ret (Some out)
           | None => Ret None
           end;
  phys_mem_offset ← expect (physical_memory_offset boot_info);
  segs ← Gdt.init (df_stack_addr env) (priv_stack_addr env);
  t ← TSS (df_stack_addr env) (priv_stack_addr env);
  '(_, k) ← breakpoint_test env segs t init_idt;
  pt ← start_heap pt;
  smoke ← heap_smoke_test;
  '(pt, cores, online) ← start_processors env phys_mem_offset (rsdp_addr boot_info) pt m;
  meal ← Meal.new K_AUDIT;
  meal ← log_all (clock env) [mkAudit LogInitialised 0 0 0] meal;
  '(meal, reports) ← run_demos env meal;
  '(msrs, kernel_rsp) ← Syscall.init (entry_stub env) (syscall_stack env) (msrs env);
  '(user, user_entry) ← setup elf phys_mem_offset (pt, c_mem cores);
  '(meal, verdict, lines) ← final_audit env k meal;
  net ← Net.run_demo;
  meal ← log_all (clock env) (net_audits net) meal;
  Ret (mkBooted _ screen k smoke cores online (reports, net) verdict lines meal msrs kernel_rsp user
         (enter (user_code_selector t) (user_data_selector t) user_entry)).

(** The steps of [kernel_main] that can fail for want of memory. *)
Definition platform (elf : list Z) (env : Env) (phys : Z) (rsdp : option Z) (pt : Pt) (m : Memory)
    : outcome (Pt * Cores * Z * (Pt * Memory) * Z) :=
  pt ← start_heap pt;
  '(pt, cores, online) ← start_processors env phys rsdp pt m;
  '(user, entry) ← setup elf phys (pt, c_mem cores);
  Ret (pt, cores, online, user, entry).
End Boot.

(** ** The trace *)

Definition demo_trace (buffer : Z) : list Audit :=
  [mkAudit CapabilityDerived 0 0xF11E 1000; mkAudit CapabilityDerived 0 0xF11E 800;
   mkAudit EipcSend 1 1 24; mkAudit EipcSend 1 2 25; mkAudit EipcSend 1 3 23;
   mkAudit EipcReceive 2 1 24; mkAudit EipcReceive 2 2 25; mkAudit EipcReceive 2 3 23;
   mkAudit MemoryZeroed 0 buffer 64;
   mkAudit LatticeReconfigured 0 5 0;
   mkAudit DriverLoaded 1 0 0; mkAudit DriverStopped 1 4 0;
   mkAudit DriverLoaded 2 0 0; mkAudit DriverFaultMmio 2 0xFEE00000 1;
   mkAudit DriverLoaded 3 0 0; mkAudit DriverFaultSyscall 3 8 1].

Definition boot_trace (buffer : Z) : list Audit :=
  mkAudit LogInitialised 0 0 0 :: demo_trace buffer
    ++ [mkAudit ScbaFenceFired 0 0 0; mkAudit BootComplete 0 0 0].

(** Every demonstration printed its success. *)
Definition all_passed (r : DemoReport * bool * bool * LatticeDemo * list DriverResult) : Prop :=
  let '(tcd, eipc, vmz, dsl, ztdf) := r in
  sha_hex tcd = bstr "e3b0c44298fc1c14" ∧ sha256_ok tcd = true ∧ hmac_ok tcd = true ∧ eipc = true ∧ vmz = true ∧
  (demo_valid dsl).1 = true ∧ (demo_reconfigured dsl).1 = true ∧ (demo_broken dsl).1 = false ∧
  ztdf = [Stopped; FaultMmio 0xFEE00000; FaultSyscall 8].

Section Steps.
Context `{P : Profile}.
Context `{G : GdtOps} {gl : GdtLaws G} `{I : IdtOps} {il : IdtLaws I}.

#[local] Existing Instance crypto_ops.
#[local] Existing Instance crypto_laws.

Abbreviation inv := (log_inv (laws := crypto_laws)).

Variable env : Env.
Hypothesis Hclock : ∀ n, u64 (clock env n).
Hypothesis Hbuffer : u64 (vmz_buffer env).

(** One batch of calls, in a log that stays far from its limit. *)
Lemma log_batch calls l hist trace :
  inv l hist → audit_of <$> hist = trace → Forall wf_audit calls →
  Z.of_nat (length trace + length calls) < 1000 →
  ∃ l' hist', log_all (clock env) calls l = Ret l' ∧ inv l' hist' ∧ audit_of <$> hist' = trace ++ calls.
Proof.
  intros Hl <- Hw Hn. rewrite length_fmap in Hn.
  destruct (log_all_ok (clock env) calls l hist Hclock Hw Hl) as (l' & es & E & Hi & He & _); [lia|].
  exists l', (hist ++ es). split; [done|]. split; [done|]. by rewrite fmap_app, He.
Qed.

(** A log that has not wrapped verifies, and prints every entry. *)
Lemma verify_history l hist :
  inv l hist → (length hist <= CAPACITY)%nat →
  verify_chain l = Ret (length hist, true) ∧ print_all l = Ret (line_of <$> hist).
Proof.
  intros Hl Hn. pose proof (log_inv_present l hist Hl) as Hp. pose proof (log_inv_wf l hist Hl) as Hw.
  unfold window in Hp. replace (length hist - CAPACITY)%nat with 0%nat in Hp by lia. rewrite drop_0 in Hp.
  rewrite print_all_ok, Hp by done. split; [|done].
  destruct (verify_chain_ok l Hw) as [[_ ->]|[Hbad _]]; [by rewrite Hp|].
  destruct Hbad. rewrite Hp. eapply chain_ok_None, Hl.
Qed.

(** [log_step l hist calls]: the next batch is logged; [l] and [hist] name
    the log and the history after it. *)
Ltac wf_calls :=
  repeat first [apply Forall_nil_2 | apply Forall_cons_2];
  (split; [|split]); cbn [au_actor au_a au_b]; first [assumption | split; lia].
Ltac log_step l hist :=
  match goal with
  | Hl : log_inv _ ?h, Ht : audit_of <$> ?h = _ |- context [log_all (clock env) ?calls ?m] =>
    let E := fresh "E" in let Hl' := fresh "Hl" in let Ht' := fresh "Ht" in
    destruct (log_batch calls m h _ Hl Ht) as (l & hist & E & Hl' & Ht'); [wf_calls|rewrite ?length_app; simpl; lia|];
    rewrite E, bind_Ret; clear E Hl Ht
  end.

Lemma run_demos_ok l hist trace :
  inv l hist → audit_of <$> hist = trace → Z.of_nat (length trace) < 100 →
  ∃ l' hist' r, run_demos env l = Ret (l', r) ∧ inv l' hist' ∧
    audit_of <$> hist' = trace ++ demo_trace (vmz_buffer env) ∧ all_passed r.
Proof.
  intros Hl Ht Hn. unfold run_demos, CapDemo.run_demo.
  destruct demonstrate_kernel as (tcd & -> & Hx & _ & Hs & Hh & _). rewrite bind_Ret.
  log_step l1 h1.
  destruct run_demo_passes as (ch & -> & _). rewrite bind_Ret.
  change (imap_from sent_audit 0 plaintexts ++ imap_from received_audit 0 plaintexts)
    with [mkAudit EipcSend 1 1 24; mkAudit EipcSend 1 2 25; mkAudit EipcSend 1 3 23;
          mkAudit EipcReceive 2 1 24; mkAudit EipcReceive 2 2 25; mkAudit EipcReceive 2 3 23].
  log_step l2 h2. rewrite vmz_demo, bind_Ret. log_step l3 h3.
  destruct lattice_demo as (lat & El). apply bind_Ret_inv in El as (lat0 & -> & El).
  rewrite bind_Ret, El, bind_Ret. cbn [demo_audits]. log_step l4 h4.
  rewrite ztdf_demo, bind_Ret. log_step l5 h5.
  eexists _, _, _. split; [done|]. split; [done|]. split; [|done].
  rewrite Ht0, <-!(assoc_L (++)). done.
Qed.

Lemma final_audit_ok k l hist trace :
  inv l hist → audit_of <$> hist = trace → Z.of_nat (length trace) < 60 → total_fences (stats (k_sched k)) = 0 →
  ∃ l' hist', final_audit env k l = Ret (l', (length hist', true), line_of <$> hist') ∧ inv l' hist' ∧
    audit_of <$> hist' = trace ++ [mkAudit ScbaFenceFired 0 0 0; mkAudit BootComplete 0 0 0].
Proof.
  intros Hl Ht Hn Hf. unfold final_audit. rewrite Hf. destruct (k_locked k).
  all: log_step l1 h1; assert (length h1 <= CAPACITY)%nat as Hc by
    (rewrite <-(length_fmap audit_of), Ht0, length_app; unfold CAPACITY; simpl; lia).
  all: destruct (verify_history l1 h1 Hl0 Hc) as [-> ->]; rewrite !bind_Ret; by exists l1, h1.
Qed.
End Steps.

(** ** The whole boot *)

(** What the bootloader and the linker must provide. *)
Record bootable (bi : BootInfo) (env : Env) (phys : Z) : Prop := {
  bt_screen : match framebuffer bi with Some (fmt, bpp, _) => colours fmt bpp | None => True end;
  bt_phys : physical_memory_offset bi = Some phys;
  bt_df : stack_at (df_stack_addr env) DF_STACK_SIZE;
  bt_priv : stack_at (priv_stack_addr env) PRIV_STACK_SIZE;
  bt_stub : u64 (entry_stub env);
  bt_efer : u64 (msrs env IA32_EFER);
  bt_stack : 0 <= syscall_stack env ∧ syscall_stack env + STACK_SIZE < 2 ^ 64;
  bt_clock n : u64 (clock env n);
  bt_buffer : u64 (vmz_buffer env);
}.

Section Whole.
Context `{P : Profile}.
Context `{G : GdtOps} {gl : GdtLaws G} `{I : IdtOps} {il : IdtLaws I} `{Pg : Paging}.

#[local] Existing Instance crypto_ops.
#[local] Existing Instance crypto_laws.

Abbreviation inv := (log_inv (laws := crypto_laws)).

Lemma screen_ok bi env phys :
  bootable bi env phys →
  ∃ s, match framebuffer bi with
       | Some (fmt, bpp, buffer) => out ← fill_screen fmt 26 22 71 bpp buffer; Ret (Some out)
       | None => Ret None
       end = Ret s.
Proof.
  intros [Hs _ _ _ _ _ _ _ _]. destruct (framebuffer bi) as [[[fmt bpp] buf]|]; [|by eexists].
  destruct (fill_screen_ok fmt 26 22 71 ltac:(split; lia) ltac:(split; lia) ltac:(split; lia) bpp buf Hs)
    as (out & -> & _). by eexists.
Qed.

Lemma breakpoint_test_ok env segs t :
  ∃ s, breakpoint_test env segs t init_idt = Ret (s, mkKernel 0 false Scheduler.new).
Proof.
  unfold breakpoint_test. rewrite interrupt_resumes; [|by left|right; simpl; lia]. by eexists.
Qed.

Lemma heap_smoke_ok : ∃ r, heap_smoke_test = Ret (r, 0xABCD, <["scba"%string := 2]> (<["tcd"%string := 1]> ∅)).
Proof. exists [0; 1; 4; 9; 16; 25; 36; 49]. destruct P as [[] []]; reflexivity. Qed.

(** What the boot is to reach. *)
Record boot_reached (env : Env) (cores : Cores) (online : Z) (user : Pt * Memory) (entry : Z)
    (b : Booted) (hist : list AuditEntry) : Prop := {
  br_passed : all_passed (b_reports b).1;
  br_net : nic_ok (b_reports b).2 = true ∧ parsed_as (b_reports b).2 = "UDP datagram"%string;
  br_verdict : b_verdict b = (19%nat, true);
  br_lines : b_lines b = line_of <$> take 19 hist;
  br_log : inv (b_log b) hist;
  br_trace : audit_of <$> hist = boot_trace (vmz_buffer env) ++ [mkAudit DriverLoaded 10 0 0];
  br_frame : b_frame b = mkIretFrame entry 0x33 0x202 USER_STACK_TOP 0x2B;
  br_user : b_user b = user;
  br_cores : b_cores b = cores ∧ b_online b = online;
  br_lstar : b_msrs b IA32_LSTAR = entry_stub env;
}.

Lemma boot_ok elf bi env phys pt m pt' cores online user entry :
  bootable bi env phys →
  platform elf env phys (rsdp_addr bi) pt m = Ret (pt', cores, online, user, entry) →
  ∃ b hist, kernel_main elf bi env pt m = Ret b ∧ boot_reached env cores online user entry b hist.
Proof.
  intros Hb Hp. pose proof Hb as [_ Hphys Hdf Hpriv Hstub Hefer [Hs0 Hs1] Hclk Hbuf].
  unfold platform in Hp. apply bind_Ret_inv in Hp as (pt1 & Hheap & Hp).
  apply bind_Ret_inv in Hp as ([[pt2 cores2] online2] & Hcpu & Hp).
  apply bind_Ret_inv in Hp as ([user2 entry2] & Hset & Hp). injection Hp as -> -> -> -> ->.
  unfold kernel_main. destruct (screen_ok bi env phys Hb) as [scr ->]. rewrite bind_Ret, Hphys. cbn [expect].
  rewrite bind_Ret. destruct (init_tables _ _ Hdf Hpriv) as (segs & t & -> & -> & Hts). rewrite !bind_Ret.
  destruct (breakpoint_test_ok env segs t) as [core ->]. rewrite bind_Ret, Hheap, bind_Ret.
  destruct heap_smoke_ok as [v ->]. rewrite bind_Ret, Hcpu, bind_Ret.
  destruct (new_inv (laws := crypto_laws) K_AUDIT eq_refl) as [-> Hnew]. rewrite bind_Ret.
  destruct (log_batch env Hclk [mkAudit LogInitialised 0 0 0] _ [] [] Hnew eq_refl) as (l1 & h1 & -> & Hl1 & Ht1);
    [by repeat constructor|simpl; lia|]. rewrite bind_Ret.
  destruct (run_demos_ok env Hclk Hbuf l1 h1 _ Hl1 Ht1) as (l2 & h2 & reps & -> & Hl2 & Ht2 & Hok);
    [simpl; lia|]. rewrite bind_Ret.
  destruct (init_ok (entry_stub env) (syscall_stack env) (msrs env) Hstub Hefer Hs0 Hs1)
    as (ms & -> & _ & Hlstar & _). rewrite bind_Ret, Hset, bind_Ret.
  destruct (final_audit_ok env Hclk (mkKernel 0 false Scheduler.new) l2 h2 _ Hl2 Ht2) as (l3 & h3 & -> & Hl3 & Ht3);
    [simpl; lia|done|]. rewrite bind_Ret.
  destruct net_demo as (net & -> & _ & Hparse & Hnic & _ & _ & Hna). rewrite bind_Ret, Hna.
  destruct (log_all_ok (clock env) [mkAudit DriverLoaded 10 0 0] l3 h3 Hclk) as (l5 & es & E5 & Hl5 & Hes & _);
    [by repeat constructor|done|rewrite <-(length_fmap audit_of), Ht3; simpl; lia|].
  rewrite E5, bind_Ret.
  assert (length h3 = 19%nat) as Hlen by (rewrite <-(length_fmap audit_of), Ht3; reflexivity).
  eexists _, (h3 ++ es). split; [done|].
  split; cbn [b_reports b_verdict b_lines b_log b_frame b_user b_cores b_online b_msrs fst snd]; try done.
  - by rewrite Hlen.
  - by rewrite take_app_length'.
  - rewrite fmap_app, Ht3, Hes. done.
  - pose proof (tl_values _ _ _ _ Hts) as Hv. injection Hv as _ _ _ Hud Huc. by rewrite Hud, Huc.
Qed.
End Whole.

(** The mapper's invariant up to the set-up of user space. *)
Lemma platform_setup `{Profile} `{P : Paging} {laws : PagingLaws P} elf env phys rsdp pt m pt' cores online user entry :
  pt_inv pt → platform elf env phys rsdp pt m = Ret (pt', cores, online, user, entry) →
  pt_inv pt' ∧ setup elf phys (pt', c_mem cores) = Ret (user, entry).
Proof.
  intros Hi Hp. unfold platform in Hp. apply bind_Ret_inv in Hp as (pt1 & Hheap & Hp).
  apply bind_Ret_inv in Hp as ([[pt2 c2] o2] & Hcpu & Hp).
  apply bind_Ret_inv in Hp as ([u2 e2] & Hset & Hp). injection Hp as -> -> -> -> ->. split; [|done].
  unfold start_heap in Hheap. apply bind_Ret_inv in Hheap as ([s err] & Hh & Hheap).
  destruct err; [done|]. injection Hheap as ->.
  assert (pt_inv pt1) as H1.
  { rewrite init_heap_eq in Hh.
    destruct (heap_loop_ok heap_pages pt Hi) as [(s' & E & Hs' & _)|(s' & e & E & _)]; rewrite E, bind_Ret in Hh;
      [by injection Hh as ->|done]. }
  unfold start_processors in Hcpu. apply bind_Ret_inv in Hcpu as (page & _ & Hcpu).
  destruct (map_to pt1 page 0x50000 _) as [pt3 ok] eqn:Em.
  apply bind_Ret_inv in Hcpu as ([c3 o3] & _ & Hcpu). injection Hcpu as -> _ _.
  destruct ok; [by eapply map_to_ok|by eapply map_to_fails].
Qed.

(** ** Properties *)

(** the boot: whenever the bootloader's data is usable and the heap, the
    processors and user space can be set up, [kernel_main] reaches user mode
    without a panic: every demonstration reports success, the audit log holds
    exactly the events of the boot in order, the check over nineteen entries
    passes and each is listed, and the frame given to [iretq] has the user
    selectors, interrupts on, the user stack and the program's entry. *)
Theorem boot_completes `{P : Profile} `{G : GdtOps} {gl : GdtLaws G} `{I : IdtOps} {il : IdtLaws I} `{Pg : Paging}
    elf bi env phys pt m pt' cores online user entry :
  bootable bi env phys →
  platform elf env phys (rsdp_addr bi) pt m = Ret (pt', cores, online, user, entry) →
  ∃ b hist, @kernel_main P crypto_ops G I il Pg elf bi env pt m = Ret b ∧
    boot_reached env cores online user entry b hist.
Proof. apply boot_ok. Qed.

(** C1: from power-on to the exit of the user program: after the boot, the
    program the frame enters makes its three system calls, exits and spins,
    whatever the scheduler and the scratch registers do; the audit log then
    holds the boot's events and the program's, all twenty-four of them, and
    the whole chain still verifies. *)
Theorem boot_to_exit `{P : Profile} `{G : GdtOps} {gl : GdtLaws G} `{I : IdtOps} {il : IdtLaws I}
    `{Pg : Paging} {laws : PagingLaws Pg} bi env phys pt m pt' cores online user entry w rax rdi n :
  overflow_checks = true → bootable bi env phys → pt_inv pt →
  platform hello_elf env phys (rsdp_addr bi) pt m = Ret (pt', cores, online, user, entry) →
  (7 <= n)%nat →
  ∃ b s l code, @kernel_main P crypto_ops G I il Pg hello_elf bi env pt m = Ret b ∧
    Ring3.run w (fetch phys (b_user b)) n (started rax rdi (i_rip (b_frame b))) = Some s ∧
    r3_rip s = USER_CODE_VIRT + 26 ∧ USER_EXITED (r3_kernel s) = true ∧
    @log_all P crypto_ops (clock env) (r3_trail s) (b_log b) = Ret l ∧
    @verify_chain crypto_ops l = Ret (24%nat, true) ∧
    ∃ hist, @log_inv crypto_ops crypto_laws l hist ∧
      audit_of <$> hist = boot_trace (vmz_buffer env) ++
        [mkAudit DriverLoaded 10 0 0; mkAudit SyscallDispatched 3 0 0; mkAudit SyscallDispatched 3 9 0;
         mkAudit SyscallDispatched 3 11 0; mkAudit ProcessExited 3 code 0].
Proof.
  intros Hc Hb Hi Hp Hn.
  destruct (boot_ok hello_elf bi env phys pt m pt' cores online user entry Hb Hp) as (b & hist & E & Hr).
  destruct (platform_setup _ _ _ _ _ _ _ _ _ _ _ Hi Hp) as [Hpt Hset].
  destruct (user_program_ok phys (pt', c_mem cores) user entry w rax rdi n Hc Hpt Hset Hn) as (code & Hrun & Hcode).
  destruct Hr as [_ _ _ _ Hl Ht Hf Hu _ _].
  assert (u64 code) as Hu64.
  { destruct Hcode as [-> | ->]; [apply uint_wrap; lia|split; lia]. }
  destruct (log_batch env (bt_clock _ _ _ Hb) (r3_trail (at_spin 0 (w_rdi w 6) code)) (b_log b) hist _ Hl Ht)
    as (l & h & El & Hl' & Ht'); [|simpl; lia|].
  { repeat first [apply Forall_nil_2 | apply Forall_cons_2]; (split; [|split]);
      cbn [au_actor au_a au_b]; first [assumption | split; lia]. }
  exists b, (at_spin 0 (w_rdi w 6) code), l, code. rewrite Hf, Hu. cbn [i_rip].
  do 5 (split; [done|]).
  assert (length h = 24%nat) as Hlen by (rewrite <-(length_fmap audit_of), Ht'; reflexivity).
  split; [rewrite <-Hlen; apply verify_history; [done|unfold CAPACITY; lia]|].
  exists h. split; [done|]. rewrite Ht', <-(assoc_L (++)). done.
Qed.

(** ** A machine to boot

    An allocator that hands out one frame after the other from 16 to 32 MiB. *)

Record BumpPt := mkBumpPt { bump_next : nat; bump_map : gmap Z (Z * PageFlags) }.

Definition bump_frame (i : nat) : Z := 0x1000000 + PAGE * Z.of_nat i.

#[local] Instance bump_paging : Paging := {|
  Pt := BumpPt;
  alloc s := if (bump_next s <? 4096)%nat
    then Ret (mkBumpPt (S (bump_next s)) (bump_map s), Some (bump_frame (bump_next s))) else Ret (s, None);
  map_to s page frame fl :=
    match bump_map s !! page with
    | Some _ => (s, false)
    | None => (mkBumpPt (bump_next s) (<[page := (frame, fl)]> (bump_map s)), true)
    end;
  page_containing a := if a <? 2 ^ 47 then Ret (a - a mod PAGE) else Panic;
  virt_offset := canonical_add;
|}.

Definition bump_issued (s : BumpPt) : gset Z := list_to_set (bump_frame <$> seq 0 (bump_next s)).

#[local] Instance bump_paging_laws : PagingLaws bump_paging.
Proof.
  refine (Build_PagingLaws bump_paging (λ _, True) bump_issued bump_map 0x2000000 _ _ _ _ _ _
    canonical_add_value canonical_add_fuel canonical_add_ret); unfold bump_issued.
  - intros s _. cbn [alloc bump_paging]. destruct (Nat.ltb_spec (bump_next s) 4096);
      eexists _, _; (split; [reflexivity|]); [|done].
    cbn [bump_next bump_map]. rewrite seq_S, fmap_app, list_to_set_app_L.
    do 2 (split; [done|]). split; [set_solver|]. intros f [= <-]. split; [|split; [set_solver|split]].
    + rewrite elem_of_list_to_set. intros (j & E & Hj)%list_elem_of_fmap. apply elem_of_seq in Hj.
      unfold bump_frame, PAGE in E. lia.
    + unfold bump_frame. rewrite Z.add_comm, (Z.mul_comm PAGE), Z.add_comm, Z.mod_add by done. done.
    + unfold bump_frame, PAGE. lia.
  - intros s page frame fl s' _. cbn [map_to bump_paging].
    destruct (bump_map s !! page) eqn:E; [done|]. intros [= <-]. done.
  - intros s page frame fl s' _. cbn [map_to bump_paging].
    destruct (bump_map s !! page) eqn:E; [|done]. intros [= <-]. done.
  - intros a p. cbn [page_containing bump_paging]. destruct (a <? 2 ^ 47); [|done]. by intros [= <-].
  - intros a. cbn [page_containing bump_paging]. by destruct (a <? 2 ^ 47).
  - intros a Ha. cbn [page_containing bump_paging]. by rewrite (proj2 (Z.ltb_lt _ _)) by lia.
Defined.

(** Four processors, a small framebuffer. *)
Definition demo_info : BootInfo :=
  mkBootInfo (Some (Bgr, 4%nat, replicate 18 0)) (Some demo_phys) (Some 0xE0000).

Definition demo_boot_env : Env :=
  mkEnv sample_stack sample_priv user_state (λ _, 0) (λ _ s, s) 0x1000 demo_env ∅ 0x444444440000
    0xFFFF800000001000 0xFFFF800000100000 (λ _, 0) (λ n, wrap 64 (Z.of_nat n)).

Lemma demo_bootable : bootable demo_info demo_boot_env demo_phys.
Proof.
  destruct sample_stacks as [Hs Hp].
  split; cbn [demo_info demo_boot_env framebuffer physical_memory_offset df_stack_addr priv_stack_addr entry_stub
    syscall_stack msrs clock vmz_buffer].
  - simpl. lia.
  - done.
  - exact Hs.
  - exact Hp.
  - split; lia.
  - split; lia.
  - unfold STACK_SIZE. lia.
  - intros n. apply uint_wrap. lia.
  - split; lia.
Qed.

Definition demo_platform : outcome (BumpPt * Cores * Z * (BumpPt * Memory) * Z) :=
  @platform dev_profile bump_paging hello_elf demo_boot_env demo_phys (Some 0xE0000) (mkBumpPt 0 ∅) demo_acpi.

Lemma demo_platform_ok : ∃ pt cores user, demo_platform = Ret (pt, cores, 2, user, USER_CODE_VIRT).
Proof.
  assert (match demo_platform with
          | Ret (_, _, n, _, e) => (n =? 2) && (e =? USER_CODE_VIRT) | _ => false end = true) as E
    by (vm_compute; reflexivity).
  destruct demo_platform as [[[[[pt cores] n] user] e]| |]; [|done|done].
  apply andb_true_iff in E as [->%Z.eqb_eq ->%Z.eqb_eq]. by exists pt, cores, user.
Qed.

Lemma boot_completes_witness :
  ∃ cores user b hist,
    @kernel_main dev_profile (@crypto_ops dev_profile) list_gdt map_idt map_idt_laws bump_paging hello_elf demo_info demo_boot_env
      (mkBumpPt 0 ∅) demo_acpi = Ret b ∧
    @boot_reached dev_profile bump_paging demo_boot_env cores 2 user USER_CODE_VIRT b hist.
Proof.
  destruct demo_platform_ok as (pt & cores & user & E). exists cores, user. unfold demo_platform in E.
  exact (@boot_completes dev_profile list_gdt list_gdt_laws map_idt map_idt_laws bump_paging hello_elf demo_info
    demo_boot_env demo_phys (mkBumpPt 0 ∅) demo_acpi pt cores 2 user USER_CODE_VIRT demo_bootable E).
Defined.

Lemma boot_to_exit_witness :
  let w := mkWorld (λ _, false) (λ _, Scheduler.new) (λ _, 0) (λ _, 0) (λ _, 0) in
  ∃ b s l code,
    @kernel_main dev_profile (@crypto_ops dev_profile) list_gdt map_idt map_idt_laws bump_paging hello_elf demo_info demo_boot_env
      (mkBumpPt 0 ∅) demo_acpi = Ret b ∧
    Ring3.run w (@fetch bump_paging bump_paging_laws demo_phys (b_user b)) 7
      (started 0 0 (i_rip (b_frame b))) = Some s ∧
    r3_rip s = USER_CODE_VIRT + 26 ∧ USER_EXITED (r3_kernel s) = true ∧
    @log_all dev_profile (@crypto_ops dev_profile) (clock demo_boot_env) (r3_trail s) (b_log b) = Ret l ∧
    @verify_chain (@crypto_ops dev_profile) l = Ret (24%nat, true) ∧
    ∃ hist, @log_inv _ (@crypto_laws dev_profile) l hist ∧
      audit_of <$> hist = boot_trace 0x444444440000 ++
        [mkAudit DriverLoaded 10 0 0; mkAudit SyscallDispatched 3 0 0; mkAudit SyscallDispatched 3 9 0;
         mkAudit SyscallDispatched 3 11 0; mkAudit ProcessExited 3 code 0].
Proof.
  intros w. destruct demo_platform_ok as (pt & cores & user & E). unfold demo_platform in E.
  exact (@boot_to_exit dev_profile list_gdt list_gdt_laws map_idt map_idt_laws bump_paging bump_paging_laws
    demo_info demo_boot_env demo_phys (mkBumpPt 0 ∅) demo_acpi pt cores 2 user USER_CODE_VIRT w 0 0 7
    eq_refl demo_bootable Logic.I E (Nat.le_refl 7)).
Defined.
