(* ===== verification/BootLog.v ===== *)
(** * The boot log and its verifier

    Model of the lines by which the kernel announces its results on the
    serial port (the self-tests of [axiom/capability.rs] and [eipc.rs], the
    checkpoints of [eipc.rs], [vmz.rs], [lattice.rs] and [ztdf.rs], the chain
    verdict of [main.rs], the entry to and exit from ring 3 of [user.rs]),
    as functions of the results, and of the check [scripts/verify_boot.py]
    makes on the captured output.  All other output is arbitrary: a log is
    any sequence of lines that contains the announcements.

    Shown here: the announcements of the boot [Boot] describes report success
    in every line that depends on a result, and the verifier accepts them;
    the collecting script, run on that output, adds exactly the events of the
    boot to the file it keeps; and the verifier accepts as well when the audit
    chain, the lattice, the drivers or the hash self-tests failed, since a marker may be found in another line. *)

From S2P Require Import Prelude Interfaces Crypto CryptoAead CapDemo Eipc Lattice Machine Scheduler Vmz Frames Paging.
From S2P Require Import User Gdt Syscall Interrupts Framebuffer Smp Meal Ztdf Net Boot Text Persist Collector.
From Stdlib Require Import ZArith Lia.
From stdpp Require Import base numbers list gmap strings.
#[local] Open Scope Z_scope.

Abbreviation s := bstr.

(** ** The announcements *)

(** The first characters of a digest, as the format strings take them. *)
Definition shown8 (h : text) : text := take 8 h.
Definition shown2 (h : text) : text := take 2 h.

Definition self_test_lines (r : DemoReport) : list text :=
  [s "SHA-256 self-test: " ++ shown8 (sha_hex r) ++ s "... (first byte: 0x" ++ shown2 (sha_hex r) ++ s ", expected 0xe3)";
   s "HMAC-SHA-256 test: " ++ shown8 (hmac_hex r) ++ s "... (first byte: 0x" ++ shown2 (hmac_hex r) ++ s ", expected 0xb0)";
   s "HMAC-SHA-256 implementation: " ++ (if hmac_ok r then s "CORRECT" else s "UNEXPECTED")
     ++ s " (RFC 2104 §B Test Case 1)";
   s "SHA-256 implementation: " ++ (if sha256_ok r then s "CORRECT" else s "UNEXPECTED — check constants")
     ++ s " (first 2 bytes match FIPS 180-4 vector)"].

Definition chacha_line (cc20_ok : bool) : text :=
  s "ChaCha20 self-test (RFC 8439 §2.3.2): "
  ++ (if cc20_ok then s "CORRECT ✓  (first block word = 0xade0b876)" else s "UNEXPECTED ✗").

Definition eipc_checkpoint (received : Z) (all_ok : bool) : list text :=
  if all_ok && (received =? 3) then
    [s ">>> SHOT 7 CHECKPOINT PASSED <<<";
     s "    EIPC: 3 messages via encrypted kernel channel.";
     s "    ChaCha20-Poly1305 (RFC 8439 §2.8): proper AEAD construction.";
     s "    Poly1305 auth: tampered message correctly rejected.";
     s "    HKDF-SHA-256 (RFC 5869): session key from cap chain.";
     s "    KNP theorem: kernel queued ciphertexts, saw 0 bits of plaintext.";
     s "    Ready for Shot 8: MEAL tamper-evident audit log."]
  else [s ">>> SHOT 7 ISSUE received=" ++ dec received ++ s " all_ok=" ++ show_bool all_ok].

Definition vmz_checkpoint (clean hashes_differ : bool) : list text :=
  if clean && hashes_differ then
    [s "";
     s ">>> SHOT 9 CHECKPOINT PASSED <<<";
     s "    VMZ: " ++ dec (Z.of_nat SECRET_LEN) ++ s " bytes zeroed with REP STOSB + MFENCE.";
     s "    Verification: all bytes confirmed 0x00.";
     s "    Information-theoretic proof:";
     s "      SHA-256(secret) ≠ SHA-256(zeros)";
     s "      ⟹ successor reads 0 bits of prior secret.";
     s "    MEAL logged: MemoryZeroed event recorded.";
     s "    Ready for Shot 10: Dynamic Security Lattice."]
  else [s ">>> SHOT 9 ISSUE: clean=" ++ show_bool clean ++ s " hashes_differ=" ++ show_bool hashes_differ].

Definition lattice_verdict (v : bool * string) : text :=
  s "   Result: " ++ (if v.1 then s "VALID ✓" else s "INVALID ✗") ++ s "  " ++ (if v.1 then s "" else s v.2).

Definition lattice_checkpoint : list text :=
  [s ">>> SHOT 10 CHECKPOINT PASSED <<<";
   s "    BLP lattice: 7 axioms verified (reflexive, antisymmetric,";
   s "    transitive, bounded, joins+meets exist).";
   s "    Access control: read-up denied, write-down denied.";
   s "    Runtime reconfiguration: 5-level lattice accepted.";
   s "    Invalid lattice (broken transitivity): correctly rejected.";
   s "    Ready for Shot 11: ZTDF Zero-Trust Driver Framework."].

Definition ztdf_checkpoint : list text :=
  [s ">>> SHOT 11 CHECKPOINT PASSED <<<";
   s "    ZTDF: 3 drivers processed.";
   s "    uart-com1: all ops within spec → ACCEPTED.";
   s "    mal-driver: MMIO to 0xFEE00000 → TERMINATED, MEAL logged.";
   s "    esc-driver: syscall 8 (LatticeReconfig) → TERMINATED, MEAL logged.";
   s "    Key property: driver termination is O(1), no kernel reboot.";
   s "    Ready for Shot 12: Final integration + project summary."].

Definition chain_line (v : nat * bool) : text :=
  s "  Chain verification (" ++ dec (Z.of_nat v.1) ++ s " entries): "
  ++ (if v.2 then s "PASSED ✓  — all MACs and chain links valid" else s "FAILED ✗  — log has been tampered!").

Definition enter_lines (f : IretFrame) : list text :=
  [s "[ok] IRET → ring 3:  RIP=" ++ xhex (i_rip f) ++ s "  RSP=" ++ xhex (i_rsp f)
     ++ s "  CS=" ++ xhex (i_cs f) ++ s "  SS=" ++ xhex (i_ss f);
   s "     User program: Yield → ScbaQuery → Exit → spin";
   s ""].

Definition exit_lines (code syscalls : Z) : list text :=
  [s "[ring 3 → kernel] SYSCALL 11 (Exit)   code=" ++ dec code ++ s " → 0";
   s "";
   s ">>> SHOT 12 — AXIOM OS FULLY OPERATIONAL <<<";
   s "    Ring 3 → kernel → ring 3 privilege round-trip: ✓";
   s "    All 11 subsystems active and verified:";
   s "      SYSCALL 0  Yield      → 0   (scheduler integration)";
   s "      SYSCALL 9  ScbaQuery  → " ++ dec syscalls ++ s " fences total (SCBA active)";
   s "      SYSCALL 11 Exit       → 0   (clean process termination)";
   s "    AXIOM OS boot sequence complete.";
   s ""].

(** All of them, in the order of the boot. *)
Definition announcements (tcd : DemoReport) (cc20_ok : bool) (received : Z) (all_ok clean hashes_differ : bool)
    (lattice : bool * string) (chain : nat * bool) (f : IretFrame) (code syscalls : Z) : list text :=
  self_test_lines tcd ++ [chacha_line cc20_ok] ++ eipc_checkpoint received all_ok
  ++ vmz_checkpoint clean hashes_differ ++ [lattice_verdict lattice] ++ lattice_checkpoint ++ ztdf_checkpoint
  ++ [chain_line chain] ++ enter_lines f ++ exit_lines code syscalls.

(** ** The verifier *)

Definition CHECKPOINTS : list (text * text) :=
  [(s "SHA-256 self-test", s "e3b0c442");
   (s "HMAC-SHA-256 implementation", s "CORRECT");
   (s "ChaCha20 self-test", s "CORRECT");
   (s "SHOT 7 CHECKPOINT PASSED", s "KNP theorem");
   (s "SHOT 9 CHECKPOINT PASSED", s "0x00");
   (s "SHOT 10 CHECKPOINT PASSED", s "VALID");
   (s "SHOT 11 CHECKPOINT PASSED", s "ACCEPTED");
   (s "Chain verification", s "PASSED");
   (s "SHOT 12", s "FULLY OPERATIONAL");
   (s "IRET", s "ring 3")].

(** Python's [k in t]. *)
Fixpoint contains (k t : text) : bool :=
  bool_decide (k `prefix_of` t) || match t with [] => false | _ :: t => contains k t end.

Definition verify (log : text) : bool :=
  forallb (λ '(keyword, also), contains keyword log && contains also log) CHECKPOINTS.

(** ** Facts *)

Lemma contains_prefix k t u : contains k t = true → contains k (u ++ t) = true.
Proof. intros Hk. induction u as [|c u IH]; [done|]. cbn [app contains]. by rewrite IH, orb_true_r. Qed.

Lemma contains_suffix k t u : contains k t = true → contains k (t ++ u) = true.
Proof.
  induction t as [|c t IH]; intros Hk; cbn [contains] in Hk.
  - rewrite orb_false_r, bool_decide_eq_true in Hk. apply prefix_nil_inv in Hk as ->.
    destruct u; cbn [app contains]; by rewrite bool_decide_eq_true_2 by apply prefix_nil.
  - apply orb_true_iff in Hk as [Hk%bool_decide_eq_true|Hk]; cbn [app contains].
    + rewrite bool_decide_eq_true_2; [done|]. change (c :: t ++ u) with ((c :: t) ++ u). by apply prefix_app_r.
    + by rewrite IH, orb_true_r.
Qed.

Section Found.
Context `{Uart}.

(** A marker in a plain line is in the output. *)
Lemma contains_line k l lines sent :
  l ∈ lines → Forall plain l → contains k l = true → contains k (println_all lines sent) = true.
Proof.
  intros Hl Hp Hk. apply list_elem_of_split in Hl as (before & after & ->). unfold println_all.
  rewrite foldl_app. cbn [foldl]. set (sent' := foldl _ _ before). rewrite println_plain by done.
  assert (contains k (sent' ++ l ++ [10]) = true) as Hc by (by apply contains_prefix, contains_suffix).
  revert Hc. generalize (sent' ++ l ++ [10]). clear. induction after as [|a after IH]; intros t Ht; [done|].
  cbn [foldl]. apply IH. by apply contains_suffix.
Qed.
End Found.

(** ** What the verifier looks at *)

Lemma digits_plain (t : text) : Forall (λ c, is_hex c = true) t → Forall plain t.
Proof.
  intros Ht. eapply Forall_impl; [exact Ht|]. intros c Hc. unfold is_hex, is_digit in Hc. split; lia.
Qed.

Lemma dec_plain n : 0 <= n → Forall plain (dec n).
Proof.
  intros Hn. apply digits_plain. eapply Forall_impl; [by apply dec_digits|]. intros c Hc. unfold is_hex. by rewrite Hc.
Qed.

Lemma xhex_plain n : 0 <= n → Forall plain (xhex n).
Proof.
  intros Hn. apply Forall_app_2; [by repeat constructor|by apply digits_plain, hex_digits].
Qed.

(** A closed text, or one made of plain pieces. *)
Ltac plain_text :=
  repeat match goal with |- Forall _ (_ ++ _) => apply Forall_app_2 end;
  first [by apply dec_plain; lia | by apply xhex_plain | by (eapply bool_decide_unpack; vm_compute; exact I)].

(** The two obligations of a marker in a fixed line. *)
Ltac fixed_line := first [plain_text | vm_compute; reflexivity].

(** What has to hold for the output to be accepted. *)
Record accepted_run (tcd : DemoReport) (cc20_ok : bool) (received : Z) (all_ok clean hashes_differ : bool)
    (lattice : bool * string) (f : IretFrame) : Prop := {
  ar_sha : take 8 (sha_hex tcd) = bstr "e3b0c442";
  ar_chacha : cc20_ok = true;
  ar_eipc : all_ok && (received =? 3) = true;
  ar_vmz : clean && hashes_differ = true;
  ar_reason : lattice.1 = false → Forall plain (bstr lattice.2);
  ar_frame : 0 <= i_rip f ∧ 0 <= i_rsp f ∧ 0 <= i_cs f ∧ 0 <= i_ss f }.

Section Accepted.
Context `{Uart} (tcd : DemoReport) (lattice : bool * string) (chain : nat * bool) (f : IretFrame).
Context (code syscalls : Z) (lines : list text) (sent : text).

Hypothesis Hrun : accepted_run tcd true 3 true true true lattice f.
Hypothesis Hsub : announcements tcd true 3 true true true lattice chain f code syscalls `sublist_of` lines.

Abbreviation log := (println_all lines sent).

Lemma find_line k i l :
  announcements tcd true 3 true true true lattice chain f code syscalls !! i = Some l →
  Forall plain l → contains k l = true → contains k log = true.
Proof.
  intros Hi Hp Hk. apply (contains_line k l); [|done|done]. apply list_elem_of_lookup_2 in Hi.
  by eapply elem_of_submseteq, sublist_submseteq.
Qed.

Lemma find_sha k : contains k (self_test_lines tcd !!! 0%nat) = true → contains k log = true.
Proof.
  apply (find_line k 0%nat); [reflexivity|]. cbn [self_test_lines lookup_total list_lookup_total].
  unfold shown8, shown2. pose proof (f_equal (take 2) (ar_sha _ _ _ _ _ _ _ _ Hrun)) as H2. rewrite take_take in H2.
  rewrite (ar_sha _ _ _ _ _ _ _ _ Hrun). cbn [Nat.min] in H2. rewrite H2. plain_text.
Qed.

Lemma find_hmac k : contains k (self_test_lines tcd !!! 2%nat) = true → contains k log = true.
Proof.
  apply (find_line k 2%nat); [reflexivity|]. cbn [self_test_lines lookup_total list_lookup_total].
  destruct (hmac_ok tcd); plain_text.
Qed.

Lemma find_lattice k : contains k (lattice_verdict lattice) = true → contains k log = true.
Proof.
  apply (find_line k 21%nat); [reflexivity|]. pose proof (ar_reason _ _ _ _ _ _ _ _ Hrun) as Hwhy.
  unfold lattice_verdict. destruct lattice as [[] why]; cbn [fst snd] in *; repeat apply Forall_app_2;
    first [exact (Hwhy eq_refl)|plain_text].
Qed.

Lemma find_chain k : contains k (chain_line chain) = true → contains k log = true.
Proof. apply (find_line k 36%nat); [reflexivity|]. unfold chain_line. destruct chain as [n []]; plain_text. Qed.

Lemma find_enter k : contains k (enter_lines f !!! 0%nat) = true → contains k log = true.
Proof.
  destruct (ar_frame _ _ _ _ _ _ _ _ Hrun) as (Hrip & Hrsp & Hcs & Hss).
  apply (find_line k 37%nat); [reflexivity|]. cbn [enter_lines lookup_total list_lookup_total]. plain_text.
Qed.

Lemma valid_found : contains (bstr "VALID") (lattice_verdict lattice) = true.
Proof.
  unfold lattice_verdict. destruct lattice as [[] why]; cbn [fst snd];
    apply contains_prefix, contains_suffix; vm_compute; reflexivity.
Qed.

Lemma digest_found : contains (bstr "e3b0c442") (self_test_lines tcd !!! 0%nat) = true.
Proof.
  cbn [self_test_lines lookup_total list_lookup_total]. unfold shown8. rewrite (ar_sha _ _ _ _ _ _ _ _ Hrun).
  apply contains_prefix, contains_suffix. vm_compute. reflexivity.
Qed.

Lemma verify_log : verify log = true.
Proof.
  unfold verify, CHECKPOINTS. cbn [forallb].
  rewrite (find_sha (bstr "SHA-256 self-test")), (find_sha (bstr "e3b0c442") digest_found),
    (find_hmac (bstr "HMAC-SHA-256 implementation")), (find_chain (bstr "Chain verification")),
    (find_enter (bstr "IRET")), (find_enter (bstr "ring 3")) by (apply contains_suffix; vm_compute; reflexivity).
  rewrite (find_lattice (bstr "VALID") valid_found).
  rewrite (find_line (bstr "CORRECT") 4%nat _ eq_refl), (find_line (bstr "ChaCha20 self-test") 4%nat _ eq_refl),
    (find_line (bstr "SHOT 7 CHECKPOINT PASSED") 5%nat _ eq_refl), (find_line (bstr "PASSED") 5%nat _ eq_refl),
    (find_line (bstr "KNP theorem") 10%nat _ eq_refl), (find_line (bstr "SHOT 9 CHECKPOINT PASSED") 13%nat _ eq_refl),
    (find_line (bstr "0x00") 15%nat _ eq_refl), (find_line (bstr "SHOT 10 CHECKPOINT PASSED") 22%nat _ eq_refl),
    (find_line (bstr "SHOT 11 CHECKPOINT PASSED") 29%nat _ eq_refl), (find_line (bstr "ACCEPTED") 31%nat _ eq_refl),
    (find_line (bstr "SHOT 12") 42%nat _ eq_refl), (find_line (bstr "FULLY OPERATIONAL") 42%nat _ eq_refl) by fixed_line.
  reflexivity.
Qed.
End Accepted.

Lemma accepted `{Uart} tcd cc20_ok received all_ok clean hashes_differ lattice chain f code syscalls lines sent :
  accepted_run tcd cc20_ok received all_ok clean hashes_differ lattice f →
  announcements tcd cc20_ok received all_ok clean hashes_differ lattice chain f code syscalls `sublist_of` lines →
  verify (println_all lines sent) = true.
Proof.
  intros Hr. pose proof Hr as [_ -> [-> Hrec%Z.eqb_eq]%andb_true_iff [-> ->]%andb_true_iff _ _]. subst received.
  by apply verify_log.
Qed.

(** ** Properties *)

(** The lines that report a result, as they read when the result is good. *)
Definition good_verdicts (entry : Z) : list text :=
  [s "SHA-256 self-test: e3b0c442... (first byte: 0xe3, expected 0xe3)";
   s "HMAC-SHA-256 implementation: CORRECT (RFC 2104 §B Test Case 1)";
   s "SHA-256 implementation: CORRECT (first 2 bytes match FIPS 180-4 vector)";
   s "ChaCha20 self-test (RFC 8439 §2.3.2): CORRECT ✓  (first block word = 0xade0b876)";
   s ">>> SHOT 7 CHECKPOINT PASSED <<<";
   s ">>> SHOT 9 CHECKPOINT PASSED <<<";
   s "    VMZ: 64 bytes zeroed with REP STOSB + MFENCE.";
   s "   Result: VALID ✓  ";
   s "  Chain verification (19 entries): PASSED ✓  — all MACs and chain links valid";
   s "[ok] IRET → ring 3:  RIP=" ++ xhex entry ++ s "  RSP=0x500000000000  CS=0x33  SS=0x2b"].

(** The fixed parts of a line, read off. *)
Ltac next_line :=
  lazymatch goal with
  | |- ?l :: _ `sublist_of` ?l' :: _ =>
      first [ replace l' with l by (vm_compute; reflexivity); apply sublist_skip | apply sublist_cons ]
  end.

(** The reports of a run in which every test passed are the good ones. *)
Lemma good_reports tcd dsl entry code syscalls :
  sha_hex tcd = bstr "e3b0c44298fc1c14" → sha256_ok tcd = true → hmac_ok tcd = true → dsl.1 = true →
  good_verdicts entry `sublist_of`
    announcements tcd true 3 true true true dsl (19%nat, true)
      (mkIretFrame entry 0x33 0x202 USER_STACK_TOP 0x2B) code syscalls.
Proof.
  intros Hx Hs Hh Hv. unfold announcements, self_test_lines, lattice_verdict, enter_lines. rewrite Hx, Hs, Hh, Hv.
  unfold good_verdicts, eipc_checkpoint, vmz_checkpoint, lattice_checkpoint, ztdf_checkpoint.
  change (true && (3 =? 3)) with true. change (true && true) with true. cbn [app i_rip i_rsp i_cs i_ss].
  repeat next_line. apply sublist_nil_l.
Qed.

(** C10: the boot [kernel_main] makes and what is said of it: when the lines
    that announce its results, computed from the results of the boot, appear in
    order in the output, among any other lines, then every line with a verdict
    reads as the good one, the chain's with its nineteen entries and the entry
    to ring 3 with the frame of the process; and the verifier accepts. *)
Theorem boot_log_accepted `{P : Profile} `{G : GdtOps} {gl : GdtLaws G} `{I : IdtOps} {il : IdtLaws I} `{Pg : Paging}
    `{Uart} elf bi env phys pt m pt' cores online user entry :
  bootable bi env phys → 0 <= entry →
  platform elf env phys (rsdp_addr bi) pt m = Ret (pt', cores, online, user, entry) →
  ∃ b, @kernel_main P crypto_ops G I il Pg elf bi env pt m = Ret b ∧
    let '(tcd, eipc, vmz, dsl, _) := (b_reports b).1 in
    ∀ received all_ok clean hashes_differ code syscalls lines sent,
      all_ok && (received =? 3) = eipc → clean && hashes_differ = vmz →
      announcements tcd chacha20_self_test received all_ok clean hashes_differ (demo_valid dsl) (b_verdict b)
        (b_frame b) code syscalls `sublist_of` lines →
      good_verdicts entry `sublist_of` lines ∧ verify (println_all lines sent) = true.
Proof.
  intros Hb He Hp. destruct (boot_ok elf bi env phys pt m pt' cores online user entry Hb Hp) as (b & hist & E & Hr).
  exists b. split; [exact E|]. destruct Hr as [Hpass _ Hc _ _ _ Hf _ _ _].
  destruct ((b_reports b).1) as [[[[tcd eipc] vmz] dsl] ztdf]. destruct Hpass as (Hx & Hs & Hh & -> & -> & Hv & _).
  intros received all_ok clean hashes_differ code syscalls lines sent He1 Hv1 Hsub. split.
  - apply andb_true_iff in He1 as [-> ->%Z.eqb_eq]. apply andb_true_iff in Hv1 as [-> ->].
    rewrite Hc, Hf in Hsub. etransitivity; [|exact Hsub]. by apply good_reports.
  - eapply accepted; [|exact Hsub]. split; [by rewrite Hx|reflexivity|done|done|by rewrite Hv|].
    rewrite Hf. cbn. repeat split; try done; lia.
Qed.

(** The verifier does not look at the audit chain, the lattice or the hash
    self-tests: with all of them failed, and the drivers doing anything, it
    accepts the output as long as the printed digest starts right, the
    ChaCha20 test and the two checkpoints pass and ring 3 is reached. *)
Theorem verifier_misses_failures `{Uart} tcd why n f code syscalls lines sent :
  take 8 (sha_hex tcd) = bstr "e3b0c442" → hmac_ok tcd = false → sha256_ok tcd = false →
  Forall plain (bstr why) → 0 <= i_rip f → 0 <= i_rsp f → 0 <= i_cs f → 0 <= i_ss f →
  announcements tcd true 3 true true true (false, why) (n, false) f code syscalls `sublist_of` lines →
  verify (println_all lines sent) = true.
Proof. intros Hs _ _ Hw H1 H2 H3 H4. apply accepted. by split. Qed.

(** What the collecting script keeps of an audit call. *)
Definition py_call (a : Audit) : text * Z * Z := (bstr (event_name (au_event a)), au_actor a, au_a a).
Definition py_fields (e : PyEntry) : text * Z * Z := (e_event e, e_actor e, e_value e).

(** What the script reads of a boot: the lines [kernel_main] lists its audit
    log with, among any other output without audit lines. *)
Lemma boot_log_parsed `{P : Profile} `{G : GdtOps} {gl : GdtLaws G} `{I : IdtOps} {il : IdtLaws I} `{Pg : Paging}
    `{Uart} elf bi env phys pt m pt' cores online user entry :
  bootable bi env phys →
  platform elf env phys (rsdp_addr bi) pt m = Ret (pt', cores, online, user, entry) →
  ∃ b, @kernel_main P crypto_ops G I il Pg elf bi env pt m = Ret b ∧
    ∀ sent after, at_line_start sent → parse_meal_entries sent = [] → parse_meal_entries after = [] →
      let es := parse_meal_entries (println_all (line_text <$> b_lines b) sent ++ after) in
      py_fields <$> es = py_call <$> boot_trace (vmz_buffer env) ∧ e_seq <$> es = Z.of_nat <$> seq 0 19.
Proof.
  intros Hb Hp. destruct (boot_ok elf bi env phys pt m pt' cores online user entry Hb Hp) as (b & hist & E & Hr).
  exists b. split; [exact E|]. intros sent after Hs P1 P2. destruct Hr as [_ _ _ Hl Hinv Ht _ _ _ _].
  assert (audit_of <$> take 19 hist = boot_trace (vmz_buffer env)) as Ht19 by (by rewrite fmap_take, Ht).
  assert (length (take 19 hist) = 19%nat) as Hlen by (by rewrite <-(length_fmap audit_of), Ht19).
  assert (Forall wf_line (line_of <$> take 19 hist)) as Hw.
  { apply Forall_fmap. eapply Forall_impl; [apply Forall_take, Hinv|apply wf_line_of]. }
  rewrite Hl, println_all_plain.
  2: { apply Forall_fmap. eapply Forall_impl; [exact Hw|]. intros ln Hln. eapply Forall_impl; [by apply line_printable|].
       intros c Hc. cbn in Hc. split; lia. }
  rewrite <-(assoc_L (++)), parse_app, parse_lines, P1, P2, app_nil_r by done. cbn [app].
  rewrite <-!list_fmap_compose. split.
  - rewrite <-Ht19, <-list_fmap_compose. apply list_fmap_ext. by intros i e _.
  - apply list_eq. intros i. rewrite !list_lookup_fmap. destruct (take 19 hist !! i) as [e|] eqn:Ei.
    + pose proof (lookup_lt_Some _ _ _ Ei) as Hi. rewrite Hlen in Hi. rewrite lookup_seq_lt by done. cbn.
      rewrite lookup_take_lt in Ei by done. by rewrite (li_seq _ _ Hinv i e Ei).
    + apply lookup_ge_None in Ei. rewrite Hlen in Ei. by rewrite lookup_seq_ge.
Qed.

(** C9: from the boot to the file on the host: the output of [kernel_main], in
    which the lines it lists its audit log with appear among any other output
    without audit lines, collected with [--save]: whatever consistent store
    the file held, the script does not raise, and the file then holds the
    former entries followed by exactly the nineteen events of the boot, in
    order, and is again consistent. *)
Theorem boot_log_collected `{P : Profile} `{G : GdtOps} {gl : GdtLaws G} `{I : IdtOps} {il : IdtLaws I} `{Pg : Paging}
    `{Uart} elf bi env phys pt m pt' cores online user entry :
  bootable bi env phys →
  platform elf env phys (rsdp_addr bi) pt m = Ret (pt', cores, online, user, entry) →
  ∃ b, @kernel_main P crypto_ops G I il Pg elf bi env pt m = Ret b ∧
    ∀ STORE sent after file st,
      at_line_start sent → parse_meal_entries sent = [] → parse_meal_entries after = [] →
      load_store file = Some st → wf_store st → consistent st →
      ∃ r st', meal_persist STORE [s "meal_persist.py"; s "--save"]
                 (println_all (line_text <$> b_lines b) sent ++ after) file = Some r ∧
        load_store (file_after r) = Some st' ∧ wf_store st' ∧ consistent st' ∧
        py_fields <$> (s_entry <$> all_entries st')
        = (py_fields <$> (s_entry <$> all_entries st)) ++ (py_call <$> boot_trace (vmz_buffer env)).
Proof.
  intros Hb Hp. destruct (boot_log_parsed elf bi env phys pt m pt' cores online user entry Hb Hp) as (b & E & Hl).
  exists b. split; [exact E|]. intros STORE sent after file st Hs P1 P2 Hld Hw Hc.
  destruct (Hl sent after Hs P1 P2) as [Hf Hq]. set (log := println_all (line_text <$> b_lines b) sent ++ after) in *.
  assert (length (parse_meal_entries log) = 19%nat) as H19 by (by rewrite <-(length_fmap e_seq), Hq).
  destruct (save_run_ok STORE log _ file st eq_refl) as (r & st' & Er & El & Hw' & Hc' & He);
    [by rewrite Hq, H19|by intros En; rewrite En in H19|done..|].
  exists r, st'. split; [exact Er|]. split; [exact El|]. split; [done|]. split; [done|].
  by rewrite He, fmap_app, Hf.
Qed.

(** ** Witnesses *)

Lemma boot_log_accepted_witness :
  ∃ b, @kernel_main dev_profile (@crypto_ops dev_profile) list_gdt map_idt map_idt_laws bump_paging hello_elf demo_info
         demo_boot_env (mkBumpPt 0 ∅) demo_acpi = Ret b ∧
    let '(tcd, eipc, vmz, dsl, _) := (b_reports b).1 in
    ∀ received all_ok clean hashes_differ code syscalls lines sent,
      all_ok && (received =? 3) = eipc → clean && hashes_differ = vmz →
      announcements tcd chacha20_self_test received all_ok clean hashes_differ (demo_valid dsl) (b_verdict b)
        (b_frame b) code syscalls `sublist_of` lines →
      good_verdicts USER_CODE_VIRT `sublist_of` lines ∧ verify (@println_all plain_uart lines sent) = true.
Proof.
  destruct demo_platform_ok as (pt & cores & user & E). unfold demo_platform in E.
  exact (@boot_log_accepted dev_profile list_gdt list_gdt_laws map_idt map_idt_laws bump_paging plain_uart hello_elf
    demo_info demo_boot_env demo_phys (mkBumpPt 0 ∅) demo_acpi pt cores 2 user USER_CODE_VIRT demo_bootable
    ltac:(vm_compute; discriminate) E).
Defined.

Lemma boot_log_collected_witness :
  ∃ b r st, @kernel_main dev_profile (@crypto_ops dev_profile) list_gdt map_idt map_idt_laws bump_paging hello_elf demo_info
         demo_boot_env (mkBumpPt 0 ∅) demo_acpi = Ret b ∧
    meal_persist (s "store.json") [s "meal_persist.py"; s "--save"]
      (@println_all plain_uart (line_text <$> b_lines b) banner ++ []) None = Some r ∧
    load_store (file_after r) = Some st ∧ length (all_entries st) = 19%nat.
Proof.
  destruct demo_platform_ok as (pt & cores & user & E). unfold demo_platform in E.
  destruct (@boot_log_collected dev_profile list_gdt list_gdt_laws map_idt map_idt_laws bump_paging plain_uart hello_elf
    demo_info demo_boot_env demo_phys (mkBumpPt 0 ∅) demo_acpi pt cores 2 user USER_CODE_VIRT demo_bootable E)
    as (b & Eb & Hb).
  destruct (Hb (s "store.json") banner [] None empty_store) as (r & st & Er & El & _ & _ & He);
    [apply banner_start|reflexivity|reflexivity|reflexivity|apply empty_store_wf|split; reflexivity|].
  exists b, r, st. split; [exact Eb|]. split; [exact Er|]. split; [exact El|].
  apply (f_equal length) in He. rewrite !length_fmap in He. rewrite He. reflexivity.
Defined.
