(* ===== verification/Launcher.v ===== *)
(** * Building and launching

    Model of the host side: [boot/build.rs], which wraps the kernel in two
    disk images and hands their paths to the launcher, [boot/src/main.rs],
    which starts the emulator on one of them, and [kernel/build.rs], which
    assembles the kernel's assembly files.  The bootloader crate that writes
    an image and the build tool that turns [cargo:rustc-env] lines into
    compile-time variables are arguments, the latter with its documented
    behaviour ([Cargo]).  Paths are their bytes, on a system that separates
    components with a slash.

    Shown here: the launcher starts the emulator on exactly the image the
    build script created for the chosen firmware; what it exits with; every
    assembled file is watched for changes. *)

From S2P Require Import Prelude Text.
From Stdlib Require Import ZArith Lia.
From stdpp Require Import base numbers list strings.
#[local] Open Scope Z_scope.

Abbreviation path := text.

(** [PathBuf::join] with a relative component. *)
Definition join (dir name : path) : path :=
  match last dir with
  | None => name
  | Some c => if c =? 47 then dir ++ name else dir ++ [47] ++ name
  end.

(** ** [boot/build.rs] *)

Inductive Firmware := Bios | Uefi.

#[global] Instance Firmware_eq_dec : EqDecision Firmware.
Proof. solve_decision. Defined.

(** Environment variables of the build, and whether the bootloader crate can
    write an image of the kernel to a path. *)
Record BuildEnv := mkBuildEnv {
  CARGO_BIN_FILE_KERNEL_kernel : option path; OUT_DIR : option path;
  create_disk_image : Firmware → path → path → bool }.

(** What was built: the images, and the lines for the build tool. *)
Record Built := mkBuilt { images : list (Firmware * path * path); directives : list text }.

Definition build_main (env : BuildEnv) : outcome Built :=
  match CARGO_BIN_FILE_KERNEL_kernel env with
  | None => Panic
  | Some kernel_path =>
    match OUT_DIR env with
    | None => Panic
    | Some out_dir =>
      let bios_image := join out_dir (bstr "axiom-bios.img") in
      if negb (create_disk_image env Bios kernel_path bios_image) then Panic else
      let uefi_image := join out_dir (bstr "axiom-uefi.img") in
      if negb (create_disk_image env Uefi kernel_path uefi_image) then Panic else
      Ret (mkBuilt [(Bios, kernel_path, bios_image); (Uefi, kernel_path, uefi_image)]
             [bstr "cargo:rustc-env=BIOS_IMAGE=" ++ bios_image;
              bstr "cargo:rustc-env=UEFI_IMAGE=" ++ uefi_image;
              bstr "cargo:rerun-if-changed=" ++ kernel_path])
    end
  end.

(** The build tool: [env!(k)] in the package is the value of the one line
    that sets [k]. *)
Class Cargo := {
  rustc_env : list text → text → option text;
  rustc_env_set out k v i :
    61 ∉ k → out !! i = Some (bstr "cargo:rustc-env=" ++ k ++ [61] ++ v) →
    (∀ j v', out !! j = Some (bstr "cargo:rustc-env=" ++ k ++ [61] ++ v') → j = i) →
    rustc_env out k = Some v }.

(** ** [boot/src/main.rs] *)

(** The two constants [env!] gives the launcher; without them it does not
    compile. *)
Definition compiled_images `{Cargo} (out : list text) : option (path * path) :=
  BIOS_IMAGE ← rustc_env out (bstr "BIOS_IMAGE");
  UEFI_IMAGE ← rustc_env out (bstr "UEFI_IMAGE");
  Some (BIOS_IMAGE, UEFI_IMAGE).

(** The emulator's command line and what is printed before it starts. *)
Definition launch (BIOS_IMAGE UEFI_IMAGE : path) (args : list text) : list text * list text :=
  let use_uefi := existsb (λ a, bool_decide (a = bstr "uefi")) args in
  let cmd := [bstr "qemu-system-x86_64"] in
  let '(cmd, out) :=
    if use_uefi then
      (cmd ++ [bstr "-bios"; bstr "/usr/share/ovmf/OVMF.fd"] ++ [bstr "-drive"; bstr "format=raw,file=" ++ UEFI_IMAGE],
       [bstr "Booting AXIOM (UEFI) in QEMU..."])
    else
      (cmd ++ [bstr "-drive"; bstr "format=raw,file=" ++ BIOS_IMAGE], [bstr "Booting AXIOM (BIOS) in QEMU..."]) in
  let cmd := cmd ++ [bstr "-serial"; bstr "stdio"] in
  let cmd := cmd ++ [bstr "-m"; bstr "256M"] in
  let cmd := cmd ++ [bstr "-smp"; bstr "4"] in
  (cmd, out ++ [bstr "(Press Ctrl+A then X to quit QEMU.)" ++ [10]]).

(** [cmd.status()]: it could not start, was ended by a signal, or exited
    with a code. *)
Inductive Status := NotStarted | Signalled | Exited (code : Z).

Definition exit_code (s : Status) : outcome Z :=
  match s with
  | NotStarted => Panic
  | Signalled => Ret 1
  | Exited code => Ret code
  end.

(** ** [kernel/build.rs] *)

Record AsmBuild := mkAsmBuild { files : list text; archive : text; watched : list text }.

Definition asm_main : AsmBuild :=
  mkAsmBuild [bstr "src/context_switch.s"; bstr "src/syscall_entry.s"; bstr "src/smp_trampoline.s"] (bstr "axiom_asm")
    [bstr "cargo:rerun-if-changed=src/context_switch.s"; bstr "cargo:rerun-if-changed=src/syscall_entry.s";
     bstr "cargo:rerun-if-changed=src/smp_trampoline.s"].

(** ** Facts *)

Section Built.
Context `{Cargo}.

(** The two variables the launcher is compiled with. *)
Lemma built_vars env b :
  build_main env = Ret b →
  ∃ kernel dir, CARGO_BIN_FILE_KERNEL_kernel env = Some kernel ∧ OUT_DIR env = Some dir ∧
    images b = [(Bios, kernel, join dir (bstr "axiom-bios.img")); (Uefi, kernel, join dir (bstr "axiom-uefi.img"))] ∧
    compiled_images (directives b) = Some (join dir (bstr "axiom-bios.img"), join dir (bstr "axiom-uefi.img")).
Proof.
  unfold build_main. destruct (CARGO_BIN_FILE_KERNEL_kernel env) as [kernel|]; [|done].
  destruct (OUT_DIR env) as [dir|]; [|done].
  destruct (create_disk_image env Bios _ _); [|done]. destruct (create_disk_image env Uefi _ _); [|done].
  intros [= <-]. exists kernel, dir. do 2 (split; [done|]). split; [done|].
  set (bi := join dir (bstr "axiom-bios.img")). set (ui := join dir (bstr "axiom-uefi.img")). cbn [directives].
  unfold compiled_images.
  rewrite (rustc_env_set _ (bstr "BIOS_IMAGE") bi 0%nat), (rustc_env_set _ (bstr "UEFI_IMAGE") ui 1%nat); [done|..];
    [by apply (bool_decide_unpack _); vm_compute|reflexivity|
    |by apply (bool_decide_unpack _); vm_compute|reflexivity|];
    intros [|[|[|j]]] v' Ej; try done; exfalso; vm_compute in Ej; discriminate Ej.
Qed.
End Built.

(** ** Properties *)

(** build and launch together: when the build succeeds, both images were
    made from the same kernel, and the launcher, compiled with the
    variables the build exported, starts the emulator on exactly one drive:
    the UEFI image, with the firmware, when some argument is [uefi], the
    BIOS image and no firmware otherwise. *)
Theorem launches_built_image `{Cargo} env b args :
  build_main env = Ret b →
  ∃ kernel bios uefi, images b = [(Bios, kernel, bios); (Uefi, kernel, uefi)] ∧ bios ≠ uefi ∧
    compiled_images (directives b) = Some (bios, uefi) ∧
    (launch bios uefi args).1 =
      [bstr "qemu-system-x86_64"]
      ++ (if bool_decide (bstr "uefi" ∈ args) then [bstr "-bios"; bstr "/usr/share/ovmf/OVMF.fd"] else [])
      ++ [bstr "-drive"; bstr "format=raw,file=" ++ (if bool_decide (bstr "uefi" ∈ args) then uefi else bios);
          bstr "-serial"; bstr "stdio"; bstr "-m"; bstr "256M"; bstr "-smp"; bstr "4"].
Proof.
  intros E. destruct (built_vars env b E) as (kernel & dir & _ & _ & Hi & Hb).
  exists kernel, (join dir (bstr "axiom-bios.img")), (join dir (bstr "axiom-uefi.img")).
  split; [exact Hi|]. split; [|split; [exact Hb|]].
  - unfold join. destruct (last dir) as [c|]; [|done]. destruct (c =? 47); intros Eq; by simplify_list_eq.
  - unfold launch. replace (existsb _ args) with (bool_decide (bstr "uefi" ∈ args)); [by destruct (bool_decide _)|].
    apply eq_true_iff_eq. rewrite bool_decide_eq_true, existsb_exists. split.
    + intros Hin. exists (bstr "uefi"). split; [by apply list_elem_of_In|by apply bool_decide_eq_true].
    + intros (a & Ha & ->%bool_decide_eq_true). by apply list_elem_of_In.
Qed.

(** Every assembled file is watched, and nothing else. *)
Theorem assembly_watched : watched asm_main = (λ f, bstr "cargo:rerun-if-changed=" ++ f) <$> files asm_main.
Proof. reflexivity. Qed.

(** ** A build tool, and a build *)

Definition env_prefix (k : text) : text := bstr "cargo:rustc-env=" ++ k ++ [61].

Definition first_env (out : list text) (k : text) : option text :=
  '(_, l) ← list_find (λ l, env_prefix k `prefix_of` l) out; Some (drop (length (env_prefix k)) l).

Lemma first_env_set out k v i :
  61 ∉ k → out !! i = Some (bstr "cargo:rustc-env=" ++ k ++ [61] ++ v) →
  (∀ j v', out !! j = Some (bstr "cargo:rustc-env=" ++ k ++ [61] ++ v') → j = i) →
  first_env out k = Some v.
Proof.
  intros _ Hi Hu.
  assert (∀ w, env_prefix k ++ w = bstr "cargo:rustc-env=" ++ k ++ [61] ++ w) as Hp
    by (intros w; unfold env_prefix; by rewrite <-!(assoc_L (++))).
  unfold first_env. destruct (list_find (λ l, env_prefix k `prefix_of` l) out) as [[j l]|] eqn:E.
  - apply list_find_Some in E as (Hj & [w ->] & _). pose proof Hj as Hj'. rewrite Hp in Hj'.
    apply Hu in Hj' as ->. cbn [mbind option_bind]. rewrite drop_app_length. rewrite Hi, <-Hp in Hj. f_equal.
    assert (env_prefix k ++ v = env_prefix k ++ w) as Hvw by congruence. by apply app_inv_head in Hvw as ->.
  - apply list_find_None in E. rewrite Forall_lookup in E. destruct (E i _ Hi). rewrite <-Hp. by apply prefix_app_r.
Qed.

Definition demo_cargo : Cargo := {| rustc_env := first_env; rustc_env_set := first_env_set |}.

Definition demo_build : BuildEnv :=
  mkBuildEnv (Some (bstr "/src/target/kernel")) (Some (bstr "/src/target/out")) (λ _ _ _, true).

Lemma launches_built_image_witness :
  ∃ b bios uefi, build_main demo_build = Ret b ∧ @compiled_images demo_cargo (directives b) = Some (bios, uefi) ∧
    uefi = bstr "/src/target/out/axiom-uefi.img".
Proof.
  destruct (@launches_built_image demo_cargo demo_build _ [bstr "boot"; bstr "uefi"] eq_refl)
    as (kernel & bios & uefi & _ & _ & Hu & _).
  eexists _, bios, uefi. split; [reflexivity|]. split; [exact Hu|]. vm_compute in Hu. by injection Hu as <- <-.
Defined.
